(** * SVInt: four-state arbitrary-precision integers (source/numeric/SVInt.cpp)

    A shallow embedding of the numeric kernel.  Storage is modelled the way
    the C++ keeps it: a record with the width, the two flags and a payload
    that is either the inline 64-bit word [val] or the heap buffer [pVal]
    (value-plane words followed, when [unknownFlag] is set, by as many
    unknown-plane words).  Machine integers are [Z] with the wrap-around
    written out.  Everything that can throw [std::invalid_argument] or run
    into undefined behaviour lives in the [result] monad below. *)

From Stdlib Require Import String Ascii ZArith List Bool Lia.
Import ListNotations.
Local Open Scope Z_scope.

(** ** Outcomes of a call *)

Inductive result (A : Type) : Type :=
| Ok (a : A)
| Invalid   (* std::invalid_argument was thrown *)
| Fault.    (* undefined behaviour: out-of-bounds access, the wrong union
               member, a failed ASSERT, value() on an empty optional *)
Arguments Ok {A} a.
Arguments Invalid {A}.
Arguments Fault {A}.

Definition bind {A B : Type} (c : result A) (k : A -> result B) : result B :=
  match c with
  | Ok a => k a
  | Invalid => Invalid
  | Fault => Fault
  end.

Notation "x <- c ;; k" := (bind c (fun x => k))
  (at level 61, c at next level, right associativity).
Notation "' pat <- c ;; k" := (bind c (fun x => match x with pat => k end))
  (at level 61, pat pattern, c at next level, right associativity).

(** [for (i = lo; n iterations; i++) body]: the loops over word indices. *)
Fixpoint for_loop {S : Type} (n : nat) (i : Z) (body : Z -> S -> result S) (s : S)
  : result S :=
  match n with
  | O => Ok s
  | Datatypes.S n' => s' <- body i s ;; for_loop n' (i + 1) body s'
  end.

Definition for_range {S : Type} (lo hi : Z) (body : Z -> S -> result S) (s : S)
  : result S :=
  for_loop (Z.to_nat (hi - lo)) lo body s.

(** ** Machine words *)

Definition BITS_PER_WORD : Z := 64.
Definition WORD_SIZE : Z := 8.
Definition UINT64_MAX : Z := 18446744073709551615.
Definition UINT32_MAX : Z := 4294967295.
(** Modelled from the spec: SVInt.h is not among the sources; the spec gives
    MAX_BITS as the largest value of a 24-bit size specifier. *)
Definition MAX_BITS : Z := 16777215.

Definition u64 (z : Z) : Z := z mod 2 ^ 64.
Definition u32 (z : Z) : Z := z mod 2 ^ 32.
Definition u8 (z : Z) : Z := z mod 2 ^ 8.
(** [~w] on a uint64_t *)
Definition not64 (w : Z) : Z := Z.lxor (u64 w) UINT64_MAX.
(** [w << k] and [w >> k] on a uint64_t, for 0 <= k < 64 *)
Definition shl64 (w k : Z) : Z := u64 (Z.shiftl w k).
Definition shr64 (w k : Z) : Z := Z.shiftr (u64 w) k.
(** [(int64_t)w] *)
Definition to_int64 (w : Z) : Z := if u64 w <? 2 ^ 63 then u64 w else u64 w - 2 ^ 64.

(** Reads and writes of a word array; outside the array they are undefined. *)
Definition rd (p : list Z) (i : Z) : result Z :=
  if i <? 0 then Fault
  else match nth_error p (Z.to_nat i) with
       | Some w => Ok w
       | None => Fault
       end.

Fixpoint upd (p : list Z) (n : nat) (w : Z) : list Z :=
  match p, n with
  | [], _ => []
  | _ :: t, O => w :: t
  | h :: t, Datatypes.S n' => h :: upd t n' w
  end.

Definition wr (p : list Z) (i : Z) (w : Z) : result (list Z) :=
  if (i <? 0) || (Z.of_nat (length p) <=? i) then Fault
  else Ok (upd p (Z.to_nat i) w).

(** ** logic_t *)

(** Modelled from the spec: SVInt.h is not among the sources.  A [logic_t]
    wraps one byte; it holds 0 or 1, a digit value while parsing, or one of
    the two markers for X and Z. *)
Record logic_t : Type := mkLogic { value : Z }.

Definition X_VALUE : Z := 128.
Definition Z_VALUE : Z := 64.
Definition logic_x : logic_t := mkLogic X_VALUE.
Definition logic_z : logic_t := mkLogic Z_VALUE.
Definition logic_of_bool (b : bool) : logic_t := mkLogic (if b then 1 else 0).

Definition isUnknownL (l : logic_t) : bool :=
  (value l =? X_VALUE) || (value l =? Z_VALUE).
(** [(bool)l] *)
Definition logic_to_bool (l : logic_t) : bool :=
  negb (isUnknownL l) && negb (value l =? 0).
(** [!l] *)
Definition logic_not (l : logic_t) : logic_t :=
  if isUnknownL l then logic_x else logic_of_bool (value l =? 0).
(** [exactlyEqual(logic_t, logic_t)] *)
Definition exactlyEqualL (a b : logic_t) : bool := value a =? value b.

(** ** Storage *)

Inductive storage : Type :=
| Inline (val : Z)
| Heap (pVal : list Z).

Record SVInt : Type := mkSVInt {
  bitWidth : Z;
  signFlag : bool;
  unknownFlag : bool;
  store : storage
}.

Definition getNumWords2 (bits : Z) (unknown : bool) : Z :=
  let v := (bits + BITS_PER_WORD - 1) / BITS_PER_WORD in
  if unknown then v * 2 else v.

Definition isSingleWord (x : SVInt) : bool :=
  (bitWidth x <=? BITS_PER_WORD) && negb (unknownFlag x).
Definition getNumWords (x : SVInt) : Z := getNumWords2 (bitWidth x) (unknownFlag x).
Definition hasUnknown (x : SVInt) : bool := unknownFlag x.
Definition whichWord (bitIndex : Z) : Z := bitIndex / BITS_PER_WORD.
Definition whichBit (bitIndex : Z) : Z := bitIndex mod BITS_PER_WORD.
Definition maskBit (bitIndex : Z) : Z := Z.shiftl 1 (whichBit bitIndex).

(** The union member [val]; on a heap value the same bytes hold the pointer. *)
Definition get_val (x : SVInt) : result Z :=
  match store x with
  | Inline v => Ok v
  | Heap _ => Fault
  end.

(** The union member [pVal]; on an inline value it is not a pointer. *)
Definition get_pVal (x : SVInt) : result (list Z) :=
  match store x with
  | Inline _ => Fault
  | Heap p => Ok p
  end.

Definition set_val (x : SVInt) (v : Z) : SVInt :=
  mkSVInt (bitWidth x) (signFlag x) (unknownFlag x) (Inline v).
Definition set_pVal (x : SVInt) (p : list Z) : SVInt :=
  mkSVInt (bitWidth x) (signFlag x) (unknownFlag x) (Heap p).

(** [getRawData()]: [isSingleWord() ? &val : pVal] *)
Definition getRawData (x : SVInt) : result (list Z) :=
  if isSingleWord x then v <- get_val x ;; Ok [v] else get_pVal x.

Definition setRawData (x : SVInt) (p : list Z) : result SVInt :=
  if isSingleWord x then
    match p with
    | [v] => Ok (set_val x v)
    | _ => Fault
    end
  else Ok (set_pVal x p).

Section Heap.

(** What a freshly allocated, uninitialised word holds. *)
Variable junk : Z -> Z.

Definition new_uninit (n : Z) : list Z := map (fun i => junk (Z.of_nat i)) (seq 0 (Z.to_nat n)).
Definition new_zeroed (n : Z) : list Z := repeat 0 (Z.to_nat n).

Definition allocUninitialized (bits : Z) (sign unknown : bool) : result SVInt :=
  if (64 <? bits) || unknown then
    Ok (mkSVInt bits sign unknown (Heap (new_uninit (getNumWords2 bits unknown))))
  else Fault.

Definition allocZeroed (bits : Z) (sign unknown : bool) : result SVInt :=
  if (64 <? bits) || unknown then
    Ok (mkSVInt bits sign unknown (Heap (new_zeroed (getNumWords2 bits unknown))))
  else Fault.

Definition clearUnusedBits (x : SVInt) : result SVInt :=
  let wordBits := bitWidth x mod BITS_PER_WORD in
  if wordBits =? 0 then Ok x
  else
    let mask := shr64 UINT64_MAX (BITS_PER_WORD - wordBits) in
    if isSingleWord x then
      v <- get_val x ;; Ok (set_val x (Z.land v mask))
    else
      p <- get_pVal x ;;
      w <- rd p (getNumWords x - 1) ;;
      p <- wr p (getNumWords x - 1) (Z.land w mask) ;;
      if unknownFlag x then
        w <- rd p (getNumWords2 (bitWidth x) false - 1) ;;
        p <- wr p (getNumWords2 (bitWidth x) false - 1) (Z.land w mask) ;;
        Ok (set_pVal x p)
      else Ok (set_pVal x p).

(** [initSlowCase(uint64_t)] *)
Definition initSlowCase_u64 (bits : Z) (sign unknown : bool) (v : Z) : result SVInt :=
  let words := getNumWords2 bits unknown in
  p <- wr (new_zeroed words) 0 v ;;
  p <- (if sign && (to_int64 v <? 0) then
          for_range 1 words (fun i p => wr p i UINT64_MAX) p
        else Ok p) ;;
  Ok (mkSVInt bits sign unknown (Heap p)).

(** Modelled from the spec: the constructor [(width, u64, signed)] is declared
    in SVInt.h, which is not among the sources; it stores the word inline or
    through [initSlowCase] and clears the unused bits. *)
Definition SVInt_ctor (bits : Z) (v : Z) (isSigned : bool) : result SVInt :=
  let x := mkSVInt bits isSigned false (Inline (u64 v)) in
  if isSingleWord x then clearUnusedBits x
  else x <- initSlowCase_u64 bits isSigned false (u64 v) ;; clearUnusedBits x.

(** [memset(pVal, 0, words * WORD_SIZE)] *)
Definition zero_words (p : list Z) (words : Z) : result (list Z) :=
  for_range 0 words (fun i p => wr p i 0) p.

Definition setAllX (x : SVInt) : result SVInt :=
  let words := getNumWords2 (bitWidth x) false in
  x <- (if unknownFlag x then
          p <- get_pVal x ;; p <- zero_words p words ;; Ok (set_pVal x p)
        else
          Ok (mkSVInt (bitWidth x) (signFlag x) true (Heap (new_zeroed (words * 2))))) ;;
  p <- get_pVal x ;;
  p <- for_range words (words * 2) (fun i p => wr p i UINT64_MAX) p ;;
  clearUnusedBits (set_pVal x p).

Definition setAllZ (x : SVInt) : result SVInt :=
  let x := (if unknownFlag x then x
            else mkSVInt (bitWidth x) (signFlag x) true
                   (Heap (new_uninit (getNumWords2 (bitWidth x) true)))) in
  p <- get_pVal x ;;
  p <- for_range 0 (getNumWords x) (fun i p => wr p i UINT64_MAX) p ;;
  clearUnusedBits (set_pVal x p).

Definition createFillX (bits : Z) (isSigned : bool) : result SVInt :=
  r <- allocUninitialized bits isSigned true ;; setAllX r.

Definition createFillZ (bits : Z) (isSigned : bool) : result SVInt :=
  r <- allocUninitialized bits isSigned true ;; setAllZ r.


(** ** Word-level helpers

    SVIntHelpers.h is not among the sources.  The helpers the kernel calls
    are modelled on the little-endian number a run of words stands for. *)

Fixpoint words_to_Z (ws : list Z) : Z :=
  match ws with
  | [] => 0
  | w :: t => u64 w + 2 ^ 64 * words_to_Z t
  end.

Fixpoint Z_to_words (n : nat) (z : Z) : list Z :=
  match n with
  | O => []
  | Datatypes.S n' => u64 z :: Z_to_words n' (Z.shiftr z 64)
  end.

(** [p + off], [len] words long *)
Definition slice (p : list Z) (off len : Z) : result (list Z) :=
  if (off <? 0) || (len <? 0) || (Z.of_nat (length p) <? off + len) then Fault
  else Ok (firstn (Z.to_nat len) (skipn (Z.to_nat off) p)).

(** [memcpy(p + off, ws, ...)] *)
Definition blit (p : list Z) (off : Z) (ws : list Z) : result (list Z) :=
  if (off <? 0) || (Z.of_nat (length p) <? off + Z.of_nat (length ws)) then Fault
  else Ok (firstn (Z.to_nat off) p ++ ws ++ skipn (Z.to_nat off + length ws) p).

(** Modelled from the spec: [countLeadingZeros64] (SVIntHelpers.h), the
    count-leading-zeros bit primitive on one word. *)
Definition countLeadingZeros64 (w : Z) : Z :=
  if u64 w =? 0 then 64 else 63 - Z.log2 (u64 w).

(** Modelled from the spec: [countLeadingOnes64] (SVIntHelpers.h). *)
Definition countLeadingOnes64 (w : Z) : Z := countLeadingZeros64 (not64 w).

(** Modelled from the spec: [shlFar] (SVIntHelpers.h), the far left shift:
    the [numWords] words of [src] from [start] on, taken as one number and
    shifted left by [offset] whole words and [wordShift] bits, are written to
    the same positions of [dst]. *)
Definition shlFar (dst src : list Z) (wordShift offset start numWords : Z)
  : result (list Z) :=
  s <- slice src start numWords ;;
  blit dst start
    (Z_to_words (Z.to_nat numWords)
       (Z.shiftl (words_to_Z s) (offset * BITS_PER_WORD + wordShift))).

(** Modelled from the spec: [lshrFar] (SVIntHelpers.h), the far logical
    right shift, the mirror image of [shlFar]. *)
Definition lshrFar (dst src : list Z) (wordShift offset start numWords : Z)
  : result (list Z) :=
  s <- slice src start numWords ;;
  blit dst start
    (Z_to_words (Z.to_nat numWords)
       (Z.shiftr (words_to_Z s) (offset * BITS_PER_WORD + wordShift))).

(** Modelled from the spec: [lshrNear] (SVIntHelpers.h), the narrow logical
    right shift by fewer than 64 bits over [words] words. *)
Definition lshrNear (dst src : list Z) (words amount : Z) : result (list Z) :=
  s <- slice src 0 words ;;
  blit dst 0 (Z_to_words (Z.to_nat words) (Z.shiftr (words_to_Z s) amount)).

(** Modelled from the spec: [signExtendCopy] (SVIntHelpers.h): the copy of
    [oldWords] words in which the top bit of the [oldBits]-bit number is
    replicated through every higher bit of the [newWords] output words. *)
Definition signExtendCopy (src : list Z) (oldBits oldWords newWords : Z)
  : result (list Z) :=
  s <- slice src 0 oldWords ;;
  let v := words_to_Z s mod 2 ^ oldBits in
  let sv := if Z.testbit v (oldBits - 1) then v - 2 ^ oldBits else v in
  Ok (Z_to_words (Z.to_nat newWords) sv).

(** Modelled from the spec: [addGeneral] and [subGeneral] (SVIntHelpers.h),
    multi-word addition and subtraction with carry over [len] words. *)
Definition addGeneral (x y : list Z) (len : Z) : result (list Z) :=
  a <- slice x 0 len ;;
  b <- slice y 0 len ;;
  Ok (Z_to_words (Z.to_nat len) (words_to_Z a + words_to_Z b)).

Definition subGeneral (x y : list Z) (len : Z) : result (list Z) :=
  a <- slice x 0 len ;;
  b <- slice y 0 len ;;
  Ok (Z_to_words (Z.to_nat len) (words_to_Z a - words_to_Z b)).

(** Modelled from the spec: [mul] (SVIntHelpers.h), schoolbook multiplication
    in 64-bit lanes into a buffer of [xlen + ylen] words. *)
Definition mul (x : list Z) (xlen : Z) (y : list Z) (ylen : Z) : result (list Z) :=
  a <- slice x 0 xlen ;;
  b <- slice y 0 ylen ;;
  Ok (Z_to_words (Z.to_nat (xlen + ylen)) (words_to_Z a * words_to_Z b)).

(** ** Counting *)

Definition getTopWordMask (x : SVInt) : Z * Z :=
  let bitsInMsw := bitWidth x mod BITS_PER_WORD in
  if negb (bitsInMsw =? 0) then (bitsInMsw, shl64 1 bitsInMsw - 1)
  else (BITS_PER_WORD, UINT64_MAX).

(** The loop of [countLeadingZerosSlowCase]: [for (--i; i > 0; --i)]. *)
Fixpoint clz_words (p : list Z) (i : nat) (count : Z) : result Z :=
  match i with
  | O => Ok count
  | Datatypes.S i' =>
      w <- rd p (Z.of_nat i') ;;
      if w =? 0 then clz_words p i' (count + BITS_PER_WORD)
      else Ok (count + countLeadingZeros64 w)
  end.

Definition countLeadingZerosSlowCase (x : SVInt) : result Z :=
  let '(bitsInMsw, mask) := getTopWordMask x in
  let i := getNumWords x in
  p <- get_pVal x ;;
  w <- rd p (i - 1) ;;
  let part := Z.land w mask in
  if negb (part =? 0) then
    Ok (countLeadingZeros64 part - (BITS_PER_WORD - bitsInMsw))
  else clz_words p (Z.to_nat (i - 1)) bitsInMsw.

(** Modelled from the spec: the inline members [countLeadingZeros] and
    [getActiveBits] of SVInt.h (not among the sources); active bits are
    1 + the index of the highest set bit, or 0. *)
Definition countLeadingZeros (x : SVInt) : result Z :=
  if isSingleWord x then
    v <- get_val x ;; Ok (countLeadingZeros64 v - (BITS_PER_WORD - bitWidth x))
  else countLeadingZerosSlowCase x.

Definition getActiveBits (x : SVInt) : result Z :=
  c <- countLeadingZeros x ;; Ok (bitWidth x - c).

(** The loop of [countLeadingOnesSlowCase]: [for (i--; i >= 0; i--)]. *)
Fixpoint clo_words (p : list Z) (i : nat) (count : Z) : result Z :=
  match i with
  | O => Ok count
  | Datatypes.S i' =>
      w <- rd p (Z.of_nat i') ;;
      if w =? UINT64_MAX then clo_words p i' (count + BITS_PER_WORD)
      else Ok (count + countLeadingOnes64 w)
  end.

Definition countLeadingOnesSlowCase (x : SVInt) : result Z :=
  let bitsInMsw0 := bitWidth x mod BITS_PER_WORD in
  let bitsInMsw := if bitsInMsw0 =? 0 then BITS_PER_WORD else bitsInMsw0 in
  let shift := if bitsInMsw0 =? 0 then 0 else BITS_PER_WORD - bitsInMsw0 in
  let i := getNumWords x - 1 in
  p <- get_pVal x ;;
  w <- rd p i ;;
  let count := countLeadingOnes64 (shl64 w shift) in
  if count =? bitsInMsw then clo_words p (Z.to_nat i) count
  else Ok count.

(** Modelled from the spec: the inline member [countLeadingOnes] of SVInt.h. *)
Definition countLeadingOnes (x : SVInt) : result Z :=
  if isSingleWord x then
    v <- get_val x ;;
    Ok (countLeadingOnes64 (shl64 v (BITS_PER_WORD - bitWidth x)))
  else countLeadingOnesSlowCase x.

Definition checkUnknown (x : SVInt) : result SVInt :=
  if negb (unknownFlag x) then Ok x
  else
    c <- countLeadingZeros x ;;
    if c <? bitWidth x then Ok x
    else
      let words := getNumWords2 (bitWidth x) false in
      p <- get_pVal x ;;
      if words =? 1 then
        newVal <- rd p 0 ;;
        Ok (mkSVInt (bitWidth x) (signFlag x) false (Inline newVal))
      else
        newMem <- slice p 0 words ;;
        Ok (mkSVInt (bitWidth x) (signFlag x) false (Heap newMem)).

(** ** Indexing and sign *)

(** [operator[](int32_t)] *)
Definition index_int (x : SVInt) (index : Z) : result logic_t :=
  let bi := u32 index in
  if (index <? 0) || (bitWidth x <=? bi) then Ok logic_x
  else
    w <- (if isSingleWord x then get_val x
          else p <- get_pVal x ;; rd p (whichWord bi)) ;;
    let bit := negb (Z.land (maskBit bi) w =? 0) in
    if negb (unknownFlag x) then Ok (logic_of_bool bit)
    else
      p <- get_pVal x ;;
      u <- rd p (whichWord bi + getNumWords2 (bitWidth x) false) ;;
      let unknownBit := negb (Z.land (maskBit bi) u =? 0) in
      if negb unknownBit then Ok (logic_of_bool bit)
      else Ok (if bit then logic_z else logic_x).

(** Modelled from the spec: the inline members [isNegative] and [isOdd] of
    SVInt.h (not among the sources): the top bit, and the lowest bit. *)
Definition isNegative (x : SVInt) : result bool :=
  l <- index_int x (bitWidth x - 1) ;; Ok (logic_to_bool l).

Definition isOdd (x : SVInt) : result bool :=
  p <- getRawData x ;; w <- rd p 0 ;; Ok (Z.odd w).

(** Modelled from the spec: [getMinRepresentedBits] of SVInt.h, the bits a
    narrowing conversion has to keep. *)
Definition getMinRepresentedBits (x : SVInt) : result Z :=
  if negb (signFlag x) then getActiveBits x
  else
    n <- isNegative x ;;
    if n then c <- countLeadingOnes x ;; Ok (bitWidth x - c + 1)
    else a <- getActiveBits x ;; Ok (a + 1).

(** Modelled from the spec: [as<IntT>()] of SVInt.h, the narrowing
    conversion with overflow check: no result for a value with unknown bits
    or one that needs more bits than the target has; otherwise the low word,
    sign-extended when the value is signed and negative, cast to the target
    ([tbits] wide, [tsigned]). *)
Definition as_int (tbits : Z) (tsigned : bool) (x : SVInt) : result (option Z) :=
  if unknownFlag x then Ok None
  else
    bits <- getMinRepresentedBits x ;;
    if tbits <? bits then Ok None
    else
      p <- getRawData x ;;
      w <- rd p 0 ;;
      n <- isNegative x ;;
      let word :=
        if signFlag x && n then
          let wordBits := bitWidth x mod BITS_PER_WORD in
          if 0 <? wordBits then Z.lor w (shl64 UINT64_MAX wordBits) else w
        else w in
      let t := word mod 2 ^ tbits in
      Ok (Some (if tsigned && (2 ^ (tbits - 1) <=? t) then t - 2 ^ tbits else t)).

(** [operator[](const SVInt&)] *)
Definition index_sv (x index : SVInt) : result logic_t :=
  v <- as_int 32 true index ;;
  match v with
  | None => Ok logic_x
  | Some i => index_int x i
  end.

(** ** Extension *)

Definition signExtend (v : SVInt) (bits : Z) : result SVInt :=
  if negb (bitWidth v <? bits) then Fault
  else if (bits <=? BITS_PER_WORD) && negb (unknownFlag v) then
    w <- get_val v ;;
    let newVal := shl64 w (BITS_PER_WORD - bitWidth v) in
    let newVal := u64 (Z.shiftr (to_int64 newVal) (bits - bitWidth v)) in
    SVInt_ctor bits (shr64 newVal (BITS_PER_WORD - bits)) (signFlag v)
  else
    r <- allocUninitialized bits (signFlag v) (unknownFlag v) ;;
    let oldWords := getNumWords2 (bitWidth v) false in
    let newWords := getNumWords2 bits false in
    src <- getRawData v ;;
    e <- signExtendCopy src (bitWidth v) oldWords newWords ;;
    p <- get_pVal r ;;
    p <- blit p 0 e ;;
    p <- (if unknownFlag v then
            vp <- get_pVal v ;;
            us <- slice vp oldWords oldWords ;;
            e <- signExtendCopy us (bitWidth v) oldWords newWords ;;
            blit p newWords e
          else Ok p) ;;
    clearUnusedBits (set_pVal r p).

Definition zeroExtend (v : SVInt) (bits : Z) : result SVInt :=
  if negb (bitWidth v <? bits) then Fault
  else if (bits <=? BITS_PER_WORD) && negb (unknownFlag v) then
    w <- get_val v ;; SVInt_ctor bits w (signFlag v)
  else
    let p := new_zeroed (getNumWords2 bits (unknownFlag v)) in
    let valueWords := getNumWords2 (bitWidth v) false in
    src <- getRawData v ;;
    p <- for_range 0 valueWords (fun i p => w <- rd src i ;; wr p i w) p ;;
    p <- (if unknownFlag v then
            let newWords := getNumWords2 bits false in
            for_range 0 valueWords
              (fun i p => w <- rd src (i + valueWords) ;; wr p (i + newWords) w) p
          else Ok p) ;;
    Ok (mkSVInt bits (signFlag v) (unknownFlag v) (Heap p)).

Definition extend (v : SVInt) (bits : Z) (sign : bool) : result SVInt :=
  if sign then signExtend v bits else zeroExtend v bits.

(** ** Equality and ordering *)

(** Modelled from the spec: the converting constructor from a machine
    integer (SVInt.h, not among the sources) keeps only the bits the value
    needs, one more when the integer type is signed. *)
Definition SVInt_of_int (v : Z) (isSigned : bool) : result SVInt :=
  let n := if v =? 0 then 0 else Z.log2 v + 1 in
  let bits := if isSigned then n + 1 else Z.max n 1 in
  SVInt_ctor bits v isSigned.

(** [equalsSlowCase]; the recursion on a sign-extended operand is one deep. *)
Fixpoint equalsSlowCase_rec (fuel : nat) (a b : SVInt) : result logic_t :=
  match fuel with
  | O => Fault
  | Datatypes.S fuel' =>
      if unknownFlag a || unknownFlag b then Ok logic_x
      else if negb (bitWidth a =? bitWidth b) && (signFlag a && signFlag b) then
        if bitWidth a <? bitWidth b then
          e <- signExtend a (bitWidth b) ;; equalsSlowCase_rec fuel' e b
        else
          e <- signExtend b (bitWidth a) ;; equalsSlowCase_rec fuel' e a
      else
        let lval := if negb (bitWidth a =? bitWidth b) && isSingleWord a
                    then v <- get_val a ;; Ok [v] else get_pVal a in
        let rval := if negb (bitWidth a =? bitWidth b) && isSingleWord b
                    then v <- get_val b ;; Ok [v] else get_pVal b in
        a1 <- getActiveBits a ;;
        a2 <- getActiveBits b ;;
        if negb (a1 =? a2) then Ok (logic_of_bool false)
        else if a1 =? 0 then Ok (logic_of_bool true)
        else
          let limit := whichWord (u32 (a1 - 1)) in
          lp <- lval ;;
          rp <- rval ;;
          r <- for_range 0 (limit + 1)
                 (fun i (acc : bool) =>
                    if acc then
                      l <- rd lp i ;; r <- rd rp i ;; Ok (l =? r)
                    else Ok false) true ;;
          Ok (logic_of_bool r)
  end.

Definition equalsSlowCase (a b : SVInt) : result logic_t := equalsSlowCase_rec 2 a b.

(** Modelled from the spec: [operator==] and [operator!=] of SVInt.h (not
    among the sources): two inline words are compared directly, everything
    else goes through [equalsSlowCase]. *)
Definition eq_sv (a b : SVInt) : result logic_t :=
  if isSingleWord a && isSingleWord b then
    x <- get_val a ;; y <- get_val b ;; Ok (logic_of_bool (x =? y))
  else equalsSlowCase a b.

Definition ne_sv (a b : SVInt) : result logic_t :=
  r <- eq_sv a b ;; Ok (logic_not r).

Definition eq_int (a : SVInt) (v : Z) : result logic_t :=
  l <- SVInt_of_int v true ;; eq_sv a l.

Definition ne_int (a : SVInt) (v : Z) : result logic_t :=
  l <- SVInt_of_int v true ;; ne_sv a l.

(** [reductionOr] *)
Definition reductionOr (x : SVInt) : result logic_t :=
  if unknownFlag x then Ok logic_x
  else if isSingleWord x then
    v <- get_val x ;; Ok (logic_of_bool (negb (v =? 0)))
  else
    p <- get_pVal x ;;
    r <- for_range 0 (getNumWords x)
           (fun i (acc : bool) =>
              if acc then Ok true else w <- rd p i ;; Ok (negb (w =? 0))) false ;;
    Ok (logic_of_bool r).

(** ** Arithmetic *)

(** The width unification every binary operator opens with: the narrower
    operand is extended to the width of the wider one. *)
Definition unify (a b : SVInt) (sign : bool) : result (SVInt * SVInt) :=
  if bitWidth a =? bitWidth b then Ok (a, b)
  else if bitWidth a <? bitWidth b then
    e <- extend a (bitWidth b) sign ;; Ok (e, b)
  else
    e <- extend b (bitWidth a) sign ;; Ok (a, e).

(** [operator+=] *)
Definition add_assign (this rhs : SVInt) : result SVInt :=
  '(this, rhs) <- unify this rhs (signFlag this && signFlag rhs) ;;
  if unknownFlag this || unknownFlag rhs then setAllX this
  else if isSingleWord this then
    a <- get_val this ;; b <- get_val rhs ;;
    clearUnusedBits (set_val this (u64 (a + b)))
  else
    p <- get_pVal this ;; q <- get_pVal rhs ;;
    r <- addGeneral p q (getNumWords this) ;;
    p <- blit p 0 r ;;
    clearUnusedBits (set_pVal this p).

(** [operator-=] *)
Definition sub_assign (this rhs : SVInt) : result SVInt :=
  '(this, rhs) <- unify this rhs (signFlag this && signFlag rhs) ;;
  if unknownFlag this || unknownFlag rhs then setAllX this
  else if isSingleWord this then
    a <- get_val this ;; b <- get_val rhs ;;
    clearUnusedBits (set_val this (u64 (a - b)))
  else
    p <- get_pVal this ;; q <- get_pVal rhs ;;
    r <- subGeneral p q (getNumWords this) ;;
    p <- blit p 0 r ;;
    clearUnusedBits (set_pVal this p).

Definition setAllZeros (x : SVInt) : result SVInt :=
  if isSingleWord x then Ok (set_val x 0)
  else if unknownFlag x then SVInt_ctor (bitWidth x) 0 (signFlag x)
  else p <- get_pVal x ;; p <- zero_words p (getNumWords x) ;; Ok (set_pVal x p).

(** [!bits ? 0 : whichWord(bits - 1) + 1] *)
Definition activeWords (bits : Z) : Z :=
  if bits =? 0 then 0 else whichWord (bits - 1) + 1.

(** [operator*=] *)
Definition mul_assign (this rhs : SVInt) : result SVInt :=
  '(this, rhs) <- unify this rhs (signFlag this && signFlag rhs) ;;
  if unknownFlag this || unknownFlag rhs then setAllX this
  else if isSingleWord this then
    a <- get_val this ;; b <- get_val rhs ;;
    clearUnusedBits (set_val this (u64 (a * b)))
  else
    lhsBits <- getActiveBits this ;;
    let lhsWords := activeWords lhsBits in
    if lhsWords =? 0 then Ok this
    else
      rhsBits <- getActiveBits rhs ;;
      let rhsWords := activeWords rhsBits in
      if rhsWords =? 0 then setAllZeros this
      else
        let destWords := lhsWords + rhsWords in
        p <- get_pVal this ;; q <- get_pVal rhs ;;
        dst <- mul p lhsWords q rhsWords ;;
        this <- setAllZeros this ;;
        let wordsToCopy :=
          if getNumWords this <=? destWords then getNumWords this else destWords in
        p <- get_pVal this ;;
        c <- slice dst 0 wordsToCopy ;;
        p <- blit p 0 c ;;
        clearUnusedBits (set_pVal this p).

(** [operator+], [operator-], [operator*]: a copy of the left operand,
    then the compound assignment. *)
Definition add (a b : SVInt) : result SVInt := add_assign a b.
Definition sub (a b : SVInt) : result SVInt := sub_assign a b.
Definition mult (a b : SVInt) : result SVInt := mul_assign a b.

(** unary [operator-] *)
Definition neg (x : SVInt) : result SVInt :=
  if unknownFlag x then createFillX (bitWidth x) (signFlag x)
  else z <- SVInt_ctor (bitWidth x) 0 (signFlag x) ;; sub z x.

(** ** Bitwise AND *)

(** [operator&=] *)
Definition and_assign (this rhs : SVInt) : result SVInt :=
  '(this, rhs) <- unify this rhs (signFlag this && signFlag rhs) ;;
  this <-
    (if isSingleWord this then
       a <- get_val this ;; b <- get_val rhs ;; Ok (set_val this (Z.land a b))
     else
       let words := getNumWords2 (bitWidth this) false in
       p <- get_pVal this ;;
       q <- get_pVal rhs ;;
       if unknownFlag this then
         p <- for_range 0 words
                (fun i p =>
                   ua <- rd p (i + words) ;; ub <- rd q (i + words) ;;
                   va <- rd p i ;; vb <- rd q i ;;
                   wr p (i + words)
                      (Z.land (Z.land (Z.lor ua ub) (Z.lor ua va)) (Z.lor ub vb))) p ;;
         p <- for_range 0 words
                (fun i p =>
                   ur <- rd p (i + words) ;; va <- rd p i ;; vb <- rd q i ;;
                   wr p i (Z.land (Z.land (not64 ur) va) vb)) p ;;
         Ok (set_pVal this p)
       else
         p <- for_range 0 words
                (fun i p => va <- rd p i ;; vb <- rd q i ;; wr p i (Z.land va vb)) p ;;
         Ok (set_pVal this p)) ;;
  clearUnusedBits this.

Definition and_sv (a b : SVInt) : result SVInt := and_assign a b.

(** ** exactlyEqual and the conditional operator *)

Fixpoint exactlyEqual_rec (fuel : nat) (lhs rhs : SVInt) : result bool :=
  match fuel with
  | O => Fault
  | Datatypes.S fuel' =>
      if negb (unknownFlag lhs) && negb (unknownFlag rhs) then
        r <- eq_sv lhs rhs ;; Ok (logic_to_bool r)
      else if negb (unknownFlag lhs) || negb (unknownFlag rhs) then Ok false
      else if negb (bitWidth lhs =? bitWidth rhs) then
        let bothSigned := signFlag lhs && signFlag rhs in
        if bitWidth lhs <? bitWidth rhs then
          e <- extend lhs (bitWidth rhs) bothSigned ;; exactlyEqual_rec fuel' e rhs
        else
          e <- extend rhs (bitWidth lhs) bothSigned ;; exactlyEqual_rec fuel' lhs e
      else
        p <- get_pVal lhs ;; q <- get_pVal rhs ;;
        a <- slice p 0 (getNumWords lhs) ;;
        b <- slice q 0 (getNumWords lhs) ;;
        Ok (if list_eq_dec Z.eq_dec a b then true else false)
  end.

Definition exactlyEqual (lhs rhs : SVInt) : result bool := exactlyEqual_rec 2 lhs rhs.

(** [conditional(condition, lhs, rhs)].  The conversion of the condition to
    a [logic_t] is declared in SVInt.h (not among the sources); it is taken
    to be the reduction of the condition to a single four-state bit. *)
Definition conditional (condition lhs rhs : SVInt) : result SVInt :=
  let bothSigned := signFlag lhs && signFlag rhs in
  '(lhs, rhs) <- unify lhs rhs bothSigned ;;
  c <- reductionOr condition ;;
  if negb (isUnknownL c) then Ok (if logic_to_bool c then lhs else rhs)
  else
    e <- exactlyEqual lhs rhs ;;
    if e then Ok rhs
    else
      result <- allocUninitialized (bitWidth lhs) bothSigned true ;;
      let words := getNumWords2 (bitWidth lhs) false in
      lp <- getRawData lhs ;;
      rp <- getRawData rhs ;;
      p <- get_pVal result ;;
      p <- for_range 0 words
             (fun i p =>
                lu <- (if unknownFlag lhs then rd lp (i + words) else Ok 0) ;;
                ru <- (if unknownFlag rhs then rd rp (i + words) else Ok 0) ;;
                l <- rd lp i ;; r <- rd rp i ;;
                let u := Z.lor (Z.lor lu ru) (Z.lxor l r) in
                p <- wr p (i + words) u ;;
                wr p i (Z.land (Z.land (not64 u) l) r)) p ;;
      clearUnusedBits (set_pVal result p).

(** ** Ordering *)

(** The word-wise compare of [operator<]: [for (int i = top; i >= 0; i--)]. *)
Fixpoint lt_words (p q : list Z) (n : nat) : result bool :=
  match n with
  | O => Ok false
  | Datatypes.S i =>
      a <- rd p (Z.of_nat i) ;;
      b <- rd q (Z.of_nat i) ;;
      if b <? a then Ok false
      else if a <? b then Ok true
      else lt_words p q i
  end.

(** [operator<].  The recursion (after a width extension, and on the negated
    operands when both are negative) is bounded by [fuel]; the call
    of the negated operands with [>] is the comparison with the operands swapped. *)
Fixpoint lt_rec (fuel : nat) (this rhs : SVInt) : result logic_t :=
  match fuel with
  | O => Fault
  | Datatypes.S fuel' =>
      if unknownFlag this || hasUnknown rhs then Ok logic_x
      else
        let bothSigned := signFlag this && signFlag rhs in
        if negb (bitWidth this =? bitWidth rhs) then
          if bitWidth this <? bitWidth rhs then
            e <- extend this (bitWidth rhs) bothSigned ;; lt_rec fuel' e rhs
          else
            e <- extend rhs (bitWidth this) bothSigned ;; lt_rec fuel' this e
        else
          tn <- (if bothSigned then isNegative this else Ok false) ;;
          rn <- (if bothSigned then isNegative rhs else Ok false) ;;
          if tn && rn then
            a <- neg this ;; b <- neg rhs ;; lt_rec fuel' b a
          else if tn then Ok (logic_of_bool true)
          else if rn then Ok (logic_of_bool false)
          else if isSingleWord this then
            a <- get_val this ;; b <- get_val rhs ;; Ok (logic_of_bool (a <? b))
          else
            a1 <- getActiveBits this ;;
            a2 <- getActiveBits rhs ;;
            if a1 <? a2 then Ok (logic_of_bool true)
            else if a2 <? a1 then Ok (logic_of_bool false)
            else
              let top := whichWord (u32 (a1 - 1)) in
              p <- get_pVal this ;; q <- get_pVal rhs ;;
              r <- lt_words p q (Z.to_nat (top + 1)) ;;
              Ok (logic_of_bool r)
  end.

Definition lt_fuel : nat := 4.
Definition lt_sv (a b : SVInt) : result logic_t := lt_rec lt_fuel a b.


(** ** Shifts *)

(** [shl(bitwidth_t)] *)
Definition shl_amount (x : SVInt) (amount : Z) : result SVInt :=
  if amount =? 0 then Ok x
  else if bitWidth x <=? amount then SVInt_ctor (bitWidth x) 0 (signFlag x)
  else if isSingleWord x then
    v <- get_val x ;; SVInt_ctor (bitWidth x) (shl64 v amount) (signFlag x)
  else
    result <- allocUninitialized (bitWidth x) (signFlag x) (unknownFlag x) ;;
    p <- get_pVal x ;;
    r <- get_pVal result ;;
    r <- (if (amount <? BITS_PER_WORD) && negb (unknownFlag x) then
            '(r, _) <- for_range 0 (getNumWords x)
                         (fun i '(r, carry) =>
                            w <- rd p i ;;
                            r <- wr r i (Z.lor (shl64 w amount) carry) ;;
                            Ok (r, shr64 w (BITS_PER_WORD - amount))) (r, 0) ;;
            Ok r
          else
            let numWords := getNumWords2 (bitWidth x) false in
            let wordShift := amount mod BITS_PER_WORD in
            let offset := amount / BITS_PER_WORD in
            r <- shlFar r p wordShift offset 0 numWords ;;
            if unknownFlag x then shlFar r p wordShift offset numWords numWords
            else Ok r) ;;
    result <- clearUnusedBits (set_pVal result r) ;;
    checkUnknown result.




(** [lshr(bitwidth_t)] *)
Definition lshr_amount (x : SVInt) (amount : Z) : result SVInt :=
  if amount =? 0 then Ok x
  else if bitWidth x <=? amount then SVInt_ctor (bitWidth x) 0 (signFlag x)
  else if isSingleWord x then
    v <- get_val x ;; SVInt_ctor (bitWidth x) (shr64 v amount) (signFlag x)
  else
    result <- allocZeroed (bitWidth x) (signFlag x) (unknownFlag x) ;;
    p <- get_pVal x ;;
    r <- get_pVal result ;;
    r <- (if (amount <? BITS_PER_WORD) && negb (unknownFlag x) then
            lshrNear r p (getNumWords x) amount
          else
            let numWords := getNumWords2 (bitWidth x) false in
            let wordShift := amount mod BITS_PER_WORD in
            let offset := amount / BITS_PER_WORD in
            r <- lshrFar r p wordShift offset 0 numWords ;;
            if unknownFlag x then lshrFar r p wordShift offset numWords numWords
            else Ok r) ;;
    checkUnknown (set_pVal result r).


(** ** Division *)

(** 32-bit half-words of the division scratch buffer. *)
Fixpoint halves_to_Z (ws : list Z) : Z :=
  match ws with
  | [] => 0
  | w :: t => u32 w + 2 ^ 32 * halves_to_Z t
  end.

Fixpoint Z_to_halves (n : nat) (z : Z) : list Z :=
  match n with
  | O => []
  | Datatypes.S n' => u32 z :: Z_to_halves n' (Z.shiftr z 32)
  end.

(** [splitWords]: the first [numWords] words of [value], two halves each,
    written to the front of [dest]. *)
Definition splitWords (value : SVInt) (dest : list Z) (numWords : Z) : result (list Z) :=
  p <- getRawData value ;;
  for_range 0 numWords
    (fun i d =>
       w <- rd p i ;;
       d <- wr d (i * 2) (u32 w) ;;
       wr d (i * 2 + 1) (u32 (shr64 w 32))) dest.

(** [for (i = n; i > 0 && p[i - 1] == 0; i--)]: how many times the body runs. *)
Fixpoint top_zeros (p : list Z) (i : nat) : result Z :=
  match i with
  | O => Ok 0
  | Datatypes.S i' =>
      w <- rd p (Z.of_nat i') ;;
      if w =? 0 then c <- top_zeros p i' ;; Ok (c + 1) else Ok 0
  end.

(** The single-divisor-word loop of [divide], from [i = n - 1] down to 0. *)
Fixpoint div_by_half (u : list Z) (divisor : Z) (n : nat) (q : list Z) (rem : Z)
  : result (list Z * Z) :=
  match n with
  | O => Ok (q, rem)
  | Datatypes.S i =>
      ui <- rd u (Z.of_nat i) ;;
      let partial_dividend := Z.lor (shl64 rem 32) ui in
      '(qi, rem) <-
        (if partial_dividend =? 0 then Ok (0, 0)
         else if partial_dividend <? divisor then Ok (0, u32 partial_dividend)
         else if partial_dividend =? divisor then Ok (1, 0)
         else if divisor =? 0 then Fault
         else
           let qi := u32 (partial_dividend / divisor) in
           Ok (qi, u32 (partial_dividend - u32 (qi * divisor)))) ;;
      q <- wr q (Z.of_nat i) qi ;;
      div_by_half u divisor i q rem
  end.

(** Modelled from the spec: [knuthDiv] (SVIntHelpers.h), Knuth's Algorithm D
    over 32-bit half-words: the [m + n] half-words of [u] divided by the [n]
    half-words of [v] give [m + 1] quotient and [n] remainder half-words. *)
Definition knuthDiv (u v : list Z) (m n : Z) : result (list Z * list Z) :=
  us <- slice u 0 (m + n) ;;
  vs <- slice v 0 n ;;
  if halves_to_Z vs =? 0 then Fault
  else Ok (Z_to_halves (Z.to_nat (m + 1)) (halves_to_Z us / halves_to_Z vs),
           Z_to_halves (Z.to_nat n) (halves_to_Z us mod halves_to_Z vs)).

(** [buildDivideResult] *)
Definition buildDivideResult (value : list Z) (bits : Z) (sign : bool) (numWords : Z)
  : result SVInt :=
  if numWords =? 1 then
    lo <- rd value 0 ;; hi <- rd value 1 ;;
    SVInt_ctor bits (Z.lor lo (shl64 hi (BITS_PER_WORD / 2))) sign
  else
    r <- SVInt_ctor bits 0 sign ;;
    for_range 0 numWords
      (fun i r =>
         lo <- rd value (i * 2) ;; hi <- rd value (i * 2 + 1) ;;
         p <- get_pVal r ;;
         p <- wr p i (Z.lor lo (shl64 hi (BITS_PER_WORD / 2))) ;;
         Ok (set_pVal r p)) r.

(** [divide]; [wantQ] and [wantR] say which of the two output pointers are
    not null. *)
Definition divide (lhs : SVInt) (lhsWords : Z) (rhs : SVInt) (rhsWords : Z)
  (wantQ wantR : bool) : result (option SVInt * option SVInt) :=
  if lhsWords <? rhsWords then Fault
  else
    let divisorWords := rhsWords * 2 in
    let extraWords := lhsWords * 2 - divisorWords in
    let dividendWords := divisorWords + extraWords in
    u <- splitWords lhs (new_zeroed (dividendWords + 1)) lhsWords ;;
    v <- splitWords rhs (new_zeroed divisorWords) rhsWords ;;
    let q := new_zeroed dividendWords in
    let r := new_zeroed divisorWords in
    zv <- top_zeros v (Z.to_nat divisorWords) ;;
    zu <- top_zeros u (Z.to_nat dividendWords) ;;
    let divisorWords := u32 (divisorWords - zv) in
    let extraWords := u32 (extraWords + zv - zu) in
    let dividendWords := u32 (divisorWords + extraWords) in
    '(q, r) <-
      (if divisorWords =? 1 then
         divisor <- rd v 0 ;;
         '(q, rem) <- div_by_half u divisor (Z.to_nat dividendWords) q 0 ;;
         r <- (if wantR then wr r 0 rem else Ok r) ;;
         Ok (q, r)
       else
         '(qs, rs) <- knuthDiv u v extraWords divisorWords ;;
         q <- blit q 0 qs ;;
         r <- (if wantR then blit r 0 rs else Ok r) ;;
         Ok (q, r)) ;;
    let bothSigned := signFlag lhs && signFlag rhs in
    quotient <- (if wantQ then
                   x <- buildDivideResult q (bitWidth lhs) bothSigned lhsWords ;;
                   Ok (Some x)
                 else Ok None) ;;
    remainder <- (if wantR then
                    x <- buildDivideResult r (bitWidth rhs) bothSigned rhsWords ;;
                    Ok (Some x)
                  else Ok None) ;;
    Ok (quotient, remainder).

(** [udiv]; [same] stands for the address test [&lhs == &rhs]. *)
Definition udiv (same : bool) (lhs rhs : SVInt) (bothSigned : bool) : result SVInt :=
  if isSingleWord lhs then
    a <- get_val lhs ;; b <- get_val rhs ;;
    if b =? 0 then Fault else SVInt_ctor (bitWidth lhs) (a / b) bothSigned
  else
    lhsBits <- getActiveBits lhs ;;
    rhsBits <- getActiveBits rhs ;;
    let lhsWords := activeWords lhsBits in
    let rhsWords := activeWords rhsBits in
    if lhsWords =? 0 then SVInt_ctor (bitWidth lhs) 0 bothSigned
    else if same then SVInt_ctor (bitWidth lhs) 1 bothSigned
    else
      less <- (if lhsWords <? rhsWords then Ok true
               else l <- lt_sv lhs rhs ;; Ok (logic_to_bool l)) ;;
      if less then SVInt_ctor (bitWidth lhs) 0 bothSigned
      else if (lhsWords =? 1) && (rhsWords =? 1) then
        p <- get_pVal lhs ;; q <- get_pVal rhs ;;
        a <- rd p 0 ;; b <- rd q 0 ;;
        if b =? 0 then Fault else SVInt_ctor (bitWidth lhs) (a / b) bothSigned
      else
        '(quotient, _) <- divide lhs lhsWords rhs rhsWords true false ;;
        match quotient with
        | Some x => Ok x
        | None => Fault
        end.

(** [urem] *)
Definition urem (same : bool) (lhs rhs : SVInt) (bothSigned : bool) : result SVInt :=
  if isSingleWord lhs then
    a <- get_val lhs ;; b <- get_val rhs ;;
    if b =? 0 then Fault else SVInt_ctor (bitWidth lhs) (a mod b) bothSigned
  else
    lhsBits <- getActiveBits lhs ;;
    rhsBits <- getActiveBits rhs ;;
    let lhsWords := activeWords lhsBits in
    let rhsWords := activeWords rhsBits in
    if lhsWords =? 0 then SVInt_ctor (bitWidth lhs) 0 bothSigned
    else if same then SVInt_ctor (bitWidth lhs) 0 bothSigned
    else
      less <- (if lhsWords <? rhsWords then Ok true
               else l <- lt_sv lhs rhs ;; Ok (logic_to_bool l)) ;;
      if less then Ok lhs
      else if lhsWords =? 1 then
        p <- get_pVal lhs ;; q <- get_pVal rhs ;;
        a <- rd p 0 ;; b <- rd q 0 ;;
        if b =? 0 then Fault else SVInt_ctor (bitWidth lhs) (a mod b) bothSigned
      else
        '(_, remainder) <- divide lhs lhsWords rhs rhsWords false true ;;
        match remainder with
        | Some x => Ok x
        | None => Fault
        end.

(** [operator/]; [same] says that both operands are one object. *)
Definition div_sv (same : bool) (this rhs : SVInt) : result SVInt :=
  let bothSigned := signFlag this && signFlag rhs in
  '(this, rhs) <- unify this rhs bothSigned ;;
  allX <- (if unknownFlag this || unknownFlag rhs then Ok true
           else z <- eq_int rhs 0 ;; Ok (logic_to_bool z)) ;;
  if allX then createFillX (bitWidth this) bothSigned
  else
    tn <- (if bothSigned then isNegative this else Ok false) ;;
    rn <- (if bothSigned then isNegative rhs else Ok false) ;;
    if tn && rn then
      a <- neg this ;; b <- neg rhs ;; udiv false a b true
    else if tn then
      a <- neg this ;; q <- udiv false a rhs true ;; neg q
    else if rn then
      b <- neg rhs ;; q <- udiv false this b true ;; neg q
    else udiv same this rhs false.

(** [operator%] *)
Definition rem_sv (same : bool) (this rhs : SVInt) : result SVInt :=
  let bothSigned := signFlag this && signFlag rhs in
  '(this, rhs) <- unify this rhs bothSigned ;;
  allX <- (if unknownFlag this || unknownFlag rhs then Ok true
           else z <- eq_int rhs 0 ;; Ok (logic_to_bool z)) ;;
  if allX then createFillX (bitWidth this) bothSigned
  else
    tn <- (if bothSigned then isNegative this else Ok false) ;;
    rn <- (if bothSigned then isNegative rhs else Ok false) ;;
    if tn && rn then
      a <- neg this ;; b <- neg rhs ;; r <- urem false a b true ;; neg r
    else if tn then
      a <- neg this ;; r <- urem false a rhs true ;; neg r
    else if rn then
      b <- neg rhs ;; urem false this b true
    else urem same this rhs false.

(** ** Power *)

(** Modelled from the spec: [TempBuffer<T, 128>] (util/TempBuffer.h, not
    among the sources), the stack scratch buffer with heap fallback: room
    for 128 elements, or for as many as were asked for when that is more. *)
Definition TempBuffer_capacity (size : Z) : Z := Z.max size 128.

(** The lambda [mulReduce] of [modPow]: the product of [left] and [right],
    cut to the words of the destination and stored there. *)
Definition mulReduce (scratchWords : Z) (left right dest : SVInt) : result SVInt :=
  lhsBits <- getActiveBits left ;;
  rhsBits <- getActiveBits right ;;
  let lhsWords := activeWords lhsBits in
  let rhsWords := activeWords rhsBits in
  lp <- getRawData left ;;
  rp <- getRawData right ;;
  m <- mul lp lhsWords rp rhsWords ;;
  scratch <- blit (new_zeroed (TempBuffer_capacity scratchWords)) 0 m ;;
  let destWords := lhsWords + rhsWords in
  c <- slice scratch 0
         (if getNumWords dest <=? destWords then getNumWords dest else destWords) ;;
  p <- getRawData dest ;;
  p <- blit p 0 c ;;
  dest <- setRawData dest p ;;
  clearUnusedBits dest.

(** One round of the exponent loops of [modPow] on [(result, baseCopy)]. *)
Definition modPow_step (scratchWords : Z) (word : Z) (last : bool)
  (st : SVInt * SVInt) : result (SVInt * SVInt) :=
  let '(result, baseCopy) := st in
  result <- (if Z.odd word then mulReduce scratchWords result baseCopy result
             else Ok result) ;;
  baseCopy <- (if last && (word =? 1) then Ok baseCopy
               else mulReduce scratchWords baseCopy baseCopy baseCopy) ;;
  Ok (result, baseCopy).

(** [for (int j = 0; j < BITS_PER_WORD; j++)] over one full exponent word. *)
Fixpoint modPow_word (scratchWords : Z) (j : nat) (word : Z) (st : SVInt * SVInt)
  : result (SVInt * SVInt) :=
  match j with
  | O => Ok st
  | Datatypes.S j' =>
      st <- modPow_step scratchWords word false st ;;
      modPow_word scratchWords j' (shr64 word 1) st
  end.

(** [while (word)] over the last exponent word; a word has 64 bits. *)
Fixpoint modPow_last (scratchWords : Z) (fuel : nat) (word : Z) (st : SVInt * SVInt)
  : result (SVInt * SVInt) :=
  if word =? 0 then Ok st
  else
    match fuel with
    | O => Fault
    | Datatypes.S fuel' =>
        st <- modPow_step scratchWords word true st ;;
        modPow_last scratchWords fuel' (shr64 word 1) st
    end.

Definition setSigned (x : SVInt) (isSigned : bool) : SVInt :=
  mkSVInt (bitWidth x) isSigned (unknownFlag x) (store x).

Definition modPow (base exponent : SVInt) (bothSigned : bool) : result SVInt :=
  let scratchWords := getNumWords2 (bitWidth base * 2) false in
  result <- SVInt_ctor (bitWidth base) 1 false ;;
  let exponentWords := getNumWords exponent in
  e <- getRawData exponent ;;
  st <- for_range 0 (exponentWords - 1)
          (fun i st => word <- rd e i ;; modPow_word scratchWords 64 word st)
          (result, base) ;;
  word <- rd e (exponentWords - 1) ;;
  '(result, _) <- modPow_last scratchWords 64 word st ;;
  Ok (setSigned result bothSigned).

(** [pow] *)
Definition pow (this rhs : SVInt) : result SVInt :=
  let bothSigned := signFlag this && signFlag rhs in
  if unknownFlag this || unknownFlag rhs then createFillX (bitWidth this) bothSigned
  else
    lhsBits <- getActiveBits this ;;
    rhsBits <- getActiveBits rhs ;;
    if lhsBits =? 0 then
      if rhsBits =? 0 then SVInt_ctor (bitWidth this) 1 bothSigned
      else
        rn <- (if signFlag rhs then isNegative rhs else Ok false) ;;
        if rn then createFillX (bitWidth this) bothSigned
        else SVInt_ctor (bitWidth this) 0 bothSigned
    else if (rhsBits =? 0) || (lhsBits =? 1) then SVInt_ctor (bitWidth this) 1 bothSigned
    else
      tn <- (if bothSigned then isNegative this else Ok false) ;;
      minusOne <- (if tn then
                     m <- SVInt_ctor (bitWidth this) UINT64_MAX bothSigned ;;
                     e <- eq_sv this m ;; Ok (logic_to_bool e)
                   else Ok false) ;;
      if minusOne then
        o <- isOdd rhs ;;
        if o then SVInt_ctor (bitWidth this) UINT64_MAX bothSigned
        else SVInt_ctor (bitWidth this) 1 bothSigned
      else
        rn <- (if bothSigned then isNegative rhs else Ok false) ;;
        if rn then SVInt_ctor (bitWidth this) 0 bothSigned
        else if tn then
          o <- isOdd rhs ;;
          b <- neg this ;;
          r <- modPow b rhs bothSigned ;;
          if o then neg r else Ok r
        else modPow this rhs bothSigned.

(** ** Parsing *)

Inductive LiteralBase : Type := Binary | Octal | Decimal | Hex.

Definition literalBaseFromChar (base : ascii) : option LiteralBase :=
  if (base =? "d")%char || (base =? "D")%char then Some Decimal
  else if (base =? "b")%char || (base =? "B")%char then Some Binary
  else if (base =? "o")%char || (base =? "O")%char then Some Octal
  else if (base =? "h")%char || (base =? "H")%char then Some Hex
  else None.

Definition code (c : ascii) : Z := Z.of_nat (nat_of_ascii c).

(** Modelled from the spec: the character-classification helper of
    text/CharInfo.h (not among the sources): the decimal-digit predicate and
    the decimal and hexadecimal digit values. *)
Definition isDecimalDigit (c : ascii) : bool := (48 <=? code c) && (code c <=? 57).
Definition getDigitValue (c : ascii) : Z := u8 (code c - 48).
Definition getHexDigitValue (c : ascii) : Z :=
  if code c <=? 57 then u8 (code c - 48)
  else if code c <=? 70 then u8 (10 + code c - 65)
  else u8 (10 + code c - 97).

(** The scan for the size and the apostrophe: [(sizeBad, sizeOverflow,
    possibleSize)] and what follows the apostrophe, if there is one. *)
Fixpoint scan_size (cs : list ascii) (sizeBad sizeOverflow : bool) (possibleSize : Z)
  : bool * bool * Z * option (list ascii) :=
  match cs with
  | [] => (sizeBad, sizeOverflow, possibleSize, None)
  | d :: rest =>
      if (d =? "'")%char then (sizeBad, sizeOverflow, possibleSize, Some rest)
      else if isDecimalDigit d then
        let possibleSize := u32 (u32 (possibleSize * 10) + getDigitValue d) in
        scan_size rest sizeBad (sizeOverflow || (MAX_BITS <? possibleSize)) possibleSize
      else if negb (d =? "_")%char then scan_size rest true sizeOverflow possibleSize
      else scan_size rest sizeBad sizeOverflow possibleSize
  end.

(** The loop turning the remaining characters into digits. *)
Fixpoint scan_digits (cs : list ascii) (isUnknown : bool) (digits : list logic_t)
  : bool * list logic_t :=
  match cs with
  | [] => (isUnknown, digits)
  | d :: rest =>
      if (d =? "_")%char then scan_digits rest isUnknown digits
      else if (d =? "X")%char || (d =? "x")%char then
        scan_digits rest true (digits ++ [logic_x])
      else if (d =? "Z")%char || (d =? "z")%char || (d =? "?")%char then
        scan_digits rest true (digits ++ [logic_z])
      else scan_digits rest isUnknown (digits ++ [mkLogic (getHexDigitValue d)])
  end.

Definition radix_of (base : LiteralBase) : Z :=
  match base with Binary => 2 | Octal => 8 | Decimal => 10 | Hex => 16 end.
Definition shift_of (base : LiteralBase) : Z :=
  match base with Binary => 1 | Octal => 3 | Decimal => 0 | Hex => 4 end.

(** The fast path of [fromDigits]: the whole value in one [uint64_t]. *)
Fixpoint fromDigits_fast (radix shift : Z) (digits : list logic_t) (val : Z) : result Z :=
  match digits with
  | [] => Ok val
  | d :: rest =>
      let val := if negb (shift =? 0) then shl64 val shift else u64 (val * radix) in
      let val := u64 (val + value d) in
      if radix <=? value d then Invalid
      else fromDigits_fast radix shift rest val
  end.

(** The decimal loop of the slow path. *)
Fixpoint fromDigits_dec (bits : Z) (isSigned anyUnknown : bool) (size : Z)
  (digits : list logic_t) (res digit radixSv : SVInt) : result SVInt :=
  match digits with
  | [] => Ok res
  | d :: rest =>
      if anyUnknown then
        if negb (size =? 1) then Invalid
        else if exactlyEqualL d logic_z then createFillZ bits isSigned
        else createFillX bits isSigned
      else if 10 <=? value d then Invalid
      else
        res <- mul_assign res radixSv ;;
        p <- get_pVal digit ;;
        p <- wr p 0 (value d) ;;
        let digit := set_pVal digit p in
        res <- add_assign res digit ;;
        fromDigits_dec bits isSigned anyUnknown size rest res digit radixSv
  end.

(** One round of the loop of the power-of-two slow path, on the buffer of
    the result. *)
Definition pow2_digit (bits radix shift numWords : Z) (anyUnknown : bool)
  (d : logic_t) (p : list Z) : result (list Z) :=
  let ones := Z.shiftl 1 shift - 1 in
  '(v, unknown) <-
    (if exactlyEqualL d logic_x then Ok (0, ones)
     else if exactlyEqualL d logic_z then Ok (ones, ones)
     else if radix <=? value d then Invalid
     else Ok (value d, 0)) ;;
  p <- (if bits <=? shift then
          p <- wr p 0 0 ;; wr p numWords 0
        else
          p <- shlFar p p shift 0 0 numWords ;;
          if anyUnknown then shlFar p p shift 0 numWords numWords else Ok p) ;;
  w <- rd p 0 ;;
  p <- wr p 0 (u64 (w + v)) ;;
  if anyUnknown then
    w <- rd p (getNumWords2 bits false) ;;
    wr p (getNumWords2 bits false) (u64 (w + unknown))
  else Ok p.

(** [for (const logic_t& d : digits)] *)
Fixpoint fromDigits_pow2 (bits radix shift numWords : Z) (anyUnknown : bool)
  (digits : list logic_t) (p : list Z) : result (list Z) :=
  match digits with
  | [] => Ok p
  | d :: rest =>
      p <- pow2_digit bits radix shift numWords anyUnknown d p ;;
      fromDigits_pow2 bits radix shift numWords anyUnknown rest p
  end.

(** The extension of a topmost unknown digit over the unused high bits, once
    [wordBits], [wordOffset] and [mask] are settled. *)
Definition extend_from (res : SVInt) (wordBits wordOffset mask numWords : Z)
  : result SVInt :=
  let topWord := u32 (numWords + wordOffset) in
  p <- get_pVal res ;;
  t <- rd p topWord ;;
  if negb (shr64 t (wordBits - 1) =? 0) then
    p <- wr p topWord (Z.lor t mask) ;;
    p <- for_range (topWord + 1) (numWords * 2) (fun i p => wr p i UINT64_MAX) p ;;
    w <- rd p wordOffset ;;
    p <- (if negb (shr64 w (wordBits - 1) =? 0) then
            p <- wr p wordOffset (Z.lor w mask) ;;
            for_range (wordOffset + 1) numWords (fun i p => wr p i UINT64_MAX) p
          else Ok p) ;;
    clearUnusedBits (set_pVal res p)
  else Ok res.

Definition extend_unknown (res : SVInt) (ndigits shift numWords : Z) : result SVInt :=
  let givenBits := u32 (ndigits * shift) in
  let wordBits := givenBits mod BITS_PER_WORD in
  let wordOffset := givenBits / BITS_PER_WORD in
  if negb (wordBits =? 0) then
    extend_from res wordBits wordOffset (shl64 UINT64_MAX wordBits) numWords
  else
    extend_from res 64 (u32 (wordOffset - 1)) 0 numWords.

Definition fromDigits (bits : Z) (base : LiteralBase) (isSigned anyUnknown : bool)
  (digits : list logic_t) : result SVInt :=
  match digits with
  | [] => Invalid
  | _ =>
      let radix := radix_of base in
      let shift := shift_of base in
      if (bits <=? BITS_PER_WORD) && negb anyUnknown then
        val <- fromDigits_fast radix shift digits 0 ;;
        SVInt_ctor bits val isSigned
      else
        res <- allocZeroed bits isSigned anyUnknown ;;
        if radix =? 10 then
          digit <- SVInt_ctor bits 0 false ;;
          radixSv <- SVInt_ctor bits 10 false ;;
          fromDigits_dec bits isSigned anyUnknown (Z.of_nat (length digits))
            digits res digit radixSv
        else
          let numWords := getNumWords2 bits false in
          p <- get_pVal res ;;
          p <- fromDigits_pow2 bits radix shift numWords anyUnknown digits p ;;
          res <- clearUnusedBits (set_pVal res p) ;;
          res <- checkUnknown res ;;
          if hasUnknown res then
            extend_unknown res (Z.of_nat (length digits)) shift numWords
          else Ok res
  end.

(** [fromString] after the optional sign: the size and base specifier, the
    digits, and the negation of a literal that opened with [-]. *)
Definition fromChars_body (negative : bool) (c : list ascii) : result SVInt :=
  match c with
  | [] => Invalid
  | _ =>
      let '(sizeBad, sizeOverflow, possibleSize, apostrophe) :=
        scan_size c false false 0 in
      '(bits, isSigned, base, c) <-
        match apostrophe with
        | Some c =>
            if sizeBad || sizeOverflow || (possibleSize =? 0) then Invalid
            else
              match c with
              | [] => Invalid
              | s :: c' =>
                  let isSigned := (s =? "s")%char || (s =? "S")%char in
                  let c := if isSigned then c' else c in
                  match c with
                  | [] => Invalid
                  | b :: c =>
                      match literalBaseFromChar b with
                      | None => Invalid
                      | Some base =>
                          match c with
                          | [] => Invalid
                          | _ => Ok (possibleSize, isSigned, base, c)
                          end
                      end
                  end
              end
        | None => if sizeBad then Invalid else Ok (32, true, Decimal, c)
        end ;;
      let '(isUnknown, digits) := scan_digits c false [] in
      res <- fromDigits bits base isSigned isUnknown digits ;;
      if negative then neg res else Ok res
  end.

Definition fromChars (str : list ascii) : result SVInt :=
  match str with
  | [] => Invalid
  | c0 :: after =>
      let negative := (c0 =? "-")%char in
      let signed_prefix := (c0 =? "-")%char || (c0 =? "+")%char in
      let c := if signed_prefix then after else str in
      fromChars_body negative c
  end.

Definition fromString (str : string) : result SVInt :=
  fromChars (list_ascii_of_string str).

(** ** Formatting *)

(** [Digits[] = "0123456789abcdef"] *)
Definition Digits (d : Z) : ascii :=
  nth (Z.to_nat d) (list_ascii_of_string "0123456789abcdef") "0"%char.

(** [std::to_string] of a [uint32_t]: at most ten decimal digits, most
    significant first. *)
Fixpoint to_string_rec (fuel : nat) (n : Z) (acc : list ascii) : list ascii :=
  match fuel with
  | O => acc
  | Datatypes.S fuel' =>
      let acc := Digits (n mod 10) :: acc in
      if n / 10 =? 0 then acc else to_string_rec fuel' (n / 10) acc
  end.
Definition to_string (n : Z) : list ascii := to_string_rec 10 n [].

(** The decimal loop of [writeTo], [while (tmp != 0)]; the digits come out
    least significant first.  [fuel] bounds the rounds. *)
Fixpoint writeTo_dec (fuel : nat) (tmp divisor : SVInt) (digits : list ascii)
  : result (list ascii) :=
  match fuel with
  | O => Fault
  | Datatypes.S fuel' =>
      x <- ne_int tmp 0 ;;
      if negb (logic_to_bool x) then Ok digits
      else
        '(quotient, remainder) <-
          divide tmp (getNumWords tmp) divisor (getNumWords divisor) true true ;;
        match quotient, remainder with
        | Some quotient, Some remainder =>
            d <- as_int 64 false remainder ;;
            match d with
            | None => Fault
            | Some digit =>
                if negb (digit <? 10) then Fault
                else writeTo_dec fuel' quotient divisor (digits ++ [Digits digit])
            end
        | _, _ => Fault
        end
  end.

(** The shift loop of [writeTo] for the bases 2, 8 and 16;
    [words] is [getNumWords(bitWidth, false)] of the value written. *)
Fixpoint writeTo_pow2 (fuel : nat) (words shiftAmount maskAmount : Z) (tmp : SVInt)
  (digits : list ascii) : result (list ascii) :=
  match fuel with
  | O => Fault
  | Datatypes.S fuel' =>
      x <- ne_int tmp 0 ;;
      if negb (logic_to_bool x || isUnknownL x) then Ok digits
      else
        raw <- getRawData tmp ;;
        w <- rd raw 0 ;;
        let digit := Z.land (u32 w) maskAmount in
        c <- (if negb (unknownFlag tmp) then Ok (Digits digit)
              else
                p <- get_pVal tmp ;;
                uw <- rd p words ;;
                let u := Z.land (u32 uw) maskAmount in
                if u =? 0 then Ok (Digits digit)
                else if negb (digit =? 0) then Ok "z"%char
                else Ok "x"%char) ;;
        tmp <- lshr_amount tmp shiftAmount ;;
        writeTo_pow2 fuel' words shiftAmount maskAmount tmp (digits ++ [c])
  end.

Definition base_char (base : LiteralBase) : ascii :=
  match base with
  | Binary => "b" | Octal => "o" | Decimal => "d" | Hex => "h"
  end%char.

(** [writeTo], into an empty buffer. *)
Definition writeTo (x : SVInt) (base : LiteralBase) : result (list ascii) :=
  let fuel := Datatypes.S (Z.to_nat (bitWidth x)) in
  n <- (if signFlag x && negb (unknownFlag x) then isNegative x else Ok false) ;;
  tmp <- (if n then neg x else Ok x) ;;
  let buffer := if n then ["-"%char] else [] in
  let buffer :=
    if negb (match base with Decimal => true | _ => false end)
       || negb (bitWidth x =? 32) || negb (signFlag x) || unknownFlag x
    then buffer ++ to_string (bitWidth x) ++ ["'"%char]
         ++ (if signFlag x then ["s"%char] else []) ++ [base_char base]
    else buffer in
  digits <-
    match base with
    | Decimal =>
        if unknownFlag x then
          raw <- getRawData x ;;
          w <- rd raw 0 ;;
          Ok [if negb (w =? 0) then "z"%char else "x"%char]
        else
          divisor <- SVInt_ctor 4 10 false ;;
          writeTo_dec fuel tmp divisor []
    | _ =>
        let shiftAmount := shift_of base in
        let maskAmount := radix_of base - 1 in
        writeTo_pow2 fuel (getNumWords2 (bitWidth x) false) shiftAmount maskAmount tmp []
    end ;;
  match digits with
  | [] => Ok (buffer ++ ["0"%char])
  | _ => Ok (buffer ++ rev digits)
  end.

(** [toString(LiteralBase)] *)
Definition toString_base (x : SVInt) (base : LiteralBase) : result string :=
  b <- writeTo x base ;; Ok (string_of_list_ascii b).

(** [toString()] *)
Definition toString (x : SVInt) : result string :=
  let base :=
    if (bitWidth x <? 8) || unknownFlag x then Binary
    else if (bitWidth x =? 32) || signFlag x then Decimal
    else Hex in
  toString_base x base.
End Heap.



(** * Specification vocabulary *)

(** A word array given by its contents at each index. *)
Definition tabulate (n : Z) (f : Z -> Z) : list Z :=
  map (fun k => f (Z.of_nat k)) (seq 0 (Z.to_nat n)).

(** The representation invariant of the storage layer: a width between 1
    and MAX_BITS, the inline word exactly for known values of at most 64
    bits (with nothing above the width), a heap buffer of [getNumWords()]
    words otherwise. *)
Definition shape (x : SVInt) : Prop :=
  0 < bitWidth x <= MAX_BITS /\
  match store x with
  | Inline v => isSingleWord x = true /\ 0 <= v < 2 ^ bitWidth x
  | Heap p => isSingleWord x = false /\ Z.of_nat (length p) = getNumWords x
  end.

(** The used bits of the top word of a plane. *)
Definition topMask (bits : Z) : Z :=
  if bits mod 64 =? 0 then UINT64_MAX else 2 ^ (bits mod 64) - 1.

(** The value of [bits] bits that are all X: a zero value plane under an
    unknown plane of ones. *)
Definition allX (bits : Z) (sign : bool) : SVInt :=
  let w := getNumWords2 bits false in
  mkSVInt bits sign true
    (Heap (tabulate (2 * w)
             (fun k => if k <? w then 0
                       else if k <? 2 * w - 1 then UINT64_MAX else topMask bits))).

Ltac bdestruct :=
  repeat match goal with
  | |- context [Z.ltb ?a ?b] => destruct (Z.ltb_spec a b)
  | |- context [Z.leb ?a ?b] => destruct (Z.leb_spec a b)
  | |- context [Z.eqb ?a ?b] => destruct (Z.eqb_spec a b)
  | |- context [Nat.eqb ?a ?b] => destruct (Nat.eqb_spec a b)
  | |- context [Nat.ltb ?a ?b] => destruct (Nat.ltb_spec a b)
  end; cbn [andb orb negb].

(** A value whose every stored word is zero. *)
Definition zero_value (x : SVInt) : Prop :=
  match store x with
  | Inline v => v = 0
  | Heap p => forall k, nth k p 0 = 0
  end.

(** Index [k] holds the top word of a plane of [x]. *)
Definition is_top (x : SVInt) (k : nat) : bool :=
  (Z.of_nat k =? getNumWords x - 1)
  || (unknownFlag x && (Z.of_nat k =? getNumWords2 (bitWidth x) false - 1)).

Ltac svsimpl :=
  unfold set_pVal, set_val, setSigned; cbn [bitWidth signFlag unknownFlag store].

Ltac svsimpl_all :=
  unfold set_pVal, set_val, setSigned in *;
  cbn [bitWidth signFlag unknownFlag store] in *.

(** Every bit of [r] reads as X. *)
Definition all_X (r : SVInt) : Prop :=
  forall i, 0 <= i < bitWidth r -> index_int r i = Ok logic_x.

(** The call returned normally, and what it returned is all X, [w] bits
    wide, with sign flag [s]. *)
Definition yields_all_X (c : result SVInt) (w : Z) (s : bool) : Prop :=
  exists r, c = Ok r /\ bitWidth r = w /\ signFlag r = s /\
            hasUnknown r = true /\ all_X r.

(** Contents of a fresh allocation, for the closed examples. *)
Definition heap0 (i : Z) : Z := 12297829382473034410 + i.

Definition v_3d1 : SVInt := mkSVInt 3 false false (Inline 1).
Definition v_3bxxx : SVInt := mkSVInt 3 false true (Heap [0; 7]).

(** More sample values: [16'sd1000], [16'sd0], [8'b1100], [8'b10x0],
    [8'b0000000x], [8'bxxxxxxx0], [1'bx] and [4'bzzzz]. *)
Definition v_16sd1000 : SVInt := mkSVInt 16 true false (Inline 1000).
Definition v_16sd0 : SVInt := mkSVInt 16 true false (Inline 0).
Definition v_8b1100 : SVInt := mkSVInt 8 false false (Inline 12).
Definition v_8b10x0 : SVInt := mkSVInt 8 false true (Heap [8; 2]).
Definition v_8b0x : SVInt := mkSVInt 8 false true (Heap [0; 1]).
Definition v_8bx0 : SVInt := mkSVInt 8 false true (Heap [0; 254]).
Definition v_1bx : SVInt := mkSVInt 1 false true (Heap [0; 1]).
Definition v_4bzzzz : SVInt := mkSVInt 4 false true (Heap [15; 15]).

(** The integer an inline (single-word) value stands for, read as signed
    when the sign flag is set. *)
Definition inline_value (x : SVInt) (v : Z) : Z :=
  if signFlag x && (2 ^ (bitWidth x - 1) <=? v) then v - 2 ^ bitWidth x else v.

Definition INT32_MAX : Z := 2147483647.
Definition v_32d5 : SVInt := mkSVInt 32 false false (Inline 5).
Definition v_40d3000000000 : SVInt := mkSVInt 40 false false (Inline 3000000000).

(** A well-formed value without unknown bits, [bits] wide. *)
Definition kshape (x : SVInt) (bits : Z) : Prop :=
  shape x /\ unknownFlag x = false /\ bitWidth x = bits.

(** The scratch buffer [modPow] asks for holds the product of two values of
    [bits] bits, word by word. *)
Definition scratch_fits (bits : Z) : Prop :=
  2 * getNumWords2 bits false <= TempBuffer_capacity (getNumWords2 (bits * 2) false).

(** [20'd3] and the wider exponent [200'sd30]. *)
Definition v_20d3 : SVInt := mkSVInt 20 false false (Inline 3).
Definition v_200sd30 : SVInt := mkSVInt 200 true false (Heap [30; 0; 0; 0]).

(** Bit [i] of the plane that starts at word [off] of the buffer [p]. *)
Definition plane_bit (p : list Z) (off i : Z) : bool :=
  Z.testbit (nth (Z.to_nat (off + i / 64)) p 0) (i mod 64).

(** Every word of the buffer is a [uint64_t]. *)
Definition words_in_range (p : list Z) : Prop :=
  forall k, 0 <= nth k p 0 < 2 ^ 64.

(** A digit the radix accepts: X, Z, or a value below the radix. *)
Definition valid_digit (base : LiteralBase) (d : logic_t) : Prop :=
  exactlyEqualL d logic_x = true \/ exactlyEqualL d logic_z = true \/
  0 <= value d < radix_of base.

(** State of the two planes after [j] digits of [shift] bits each, the first
    of them X ([zf = false]) or Z ([zf = true]): nothing above the digits
    written so far, and the first digit in the topmost [shift] bits. *)
Definition digits_inv (nw shift : Z) (zf : bool) (j : Z) (p : list Z) : Prop :=
  Z.of_nat (length p) = 2 * nw /\ words_in_range p /\
  forall i, 0 <= i < 64 * nw ->
    (j * shift <= i -> plane_bit p 0 i = false /\ plane_bit p nw i = false) /\
    (1 <= j -> (j - 1) * shift <= i < j * shift ->
       plane_bit p 0 i = zf /\ plane_bit p nw i = true).

(** ** Values without unknown bits *)

(** The number a value without unknown bits holds. *)
Definition uval (x : SVInt) : Z :=
  match store x with
  | Inline v => v
  | Heap p => words_to_Z p
  end.

(** The number [v] at width [bits], in the representation the class keeps:
    inline up to 64 bits, otherwise in [getNumWords] heap words. *)
Definition of_value (bits : Z) (sg : bool) (v : Z) : SVInt :=
  mkSVInt bits sg false
    (if bits <=? 64 then Inline v
     else Heap (Z_to_words (Z.to_nat (getNumWords2 bits false)) v)).

(** [4097'd3] and [4097'd5]: 65 words each, one bit in the top word. *)
Definition v_4097d3 : SVInt := of_value 4097 false 3.
Definition v_4097d5 : SVInt := of_value 4097 false 5.
(** A value without unknown bits that satisfies the invariant of the class:
    a legal width, the inline word or the heap words as the width demands,
    every word a [uint64_t], and no bit set at or above the width. *)
Definition known_value (x : SVInt) : Prop :=
  0 < bitWidth x <= MAX_BITS /\ unknownFlag x = false /\
  match store x with
  | Inline v => bitWidth x <= 64 /\ 0 <= v < 2 ^ bitWidth x
  | Heap p => 64 < bitWidth x /\
              Z.of_nat (length p) = getNumWords2 (bitWidth x) false /\
              words_in_range p /\ words_to_Z p < 2 ^ bitWidth x
  end.

(** [ds] are the digits of [v] in radix [r], least significant first and
    without leading zeros. *)
Fixpoint is_digits (r : Z) (ds : list Z) (v : Z) : Prop :=
  match ds with
  | [] => v = 0
  | d :: t => v <> 0 /\ d = v mod r /\ is_digits r t (v / r)
  end.

(** The number a list of digits, most significant first, stands for when
    read after [w]. *)
Fixpoint horner (r : Z) (ds : list Z) (w : Z) : Z :=
  match ds with
  | [] => w
  | d :: t => horner r t (w * r + d)
  end.

(** What [writeTo] puts between the sign and the digits of a value without
    unknown bits: the size, the apostrophe, the [s] of a signed value and
    the base letter, or nothing for a signed 32-bit value in decimal. *)
Definition literal_prefix (bits : Z) (sg : bool) (base : LiteralBase) : list ascii :=
  if negb (match base with Decimal => true | _ => false end)
     || negb (bits =? 32) || negb sg
  then to_string bits ++ ["'"%char] ++ (if sg then ["s"%char] else []) ++ [base_char base]
  else [].

(** ** Auxiliary predicates *)

(** Filling a run of words with one value. *)
Definition filled (p : list Z) (lo hi c : Z) (q : list Z) : Prop :=
  length q = length p /\
  forall k, nth k q 0 = if (lo <=? Z.of_nat k) && (Z.of_nat k <? hi) then c else nth k p 0.

(** Every entry of the scratch buffer is a [uint32_t]. *)
Definition halves_in_range (l : list Z) : Prop := forall k, 0 <= nth k l 0 < 2 ^ 32.

(** What the scanners see in a digit character. *)
Definition digit_char_ok (d : Z) : bool :=
  let c := Digits d in
  negb (c =? "_")%char && negb (c =? "'")%char && negb (c =? "-")%char
  && negb (c =? "+")%char
  && negb ((c =? "X")%char || (c =? "x")%char)
  && negb ((c =? "Z")%char || (c =? "z")%char || (c =? "?")%char)
  && (getHexDigitValue c =? d)
  && (if d <? 10 then isDecimalDigit c && (getDigitValue c =? d) else true).


(** ** More sample values *)

(** [100'd5] and [100'd7] live in heap words; [-16'sd1000] is inline. *)
Definition v_100d5 : SVInt := of_value 100 false 5.
Definition v_100d7 : SVInt := of_value 100 false 7.
Definition v_16sdm1000 : SVInt := mkSVInt 16 true false (Inline 64536).

(** The sized prefix of a literal: the size in decimal, the apostrophe, the
    [s] of a signed literal and the base letter. *)
Definition sized_prefix (bits : Z) (sg : bool) (base : LiteralBase) : list ascii :=
  to_string bits ++ ["'"%char] ++ (if sg then ["s"%char] else []) ++ [base_char base].

(** The characters [fromString] reads as an unknown digit. *)
Definition unknown_digit_char (c : ascii) : bool :=
  (c =? "X")%char || (c =? "x")%char
  || (c =? "Z")%char || (c =? "z")%char || (c =? "?")%char.

(** A character [fromString] skips or reads as a digit below the radix: an
    underscore, or a character that is no unknown digit and whose
    hexadecimal digit value is below the radix. *)
Definition below_radix_char (base : LiteralBase) (c : ascii) : bool :=
  (c =? "_")%char
  || (negb (unknown_digit_char c) && (getHexDigitValue c <? radix_of base)).

(** The digit values [fromString] collects from a run of characters. *)
Definition char_digits (cs : list ascii) : list Z :=
  map getHexDigitValue (filter (fun c => negb (c =? "_")%char) cs).

(** * Further operations of SVInt.cpp *)

(** [operator~] *)
Definition not_sv (x : SVInt) : result SVInt :=
  let words := getNumWords2 (bitWidth x) false in
  r <- (if isSingleWord x then
          v <- get_val x ;; Ok (set_val x (Z.lxor v UINT64_MAX))
        else
          p <- get_pVal x ;;
          p <- for_range 0 words (fun i p => w <- rd p i ;; wr p i (Z.lxor w UINT64_MAX)) p ;;
          Ok (set_pVal x p)) ;;
  r <- (if unknownFlag x then
          p <- get_pVal r ;;
          p <- for_range 0 words
                 (fun i p => w <- rd p i ;; u <- rd p (i + words) ;;
                             wr p i (Z.land w (not64 u))) p ;;
          Ok (set_pVal r p)
        else Ok r) ;;
  clearUnusedBits r.

(** [reductionAnd]; the flag of the loop is cleared by the early return. *)
Definition reductionAnd (x : SVInt) : result logic_t :=
  if unknownFlag x then Ok logic_x
  else
    let mask := snd (getTopWordMask x) in
    if isSingleWord x then v <- get_val x ;; Ok (logic_of_bool (v =? mask))
    else
      p <- get_pVal x ;;
      r <- for_range 0 (getNumWords x - 1)
             (fun i (acc : bool) =>
                if acc then w <- rd p i ;; Ok (w =? UINT64_MAX) else Ok false) true ;;
      if r then w <- rd p (getNumWords x - 1) ;; Ok (logic_of_bool (w =? mask))
      else Ok (logic_of_bool false).

Section BitOps.

Variable junk : Z -> Z.

(** [setAllOnes].  After [delete[] pVal] a value of one word keeps the stale
    address in the union until [val] is assigned. *)
Definition setAllOnes (x : SVInt) : result SVInt :=
  let x := if unknownFlag x then
             mkSVInt (bitWidth x) (signFlag x) false
               (if 1 <? getNumWords2 (bitWidth x) false
                then Heap (new_uninit junk (getNumWords2 (bitWidth x) false))
                else Inline (junk 0))
           else x in
  x <- (if isSingleWord x then Ok (set_val x UINT64_MAX)
        else
          p <- get_pVal x ;;
          p <- for_range 0 (getNumWords x) (fun i p => wr p i UINT64_MAX) p ;;
          Ok (set_pVal x p)) ;;
  clearUnusedBits x.

(** [operator|=] *)
Definition or_assign (this rhs : SVInt) : result SVInt :=
  '(this, rhs) <- unify junk this rhs (signFlag this && signFlag rhs) ;;
  this <-
    (if isSingleWord this then
       a <- get_val this ;; b <- get_val rhs ;; Ok (set_val this (Z.lor a b))
     else
       let words := getNumWords2 (bitWidth this) false in
       p <- get_pVal this ;;
       q <- get_pVal rhs ;;
       if unknownFlag this then
         p <- for_range 0 words
                (fun i p =>
                   ua <- rd p (i + words) ;; ub <- rd q (i + words) ;;
                   vb <- rd q i ;; va <- rd p i ;;
                   wr p (i + words)
                      (Z.lor (Z.land ua (Z.lor ub (not64 vb))) (Z.land (not64 va) ub))) p ;;
         p <- for_range 0 words
                (fun i p =>
                   ur <- rd p (i + words) ;; va <- rd p i ;; vb <- rd q i ;;
                   wr p i (Z.land (not64 ur) (Z.lor va vb))) p ;;
         Ok (set_pVal this p)
       else
         p <- for_range 0 words
                (fun i p => va <- rd p i ;; vb <- rd q i ;; wr p i (Z.lor va vb)) p ;;
         Ok (set_pVal this p)) ;;
  clearUnusedBits this.

(** [operator^=] *)
Definition xor_assign (this rhs : SVInt) : result SVInt :=
  '(this, rhs) <- unify junk this rhs (signFlag this && signFlag rhs) ;;
  this <-
    (if isSingleWord this then
       a <- get_val this ;; b <- get_val rhs ;; Ok (set_val this (Z.lxor a b))
     else
       let words := getNumWords2 (bitWidth this) false in
       p <- get_pVal this ;;
       q <- get_pVal rhs ;;
       if unknownFlag this then
         p <- for_range 0 words
                (fun i p =>
                   ua <- rd p (i + words) ;; ub <- rd q (i + words) ;;
                   wr p (i + words) (Z.lor ua ub)) p ;;
         p <- for_range 0 words
                (fun i p =>
                   ur <- rd p (i + words) ;; va <- rd p i ;; vb <- rd q i ;;
                   wr p i (Z.land (not64 ur) (Z.lxor va vb))) p ;;
         Ok (set_pVal this p)
       else
         p <- for_range 0 words
                (fun i p => va <- rd p i ;; vb <- rd q i ;; wr p i (Z.lxor va vb)) p ;;
         Ok (set_pVal this p)) ;;
  clearUnusedBits this.

(** [xnor] *)
Definition xnor (this rhs : SVInt) : result SVInt :=
  '(this, rhs) <- unify junk this rhs (signFlag this && signFlag rhs) ;;
  result <-
    (if isSingleWord this then
       a <- get_val this ;; b <- get_val rhs ;; Ok (set_val this (not64 (Z.lxor a b)))
     else
       let words := getNumWords2 (bitWidth this) false in
       p <- get_pVal this ;;
       q <- get_pVal rhs ;;
       if unknownFlag this then
         p <- for_range 0 words
                (fun i p =>
                   ua <- rd p (i + words) ;; ub <- rd q (i + words) ;;
                   wr p (i + words) (Z.lor ua ub)) p ;;
         p <- for_range 0 words
                (fun i p =>
                   ur <- rd p (i + words) ;; va <- rd p i ;; vb <- rd q i ;;
                   wr p i (Z.land (not64 ur) (not64 (Z.lxor va vb)))) p ;;
         Ok (set_pVal this p)
       else
         p <- for_range 0 words
                (fun i p => va <- rd p i ;; vb <- rd q i ;; wr p i (not64 (Z.lxor va vb))) p ;;
         Ok (set_pVal this p)) ;;
  clearUnusedBits result.

(** [wildcardEqual]; the recursion after a width extension is bounded by
    [fuel], and the flag of the loop is cleared by the early return. *)
Fixpoint wildcardEqual_rec (fuel : nat) (lhs rhs : SVInt) : result logic_t :=
  match fuel with
  | O => Fault
  | Datatypes.S fuel' =>
      if negb (unknownFlag lhs) && negb (unknownFlag rhs) then eq_sv junk lhs rhs
      else if unknownFlag lhs then Ok logic_x
      else if negb (bitWidth lhs =? bitWidth rhs) then
        let bothSigned := signFlag lhs && signFlag rhs in
        if bitWidth lhs <? bitWidth rhs then
          e <- extend junk lhs (bitWidth rhs) bothSigned ;; wildcardEqual_rec fuel' e rhs
        else
          e <- extend junk rhs (bitWidth lhs) bothSigned ;; wildcardEqual_rec fuel' lhs e
      else
        let words := getNumWords lhs in
        r <- for_range 0 words
               (fun i (acc : bool) =>
                  if acc then
                    q <- get_pVal rhs ;;
                    u <- rd q (i + words) ;;
                    let mask := not64 u in
                    l <- getRawData lhs ;;
                    a <- rd l i ;; b <- rd q i ;;
                    Ok (Z.land a mask =? Z.land b mask)
                  else Ok false) true ;;
        Ok (logic_of_bool r)
  end.

Definition wildcardEqual (lhs rhs : SVInt) : result logic_t := wildcardEqual_rec 2 lhs rhs.

End BitOps.
(** * Properties *)

(** ** Word arrays *)

Lemma u64_range : forall z, 0 <= u64 z < 2 ^ 64.
Proof. intro z. unfold u64. apply Z.mod_pos_bound. lia. Qed.

Lemma u64_small : forall z, 0 <= z < 2 ^ 64 -> u64 z = z.
Proof. intros z H. unfold u64. apply Z.mod_small. exact H. Qed.

Lemma length_upd : forall p n w, length (upd p n w) = length p.
Proof.
  induction p as [|h t IH]; intros [|n] w; simpl; auto.
Qed.

Lemma nth_upd : forall p n w k d,
  nth k (upd p n w) d = if Nat.eqb k n then (if Nat.ltb n (length p) then w else d) else nth k p d.
Proof.
  induction p as [|h t IH]; intros n w k d.
  - simpl. destruct (Nat.eqb k n); destruct k; reflexivity.
  - destruct n as [|n], k as [|k]; simpl; try reflexivity.
    rewrite IH. destruct (Nat.eqb k n); reflexivity.
Qed.

Lemma rd_ok : forall p i, 0 <= i < Z.of_nat (length p) ->
  rd p i = Ok (nth (Z.to_nat i) p 0).
Proof.
  intros p i H. unfold rd.
  destruct (Z.ltb_spec i 0); [lia|].
  destruct (nth_error p (Z.to_nat i)) eqn:E.
  - rewrite (nth_error_nth _ _ 0 E). reflexivity.
  - apply nth_error_None in E. lia.
Qed.

Lemma rd_inv : forall p i w, rd p i = Ok w ->
  0 <= i < Z.of_nat (length p) /\ w = nth (Z.to_nat i) p 0.
Proof.
  intros p i w H. unfold rd in H.
  destruct (Z.ltb_spec i 0); [discriminate|].
  destruct (nth_error p (Z.to_nat i)) eqn:E; [|discriminate].
  inversion H; subst.
  assert (Z.to_nat i < length p)%nat by (apply nth_error_Some; congruence).
  split; [lia|]. symmetry. apply nth_error_nth. exact E.
Qed.

Lemma wr_ok : forall p i w, 0 <= i < Z.of_nat (length p) ->
  wr p i w = Ok (upd p (Z.to_nat i) w).
Proof.
  intros p i w H. unfold wr.
  destruct (Z.ltb_spec i 0); [lia|].
  destruct (Z.leb_spec (Z.of_nat (length p)) i); [lia|]. reflexivity.
Qed.

Lemma wr_inv : forall p i w p', wr p i w = Ok p' ->
  0 <= i < Z.of_nat (length p) /\ p' = upd p (Z.to_nat i) w.
Proof.
  intros p i w p' H. unfold wr in H.
  destruct (Z.ltb_spec i 0); [discriminate|].
  destruct (Z.leb_spec (Z.of_nat (length p)) i); [discriminate|].
  inversion H. split; [lia|reflexivity].
Qed.

Lemma nth_ext0 : forall (l1 l2 : list Z),
  length l1 = length l2 ->
  (forall k, (k < length l1)%nat -> nth k l1 0 = nth k l2 0) -> l1 = l2.
Proof.
  intros l1 l2 Hl H. apply (nth_ext l1 l2 0 0 Hl). exact H.
Qed.

Lemma bind_Ok : forall (A B : Type) (c : result A) (k : A -> result B) (b : B),
  bind c k = Ok b -> exists a, c = Ok a /\ k a = Ok b.
Proof.
  intros A B c k b H. destruct c; simpl in H; try discriminate. eauto.
Qed.

(** The invariant rule for the counted loops. *)
Lemma for_loop_inv : forall (T : Type) (P : Z -> T -> Prop) body n i (s : T),
  P i s ->
  (forall j t, i <= j < i + Z.of_nat n -> P j t ->
     exists t', body j t = Ok t' /\ P (j + 1) t') ->
  exists s', for_loop n i body s = Ok s' /\ P (i + Z.of_nat n) s'.
Proof.
  intros T P body n. induction n as [|n IH]; intros i s H0 Hstep.
  - exists s. simpl. split; [reflexivity|]. rewrite Z.add_0_r. exact H0.
  - destruct (Hstep i s) as [t' [Hb Ht']]; [lia|exact H0|].
    destruct (IH (i + 1) t' Ht') as [s' [Hl Hs']].
    { intros j t Hj Hp. apply Hstep; [lia|exact Hp]. }
    exists s'. cbn [for_loop]. rewrite Hb. cbn [bind]. split; [exact Hl|].
    replace (i + Z.of_nat (S n)) with (i + 1 + Z.of_nat n) by lia. exact Hs'.
Qed.

Lemma for_range_inv : forall (T : Type) (P : Z -> T -> Prop) body lo hi (s : T),
  lo <= hi -> P lo s ->
  (forall j t, lo <= j < hi -> P j t -> exists t', body j t = Ok t' /\ P (j + 1) t') ->
  exists s', for_range lo hi body s = Ok s' /\ P hi s'.
Proof.
  intros T P body lo hi s Hle H0 Hstep. unfold for_range.
  destruct (for_loop_inv T P body (Z.to_nat (hi - lo)) lo s H0) as [s' [H1 H2]].
  - intros j t Hj. apply Hstep. lia.
  - exists s'. split; [exact H1|].
    replace (lo + Z.of_nat (Z.to_nat (hi - lo))) with hi in H2 by lia. exact H2.
Qed.

Lemma for_range_empty : forall (T : Type) body lo hi (s : T),
  hi <= lo -> for_range lo hi body s = Ok s.
Proof.
  intros T body lo hi s H. unfold for_range.
  replace (Z.to_nat (hi - lo)) with 0%nat by lia. reflexivity.
Qed.

Lemma fill_range : forall p lo hi c,
  0 <= lo -> lo <= hi -> hi <= Z.of_nat (length p) ->
  exists q, for_range lo hi (fun i p => wr p i c) p = Ok q /\ filled p lo hi c q.
Proof.
  intros p lo hi c H0 H1 H2.
  apply (for_range_inv (list Z) (fun j q => filled p lo j c q)).
  - exact H1.
  - split; [reflexivity|]. intro k.
    destruct (Z.leb_spec lo (Z.of_nat k)), (Z.ltb_spec (Z.of_nat k) lo); simpl; try reflexivity; lia.
  - intros j t Hj [Hlen Hnth]. exists (upd t (Z.to_nat j) c). split.
    + apply wr_ok. lia.
    + split; [rewrite length_upd; exact Hlen|]. intro k.
      rewrite nth_upd, Hnth.
      destruct (Nat.eqb_spec k (Z.to_nat j)).
      * subst k. destruct (Nat.ltb_spec (Z.to_nat j) (length t)); [|lia].
        destruct (Z.leb_spec lo (Z.of_nat (Z.to_nat j))), (Z.ltb_spec (Z.of_nat (Z.to_nat j)) (j + 1));
          simpl; try reflexivity; lia.
      * destruct (Z.leb_spec lo (Z.of_nat k)); simpl; try reflexivity.
        destruct (Z.ltb_spec (Z.of_nat k) j), (Z.ltb_spec (Z.of_nat k) (j + 1)); try reflexivity; lia.
Qed.

Lemma length_tabulate : forall n f, length (tabulate n f) = Z.to_nat n.
Proof. intros. unfold tabulate. rewrite length_map, length_seq. reflexivity. Qed.

Lemma nth_tabulate : forall n f k, (k < Z.to_nat n)%nat ->
  nth k (tabulate n f) 0 = f (Z.of_nat k).
Proof.
  intros n f k H. unfold tabulate.
  set (g := fun k : nat => f (Z.of_nat k)).
  transitivity (nth k (map g (seq 0 (Z.to_nat n))) (g 0%nat)).
  - apply nth_indep. rewrite length_map, length_seq. exact H.
  - rewrite (map_nth g). rewrite seq_nth by exact H. reflexivity.
Qed.

Lemma numWords_pos : forall bits, 0 < bits -> 0 < getNumWords2 bits false.
Proof.
  intros bits H. unfold getNumWords2, BITS_PER_WORD.
  apply Z.div_str_pos. lia.
Qed.

Lemma numWords_bounds : forall bits, 0 < bits ->
  64 * (getNumWords2 bits false - 1) < bits <= 64 * getNumWords2 bits false.
Proof.
  intros bits H. unfold getNumWords2, BITS_PER_WORD.
  pose proof (Z.div_mod (bits + 64 - 1) 64 ltac:(lia)).
  pose proof (Z.mod_pos_bound (bits + 64 - 1) 64 ltac:(lia)). lia.
Qed.

Lemma land_ones_mask : forall m, 0 < m < 64 ->
  shr64 UINT64_MAX (64 - m) = 2 ^ m - 1.
Proof.
  intros m H. unfold shr64, UINT64_MAX. rewrite u64_small by lia.
  change 18446744073709551615 with (Z.ones 64).
  rewrite Z.shiftr_div_pow2 by lia. rewrite Z.ones_div_pow2 by lia.
  replace (64 - (64 - m)) with m by lia. rewrite Z.ones_equiv. lia.
Qed.

Lemma setAllX_spec : forall x, shape x ->
  setAllX x = Ok (allX (bitWidth x) (signFlag x)).
Proof.
  intros x [Hw Hs]. unfold setAllX.
  pose proof (numWords_pos (bitWidth x) ltac:(lia)) as Hpos.
  set (w := getNumWords2 (bitWidth x) false) in *.
  assert (exists p, (if unknownFlag x
     then p <- get_pVal x;; p0 <- zero_words p w;; Ok (set_pVal x p0)
     else Ok {| bitWidth := bitWidth x; signFlag := signFlag x; unknownFlag := true;
                store := Heap (new_zeroed (w * 2)) |}) =
     Ok (mkSVInt (bitWidth x) (signFlag x) true (Heap p)) /\
     Z.of_nat (length p) = 2 * w /\ forall k, (k < Z.to_nat w)%nat -> nth k p 0 = 0) as [p [E [Hl Hz]]].
  { destruct (unknownFlag x) eqn:U.
    - destruct (store x) as [v|p] eqn:S; [destruct Hs as [Hs _]; unfold isSingleWord in Hs; rewrite U in Hs; rewrite andb_false_r in Hs; discriminate|].
      destruct Hs as [_ Hlen]. unfold getNumWords, getNumWords2 in Hlen. rewrite U in Hlen.
      fold (getNumWords2 (bitWidth x) false) in Hlen. fold w in Hlen.
      unfold get_pVal. rewrite S. cbn [bind]. unfold zero_words.
      destruct (fill_range p 0 w 0) as [q [Hq [Hql Hqn]]]; try lia.
      rewrite Hq. cbn [bind]. exists q. unfold set_pVal. rewrite U. split; [reflexivity|].
      split; [lia|]. intros k Hk. rewrite Hqn. bdestruct; try reflexivity; lia.
    - exists (new_zeroed (w * 2)). split; [reflexivity|]. unfold new_zeroed.
      rewrite repeat_length. split; [lia|]. intros k Hk. apply nth_repeat. }
  rewrite E. cbn [bind]. unfold get_pVal. cbn [store bind].
  destruct (fill_range p w (w * 2) UINT64_MAX) as [q [Hq [Hql Hqn]]]; try lia.
  rewrite Hq. cbn [bind]. unfold clearUnusedBits, set_pVal, isSingleWord, get_pVal, getNumWords.
  cbn [bitWidth unknownFlag signFlag store bind andb negb].
  rewrite andb_false_r. unfold getNumWords2 at 1 2. fold (getNumWords2 (bitWidth x) false). fold w.
  unfold allX. fold w. unfold BITS_PER_WORD.
  destruct (Z.eqb_spec (bitWidth x mod 64) 0) as [Hm|Hm].
  - f_equal. f_equal. f_equal. apply nth_ext0.
    + rewrite length_tabulate. lia.
    + intros k Hk. rewrite nth_tabulate by lia. rewrite Hqn.
      unfold topMask. rewrite Hm. cbn [Z.eqb].
      bdestruct; try reflexivity; try lia. apply Hz. lia.
  - pose proof (Z.mod_pos_bound (bitWidth x) 64 ltac:(lia)).
    rewrite land_ones_mask by lia.
    rewrite rd_ok by lia. cbn [bind]. rewrite wr_ok by lia. cbn [bind].
    rewrite rd_ok by (rewrite length_upd; lia). cbn [bind].
    rewrite wr_ok by (rewrite length_upd; lia). cbn [bind].
    f_equal. f_equal. f_equal. apply nth_ext0.
    + rewrite !length_upd, length_tabulate. lia.
    + rewrite !length_upd. intros k Hk. rewrite nth_tabulate by lia.
      rewrite !nth_upd, !length_upd. rewrite !Hqn.
      unfold topMask. destruct (Z.eqb_spec (bitWidth x mod 64) 0); [lia|].
      assert (Hones: Z.land UINT64_MAX (2 ^ (bitWidth x mod 64) - 1) = 2 ^ (bitWidth x mod 64) - 1).
      { unfold UINT64_MAX. change 18446744073709551615 with (Z.ones 64).
        rewrite Z.land_comm. rewrite Z.land_ones by lia.
        apply Z.mod_small. split; [lia|].
        assert (2 ^ (bitWidth x mod 64) <= 2 ^ 64) by (apply Z.pow_le_mono_r; lia). lia. }
      bdestruct; try reflexivity; try lia.
      all: try (rewrite Hz by lia).
      all: try (apply Hz; lia).
      all: try (rewrite Z.land_0_l; reflexivity).
      all: try exact Hones.
      all: reflexivity.
Qed.

(** ** Values that are all X *)

Lemma maskBit_land_ones : forall i m, 0 <= i -> i mod 64 < m ->
  Z.land (maskBit i) (2 ^ m - 1) = 2 ^ (i mod 64).
Proof.
  intros i m Hi Hm. unfold maskBit, whichBit, BITS_PER_WORD.
  pose proof (Z.mod_pos_bound i 64 ltac:(lia)).
  rewrite Z.shiftl_1_l. replace (2 ^ m - 1) with (Z.ones m) by (rewrite Z.ones_equiv; lia).
  rewrite Z.land_ones by lia. apply Z.mod_small. split.
  - apply Z.pow_nonneg. lia.
  - apply Z.pow_lt_mono_r; lia.
Qed.

Lemma shape_allX : forall bits sign, 0 < bits <= MAX_BITS -> shape (allX bits sign).
Proof.
  intros bits sign H. unfold shape, allX. cbn [bitWidth store]. split; [exact H|].
  unfold isSingleWord, getNumWords. cbn [bitWidth unknownFlag].
  rewrite andb_false_r. split; [reflexivity|].
  rewrite length_tabulate. pose proof (numWords_pos bits ltac:(lia)).
  unfold getNumWords2 at 2. fold (getNumWords2 bits false). lia.
Qed.

Lemma index_allX : forall bits sign i, 0 < bits <= MAX_BITS -> 0 <= i < bits ->
  index_int (allX bits sign) i = Ok logic_x.
Proof.
  intros bits sign i Hb Hi. unfold index_int, allX.
  cbn [bitWidth unknownFlag store]. unfold MAX_BITS in Hb.
  assert (Hu : u32 i = i) by (unfold u32; apply Z.mod_small; lia).
  rewrite Hu. unfold isSingleWord. cbn [bitWidth unknownFlag]. rewrite andb_false_r.
  destruct (Z.ltb_spec i 0); [lia|]. destruct (Z.leb_spec bits i); [lia|]. cbn [orb].
  unfold get_pVal. cbn [store bind negb].
  pose proof (numWords_bounds bits ltac:(lia)) as Hnb.
  pose proof (numWords_pos bits ltac:(lia)) as Hpos.
  set (w := getNumWords2 bits false) in *.
  assert (Hq : 0 <= i / 64 < w).
  { split; [apply Z.div_pos; lia|]. apply Z.div_lt_upper_bound; lia. }
  unfold whichWord, BITS_PER_WORD.
  rewrite rd_ok by (rewrite length_tabulate; lia). cbn [bind].
  rewrite nth_tabulate by lia. rewrite Z2Nat.id by lia.
  destruct (Z.ltb_spec (i / 64) w); [|lia].
  rewrite Z.land_0_r. cbn [Z.eqb negb].
  rewrite rd_ok by (rewrite length_tabulate; lia). cbn [bind].
  rewrite nth_tabulate by lia. rewrite Z2Nat.id by lia.
  destruct (Z.ltb_spec (i / 64 + w) w); [lia|].
  pose proof (Z.mod_pos_bound i 64 ltac:(lia)) as Hm.
  assert (Hne : forall u, Z.land (maskBit i) u = 2 ^ (i mod 64) ->
                negb (Z.land (maskBit i) u =? 0) = true).
  { intros u E. rewrite E. assert (0 < 2 ^ (i mod 64)) by (apply Z.pow_pos_nonneg; lia).
    destruct (Z.eqb_spec (2 ^ (i mod 64)) 0); [lia|reflexivity]. }
  destruct (Z.ltb_spec (i / 64 + w) (2 * w - 1)).
  - rewrite (Hne UINT64_MAX); [reflexivity|].
    change UINT64_MAX with (2 ^ 64 - 1). apply maskBit_land_ones; lia.
  - rewrite (Hne (topMask bits)); [reflexivity|]. unfold topMask.
    destruct (Z.eqb_spec (bits mod 64) 0) as [E|E].
    + change UINT64_MAX with (2 ^ 64 - 1). apply maskBit_land_ones; lia.
    + apply maskBit_land_ones; [lia|].
      assert (i / 64 = w - 1) by lia.
      pose proof (Z.div_mod i 64 ltac:(lia)). pose proof (Z.div_mod bits 64 ltac:(lia)).
      pose proof (Z.mod_pos_bound bits 64 ltac:(lia)).
      assert (bits <> 64 * w).
      { intro Hc. apply E. rewrite Hc, Z.mul_comm. apply Z.mod_mul. lia. }
      assert (bits / 64 = w - 1).
      { symmetry. apply Z.div_unique with (r := bits - 64 * (w - 1)); lia. }
      lia.
Qed.

Section FillX.
Variable junk : Z -> Z.

Lemma createFillX_spec : forall bits sign, 0 < bits <= MAX_BITS ->
  createFillX junk bits sign = Ok (allX bits sign).
Proof.
  intros bits sign H. unfold createFillX, allocUninitialized.
  rewrite orb_true_r. cbn [bind].
  apply (setAllX_spec (mkSVInt bits sign true (Heap (new_uninit junk (getNumWords2 bits true))))).
  unfold shape. cbn [bitWidth store]. split; [exact H|].
  unfold isSingleWord, getNumWords. cbn [bitWidth unknownFlag].
  rewrite andb_false_r. split; [reflexivity|].
  unfold new_uninit. rewrite length_map, length_seq.
  pose proof (numWords_pos bits ltac:(lia)).
  unfold getNumWords2 in *. lia.
Qed.

End FillX.

(** ** Storage invariants *)

Lemma length_Z_to_words : forall n z, length (Z_to_words n z) = n.
Proof. induction n as [|n IH]; intro z; simpl; [reflexivity|]. rewrite IH. reflexivity. Qed.

Lemma Z_to_words_0 : forall n k, nth k (Z_to_words n 0) 0 = 0.
Proof.
  induction n as [|n IH]; intro k; simpl.
  - destruct k; reflexivity.
  - destruct k as [|k]; [reflexivity|]. apply IH.
Qed.

Lemma words_to_Z_zero : forall ws, (forall k, nth k ws 0 = 0) -> words_to_Z ws = 0.
Proof.
  induction ws as [|w t IH]; intro H; simpl; [reflexivity|].
  rewrite IH.
  - pose proof (H 0%nat) as H0. simpl in H0. subst w. reflexivity.
  - intro k. exact (H (S k)).
Qed.

Lemma slice_ok : forall p off len,
  0 <= off -> 0 <= len -> off + len <= Z.of_nat (length p) ->
  slice p off len = Ok (firstn (Z.to_nat len) (skipn (Z.to_nat off) p)).
Proof.
  intros p off len H1 H2 H3. unfold slice.
  destruct (Z.ltb_spec off 0); [lia|]. destruct (Z.ltb_spec len 0); [lia|].
  destruct (Z.ltb_spec (Z.of_nat (length p)) (off + len)); [lia|]. reflexivity.
Qed.

Lemma length_slice : forall p off len s, slice p off len = Ok s ->
  length s = Z.to_nat len.
Proof.
  intros p off len s H. unfold slice in H.
  destruct (Z.ltb_spec off 0); [discriminate|]. destruct (Z.ltb_spec len 0); [discriminate|].
  destruct (Z.ltb_spec (Z.of_nat (length p)) (off + len)); [discriminate|].
  cbn [orb] in H. inversion H. rewrite length_firstn, length_skipn. lia.
Qed.

Lemma nth_slice : forall p off len k, (k < Z.to_nat len)%nat ->
  nth k (firstn (Z.to_nat len) (skipn (Z.to_nat off) p)) 0 = nth (Z.to_nat off + k) p 0.
Proof.
  intros p off len k H. rewrite nth_firstn.
  destruct (Nat.ltb_spec k (Z.to_nat len)); [|lia]. apply nth_skipn.
Qed.

Lemma blit_ok : forall p off ws,
  0 <= off -> off + Z.of_nat (length ws) <= Z.of_nat (length p) ->
  blit p off ws = Ok (firstn (Z.to_nat off) p ++ ws ++ skipn (Z.to_nat off + length ws) p).
Proof.
  intros p off ws H1 H2. unfold blit.
  destruct (Z.ltb_spec off 0); [lia|].
  destruct (Z.ltb_spec (Z.of_nat (length p)) (off + Z.of_nat (length ws))); [lia|]. reflexivity.
Qed.

Lemma length_blit : forall (p : list Z) off ws,
  0 <= off -> off + Z.of_nat (length ws) <= Z.of_nat (length p) ->
  length (firstn (Z.to_nat off) p ++ ws ++ skipn (Z.to_nat off + length ws) p) = length p.
Proof.
  intros p off ws H1 H2. rewrite !length_app, length_firstn, length_skipn. lia.
Qed.

Lemma nth_blit : forall p off ws k,
  0 <= off -> off + Z.of_nat (length ws) <= Z.of_nat (length p) ->
  nth k (firstn (Z.to_nat off) p ++ ws ++ skipn (Z.to_nat off + length ws) p) 0 =
  if Nat.leb (Z.to_nat off) k && Nat.ltb k (Z.to_nat off + length ws)
  then nth (k - Z.to_nat off) ws 0 else nth k p 0.
Proof.
  intros p off ws k H1 H2.
  assert (Hf : length (firstn (Z.to_nat off) p) = Z.to_nat off) by (rewrite length_firstn; lia).
  destruct (Nat.leb_spec (Z.to_nat off) k) as [Hk|Hk]; cbn [andb].
  - rewrite app_nth2 by lia. rewrite Hf.
    destruct (Nat.ltb_spec k (Z.to_nat off + length ws)) as [Hk2|Hk2].
    + rewrite app_nth1 by lia. reflexivity.
    + rewrite app_nth2 by lia. rewrite nth_skipn. f_equal. lia.
  - rewrite app_nth1 by lia. rewrite nth_firstn.
    destruct (Nat.ltb_spec k (Z.to_nat off)); [reflexivity|lia].
Qed.

Lemma isSingleWord_unknown : forall x, unknownFlag x = true -> isSingleWord x = false.
Proof. intros x H. unfold isSingleWord. rewrite H. apply andb_false_r. Qed.

Lemma shape_heap_known : forall x p, shape x -> store x = Heap p -> unknownFlag x = false ->
  64 < bitWidth x /\ Z.of_nat (length p) = getNumWords2 (bitWidth x) false.
Proof.
  intros x p [Hw Hs] E U. rewrite E in Hs. destruct Hs as [Hsw Hl].
  unfold isSingleWord in Hsw. rewrite U in Hsw. cbn [negb] in Hsw. rewrite andb_true_r in Hsw.
  unfold BITS_PER_WORD in Hsw. destruct (Z.leb_spec (bitWidth x) 64); [discriminate|].
  unfold getNumWords in Hl. rewrite U in Hl. split; [lia|exact Hl].
Qed.

(** [clearUnusedBits] keeps the buffer and masks the top word of each plane. *)
Lemma clearUnusedBits_heap : forall x p,
  0 < bitWidth x -> isSingleWord x = false -> store x = Heap p ->
  Z.of_nat (length p) = getNumWords x ->
  exists p', clearUnusedBits x = Ok (set_pVal x p') /\ length p' = length p /\
    forall k, nth k p' 0 =
      if is_top x k && negb (bitWidth x mod 64 =? 0) && (k <? length p)%nat
      then Z.land (nth k p 0) (2 ^ (bitWidth x mod 64) - 1) else nth k p 0.
Proof.
  intros x p Hw Hsw E Hl. unfold clearUnusedBits. rewrite Hsw. unfold BITS_PER_WORD.
  pose proof (numWords_pos (bitWidth x) Hw) as Hpos.
  assert (Hn : getNumWords2 (bitWidth x) false <= getNumWords x).
  { unfold getNumWords, getNumWords2 in *. destruct (unknownFlag x); lia. }
  destruct (Z.eqb_spec (bitWidth x mod 64) 0) as [Hm|Hm].
  - exists p. split; [|split; [reflexivity|]].
    + unfold set_pVal. f_equal. destruct x; cbn in *. subst. reflexivity.
    + intro k. rewrite andb_false_r. reflexivity.
  - pose proof (Z.mod_pos_bound (bitWidth x) 64 ltac:(lia)).
    rewrite land_ones_mask by lia.
    unfold get_pVal. rewrite E. cbn [bind].
    rewrite rd_ok by lia. cbn [bind]. rewrite wr_ok by lia. cbn [bind].
    destruct (unknownFlag x) eqn:U.
    + rewrite rd_ok by (rewrite length_upd; lia). cbn [bind].
      rewrite wr_ok by (rewrite length_upd; lia). cbn [bind].
      eexists. split; [reflexivity|]. split; [rewrite !length_upd; reflexivity|].
      intro k. rewrite !nth_upd, !length_upd. unfold is_top. rewrite U. cbn [negb andb].
      assert (getNumWords2 (bitWidth x) false - 1 <> getNumWords x - 1).
      { unfold getNumWords, getNumWords2 in *. rewrite U. lia. }
      bdestruct; try reflexivity; try lia; subst k; reflexivity.
    + eexists. split; [reflexivity|]. split; [rewrite !length_upd; reflexivity|].
      intro k. rewrite !nth_upd. unfold is_top. rewrite U. cbn [negb andb].
      bdestruct; try reflexivity; try lia; subst k; reflexivity.
Qed.

Lemma land_mask_range : forall v m, 0 <= m -> 0 <= Z.land v (2 ^ m - 1) < 2 ^ m.
Proof.
  intros v m Hm. replace (2 ^ m - 1) with (Z.ones m) by (rewrite Z.ones_equiv; lia).
  rewrite Z.land_ones by lia. apply Z.mod_pos_bound. apply Z.pow_pos_nonneg; lia.
Qed.

Lemma clearUnusedBits_inline : forall bits sign v,
  0 < bits <= 64 -> 0 <= v < 2 ^ 64 ->
  exists v', clearUnusedBits (mkSVInt bits sign false (Inline v)) =
               Ok (mkSVInt bits sign false (Inline v')) /\
             v' = v mod 2 ^ bits.
Proof.
  intros bits sign v Hb Hv. unfold clearUnusedBits, isSingleWord, BITS_PER_WORD.
  cbn [bitWidth unknownFlag negb].
  destruct (Z.leb_spec bits 64); [|lia]. cbn [andb].
  destruct (Z.eqb_spec (bits mod 64) 0) as [Hm|Hm].
  - exists v. split; [reflexivity|].
    assert (bits = 64).
    { destruct (Z.eq_dec bits 64); [assumption|].
      rewrite Z.mod_small in Hm by lia. lia. }
    subst bits. symmetry. apply Z.mod_small. exact Hv.
  - assert (bits < 64).
    { destruct (Z.eq_dec bits 64) as [->|]; [|lia]. exfalso. apply Hm. reflexivity. }
    rewrite Z.mod_small by lia. rewrite land_ones_mask by lia.
    unfold get_val, set_val. cbn [store bind bitWidth signFlag unknownFlag].
    eexists. split; [reflexivity|].
    replace (2 ^ bits - 1) with (Z.ones bits) by (rewrite Z.ones_equiv; lia).
    apply Z.land_ones. lia.
Qed.

Lemma length_new_zeroed : forall n, length (new_zeroed n) = Z.to_nat n.
Proof. intro n. unfold new_zeroed. apply repeat_length. Qed.

Lemma nth_new_zeroed : forall n k, nth k (new_zeroed n) 0 = 0.
Proof. intros n k. unfold new_zeroed. apply nth_repeat. Qed.

Lemma isSingleWord_known : forall x, unknownFlag x = false ->
  isSingleWord x = (bitWidth x <=? 64).
Proof. intros x U. unfold isSingleWord, BITS_PER_WORD. rewrite U. apply andb_true_r. Qed.

(** The constructor [(width, u64, signed)] builds a well-formed known value. *)
Lemma SVInt_ctor_spec : forall bits v sign, 0 < bits <= MAX_BITS ->
  exists x, SVInt_ctor bits v sign = Ok x /\ shape x /\
    bitWidth x = bits /\ signFlag x = sign /\ unknownFlag x = false /\
    (bits <= 64 -> store x = Inline (u64 v mod 2 ^ bits)) /\
    (u64 v = 0 -> zero_value x).
Proof.
  intros bits v sign Hb. unfold SVInt_ctor.
  rewrite isSingleWord_known by reflexivity. cbn [bitWidth].
  destruct (Z.leb_spec bits 64) as [Hle|Hgt].
  - destruct (clearUnusedBits_inline bits sign (u64 v)) as [v' [E Hv']];
      [lia|apply u64_range|].
    rewrite E. eexists. split; [reflexivity|]. subst v'.
    assert (0 <= u64 v mod 2 ^ bits < 2 ^ bits).
    { apply Z.mod_pos_bound. apply Z.pow_pos_nonneg; lia. }
    repeat split; cbn [bitWidth signFlag unknownFlag store]; try lia.
    + rewrite isSingleWord_known by reflexivity. cbn [bitWidth].
      destruct (Z.leb_spec bits 64); [reflexivity|lia].
    + intro Hv. unfold zero_value. cbn [store]. rewrite Hv. apply Z.mod_0_l.
      apply Z.pow_nonzero; lia.
  - unfold initSlowCase_u64.
    pose proof (numWords_pos bits ltac:(lia)) as Hpos.
    set (w := getNumWords2 bits false) in *.
    rewrite wr_ok by (rewrite length_new_zeroed; lia). cbn [bind].
    set (p0 := upd (new_zeroed w) (Z.to_nat 0) (u64 v)).
    assert (Hl0 : length p0 = Z.to_nat w) by (unfold p0; rewrite length_upd; apply length_new_zeroed).
    assert (exists p, (if sign && (to_int64 (u64 v) <? 0)
                       then for_range 1 w (fun i p => wr p i UINT64_MAX) p0
                       else Ok p0) = Ok p /\ length p = Z.to_nat w /\
                      (u64 v = 0 -> forall k, nth k p 0 = 0)) as [p [Ep [Hlp Hzp]]].
    { assert (Hz0 : u64 v = 0 -> forall k, nth k p0 0 = 0).
      { intros Hv k. unfold p0. rewrite nth_upd, Hv, nth_new_zeroed.
        destruct (Nat.eqb k (Z.to_nat 0)); [|reflexivity].
        destruct (Nat.ltb _ _); reflexivity. }
      destruct (sign && (to_int64 (u64 v) <? 0)) eqn:Es.
      - destruct (fill_range p0 1 w UINT64_MAX) as [q [Hq [Hql Hqn]]]; try lia.
        exists q. split; [exact Hq|]. split; [lia|].
        intros Hv. exfalso. apply andb_prop in Es. destruct Es as [_ Es].
        unfold to_int64 in Es. rewrite Hv in Es. cbn in Es. discriminate.
      - exists p0. auto. }
    rewrite Ep. cbn [bind].
    destruct (clearUnusedBits_heap (mkSVInt bits sign false (Heap p)) p) as [p' [E' [Hl' Hn']]];
      cbn [bitWidth store]; try reflexivity; try lia.
    { rewrite isSingleWord_known by reflexivity. cbn [bitWidth].
      destruct (Z.leb_spec bits 64); [lia|reflexivity]. }
    { unfold getNumWords. cbn [bitWidth unknownFlag]. fold w. lia. }
    rewrite E'. eexists. split; [reflexivity|].
    unfold set_pVal. cbn [bitWidth signFlag unknownFlag store].
    split.
    { unfold shape. cbn [bitWidth store]. split; [lia|]. split.
      - rewrite isSingleWord_known by reflexivity. cbn [bitWidth].
        destruct (Z.leb_spec bits 64); [lia|reflexivity].
      - unfold getNumWords. cbn [bitWidth unknownFlag]. fold w. lia. }
    split; [reflexivity|]. split; [reflexivity|]. split; [reflexivity|].
    split; [intro; lia|].
    intros Hv. unfold zero_value. cbn [store]. intro k.
    rewrite Hn'. rewrite !(Hzp Hv). rewrite ?Z.land_0_l.
    match goal with |- (if ?c then _ else _) = _ => destruct c end; reflexivity.
Qed.

Lemma numWords_small : forall bits, 0 < bits <= 64 -> getNumWords2 bits false = 1.
Proof.
  intros bits H. unfold getNumWords2, BITS_PER_WORD.
  symmetry. apply Z.div_unique with (r := bits - 1); lia.
Qed.

Lemma numWords_mono : forall a b, 0 < a <= b ->
  getNumWords2 a false <= getNumWords2 b false.
Proof.
  intros a b H. unfold getNumWords2, BITS_PER_WORD.
  apply Z.div_le_mono; lia.
Qed.

Lemma numWords_flag : forall bits u,
  getNumWords2 bits u = if u then 2 * getNumWords2 bits false else getNumWords2 bits false.
Proof. intros bits u. unfold getNumWords2. destruct u; lia. Qed.

Lemma getNumWords_unknown : forall x, unknownFlag x = true ->
  getNumWords x = 2 * getNumWords2 (bitWidth x) false.
Proof. intros x U. unfold getNumWords, getNumWords2. rewrite U. lia. Qed.

Lemma getNumWords_known : forall x, unknownFlag x = false ->
  getNumWords x = getNumWords2 (bitWidth x) false.
Proof. intros x U. unfold getNumWords. rewrite U. reflexivity. Qed.

Lemma getRawData_shape : forall x, shape x ->
  exists raw, getRawData x = Ok raw /\
    Z.of_nat (length raw) = getNumWords x /\
    (zero_value x -> forall k, nth k raw 0 = 0) /\
    match store x with
    | Inline v => raw = [v]
    | Heap p => raw = p
    end.
Proof.
  intros x [Hw Hs]. unfold getRawData, get_val, get_pVal.
  destruct (store x) as [v|p] eqn:E; destruct Hs as [Hsw Hx]; rewrite Hsw; cbn [bind].
  - exists [v]. split; [reflexivity|]. split; [|split; [|reflexivity]].
    + unfold isSingleWord, BITS_PER_WORD in Hsw. apply andb_prop in Hsw. destruct Hsw as [H1 H2].
      apply Z.leb_le in H1. apply negb_true_iff in H2.
      rewrite getNumWords_known by exact H2. rewrite numWords_small by lia. reflexivity.
    + unfold zero_value. rewrite E. intros Hz k. subst v.
      destruct k as [|[|k]]; reflexivity.
  - exists p. split; [reflexivity|]. split; [exact Hx|]. split; [|reflexivity].
    unfold zero_value. rewrite E. auto.
Qed.

(** A loop copying [n] words from [src + a] to [p + b]. *)
Lemma copy_range : forall (f g : Z -> Z) a b src p n,
  (forall i, f i = i + a) -> (forall i, g i = i + b) ->
  0 <= a -> 0 <= b -> 0 <= n ->
  a + n <= Z.of_nat (length src) -> b + n <= Z.of_nat (length p) ->
  exists q, for_range 0 n (fun i p => w <- rd src (f i) ;; wr p (g i) w) p = Ok q /\
    length q = length p /\
    forall k, nth k q 0 =
      if (b <=? Z.of_nat k) && (Z.of_nat k <? b + n)
      then nth (Z.to_nat (Z.of_nat k - b + a)) src 0 else nth k p 0.
Proof.
  intros f g a b src p n Hf Hg Ha Hb Hn Hs Hp.
  destruct (for_range_inv (list Z)
    (fun j q => length q = length p /\
       forall k, nth k q 0 =
         if (b <=? Z.of_nat k) && (Z.of_nat k <? b + j)
         then nth (Z.to_nat (Z.of_nat k - b + a)) src 0 else nth k p 0)
    (fun i p => w <- rd src (f i) ;; wr p (g i) w) 0 n p) as [q [Hq HP]].
  - exact Hn.
  - split; [reflexivity|]. intro k. bdestruct; try reflexivity; lia.
  - intros j t Hj [Hl Hk]. rewrite Hf, Hg.
    rewrite rd_ok by lia. cbn [bind]. rewrite wr_ok by lia.
    eexists. split; [reflexivity|]. split; [rewrite length_upd; exact Hl|].
    intro k. rewrite nth_upd, Hk.
    bdestruct; try reflexivity; try lia.
    subst k. f_equal. lia.
  - exists q. split; [exact Hq|]. exact HP.
Qed.

Section Extension.
Variable junk : Z -> Z.

Lemma length_new_uninit : forall n, length (new_uninit junk n) = Z.to_nat n.
Proof. intro n. unfold new_uninit. rewrite length_map, length_seq. reflexivity. Qed.

Lemma signExtend_spec : forall v bits, shape v -> bitWidth v < bits <= MAX_BITS ->
  exists v', signExtend junk v bits = Ok v' /\ shape v' /\
    bitWidth v' = bits /\ signFlag v' = signFlag v /\ unknownFlag v' = unknownFlag v /\
    (unknownFlag v = false -> zero_value v -> zero_value v').
Proof.
  intros v bits Hsh Hb. pose proof Hsh as [Hw Hs]. unfold signExtend.
  destruct (Z.ltb_spec (bitWidth v) bits); [|lia]. cbn [negb]. unfold BITS_PER_WORD.
  destruct ((bits <=? 64) && negb (unknownFlag v)) eqn:Efast.
  - apply andb_prop in Efast. destruct Efast as [Hle Hu].
    apply Z.leb_le in Hle. apply negb_true_iff in Hu.
    destruct (store v) as [a|p] eqn:E.
    + unfold get_val. rewrite E. cbn [bind].
      match goal with |- context [SVInt_ctor bits ?z (signFlag v)] =>
        destruct (SVInt_ctor_spec bits z (signFlag v)) as [x [Hx [Hshx [Hbx [Hsx [Hux [Hix Hzx]]]]]]];
        [lia|] end.
      exists x. split; [exact Hx|]. split; [exact Hshx|]. split; [exact Hbx|].
      split; [exact Hsx|]. split; [congruence|].
      intros _ Hz. apply Hzx. unfold zero_value in Hz. rewrite E in Hz. subst a.
      unfold shl64, shr64, to_int64. rewrite Z.shiftl_0_l.
      change (u64 0) with 0. change (0 <? 2 ^ 63) with true. cbv iota.
      rewrite Z.shiftr_0_l. change (u64 0) with 0. rewrite Z.shiftr_0_l. reflexivity.
    + exfalso. destruct Hs as [Hsw _]. rewrite isSingleWord_known in Hsw by exact Hu.
      destruct (Z.leb_spec (bitWidth v) 64); [discriminate|lia].
  - assert (Hbig : (64 <? bits) || unknownFlag v = true).
    { destruct (unknownFlag v); [apply orb_true_r|]. cbn [negb] in Efast.
      rewrite andb_true_r in Efast. destruct (Z.leb_spec bits 64); [discriminate|].
      destruct (Z.ltb_spec 64 bits); [reflexivity|lia]. }
    unfold allocUninitialized. rewrite Hbig. cbn [bind].
    destruct (getRawData_shape v Hsh) as [raw [Hraw [Hlraw [Hzraw Hrs]]]].
    rewrite Hraw. cbn [bind].
    pose proof (numWords_pos (bitWidth v) ltac:(lia)) as Hpo.
    pose proof (numWords_pos bits ltac:(lia)) as Hpn.
    pose proof (numWords_mono (bitWidth v) bits ltac:(lia)) as Hmono.
    set (ow := getNumWords2 (bitWidth v) false) in *.
    set (nw := getNumWords2 bits false) in *.
    assert (Hown : ow <= getNumWords v).
    { unfold getNumWords, getNumWords2 in *. destruct (unknownFlag v); lia. }
    unfold signExtendCopy. rewrite slice_ok by lia. cbn [bind].
    unfold get_pVal at 1. cbn [store bind].
    set (e := Z_to_words (Z.to_nat nw) _).
    assert (Hle : length e = Z.to_nat nw) by apply length_Z_to_words.
    assert (Hnn : nw <= getNumWords2 bits (unknownFlag v)).
    { rewrite (numWords_flag bits (unknownFlag v)). fold nw. destruct (unknownFlag v); lia. }
    rewrite blit_ok by (rewrite ?length_new_uninit; lia). cbn [bind].
    set (p1 := firstn _ _ ++ e ++ skipn _ _).
    assert (Hl1 : length p1 = Z.to_nat (getNumWords2 bits (unknownFlag v))).
    { unfold p1. rewrite length_blit by (rewrite ?length_new_uninit; lia).
      apply length_new_uninit. }
    destruct (unknownFlag v) eqn:U.
    + destruct (store v) as [a|p] eqn:E.
      { destruct Hs as [Hsw _]. rewrite isSingleWord_unknown in Hsw by exact U. discriminate. }
      destruct Hs as [_ Hlp]. rewrite getNumWords_unknown in Hlp by exact U. fold ow in Hlp.
      unfold get_pVal. rewrite E. cbn [bind].
      rewrite slice_ok by lia. cbn [bind].
      rewrite slice_ok by (rewrite ?length_firstn, ?length_skipn; lia). cbn [bind].
      set (e2 := Z_to_words (Z.to_nat nw) _).
      assert (Hle2 : length e2 = Z.to_nat nw) by apply length_Z_to_words.
      assert (Hnw2 : getNumWords2 bits true = 2 * nw) by (unfold nw, getNumWords2; lia).
      rewrite blit_ok by lia. cbn [bind].
      set (p2 := firstn _ p1 ++ e2 ++ skipn _ p1).
      assert (Hl2 : length p2 = length p1) by (unfold p2; apply length_blit; lia).
      match goal with |- context [clearUnusedBits ?x] =>
        pose proof (clearUnusedBits_heap x p2) as Hc
      end.
      destruct Hc as [p' [E' [Hl' Hn']]]; svsimpl; try reflexivity; try lia.
      { apply isSingleWord_unknown. reflexivity. }
      { rewrite getNumWords_unknown by reflexivity. svsimpl. fold nw. lia. }
      svsimpl_all. rewrite E'. eexists. split; [reflexivity|].
      split.
      { unfold shape. cbn [bitWidth store]. split; [lia|].
        split; [apply isSingleWord_unknown; reflexivity|].
        rewrite getNumWords_unknown by reflexivity. cbn [bitWidth]. fold nw. lia. }
      split; [reflexivity|]. split; [reflexivity|]. split; [reflexivity|].
      intro; discriminate.
    + cbn [bind]. rewrite orb_false_r in Hbig. apply Z.ltb_lt in Hbig.
      assert (Hsw' : forall q, isSingleWord (mkSVInt bits (signFlag v) false (Heap q)) = false).
      { intro q. rewrite isSingleWord_known by reflexivity. cbn [bitWidth].
        destruct (Z.leb_spec bits 64); [lia|reflexivity]. }
      match goal with |- context [clearUnusedBits ?x] =>
        pose proof (clearUnusedBits_heap x p1) as Hc
      end.
      destruct Hc as [p' [E' [Hl' Hn']]]; svsimpl; try reflexivity; try lia.
      { apply Hsw'. }
      { rewrite getNumWords_known by reflexivity. svsimpl. fold nw. lia. }
      svsimpl_all. rewrite E'. eexists. split; [reflexivity|].
      split.
      { unfold shape. cbn [bitWidth store]. split; [lia|].
        split; [apply Hsw'|].
        rewrite getNumWords_known by reflexivity. cbn [bitWidth]. fold nw. lia. }
      split; [reflexivity|]. split; [reflexivity|]. split; [reflexivity|].
      intros _ Hz. unfold zero_value. cbn [store]. intro k. rewrite Hn'.
      assert (Hp1 : forall j, nth j p1 0 = 0).
      { intro j. unfold p1. rewrite nth_blit by (rewrite ?length_new_uninit; fold nw; lia).
        destruct (Nat.leb_spec (Z.to_nat 0) j); cbn [andb].
        - destruct (Nat.ltb_spec j (Z.to_nat 0 + length e)).
          + unfold e. rewrite words_to_Z_zero.
            * rewrite Z.mod_0_l by (apply Z.pow_nonzero; lia). rewrite Z.testbit_0_l.
              apply Z_to_words_0.
            * intro i. destruct (Nat.ltb_spec i (Z.to_nat ow)).
              -- rewrite nth_slice by lia. apply Hzraw. exact Hz.
              -- apply nth_overflow. rewrite length_firstn. lia.
          + apply nth_overflow. rewrite length_new_uninit. fold nw. lia.
        - lia. }
      rewrite !Hp1. rewrite Z.land_0_l.
      match goal with |- (if ?c then _ else _) = _ => destruct c end; reflexivity.
Qed.

Lemma zeroExtend_spec : forall v bits, shape v -> bitWidth v < bits <= MAX_BITS ->
  exists v', zeroExtend v bits = Ok v' /\ shape v' /\
    bitWidth v' = bits /\ signFlag v' = signFlag v /\ unknownFlag v' = unknownFlag v /\
    (unknownFlag v = false -> zero_value v -> zero_value v').
Proof.
  intros v bits Hsh Hb. pose proof Hsh as [Hw Hs]. unfold zeroExtend.
  destruct (Z.ltb_spec (bitWidth v) bits); [|lia]. cbn [negb]. unfold BITS_PER_WORD.
  destruct ((bits <=? 64) && negb (unknownFlag v)) eqn:Efast.
  - apply andb_prop in Efast. destruct Efast as [Hle Hu].
    apply Z.leb_le in Hle. apply negb_true_iff in Hu.
    destruct (store v) as [a|p] eqn:E.
    + unfold get_val. rewrite E. cbn [bind].
      destruct (SVInt_ctor_spec bits a (signFlag v)) as [x [Hx [Hshx [Hbx [Hsx [Hux [Hix Hzx]]]]]]];
        [lia|].
      exists x. split; [exact Hx|]. split; [exact Hshx|]. split; [exact Hbx|].
      split; [exact Hsx|]. split; [congruence|].
      intros _ Hz. apply Hzx. unfold zero_value in Hz. rewrite E in Hz. subst a. reflexivity.
    + exfalso. destruct Hs as [Hsw _]. rewrite isSingleWord_known in Hsw by exact Hu.
      destruct (Z.leb_spec (bitWidth v) 64); [discriminate|lia].
  - destruct (getRawData_shape v Hsh) as [raw [Hraw [Hlraw [Hzraw Hrs]]]].
    rewrite Hraw. cbn [bind].
    pose proof (numWords_pos (bitWidth v) ltac:(lia)) as Hpo.
    pose proof (numWords_pos bits ltac:(lia)) as Hpn.
    pose proof (numWords_mono (bitWidth v) bits ltac:(lia)) as Hmono.
    pose proof (numWords_flag bits (unknownFlag v)) as Hfl.
    pose proof (numWords_flag (bitWidth v) (unknownFlag v)) as Hfl2.
    fold (getNumWords v) in Hfl2.
    set (ow := getNumWords2 (bitWidth v) false) in *.
    set (nw := getNumWords2 bits false) in *.
    set (p0 := new_zeroed (getNumWords2 bits (unknownFlag v))).
    assert (Hl0 : length p0 = Z.to_nat (getNumWords2 bits (unknownFlag v)))
      by apply length_new_zeroed.
    destruct (copy_range (fun i => i) (fun i => i) 0 0 raw p0 ow) as [q [Hq [Hlq Hnq]]];
      try (intros; lia); try (destruct (unknownFlag v); lia).
    cbv beta in Hq. rewrite Hq. cbn [bind].
    assert (Hsw' : isSingleWord (mkSVInt bits (signFlag v) (unknownFlag v) (Heap q)) = false).
    { unfold isSingleWord, BITS_PER_WORD. cbn [bitWidth unknownFlag]. exact Efast. }
    destruct (unknownFlag v) eqn:U.
    + destruct (copy_range (fun i => i + ow) (fun i => i + nw) ow nw raw q ow) as [q2 [Hq2 [Hlq2 Hnq2]]];
        try (intros; lia).
      cbv beta in Hq2. rewrite Hq2. cbn [bind].
      eexists. split; [reflexivity|]. split.
      { unfold shape. cbn [bitWidth store]. split; [lia|].
        split; [apply isSingleWord_unknown; reflexivity|].
        rewrite getNumWords_unknown by reflexivity. cbn [bitWidth]. fold nw. lia. }
      split; [reflexivity|]. split; [reflexivity|]. split; [reflexivity|].
      intro; discriminate.
    + eexists. split; [reflexivity|]. split.
      { unfold shape. cbn [bitWidth store]. split; [lia|]. split; [exact Hsw'|].
        rewrite getNumWords_known by reflexivity. cbn [bitWidth]. fold nw. lia. }
      split; [reflexivity|]. split; [reflexivity|]. split; [reflexivity|].
      intros _ Hz. unfold zero_value. cbn [store]. intro k. rewrite Hnq.
      unfold p0. rewrite nth_new_zeroed. rewrite (Hzraw Hz).
      match goal with |- (if ?c then _ else _) = _ => destruct c end; reflexivity.
Qed.

Lemma extend_spec : forall v bits sign, shape v -> bitWidth v < bits <= MAX_BITS ->
  exists v', extend junk v bits sign = Ok v' /\ shape v' /\
    bitWidth v' = bits /\ signFlag v' = signFlag v /\ unknownFlag v' = unknownFlag v /\
    (unknownFlag v = false -> zero_value v -> zero_value v').
Proof.
  intros v bits sign Hsh Hb. unfold extend. destruct sign.
  - apply signExtend_spec; assumption.
  - apply zeroExtend_spec; assumption.
Qed.

(** Width unification: both operands come out well-formed at the larger
    width, with their own flags. *)
Lemma unify_spec : forall a b sign, shape a -> shape b ->
  exists a' b', unify junk a b sign = Ok (a', b') /\ shape a' /\ shape b' /\
    bitWidth a' = Z.max (bitWidth a) (bitWidth b) /\
    bitWidth b' = Z.max (bitWidth a) (bitWidth b) /\
    signFlag a' = signFlag a /\ signFlag b' = signFlag b /\
    unknownFlag a' = unknownFlag a /\ unknownFlag b' = unknownFlag b /\
    (unknownFlag b = false -> zero_value b -> zero_value b').
Proof.
  intros a b sign Ha Hb. unfold unify.
  pose proof Ha as [Hwa _]. pose proof Hb as [Hwb _].
  destruct (Z.eqb_spec (bitWidth a) (bitWidth b)) as [E|E].
  - exists a, b. split; [reflexivity|]. repeat (split; [first [assumption|reflexivity|lia]|]).
    auto.
  - destruct (Z.ltb_spec (bitWidth a) (bitWidth b)).
    + destruct (extend_spec a (bitWidth b) sign Ha) as [e [He [Hse [Hbe [Hsge [Hue _]]]]]]; [lia|].
      rewrite He. cbn [bind]. exists e, b. split; [reflexivity|].
      repeat (split; [first [assumption|reflexivity|lia]|]). auto.
    + destruct (extend_spec b (bitWidth a) sign Hb) as [e [He [Hse [Hbe [Hsge [Hue Hze]]]]]]; [lia|].
      rewrite He. cbn [bind]. exists a, e. split; [reflexivity|].
      repeat (split; [first [assumption|reflexivity|lia]|]). exact Hze.
Qed.

End Extension.

(** ** X-propagation of the arithmetic operators *)

Lemma allX_yields : forall bits sign, 0 < bits <= MAX_BITS ->
  yields_all_X (Ok (allX bits sign)) bits sign.
Proof.
  intros bits sign H. exists (allX bits sign).
  split; [reflexivity|]. split; [reflexivity|]. split; [reflexivity|].
  split; [reflexivity|]. intros i Hi. apply index_allX; assumption.
Qed.

Section Propagation.
Variable junk : Z -> Z.

Lemma max_width : forall a b, shape a -> shape b ->
  0 < Z.max (bitWidth a) (bitWidth b) <= MAX_BITS.
Proof. intros a b [Ha _] [Hb _]. lia. Qed.











End Propagation.

(** ** C1 on concrete operands *)


Lemma shape_v_3d1 : shape v_3d1.
Proof. unfold shape, MAX_BITS. cbn. repeat split; lia. Qed.




(** ** Division and remainder by zero *)

Lemma msw_bits : forall bits, 0 < bits ->
  64 * (getNumWords2 bits false - 1)
  + (if bits mod 64 =? 0 then 64 else bits mod 64) = bits.
Proof.
  intros bits H. pose proof (numWords_bounds bits H) as Hb.
  pose proof (Z.div_mod bits 64 ltac:(lia)) as Hd.
  pose proof (Z.mod_pos_bound bits 64 ltac:(lia)) as Hm.
  set (w := getNumWords2 bits false) in *.
  destruct (Z.eqb_spec (bits mod 64) 0) as [E|E].
  - assert (bits / 64 = w) by nia. lia.
  - assert (bits / 64 = w - 1) by nia. lia.
Qed.

Lemma clz_words_zero : forall p i c, (forall k, nth k p 0 = 0) ->
  (i <= length p)%nat -> clz_words p i c = Ok (c + 64 * Z.of_nat i).
Proof.
  intros p i. induction i as [|i IH]; intros c Hz Hl.
  - simpl. f_equal. lia.
  - cbn [clz_words]. rewrite rd_ok by lia. cbn [bind].
    rewrite Nat2Z.id, Hz. cbn [Z.eqb]. rewrite IH by (auto; lia).
    unfold BITS_PER_WORD. f_equal. lia.
Qed.

Lemma getActiveBits_zero : forall x, shape x -> unknownFlag x = false ->
  zero_value x -> getActiveBits x = Ok 0.
Proof.
  intros x [Hw Hs] U Hz. unfold getActiveBits, countLeadingZeros.
  unfold zero_value in Hz.
  destruct (store x) as [v|p] eqn:E; destruct Hs as [Hsw Hx]; rewrite Hsw.
  - unfold get_val. rewrite E. cbn [bind]. subst v.
    unfold countLeadingZeros64, BITS_PER_WORD. change (u64 0 =? 0) with true. cbv iota.
    f_equal. lia.
  - unfold countLeadingZerosSlowCase, getTopWordMask, get_pVal, BITS_PER_WORD.
    rewrite E. rewrite getNumWords_known in * by exact U.
    pose proof (numWords_pos (bitWidth x) ltac:(lia)) as Hpos.
    pose proof (msw_bits (bitWidth x) ltac:(lia)) as Hmsw.
    set (w := getNumWords2 (bitWidth x) false) in *.
    destruct (Z.eqb_spec (bitWidth x mod 64) 0) as [Em|Em]; cbn [negb bind];
      rewrite rd_ok by lia; cbn [bind]; rewrite Hz, Z.land_0_l; cbn [Z.eqb negb];
      rewrite clz_words_zero by (auto; lia); cbn [bind]; f_equal; lia.
Qed.

Lemma SVInt_of_int_zero :
  SVInt_of_int 0 true = Ok (mkSVInt 1 true false (Inline 0)).
Proof. vm_compute. reflexivity. Qed.

Lemma shape_lit_zero : shape (mkSVInt 1 true false (Inline 0)).
Proof. unfold shape, MAX_BITS. cbn. repeat split; lia. Qed.

Section DivideByZero.
Variable junk : Z -> Z.

(** [rhs == 0] holds for a known value whose words are all zero. *)
Lemma eq_int_zero : forall x, shape x -> unknownFlag x = false -> zero_value x ->
  eq_int junk x 0 = Ok (logic_of_bool true).
Proof.
  intros x Hsh U Hz. unfold eq_int. rewrite SVInt_of_int_zero. cbn [bind].
  set (lit := mkSVInt 1 true false (Inline 0)).
  pose proof Hsh as [Hw Hs]. unfold eq_sv.
  destruct (isSingleWord x) eqn:Hsw.
  - cbn [andb isSingleWord]. change (isSingleWord lit) with true. cbv iota.
    unfold get_val. destruct (store x) as [v|p] eqn:E.
    + cbn [bind store lit]. unfold zero_value in Hz. rewrite E in Hz. subst v. reflexivity.
    + destruct Hs as [Hf _]. congruence.
  - cbn [andb]. unfold equalsSlowCase. cbn [equalsSlowCase_rec].
    rewrite U. change (unknownFlag lit) with false. cbn [orb].
    change (bitWidth lit) with 1. change (signFlag lit) with true.
    rewrite isSingleWord_known in Hsw by exact U.
    destruct (Z.leb_spec (bitWidth x) 64) as [|Hbig]; [discriminate|].
    destruct (Z.eqb_spec (bitWidth x) 1); [lia|]. cbn [negb andb].
    rewrite andb_true_r.
    destruct (signFlag x) eqn:Sx.
    + destruct (Z.ltb_spec (bitWidth x) 1); [lia|].
      destruct (signExtend_spec junk lit (bitWidth x) shape_lit_zero)
        as [e [He [Hse [Hbe [Hsge [Hue Hze]]]]]]; [cbn; lia|].
      rewrite He. cbn [bind equalsSlowCase_rec]. rewrite Hue. change (unknownFlag lit) with false.
      cbn [orb]. rewrite Hbe, Z.eqb_refl. cbn [negb andb].
      rewrite (getActiveBits_zero e Hse Hue (Hze eq_refl eq_refl)). cbn [bind].
      rewrite (getActiveBits_zero x Hsh U Hz). cbn [bind]. reflexivity.
    + rewrite isSingleWord_known by exact U.
      destruct (Z.leb_spec (bitWidth x) 64); [lia|]. cbn [andb].
      rewrite (getActiveBits_zero x Hsh U Hz). cbn [bind].
      rewrite (getActiveBits_zero lit shape_lit_zero eq_refl eq_refl). cbn [bind].
      reflexivity.
Qed.

Lemma div_by_zero : forall same a b, shape a -> shape b ->
  unknownFlag a = false -> unknownFlag b = false -> zero_value b ->
  div_sv junk same a b =
  Ok (allX (Z.max (bitWidth a) (bitWidth b)) (signFlag a && signFlag b)).
Proof.
  intros same a b Ha Hb Ua Ub Hz. unfold div_sv.
  destruct (unify_spec junk a b (signFlag a && signFlag b) Ha Hb)
    as [a' [b' [E [Ha' [Hb' [Wa [Wb [Sa [Sb [Ua' [Ub' Hz']]]]]]]]]]].
  rewrite E. cbn [bind]. rewrite Ua', Ub', Ua, Ub. cbn [orb].
  rewrite eq_int_zero by (auto; congruence). cbn [bind logic_to_bool].
  change (logic_to_bool (logic_of_bool true)) with true. cbv iota.
  rewrite Wa. apply createFillX_spec. apply max_width; assumption.
Qed.

Lemma rem_by_zero : forall same a b, shape a -> shape b ->
  unknownFlag a = false -> unknownFlag b = false -> zero_value b ->
  rem_sv junk same a b =
  Ok (allX (Z.max (bitWidth a) (bitWidth b)) (signFlag a && signFlag b)).
Proof.
  intros same a b Ha Hb Ua Ub Hz. unfold rem_sv.
  destruct (unify_spec junk a b (signFlag a && signFlag b) Ha Hb)
    as [a' [b' [E [Ha' [Hb' [Wa [Wb [Sa [Sb [Ua' [Ub' Hz']]]]]]]]]]].
  rewrite E. cbn [bind]. rewrite Ua', Ub', Ua, Ub. cbn [orb].
  rewrite eq_int_zero by (auto; congruence). cbn [bind logic_to_bool].
  change (logic_to_bool (logic_of_bool true)) with true. cbv iota.
  rewrite Wa. apply createFillX_spec. apply max_width; assumption.
Qed.

(** C2.  For operands without unknown bits and a divisor whose value is
    zero, [/] and [%] return normally (no exception, no fault), and what they
    return is all X at the larger of the two widths, signed iff both
    operands are signed. *)
Theorem C2_divide_by_zero : forall (same : bool) (a b : SVInt),
  shape a -> shape b ->
  hasUnknown a = false -> hasUnknown b = false -> zero_value b ->
  yields_all_X (div_sv junk same a b)
    (Z.max (bitWidth a) (bitWidth b)) (signFlag a && signFlag b) /\
  yields_all_X (rem_sv junk same a b)
    (Z.max (bitWidth a) (bitWidth b)) (signFlag a && signFlag b).
Proof.
  intros same a b Ha Hb Ua Ub Hz.
  rewrite (div_by_zero same), (rem_by_zero same) by assumption.
  split; apply allX_yields; apply max_width; assumption.
Qed.

End DivideByZero.

(** ** Concrete runs *)

Lemma shape_v_16sd1000 : shape v_16sd1000.
Proof. unfold shape, MAX_BITS. cbn. repeat split; lia. Qed.

Lemma shape_v_16sd0 : shape v_16sd0.
Proof. unfold shape, MAX_BITS. cbn. repeat split; lia. Qed.

Lemma C2_divide_by_zero_witness :
  yields_all_X (div_sv heap0 false v_16sd1000 v_16sd0) 16 true /\
  yields_all_X (rem_sv heap0 false v_16sd1000 v_16sd0) 16 true.
Proof.
  exact (C2_divide_by_zero heap0 false v_16sd1000 v_16sd0
           shape_v_16sd1000 shape_v_16sd0 eq_refl eq_refl eq_refl).
Defined.

(** C3 at the operands of the spec's own scenario.  The left operand is
    known and lives in the inline word, so [operator&=] runs [val &= rhs.val];
    the right operand has an unknown bit, its payload is the heap buffer, and
    the union member [val] read there holds the buffer's address.  The
    unknown plane of the right operand is never consulted, and the call has
    no defined result. *)
Theorem C3_and_known_with_unknown :
  fromString heap0 "8'b1100" = Ok v_8b1100 /\
  fromString heap0 "8'b10x0" = Ok v_8b10x0 /\
  and_sv heap0 v_8b1100 v_8b10x0 = Fault.
Proof. repeat split; vm_compute; reflexivity. Qed.

(** C4 at a failing input.  [8'b0000000x & 8'bxxxxxxx0] masks every unknown
    position away: the unknown plane of the result is zero, every bit reads
    as a known 0, and yet [unknownFlag] is still set and the value is still
    on the heap with two planes, because [operator&=] ends with
    [clearUnusedBits] and never calls [checkUnknown]. *)
Theorem C4_and_keeps_unknown_flag :
  fromString heap0 "8'b0x" = Ok v_8b0x /\
  fromString heap0 "8'bx0" = Ok v_8bx0 /\
  and_sv heap0 v_8b0x v_8bx0 = Ok (mkSVInt 8 false true (Heap [0; 0])) /\
  hasUnknown (mkSVInt 8 false true (Heap [0; 0])) = true /\
  checkUnknown (mkSVInt 8 false true (Heap [0; 0])) = Ok (mkSVInt 8 false false (Inline 0)).
Proof. repeat split; vm_compute; reflexivity. Qed.

(** C5 at a failing input.  With an X condition and both operands equal to
    [4'bzzzz], [conditional] leaves through the shortcut
    [if (exactlyEqual(lhs, rhs)) return rhs] and returns [4'bzzzz]: every
    bit reads Z, where the reconciliation loop below the shortcut (and the
    claim) give X for a position that is unknown in both operands. *)
Theorem C5_conditional_equal_z :
  fromString heap0 "1'bx" = Ok v_1bx /\
  fromString heap0 "4'bz" = Ok v_4bzzzz /\
  conditional heap0 v_1bx v_4bzzzz v_4bzzzz = Ok v_4bzzzz /\
  index_int v_4bzzzz 0 = Ok logic_z /\
  index_int v_4bzzzz 0 <> Ok logic_x.
Proof.
  repeat split; try (vm_compute; reflexivity).
  vm_compute. discriminate.
Qed.

(** C8 as stated fails: [toString()] of a value with an unknown bit picks
    the binary base, so the text is not ["16'hxxxx"]. *)
Lemma C8_toString_counterexample :
  (x <- fromString heap0 "16'hx" ;; toString heap0 x) <> Ok "16'hxxxx"%string.
Proof. vm_compute. discriminate. Qed.

Section Formatting.
Variable junk : Z -> Z.

(** C8, as the code has it.  ["16'hx"] parses to the 16-bit value whose
    every bit is X; [toString()] with no base chooses binary, because the
    value has unknown bits, and gives ["16'bxxxxxxxxxxxxxxxx"]; the text
    ["16'hxxxx"] is what [toString(LiteralBase::Hex)] gives. *)
Theorem C8_toString_unknown :
  fromString junk "16'hx" = Ok (allX 16 false) /\
  all_X (allX 16 false) /\
  toString junk (allX 16 false) = Ok "16'bxxxxxxxxxxxxxxxx"%string /\
  toString_base junk (allX 16 false) Hex = Ok "16'hxxxx"%string.
Proof.
  split; [vm_compute; reflexivity|]. split.
  - intros i Hi. apply index_allX; [unfold MAX_BITS; lia|exact Hi].
  - split; vm_compute; reflexivity.
Qed.

End Formatting.

(** ** Indexing with an SVInt index *)

Lemma index_int_negative : forall x i, i < 0 -> index_int x i = Ok logic_x.
Proof.
  intros x i H. unfold index_int. destruct (Z.ltb_spec i 0); [reflexivity|lia].
Qed.

Lemma index_sv_no_conversion : forall x index,
  as_int 32 true index = Ok None -> index_sv x index = Ok logic_x.
Proof. intros x index H. unfold index_sv. rewrite H. reflexivity. Qed.

Lemma as_int_unknown : forall tbits tsigned index, hasUnknown index = true ->
  as_int tbits tsigned index = Ok None.
Proof. intros tbits tsigned index H. unfold as_int. unfold hasUnknown in H. rewrite H. reflexivity. Qed.

Lemma log2_ge : forall v k, 0 <= k -> 2 ^ k <= v -> k <= Z.log2 v.
Proof.
  intros v k Hk Hv. apply Z.log2_le_pow2; [|exact Hv].
  assert (0 < 2 ^ k) by (apply Z.pow_pos_nonneg; lia). lia.
Qed.

Lemma land_maskbit_small : forall v k, 0 <= k < 64 -> 0 <= v < 2 ^ k ->
  Z.land (maskBit k) v = 0.
Proof.
  intros v k Hk Hv. unfold maskBit, whichBit, BITS_PER_WORD.
  rewrite Z.mod_small by lia. rewrite Z.shiftl_1_l.
  destruct (Z.eq_dec v 0) as [->|Hv0]; [apply Z.land_0_r|].
  apply Z.bits_inj'. intros n Hn. rewrite Z.land_spec, Z.bits_0.
  destruct (Z.eq_dec n k) as [->|Hne].
  - rewrite (Z.bits_above_log2 v k); [apply andb_false_r|lia|].
    apply Z.log2_lt_pow2; lia.
  - rewrite Z.pow2_bits_eqb by lia. destruct (Z.eqb_spec k n); [lia|reflexivity].
Qed.

(** An inline index whose value is above INT32_MAX reads X. *)
Lemma index_sv_too_large : forall x index v,
  shape index -> store index = Inline v -> INT32_MAX < inline_value index v ->
  index_sv x index = Ok logic_x.
Proof.
  intros x index v [Hw Hs] E Hv. rewrite E in Hs. destruct Hs as [Hsw Hr].
  unfold isSingleWord, BITS_PER_WORD in Hsw. apply andb_prop in Hsw.
  destruct Hsw as [Hle Hu]. apply Z.leb_le in Hle. apply negb_true_iff in Hu.
  unfold INT32_MAX, inline_value in Hv.
  assert (Hsw : isSingleWord index = true).
  { rewrite isSingleWord_known by exact Hu. apply Z.leb_le. exact Hle. }
  assert (Hpos : 2 ^ 31 <= v /\ (signFlag index = true -> v < 2 ^ (bitWidth index - 1))).
  { destruct (signFlag index); cbn [andb] in Hv.
    - destruct (Z.leb_spec (2 ^ (bitWidth index - 1)) v); [lia|]. split; [lia|auto].
    - split; [lia|]. intro; discriminate. }
  destruct Hpos as [Hv31 Hsg].
  assert (Hact : getActiveBits index = Ok (Z.log2 v + 1)).
  { unfold getActiveBits, countLeadingZeros. rewrite Hsw. unfold get_val. rewrite E.
    cbn [bind]. unfold countLeadingZeros64, BITS_PER_WORD.
    assert (Hv64 : 2 ^ bitWidth index <= 2 ^ 64) by (apply Z.pow_le_mono_r; lia).
    rewrite u64_small by lia. destruct (Z.eqb_spec v 0); [lia|]. f_equal. lia. }
  pose proof (log2_ge v 31 ltac:(lia) Hv31) as Hlog.
  unfold index_sv, as_int. rewrite Hu. unfold getMinRepresentedBits.
  destruct (signFlag index) eqn:Sg; cbn [negb].
  - assert (Hneg : isNegative index = Ok false).
    { unfold isNegative, index_int. rewrite Hsw.
      assert (Hu32 : u32 (bitWidth index - 1) = bitWidth index - 1)
        by (unfold u32; apply Z.mod_small; lia).
      rewrite Hu32.
      destruct (Z.ltb_spec (bitWidth index - 1) 0); [lia|].
      destruct (Z.leb_spec (bitWidth index) (bitWidth index - 1)); [lia|]. cbn [orb].
      unfold get_val. rewrite E. cbn [bind]. rewrite Hu. cbn [negb].
      rewrite land_maskbit_small by (first [lia | split; [lia|apply Hsg; reflexivity]]).
      reflexivity. }
    rewrite Hneg. cbn [bind]. rewrite Hact. cbn [bind].
    destruct (Z.ltb_spec 32 (Z.log2 v + 1 + 1)); [reflexivity|lia].
  - rewrite Hact. cbn [bind].
    destruct (Z.ltb_spec 32 (Z.log2 v + 1)); [reflexivity|].
    assert (Hlog31 : Z.log2 v = 31) by lia.
    unfold getRawData. rewrite Hsw. unfold get_val. rewrite E. cbn [bind].
    rewrite rd_ok by (cbn; lia). cbn [bind nth Z.to_nat].
    assert (Hneg : exists b, isNegative index = Ok b).
    { unfold isNegative, index_int. rewrite Hsw.
      assert (Hu32 : u32 (bitWidth index - 1) = bitWidth index - 1)
        by (unfold u32; apply Z.mod_small; lia).
      rewrite Hu32.
      destruct (Z.ltb_spec (bitWidth index - 1) 0); [lia|].
      destruct (Z.leb_spec (bitWidth index) (bitWidth index - 1)); [lia|]. cbn [orb].
      unfold get_val. rewrite E. cbn [bind]. rewrite Hu. cbn [negb bind]. eauto. }
    destruct Hneg as [b Hb]. rewrite Hb. cbn [bind andb].
    assert (Hv32 : v < 2 ^ 32).
    { pose proof (Z.log2_spec v ltac:(lia)) as [_ Hs2]. rewrite Hlog31 in Hs2.
      exact Hs2. }
    rewrite (Z.mod_small v (2 ^ 32)) by lia.
    destruct (Z.leb_spec (2 ^ (32 - 1)) v); [|lia]. cbn [andb].
    apply index_int_negative. lia.
Qed.

(** C10.  [operator[]] with an SVInt index answers X whenever the index
    does not convert to an [int32_t], and the width of the indexed value
    plays no part in that; an index with an unknown bit does not convert,
    and an index above INT32_MAX reads X as well. *)
Theorem C10_index_not_convertible : forall (x index : SVInt),
  (as_int 32 true index = Ok None -> index_sv x index = Ok logic_x) /\
  (hasUnknown index = true -> index_sv x index = Ok logic_x) /\
  (forall v, shape index -> store index = Inline v ->
             INT32_MAX < inline_value index v -> index_sv x index = Ok logic_x).
Proof.
  intros x index. split; [|split].
  - apply index_sv_no_conversion.
  - intro H. apply index_sv_no_conversion. apply as_int_unknown. exact H.
  - intros v. apply index_sv_too_large.
Qed.

Lemma shape_v_40d3000000000 : shape v_40d3000000000.
Proof. unfold shape, MAX_BITS. cbn. repeat split; lia. Qed.

Lemma C10_index_not_convertible_witness :
  index_sv v_8b1100 v_40d3000000000 = Ok logic_x /\
  index_sv v_8b1100 v_3bxxx = Ok logic_x.
Proof.
  split.
  - destruct (C10_index_not_convertible v_8b1100 v_40d3000000000) as [_ [_ H]].
    apply (H 3000000000 shape_v_40d3000000000 eq_refl).
    unfold INT32_MAX, inline_value. cbn. lia.
  - destruct (C10_index_not_convertible v_8b1100 v_3bxxx) as [H1 [H2 _]].
    apply H2. reflexivity.
Defined.

(** ** Power keeps the width of its left operand *)

Lemma clz64_range : forall w, 0 <= countLeadingZeros64 w <= 64.
Proof.
  intro w. unfold countLeadingZeros64. pose proof (u64_range w) as Hr.
  destruct (Z.eqb_spec (u64 w) 0); [lia|].
  assert (Z.log2 (u64 w) < 64) by (apply Z.log2_lt_pow2; lia).
  pose proof (Z.log2_nonneg (u64 w)). lia.
Qed.

Lemma clz64_small : forall w m, 0 <= m <= 64 -> 0 < w < 2 ^ m ->
  64 - m <= countLeadingZeros64 w < 64.
Proof.
  intros w m Hm Hw. unfold countLeadingZeros64.
  assert (2 ^ m <= 2 ^ 64) by (apply Z.pow_le_mono_r; lia).
  rewrite u64_small by lia. destruct (Z.eqb_spec w 0); [lia|].
  assert (Z.log2 w < m) by (apply Z.log2_lt_pow2; lia).
  pose proof (Z.log2_nonneg w). lia.
Qed.

Lemma clz_words_ok : forall p i c, (i <= length p)%nat ->
  exists c', clz_words p i c = Ok c' /\ c <= c' <= c + 64 * Z.of_nat i.
Proof.
  intros p i. induction i as [|i IH]; intros c Hl.
  - exists c. split; [reflexivity|lia].
  - cbn [clz_words]. rewrite rd_ok by lia. cbn [bind].
    destruct (Z.eqb_spec (nth (Z.to_nat (Z.of_nat i)) p 0) 0).
    + destruct (IH (c + BITS_PER_WORD) ltac:(lia)) as [c' [E Hc]].
      exists c'. split; [exact E|]. unfold BITS_PER_WORD in Hc. lia.
    + eexists. split; [reflexivity|].
      pose proof (clz64_range (nth (Z.to_nat (Z.of_nat i)) p 0)). lia.
Qed.

(** The active bits of a known value lie between 0 and its width. *)
Lemma getActiveBits_ok : forall x, shape x -> unknownFlag x = false ->
  exists a, getActiveBits x = Ok a /\ 0 <= a <= bitWidth x.
Proof.
  intros x [Hw Hs] U. unfold getActiveBits, countLeadingZeros.
  destruct (store x) as [v|p] eqn:E; destruct Hs as [Hsw Hx]; rewrite Hsw.
  - unfold get_val. rewrite E. cbn [bind]. eexists. split; [reflexivity|].
    unfold BITS_PER_WORD.
    rewrite isSingleWord_known in Hsw by exact U. apply Z.leb_le in Hsw.
    destruct (Z.eq_dec v 0) as [->|Hv].
    + unfold countLeadingZeros64. change (u64 0 =? 0) with true. cbv iota. lia.
    + pose proof (clz64_small v (bitWidth x) ltac:(lia) ltac:(lia)). lia.
  - unfold countLeadingZerosSlowCase, getTopWordMask, get_pVal, BITS_PER_WORD.
    rewrite E. rewrite getNumWords_known in * by exact U.
    pose proof (numWords_pos (bitWidth x) ltac:(lia)) as Hpos.
    pose proof (msw_bits (bitWidth x) ltac:(lia)) as Hmsw.
    pose proof (Z.mod_pos_bound (bitWidth x) 64 ltac:(lia)) as Hmod.
    set (w := getNumWords2 (bitWidth x) false) in *.
    assert (Hgen : forall msw mask, 0 < msw <= 64 -> mask = 2 ^ msw - 1 ->
              64 * (w - 1) + msw = bitWidth x ->
              exists a, (c <- (w0 <- rd p (w - 1);;
                   (if negb (Z.land w0 mask =? 0)
                    then Ok (countLeadingZeros64 (Z.land w0 mask) - (64 - msw))
                    else clz_words p (Z.to_nat (w - 1)) msw));; Ok (bitWidth x - c)) = Ok a /\
                   0 <= a <= bitWidth x).
    { intros msw mask Hm Hmask Hsum. rewrite rd_ok by lia. cbn [bind]. subst mask.
      set (w0 := nth (Z.to_nat (w - 1)) p 0).
      pose proof (land_mask_range w0 msw ltac:(lia)) as Hr.
      destruct (Z.eqb_spec (Z.land w0 (2 ^ msw - 1)) 0) as [E0|E0]; cbn [negb].
      - destruct (clz_words_ok p (Z.to_nat (w - 1)) msw ltac:(lia)) as [c' [Ec Hc]].
        rewrite Ec. cbn [bind]. eexists. split; [reflexivity|]. lia.
      - cbn [bind]. eexists. split; [reflexivity|].
        pose proof (clz64_small (Z.land w0 (2 ^ msw - 1)) msw ltac:(lia) ltac:(lia)). lia. }
    destruct (Z.eqb_spec (bitWidth x mod 64) 0) as [Em|Em]; cbn [negb].
    + apply Hgen; [lia|reflexivity|lia].
    + apply Hgen; [lia| |lia].
      unfold shl64. rewrite Z.shiftl_1_l.
      assert (2 ^ (bitWidth x mod 64) < 2 ^ 64) by (apply Z.pow_lt_mono_r; lia).
      assert (0 < 2 ^ (bitWidth x mod 64)) by (apply Z.pow_pos_nonneg; lia).
      rewrite u64_small by lia. reflexivity.
Qed.

Lemma activeWords_bound : forall a bits, 0 < bits -> 0 <= a <= bits ->
  0 <= activeWords a <= getNumWords2 bits false.
Proof.
  intros a bits Hb Ha. unfold activeWords, whichWord, BITS_PER_WORD.
  pose proof (numWords_pos bits Hb). pose proof (numWords_bounds bits Hb) as Hnb.
  destruct (Z.eqb_spec a 0); [lia|].
  assert (0 <= (a - 1) / 64) by (apply Z.div_pos; lia).
  assert ((a - 1) / 64 < getNumWords2 bits false) by (apply Z.div_lt_upper_bound; lia).
  lia.
Qed.

Lemma index_int_ok : forall x i, shape x -> exists l, index_int x i = Ok l.
Proof.
  intros x i [Hw Hs]. unfold index_int.
  destruct ((i <? 0) || (bitWidth x <=? u32 i)) eqn:Eo; [eauto|].
  apply orb_false_iff in Eo. destruct Eo as [E1 E2].
  apply Z.ltb_ge in E1. apply Z.leb_gt in E2.
  assert (Hu : 0 <= u32 i) by (unfold u32; apply Z.mod_pos_bound; lia).
  pose proof (numWords_bounds (bitWidth x) ltac:(lia)) as Hnb.
  pose proof (numWords_pos (bitWidth x) ltac:(lia)) as Hpos.
  assert (Hq : 0 <= whichWord (u32 i) < getNumWords2 (bitWidth x) false).
  { unfold whichWord, BITS_PER_WORD. split; [apply Z.div_pos; lia|].
    apply Z.div_lt_upper_bound; lia. }
  destruct (store x) as [v|p] eqn:E; destruct Hs as [Hsw Hx]; rewrite Hsw.
  - unfold get_val. rewrite E. cbn [bind].
    unfold isSingleWord in Hsw. apply andb_prop in Hsw. destruct Hsw as [_ Hu'].
    rewrite Hu'. eauto.
  - unfold get_pVal. rewrite E. cbn [bind].
    pose proof (numWords_flag (bitWidth x) (unknownFlag x)) as Hfl.
    fold (getNumWords x) in Hfl.
    destruct (unknownFlag x) eqn:U.
    + rewrite rd_ok by lia. cbn [bind negb]. rewrite rd_ok by lia. cbn [bind].
      destruct (negb (negb _)); eauto.
    + rewrite rd_ok by lia. cbn [bind negb]. eauto.
Qed.

Lemma isNegative_ok : forall x, shape x -> exists b, isNegative x = Ok b.
Proof.
  intros x Hs. unfold isNegative.
  destruct (index_int_ok x (bitWidth x - 1) Hs) as [l E]. rewrite E. cbn [bind]. eauto.
Qed.

Lemma isOdd_ok : forall x, shape x -> exists b, isOdd x = Ok b.
Proof.
  intros x Hs. unfold isOdd.
  destruct (getRawData_shape x Hs) as [raw [E [Hl _]]]. rewrite E. cbn [bind].
  pose proof Hs as [Hw _].
  pose proof (numWords_pos (bitWidth x) ltac:(lia)).
  pose proof (numWords_flag (bitWidth x) (unknownFlag x)) as Hfl.
  fold (getNumWords x) in Hfl.
  rewrite rd_ok by (destruct (unknownFlag x); lia). cbn [bind]. eauto.
Qed.

Lemma kshape_inline : forall x bits, kshape x bits -> bits <= 64 ->
  exists v, store x = Inline v /\ 0 <= v < 2 ^ bits /\ isSingleWord x = true.
Proof.
  intros x bits [[Hw Hs] [U Hb]] Hle. subst bits.
  destruct (store x) as [v|p]; destruct Hs as [Hsw Hx].
  - exists v. auto.
  - rewrite isSingleWord_known in Hsw by exact U.
    destruct (Z.leb_spec (bitWidth x) 64); [discriminate|lia].
Qed.

Lemma kshape_heap : forall x bits, kshape x bits -> 64 < bits ->
  exists p, store x = Heap p /\ Z.of_nat (length p) = getNumWords2 bits false /\
            isSingleWord x = false.
Proof.
  intros x bits [[Hw Hs] [U Hb]] Hgt. subst bits.
  destruct (store x) as [v|p]; destruct Hs as [Hsw Hx].
  - rewrite isSingleWord_known in Hsw by exact U.
    destruct (Z.leb_spec (bitWidth x) 64); [lia|discriminate].
  - exists p. rewrite getNumWords_known in Hx by exact U. auto.
Qed.

Lemma clear_kshape_inline : forall bits sign v,
  0 < bits <= 64 -> 0 <= v < 2 ^ 64 ->
  exists r, clearUnusedBits (mkSVInt bits sign false (Inline v)) = Ok r /\
            kshape r bits /\ signFlag r = sign.
Proof.
  intros bits sign v Hb Hv.
  destruct (clearUnusedBits_inline bits sign v Hb Hv) as [v' [E Hv']].
  rewrite E. eexists. split; [reflexivity|]. split; [|reflexivity].
  split; [|split; reflexivity]. unfold shape, MAX_BITS. cbn [bitWidth store].
  split; [lia|]. split.
  - rewrite isSingleWord_known by reflexivity. apply Z.leb_le. cbn. lia.
  - subst v'. apply Z.mod_pos_bound. apply Z.pow_pos_nonneg; lia.
Qed.

Lemma clear_kshape_heap : forall bits sign p,
  64 < bits <= MAX_BITS -> Z.of_nat (length p) = getNumWords2 bits false ->
  exists r, clearUnusedBits (mkSVInt bits sign false (Heap p)) = Ok r /\
            kshape r bits /\ signFlag r = sign.
Proof.
  intros bits sign p Hb Hl.
  assert (Hsw : isSingleWord (mkSVInt bits sign false (Heap p)) = false).
  { rewrite isSingleWord_known by reflexivity. cbn [bitWidth].
    destruct (Z.leb_spec bits 64); [lia|reflexivity]. }
  destruct (clearUnusedBits_heap (mkSVInt bits sign false (Heap p)) p)
    as [p' [E [Hl' _]]]; try reflexivity; try assumption.
  { cbn [bitWidth]. lia. }
  svsimpl_all. rewrite E. eexists. split; [reflexivity|]. split; [|reflexivity].
  split; [|split; reflexivity]. unfold shape. cbn [bitWidth store].
  split; [lia|]. split.
  - rewrite isSingleWord_known by reflexivity. cbn [bitWidth].
    destruct (Z.leb_spec bits 64); [lia|reflexivity].
  - rewrite getNumWords_known by reflexivity. cbn [bitWidth]. lia.
Qed.

Lemma kshape_record : forall x bits, kshape x bits ->
  x = mkSVInt bits (signFlag x) false (store x).
Proof. intros x bits [_ [U Hb]]. destruct x; cbn in *. subst. reflexivity. Qed.

Section Power.
Variable junk : Z -> Z.

Lemma sub_known_ok : forall a b bits, kshape a bits -> kshape b bits ->
  exists r, sub junk a b = Ok r /\ kshape r bits /\ signFlag r = signFlag a.
Proof.
  intros a b bits Ha Hb. unfold sub, sub_assign, unify.
  pose proof Ha as [[Hw _] [Ua Wa]]. pose proof Hb as [_ [Ub Wb]].
  rewrite Wa, Wb, Z.eqb_refl. cbn [bind]. rewrite Ua, Ub. cbn [orb].
  destruct (Z.le_gt_cases bits 64) as [Hle|Hgt].
  - destruct (kshape_inline a bits Ha Hle) as [va [Ea [Hva Hswa]]].
    destruct (kshape_inline b bits Hb Hle) as [vb [Eb [Hvb _]]].
    rewrite Hswa. unfold get_val. rewrite Ea, Eb. cbn [bind].
    unfold set_val. rewrite Wa, Ua.
    apply clear_kshape_inline; [lia|apply u64_range].
  - destruct (kshape_heap a bits Ha ltac:(lia)) as [p [Ea [Hlp Hswa]]].
    destruct (kshape_heap b bits Hb ltac:(lia)) as [q [Eb [Hlq _]]].
    rewrite Hswa. unfold get_pVal. rewrite Ea, Eb. cbn [bind].
    rewrite getNumWords_known by exact Ua. rewrite Wa.
    pose proof (numWords_pos bits ltac:(lia)) as Hpos.
    unfold subGeneral. rewrite !slice_ok by lia. cbn [bind].
    rewrite blit_ok by (rewrite ?length_Z_to_words; lia). cbn [bind].
    unfold set_pVal. rewrite Wa, Ua.
    apply clear_kshape_heap; [lia|].
    rewrite length_blit by (rewrite ?length_Z_to_words; lia). exact Hlp.
Qed.

Lemma neg_known_ok : forall x bits, kshape x bits ->
  exists r, neg junk x = Ok r /\ kshape r bits /\ signFlag r = signFlag x.
Proof.
  intros x bits Hx. pose proof Hx as [[Hw _] [U W]]. unfold neg. rewrite U, W.
  destruct (SVInt_ctor_spec bits 0 (signFlag x) ltac:(lia))
    as [z [Ez [Hsz [Hbz [Hsgz [Huz _]]]]]].
  rewrite Ez. cbn [bind].
  destruct (sub_known_ok z x bits) as [r [Er [Hr Hsr]]];
    [split; [exact Hsz|split; [exact Huz|exact Hbz]]|exact Hx|].
  exists r. split; [exact Er|]. split; [exact Hr|congruence].
Qed.

Lemma ctor_kshape : forall bits v sign, 0 < bits <= MAX_BITS ->
  exists r, SVInt_ctor bits v sign = Ok r /\ kshape r bits /\ signFlag r = sign.
Proof.
  intros bits v sign Hb.
  destruct (SVInt_ctor_spec bits v sign Hb) as [r [E [Hs [Hw [Hsg [Hu _]]]]]].
  exists r. split; [exact E|]. split; [|exact Hsg].
  split; [exact Hs|split; [exact Hu|exact Hw]].
Qed.

Lemma eq_sv_ok : forall a b bits, kshape a bits -> kshape b bits ->
  exists l, eq_sv junk a b = Ok l.
Proof.
  intros a b bits Ha Hb. unfold eq_sv.
  pose proof Ha as [[Hw Hsa] [Ua Wa]]. pose proof Hb as [[_ Hsb] [Ub Wb]].
  destruct (Z.le_gt_cases bits 64) as [Hle|Hgt].
  - destruct (kshape_inline a bits Ha Hle) as [va [Ea [Hva Hswa]]].
    destruct (kshape_inline b bits Hb Hle) as [vb [Eb [Hvb Hswb]]].
    rewrite Hswa, Hswb. cbn [andb]. unfold get_val. rewrite Ea, Eb. cbn [bind]. eauto.
  - destruct (kshape_heap a bits Ha ltac:(lia)) as [p [Ea [Hlp Hswa]]].
    destruct (kshape_heap b bits Hb ltac:(lia)) as [q [Eb [Hlq Hswb]]].
    rewrite Hswa. cbn [andb]. unfold equalsSlowCase. cbn [equalsSlowCase_rec].
    rewrite Ua, Ub. cbn [orb]. rewrite Wa, Wb, Z.eqb_refl. cbn [negb andb].
    destruct (getActiveBits_ok a (proj1 Ha) Ua) as [a1 [E1 H1]].
    destruct (getActiveBits_ok b (proj1 Hb) Ub) as [a2 [E2 H2]].
    rewrite E1, E2. cbn [bind].
    destruct (negb (a1 =? a2)); [eauto|].
    destruct (Z.eqb_spec a1 0); [eauto|].
    unfold get_pVal. rewrite Ea, Eb. cbn [bind].
    assert (Hu : u32 (a1 - 1) = a1 - 1).
    { unfold u32. apply Z.mod_small. unfold MAX_BITS in *. lia. }
    rewrite Hu.
    pose proof (numWords_bounds bits ltac:(lia)) as Hnb.
    assert (Hlim : 0 <= whichWord (a1 - 1) < getNumWords2 bits false).
    { unfold whichWord, BITS_PER_WORD. split; [apply Z.div_pos; lia|].
      apply Z.div_lt_upper_bound; lia. }
    destruct (for_range_inv bool (fun _ _ => True)
                (fun (i : Z) (acc : bool) =>
                   if acc then l <- rd p i;; r <- rd q i;; Ok (l =? r) else Ok false)
                0 (whichWord (a1 - 1) + 1) true) as [r [Er _]]; [lia|exact I| |].
    + intros j t Hj _. destruct t; [|eauto].
      rewrite !rd_ok by lia. cbn [bind]. eauto.
    + rewrite Er. cbn [bind]. eauto.
Qed.

Lemma nth_Z_to_words_range : forall n z k, 0 <= nth k (Z_to_words n z) 0 < 2 ^ 64.
Proof.
  induction n as [|n IH]; intros z k.
  - destruct k; cbn; lia.
  - destruct k as [|k]; cbn [Z_to_words nth]; [apply u64_range|apply IH].
Qed.

(** [mulReduce] on three well-formed known values of one width. *)
Lemma mulReduce_ok : forall left right dest bits,
  kshape left bits -> kshape right bits -> kshape dest bits -> scratch_fits bits ->
  exists d, mulReduce (getNumWords2 (bits * 2) false) left right dest = Ok d /\
            kshape d bits /\ signFlag d = signFlag dest.
Proof.
  intros left right dest bits Hl Hr Hd Hfit. unfold mulReduce.
  pose proof Hl as [Hsl [Ul Wl]]. pose proof Hr as [Hsr [Ur Wr]].
  pose proof Hd as [Hsd [Ud Wd]]. pose proof Hsd as [Hw _]. rewrite Wd in Hw.
  destruct (getActiveBits_ok left Hsl Ul) as [a1 [E1 H1]].
  destruct (getActiveBits_ok right Hsr Ur) as [a2 [E2 H2]].
  rewrite E1, E2. cbn [bind]. rewrite Wl in H1. rewrite Wr in H2.
  pose proof (activeWords_bound a1 bits ltac:(lia) H1) as Hb1.
  pose proof (activeWords_bound a2 bits ltac:(lia) H2) as Hb2.
  destruct (getRawData_shape left Hsl) as [lp [Elp [Hllp _]]].
  destruct (getRawData_shape right Hsr) as [rp [Erp [Hlrp _]]].
  destruct (getRawData_shape dest Hsd) as [dp [Edp [Hldp [_ Hdst]]]].
  rewrite getNumWords_known in Hllp, Hlrp, Hldp by assumption.
  rewrite Wl in Hllp. rewrite Wr in Hlrp. rewrite Wd in Hldp.
  rewrite Elp, Erp. cbn [bind]. unfold mul.
  rewrite !slice_ok by lia. cbn [bind].
  set (m := Z_to_words _ _).
  assert (Hlm : length m = Z.to_nat (activeWords a1 + activeWords a2))
    by apply length_Z_to_words.
  unfold scratch_fits in Hfit.
  set (cap := TempBuffer_capacity (getNumWords2 (bits * 2) false)) in *.
  rewrite blit_ok by (rewrite ?length_new_zeroed; lia). cbn [bind].
  set (scratch := firstn _ _ ++ m ++ skipn _ _).
  assert (Hls : length scratch = Z.to_nat cap).
  { unfold scratch. rewrite length_blit by (rewrite ?length_new_zeroed; lia).
    apply length_new_zeroed. }
  assert (Hrs : forall k, 0 <= nth k scratch 0 < 2 ^ 64).
  { intro k. unfold scratch. rewrite nth_blit by (rewrite ?length_new_zeroed; lia).
    destruct (_ && _); [apply nth_Z_to_words_range|].
    rewrite nth_new_zeroed. lia. }
  rewrite getNumWords_known by exact Ud. rewrite Wd.
  pose proof (numWords_pos bits ltac:(lia)) as Hpos.
  set (nw := getNumWords2 bits false) in *.
  set (len := if nw <=? activeWords a1 + activeWords a2
              then nw else activeWords a1 + activeWords a2).
  assert (Hlen : 0 <= len <= nw).
  { unfold len. destruct (Z.leb_spec nw (activeWords a1 + activeWords a2)); lia. }
  rewrite slice_ok by lia. cbn [bind]. rewrite Edp. cbn [bind].
  set (c := firstn (Z.to_nat len) _).
  assert (Hlc : length c = Z.to_nat len).
  { unfold c. rewrite length_firstn, length_skipn. lia. }
  rewrite blit_ok by lia. cbn [bind].
  set (p' := firstn _ dp ++ c ++ skipn _ dp).
  assert (Hlp' : length p' = length dp) by (unfold p'; apply length_blit; lia).
  assert (Hnp' : forall k, nth k p' 0 = if Nat.ltb k (Z.to_nat len)
                                         then nth k scratch 0 else nth k dp 0).
  { intro k. unfold p'. rewrite nth_blit by lia. rewrite Hlc.
    change (Z.to_nat 0) with 0%nat. cbn [Nat.leb andb Nat.add].
    destruct (Nat.ltb_spec k (Z.to_nat len)); [|reflexivity].
    unfold c. rewrite nth_firstn.
    destruct (Nat.ltb_spec (k - 0) (Z.to_nat len)); [|lia].
    rewrite nth_skipn. f_equal. lia. }
  unfold setRawData.
  destruct (Z.le_gt_cases bits 64) as [Hle|Hgt].
  - destruct (kshape_inline dest bits Hd Hle) as [vd [Ed [Hvd Hswd]]].
    rewrite Hswd. rewrite Ed in Hdst. subst dp.
    assert (H64 : 2 ^ bits <= 2 ^ 64) by (apply Z.pow_le_mono_r; lia).
    destruct p' as [|v' [|v2 p'']]; try (cbn in Hlp'; discriminate).
    cbn [bind]. unfold set_val. rewrite Wd, Ud.
    apply clear_kshape_inline; [lia|].
    specialize (Hnp' 0%nat). cbn [nth] in Hnp'. rewrite Hnp'.
    destruct (Nat.ltb 0 (Z.to_nat len)); [apply Hrs|lia].
  - destruct (kshape_heap dest bits Hd ltac:(lia)) as [pd [Ed [Hlpd Hswd]]].
    rewrite Hswd. cbn [bind]. unfold set_pVal. rewrite Wd, Ud.
    apply clear_kshape_heap; [lia|]. rewrite Hlp'. exact Hldp.
Qed.

Lemma modPow_step_ok : forall bits word last st,
  scratch_fits bits -> kshape (fst st) bits -> kshape (snd st) bits ->
  exists st', modPow_step (getNumWords2 (bits * 2) false) word last st = Ok st' /\
              kshape (fst st') bits /\ kshape (snd st') bits.
Proof.
  intros bits word last [res base] Hfit Hr Hb. cbn [fst snd] in *. unfold modPow_step.
  assert (exists res', (if Z.odd word
                        then mulReduce (getNumWords2 (bits * 2) false) res base res
                        else Ok res) = Ok res' /\ kshape res' bits) as [res' [E1 Hr']].
  { destruct (Z.odd word); [|eauto].
    destruct (mulReduce_ok res base res bits Hr Hb Hr Hfit) as [d [E [Hd _]]]. eauto. }
  rewrite E1. cbn [bind].
  assert (exists base', (if last && (word =? 1) then Ok base
                         else mulReduce (getNumWords2 (bits * 2) false) base base base)
                        = Ok base' /\ kshape base' bits) as [base' [E2 Hb']].
  { destruct (last && (word =? 1)); [eauto|].
    destruct (mulReduce_ok base base base bits Hb Hb Hb Hfit) as [d [E [Hd _]]]. eauto. }
  rewrite E2. cbn [bind]. eexists. split; [reflexivity|]. cbn [fst snd]. auto.
Qed.

Lemma modPow_word_ok : forall bits j word st,
  scratch_fits bits -> kshape (fst st) bits -> kshape (snd st) bits ->
  exists st', modPow_word (getNumWords2 (bits * 2) false) j word st = Ok st' /\
              kshape (fst st') bits /\ kshape (snd st') bits.
Proof.
  intros bits j. induction j as [|j IH]; intros word st Hfit Hr Hb.
  - exists st. cbn. auto.
  - cbn [modPow_word].
    destruct (modPow_step_ok bits word false st Hfit Hr Hb) as [st1 [E [Hr1 Hb1]]].
    rewrite E. cbn [bind]. apply IH; assumption.
Qed.

Lemma modPow_last_bounded : forall bits fuel word st,
  0 <= word < 2 ^ Z.of_nat fuel ->
  scratch_fits bits -> kshape (fst st) bits -> kshape (snd st) bits ->
  exists st', modPow_last (getNumWords2 (bits * 2) false) fuel word st = Ok st' /\
              kshape (fst st') bits /\ kshape (snd st') bits.
Proof.
  intros bits fuel. induction fuel as [|fuel IH]; intros word st Hw Hfit Hr Hb.
  - assert (word = 0) by (cbn in Hw; lia). subst word. exists st. cbn. auto.
  - cbn [modPow_last]. destruct (Z.eqb_spec word 0); [exists st; auto|].
    destruct (modPow_step_ok bits word true st Hfit Hr Hb) as [st1 [E [Hr1 Hb1]]].
    rewrite E. cbn [bind]. apply IH; try assumption.
    unfold shr64. rewrite Z.shiftr_div_pow2 by lia. change (2 ^ 1) with 2.
    pose proof (u64_range word).
    assert (u64 word <= word) by (unfold u64; apply Z.mod_le; lia).
    rewrite Nat2Z.inj_succ, Z.pow_succ_r in Hw by lia.
    split; [apply Z.div_pos; lia|]. apply Z.div_lt_upper_bound; lia.
Qed.

Lemma modPow_last_S : forall sw fuel word st,
  modPow_last sw (S fuel) word st =
  if word =? 0 then Ok st
  else st <- modPow_step sw word true st ;; modPow_last sw fuel (shr64 word 1) st.
Proof. reflexivity. Qed.

Lemma kshape_setSigned : forall x bits s, kshape x bits -> kshape (setSigned x s) bits.
Proof.
  intros x bits s [[Hw Hs] [U W]]. unfold kshape, shape, setSigned, isSingleWord, getNumWords in *.
  cbn [bitWidth unknownFlag store]. auto.
Qed.

Lemma modPow_last_ok : forall bits word st,
  scratch_fits bits -> kshape (fst st) bits -> kshape (snd st) bits ->
  exists st', modPow_last (getNumWords2 (bits * 2) false) 64 word st = Ok st' /\
              kshape (fst st') bits /\ kshape (snd st') bits.
Proof.
  intros bits word st Hfit Hr Hb. change 64%nat with (S 63).
  rewrite modPow_last_S.
  destruct (Z.eqb_spec word 0); [exists st; auto|].
  destruct (modPow_step_ok bits word true st Hfit Hr Hb) as [st1 [E [Hr1 Hb1]]].
  rewrite E. cbn [bind]. apply modPow_last_bounded; try assumption.
  unfold shr64. rewrite Z.shiftr_div_pow2 by lia. change (2 ^ 1) with 2.
  pose proof (u64_range word). change (Z.of_nat 63) with 63.
  split; [apply Z.div_pos; lia|]. apply Z.div_lt_upper_bound; lia.
Qed.

Lemma modPow_ok : forall base exponent bothSigned bits,
  kshape base bits -> shape exponent -> unknownFlag exponent = false ->
  scratch_fits bits ->
  exists r, modPow base exponent bothSigned = Ok r /\ kshape r bits.
Proof.
  intros base exponent bothSigned bits Hb He Ue Hfit. unfold modPow.
  pose proof Hb as [[Hw _] [Ub Wb]]. rewrite Wb in *.
  destruct (ctor_kshape bits 1 false Hw) as [r0 [E0 [Hr0 _]]].
  rewrite E0. cbn [bind].
  destruct (getRawData_shape exponent He) as [e [Ee [Hle _]]].
  rewrite Ee. cbn [bind].
  pose proof He as [Hwe _].
  pose proof (numWords_pos (bitWidth exponent) ltac:(lia)) as Hpos.
  rewrite getNumWords_known in * by exact Ue.
  set (n := getNumWords2 (bitWidth exponent) false) in *.
  destruct (for_range_inv (SVInt * SVInt)
              (fun _ st => kshape (fst st) bits /\ kshape (snd st) bits)
              (fun i st => word <- rd e i;;
                           modPow_word (getNumWords2 (bits * 2) false) 64 word st)
              0 (n - 1) (r0, base)) as [st [Est [Hr Hbs]]].
  - lia.
  - cbn [fst snd]. auto.
  - intros j t Hj [H1 H2]. rewrite rd_ok by lia. cbn [bind].
    apply modPow_word_ok; assumption.
  - rewrite Est. cbn [bind]. rewrite rd_ok by lia. cbn [bind].
    destruct (modPow_last_ok bits (nth (Z.to_nat (n - 1)) e 0) st Hfit Hr Hbs)
      as [[res bc] [El [Hres _]]].
    rewrite El. cbn [bind]. eexists. split; [reflexivity|].
    cbn [fst] in Hres. apply kshape_setSigned. exact Hres.
Qed.

(** [pow] on well-formed operands returns a value as wide as its left
    operand, whatever the width of the exponent (there is no width
    unification), as long as the scratch buffer of [modPow] holds the
    word-wise product; it does for every width up to 4096 bits. *)
Lemma pow_width_within_scratch : forall (this rhs : SVInt),
  shape this -> shape rhs -> scratch_fits (bitWidth this) ->
  exists r, pow junk this rhs = Ok r /\ bitWidth r = bitWidth this.
Proof.
  intros this rhs Ht Hr Hfit. unfold pow. pose proof Ht as [Hw _].
  assert (Hc : forall v s, exists r, SVInt_ctor (bitWidth this) v s = Ok r /\
                                     bitWidth r = bitWidth this).
  { intros v s. destruct (ctor_kshape (bitWidth this) v s Hw) as [r [E [[_ [_ W]] _]]]. eauto. }
  assert (Hx : forall s, exists r, createFillX junk (bitWidth this) s = Ok r /\
                                   bitWidth r = bitWidth this).
  { intro s. rewrite createFillX_spec by exact Hw. eauto. }
  destruct (unknownFlag this || unknownFlag rhs) eqn:U; [apply Hx|].
  apply orb_false_iff in U. destruct U as [Ut Ur].
  assert (Hkt : kshape this (bitWidth this)) by (split; [exact Ht|split; [exact Ut|reflexivity]]).
  destruct (getActiveBits_ok this Ht Ut) as [a1 [E1 H1]].
  destruct (getActiveBits_ok rhs Hr Ur) as [a2 [E2 H2]].
  rewrite E1, E2. cbn [bind].
  assert (Hrn : forall c : bool, exists b, (if c then isNegative rhs else Ok false) = Ok b).
  { intros [|]; [apply isNegative_ok; exact Hr|eauto]. }
  assert (Htn : forall c : bool, exists b, (if c then isNegative this else Ok false) = Ok b).
  { intros [|]; [apply isNegative_ok; exact Ht|eauto]. }
  destruct (a1 =? 0).
  { destruct (a2 =? 0); [apply Hc|].
    destruct (Hrn (signFlag rhs)) as [b Eb]. rewrite Eb. cbn [bind].
    destruct b; [apply Hx|apply Hc]. }
  destruct ((a2 =? 0) || (a1 =? 1)); [apply Hc|].
  destruct (Htn (signFlag this && signFlag rhs)) as [tn Etn]. rewrite Etn. cbn [bind].
  assert (exists b, (if tn
                     then m <- SVInt_ctor (bitWidth this) UINT64_MAX (signFlag this && signFlag rhs);;
                          e <- eq_sv junk this m;; Ok (logic_to_bool e)
                     else Ok false) = Ok b) as [mo Emo].
  { destruct tn; [|eauto].
    destruct (ctor_kshape (bitWidth this) UINT64_MAX (signFlag this && signFlag rhs) Hw)
      as [m [Em [Hm _]]].
    rewrite Em. cbn [bind].
    destruct (eq_sv_ok this m (bitWidth this) Hkt Hm) as [l El]. rewrite El. cbn [bind]. eauto. }
  rewrite Emo. cbn [bind].
  destruct (isOdd_ok rhs Hr) as [o Eo].
  destruct mo.
  { rewrite Eo. cbn [bind]. destruct o; apply Hc. }
  destruct (Hrn (signFlag this && signFlag rhs)) as [rn Ern]. rewrite Ern. cbn [bind].
  destruct rn; [apply Hc|].
  destruct tn.
  - rewrite Eo. cbn [bind].
    destruct (neg_known_ok this (bitWidth this) Hkt) as [b [Eb [Hb _]]].
    rewrite Eb. cbn [bind].
    destruct (modPow_ok b rhs (signFlag this && signFlag rhs) (bitWidth this) Hb Hr Ur Hfit)
      as [r [Er Wr]].
    rewrite Er. cbn [bind]. destruct Wr as [Hsr [Uxr Wr]]. destruct o; [|eauto].
    destruct (neg_known_ok r (bitWidth this)) as [r' [Er' [[_ [_ Wr']] _]]]; [|eauto].
    split; [exact Hsr|split; [exact Uxr|exact Wr]].
  - destruct (modPow_ok this rhs (signFlag this && signFlag rhs) (bitWidth this) Hkt Hr Ur Hfit)
      as [r [Er [_ [_ Wr]]]].
    eauto.
Qed.

End Power.

Lemma scratch_fits_4096 : forall bits, 0 < bits <= 4096 -> scratch_fits bits.
Proof.
  intros bits H. unfold scratch_fits, TempBuffer_capacity.
  assert (getNumWords2 bits false < 65).
  { unfold getNumWords2, BITS_PER_WORD. apply Z.div_lt_upper_bound; lia. }
  lia.
Qed.

Lemma shape_v_20d3 : shape v_20d3.
Proof. unfold shape, MAX_BITS. cbn. repeat split; lia. Qed.

Lemma shape_v_200sd30 : shape v_200sd30.
Proof. unfold shape, MAX_BITS. cbn. repeat split; lia. Qed.

Lemma pow_width_example :
  exists r, pow heap0 v_20d3 v_200sd30 = Ok r /\ bitWidth r = 20.
Proof.
  apply (pow_width_within_scratch heap0 v_20d3 v_200sd30 shape_v_20d3 shape_v_200sd30).
  apply scratch_fits_4096. cbn. lia.
Qed.

(** C9 at a failing input.  [4097'd3 ** 4097'd5] does not return a value of
    4097 bits, it does not return at all: [modPow] asks for a scratch buffer
    of [getNumWords(2 * 4097)] = 129 words, the repeated squaring of the base
    fills all 65 words of the operand, and the next [mulReduce] has [mul]
    write a product of 65 + 65 = 130 words into the 129. *)
Theorem C9_pow_scratch_overflow :
  fromString heap0 "4097'd3"%string = Ok v_4097d3 /\
  fromString heap0 "4097'd5"%string = Ok v_4097d5 /\
  TempBuffer_capacity (getNumWords2 (4097 * 2) false) = 129 /\
  2 * getNumWords2 4097 false = 130 /\
  pow heap0 v_4097d3 v_4097d5 = Fault.
Proof. repeat split; vm_compute; reflexivity. Qed.

(** ** Bits of word arrays *)

Lemma testbit_u64 : forall w j, 0 <= j < 64 -> Z.testbit (u64 w) j = Z.testbit w j.
Proof. intros w j H. unfold u64. apply Z.mod_pow2_bits_low. lia. Qed.

Lemma testbit_u64_high : forall w j, 64 <= j -> Z.testbit (u64 w) j = false.
Proof. intros w j H. unfold u64. apply Z.mod_pow2_bits_high. lia. Qed.

Lemma index_split : forall i, 0 <= i -> 0 <= i / 64 /\ 0 <= i mod 64 < 64 /\ i = 64 * (i / 64) + i mod 64.
Proof.
  intros i H. split; [apply Z.div_pos; lia|]. split; [apply Z.mod_pos_bound; lia|].
  apply Z.div_mod. lia.
Qed.

Lemma testbit_words_to_Z : forall ws i, 0 <= i ->
  Z.testbit (words_to_Z ws) i = Z.testbit (u64 (nth (Z.to_nat (i / 64)) ws 0)) (i mod 64).
Proof.
  induction ws as [|w t IH]; intros i Hi.
  - cbn [words_to_Z]. rewrite Z.bits_0. destruct (Z.to_nat (i / 64)); cbn [nth];
      change (u64 0) with 0; rewrite Z.bits_0; reflexivity.
  - cbn [words_to_Z]. pose proof (u64_range w) as Hw.
    destruct (index_split i Hi) as [Hq [Hm Hi']].
    destruct (Z.lt_ge_cases i 64) as [Hlt|Hge].
    + rewrite Z.div_small by lia. rewrite Z.mod_small by lia. cbn [Z.to_nat nth].
      rewrite <- (Z.mod_pow2_bits_low (u64 w + 2 ^ 64 * words_to_Z t) 64 i) by lia.
      rewrite Z.mul_comm, Z.mod_add by lia. rewrite Z.mod_small by lia.
      reflexivity.
    + replace i with ((i - 64) + 64) at 1 by lia.
      rewrite <- Z.div_pow2_bits by lia.
      rewrite Z.mul_comm, Z.div_add by lia. rewrite Z.div_small by lia.
      rewrite Z.add_0_l. rewrite IH by lia.
      assert (Hd : i / 64 = (i - 64) / 64 + 1).
      { replace i with ((i - 64) + 1 * 64) at 1 by lia. rewrite Z.div_add by lia. reflexivity. }
      assert (Hmm : i mod 64 = (i - 64) mod 64).
      { replace i with ((i - 64) + 1 * 64) at 1 by lia. rewrite Z.mod_add by lia. reflexivity. }
      rewrite Hd, Hmm.
      assert (0 <= (i - 64) / 64) by (apply Z.div_pos; lia).
      replace (Z.to_nat ((i - 64) / 64 + 1)) with (S (Z.to_nat ((i - 64) / 64))) by lia.
      reflexivity.
Qed.

Lemma testbit_Z_to_words : forall n z i, 0 <= i < 64 * Z.of_nat n ->
  Z.testbit (nth (Z.to_nat (i / 64)) (Z_to_words n z) 0) (i mod 64) = Z.testbit z i.
Proof.
  induction n as [|n IH]; intros z i Hi; [lia|].
  cbn [Z_to_words]. destruct (index_split i ltac:(lia)) as [Hq [Hm Hi']].
  destruct (Z.lt_ge_cases i 64) as [Hlt|Hge].
  - rewrite Z.div_small by lia. rewrite Z.mod_small by lia. cbn [Z.to_nat nth].
    apply testbit_u64. lia.
  - assert (Hd : i / 64 = (i - 64) / 64 + 1).
    { replace i with ((i - 64) + 1 * 64) at 1 by lia. rewrite Z.div_add by lia. reflexivity. }
    assert (Hmm : i mod 64 = (i - 64) mod 64).
    { replace i with ((i - 64) + 1 * 64) at 1 by lia. rewrite Z.mod_add by lia. reflexivity. }
    rewrite Hd, Hmm.
    assert (0 <= (i - 64) / 64) by (apply Z.div_pos; lia).
    replace (Z.to_nat ((i - 64) / 64 + 1)) with (S (Z.to_nat ((i - 64) / 64))) by lia.
    cbn [nth]. rewrite IH by lia. rewrite Z.shiftr_spec by lia. f_equal. lia.
Qed.

(** The bit the indexing operator tests. *)
Lemma maskBit_test : forall i w, 0 <= i ->
  negb (Z.land (maskBit i) w =? 0) = Z.testbit w (i mod 64).
Proof.
  intros i w Hi. unfold maskBit, whichBit, BITS_PER_WORD.
  pose proof (Z.mod_pos_bound i 64 ltac:(lia)) as Hm.
  rewrite Z.shiftl_1_l. set (j := i mod 64) in *.
  destruct (Z.testbit w j) eqn:E.
  - destruct (Z.eqb_spec (Z.land (2 ^ j) w) 0) as [E0|E0]; [|reflexivity].
    exfalso. assert (Z.testbit (Z.land (2 ^ j) w) j = true).
    { rewrite Z.land_spec, Z.pow2_bits_true by lia. rewrite E. reflexivity. }
    rewrite E0, Z.bits_0 in H. discriminate.
  - assert (Z.land (2 ^ j) w = 0).
    { apply Z.bits_inj'. intros n Hn. rewrite Z.land_spec, Z.bits_0.
      destruct (Z.eq_dec n j) as [->|Hne].
      - rewrite E. apply andb_false_r.
      - rewrite Z.pow2_bits_false by lia. reflexivity. }
    rewrite H. reflexivity.
Qed.

(** ** Parsing digits of a power-of-two base *)

Lemma nth_in_slice : forall p off len k, 0 <= off -> (k < Z.to_nat len)%nat ->
  nth k (firstn (Z.to_nat len) (skipn (Z.to_nat off) p)) 0 = nth (Z.to_nat (off + Z.of_nat k)) p 0.
Proof.
  intros p off len k Ho Hk. rewrite nth_slice by exact Hk. f_equal. lia.
Qed.

Lemma div64_lt : forall i n, 0 <= i < 64 * n -> 0 <= i / 64 < n.
Proof.
  intros i n H. split; [apply Z.div_pos; lia|]. apply Z.div_lt_upper_bound; lia.
Qed.

(** [shlFar] in place on one plane: every bit moves up by [s]. *)
Lemma shlFar_plane : forall p off nw s,
  0 <= off -> 0 < nw -> 0 <= s -> off + nw <= Z.of_nat (length p) ->
  words_in_range p ->
  exists p', shlFar p p s 0 off nw = Ok p' /\ length p' = length p /\
    words_in_range p' /\
    (forall k, (Z.of_nat k < off \/ off + nw <= Z.of_nat k) -> nth k p' 0 = nth k p 0) /\
    (forall i, 0 <= i < 64 * nw ->
       plane_bit p' off i = if i <? s then false else plane_bit p off (i - s)).
Proof.
  intros p off nw s Ho Hn Hs Hl Hr. unfold shlFar.
  rewrite slice_ok by lia. cbn [bind]. unfold BITS_PER_WORD.
  set (S := firstn (Z.to_nat nw) (skipn (Z.to_nat off) p)).
  set (ws := Z_to_words (Z.to_nat nw) (Z.shiftl (words_to_Z S) (0 * 64 + s))).
  assert (Hlw : length ws = Z.to_nat nw) by apply length_Z_to_words.
  rewrite blit_ok by lia. eexists. split; [reflexivity|].
  split; [apply length_blit; lia|].
  assert (Hnth : forall k, nth k (firstn (Z.to_nat off) p ++ ws ++ skipn (Z.to_nat off + length ws) p) 0
                 = if Nat.leb (Z.to_nat off) k && Nat.ltb k (Z.to_nat off + Z.to_nat nw)
                   then nth (k - Z.to_nat off) ws 0 else nth k p 0).
  { intro k. rewrite nth_blit by lia. rewrite Hlw. reflexivity. }
  split; [|split].
  - intro k. rewrite Hnth. destruct (_ && _); [apply nth_Z_to_words_range|apply Hr].
  - intros k Hk. rewrite Hnth.
    destruct (Nat.leb_spec (Z.to_nat off) k); cbn [andb]; [|reflexivity].
    destruct (Nat.ltb_spec k (Z.to_nat off + Z.to_nat nw)); [lia|reflexivity].
  - intros i Hi. unfold plane_bit. rewrite Hnth.
    pose proof (div64_lt i nw Hi) as Hq.
    destruct (Nat.leb_spec (Z.to_nat off) (Z.to_nat (off + i / 64))); [|lia]. cbn [andb].
    destruct (Nat.ltb_spec (Z.to_nat (off + i / 64)) (Z.to_nat off + Z.to_nat nw)); [|lia].
    replace (Z.to_nat (off + i / 64) - Z.to_nat off)%nat with (Z.to_nat (i / 64)) by lia.
    unfold ws. rewrite testbit_Z_to_words by lia.
    rewrite Z.shiftl_spec by lia. replace (i - (0 * 64 + s)) with (i - s) by lia.
    destruct (Z.ltb_spec i s).
    + apply Z.testbit_neg_r. lia.
    + rewrite testbit_words_to_Z by lia.
      pose proof (div64_lt (i - s) nw ltac:(lia)) as Hq2.
      pose proof (Z.mod_pos_bound (i - s) 64 ltac:(lia)).
      rewrite testbit_u64 by lia. unfold S.
      replace (Z.to_nat ((i - s) / 64)) with (Z.to_nat ((i - s) / 64) + 0)%nat at 1 by lia.
      rewrite Nat.add_0_r. rewrite nth_in_slice by lia. rewrite Z2Nat.id by lia. reflexivity.
Qed.

Lemma testbit_above : forall v s n, 0 <= s -> 0 <= v < 2 ^ s -> s <= n ->
  Z.testbit v n = false.
Proof.
  intros v s n Hs Hv Hn. rewrite <- (Z.mod_small v (2 ^ s)) by lia.
  apply Z.mod_pow2_bits_high. lia.
Qed.

Lemma testbit_ones_low : forall s n, 0 <= n < s -> Z.testbit (2 ^ s - 1) n = true.
Proof.
  intros s n H. replace (2 ^ s - 1) with (Z.ones s) by (rewrite Z.ones_equiv; lia).
  apply Z.ones_spec_low. lia.
Qed.

Lemma lor_add : forall w v s, 0 <= s <= 64 -> 0 <= w < 2 ^ 64 ->
  (forall j, 0 <= j < s -> Z.testbit w j = false) -> 0 <= v < 2 ^ s ->
  u64 (w + v) = Z.lor w v /\ 0 <= Z.lor w v < 2 ^ 64.
Proof.
  intros w v s Hs Hw Hlow Hv.
  assert (H64 : 2 ^ s <= 2 ^ 64) by (apply Z.pow_le_mono_r; lia).
  assert (Hland : Z.land w v = 0).
  { apply Z.bits_inj'. intros n Hn. rewrite Z.land_spec, Z.bits_0.
    destruct (Z.lt_ge_cases n s).
    - rewrite Hlow by lia. reflexivity.
    - rewrite (testbit_above v s n) by lia. apply andb_false_r. }
  assert (Hadd : w + v = Z.lor w v).
  { rewrite Z.add_nocarry_lxor by exact Hland. apply Z.lxor_lor. exact Hland. }
  assert (Hu : Z.lor w v = u64 (Z.lor w v)).
  { apply Z.bits_inj'. intros n Hn. destruct (Z.lt_ge_cases n 64).
    - rewrite testbit_u64 by lia. reflexivity.
    - rewrite testbit_u64_high by lia. rewrite Z.lor_spec.
      rewrite (testbit_above w 64 n), (testbit_above v 64 n) by lia. reflexivity. }
  rewrite Hadd. split; [symmetry; exact Hu|]. rewrite Hu. apply u64_range.
Qed.

Lemma plane_bit_upd : forall p k w off i, (k < length p)%nat ->
  plane_bit (upd p k w) off i =
  if Nat.eqb (Z.to_nat (off + i / 64)) k then Z.testbit w (i mod 64)
  else plane_bit p off i.
Proof.
  intros p k w off i Hk. unfold plane_bit. rewrite nth_upd.
  destruct (Nat.eqb_spec (Z.to_nat (off + i / 64)) k); [|reflexivity].
  destruct (Nat.ltb_spec k (length p)); [reflexivity|lia].
Qed.

Lemma range_upd : forall p k w, words_in_range p -> 0 <= w < 2 ^ 64 ->
  words_in_range (upd p k w).
Proof.
  intros p k w Hr Hw j. rewrite nth_upd.
  destruct (Nat.eqb j k); [|apply Hr]. destruct (Nat.ltb k (length p)); lia.
Qed.

Lemma radix_shift : forall base, base <> Decimal ->
  radix_of base = 2 ^ shift_of base /\ 1 <= shift_of base <= 4.
Proof. intros [ | | | ] H; try contradiction; cbn; lia. Qed.

(** What one digit contributes to the value plane and to the unknown plane. *)
Lemma digit_values : forall base d, base <> Decimal -> valid_digit base d ->
  exists v u,
    (if exactlyEqualL d logic_x then Ok (0, Z.shiftl 1 (shift_of base) - 1)
     else if exactlyEqualL d logic_z
          then Ok (Z.shiftl 1 (shift_of base) - 1, Z.shiftl 1 (shift_of base) - 1)
          else if radix_of base <=? value d then Invalid else Ok (value d, 0))
    = Ok (v, u) /\
    0 <= v < 2 ^ shift_of base /\ 0 <= u < 2 ^ shift_of base /\
    (d = logic_x -> v = 0 /\ u = 2 ^ shift_of base - 1) /\
    (d = logic_z -> v = 2 ^ shift_of base - 1 /\ u = 2 ^ shift_of base - 1).
Proof.
  intros base d Hb Hv. destruct (radix_shift base Hb) as [Hr Hs].
  rewrite Z.shiftl_1_l.
  assert (Hp : 2 <= 2 ^ shift_of base).
  { change 2 with (2 ^ 1) at 1. apply Z.pow_le_mono_r; lia. }
  destruct d as [dv]. unfold valid_digit, exactlyEqualL, logic_x, logic_z, X_VALUE, Z_VALUE in *.
  cbn [value] in *.
  destruct (Z.eqb_spec dv 128) as [Ex|Ex].
  - eexists _, _. split; [reflexivity|]. split; [lia|]. split; [lia|].
    split; [auto|]. intro H. inversion H. lia.
  - destruct (Z.eqb_spec dv 64) as [Ez|Ez].
    + eexists _, _. split; [reflexivity|]. split; [lia|]. split; [lia|].
      split; [intro H; inversion H; lia|auto].
    + destruct Hv as [Hv|[Hv|Hv]]; try discriminate.
      destruct (Z.leb_spec (radix_of base) dv); [lia|].
      eexists _, _. split; [reflexivity|]. split; [lia|]. split; [lia|].
      split; intro Hd; inversion Hd; lia.
Qed.

(** The word at the bottom of a plane after a digit has been added in. *)
Lemma add_to_plane : forall p off nw s v,
  0 <= off -> 0 < nw -> off + nw <= Z.of_nat (length p) -> 0 <= s <= 64 ->
  words_in_range p -> 0 <= v < 2 ^ s ->
  (forall i, 0 <= i < s -> plane_bit p off i = false) ->
  exists p', (w <- rd p off ;; wr p off (u64 (w + v))) = Ok p' /\
    length p' = length p /\ words_in_range p' /\
    (forall k, Z.of_nat k <> off -> nth k p' 0 = nth k p 0) /\
    (forall i, 0 <= i < 64 * nw ->
       plane_bit p' off i = if i <? s then Z.testbit v i else plane_bit p off i).
Proof.
  intros p off nw s v Ho Hn Hl Hs Hr Hv Hlow.
  rewrite rd_ok by lia. cbn [bind]. rewrite wr_ok by lia.
  set (w := nth (Z.to_nat off) p 0).
  assert (Hwlow : forall j, 0 <= j < s -> Z.testbit w j = false).
  { intros j Hj. specialize (Hlow j Hj). unfold plane_bit in Hlow.
    rewrite Z.div_small, Z.mod_small in Hlow by lia.
    replace (off + 0) with off in Hlow by lia. exact Hlow. }
  destruct (lor_add w v s Hs (Hr _) Hwlow Hv) as [Hadd Hrange].
  rewrite Hadd. eexists. split; [reflexivity|]. split; [apply length_upd|].
  split; [apply range_upd; assumption|]. split.
  - intros k Hk. rewrite nth_upd. destruct (Nat.eqb_spec k (Z.to_nat off)); [lia|reflexivity].
  - intros i Hi. rewrite plane_bit_upd by lia.
    pose proof (div64_lt i nw Hi) as Hq.
    destruct (Nat.eqb_spec (Z.to_nat (off + i / 64)) (Z.to_nat off)) as [E|E].
    + assert (Hi0 : i / 64 = 0) by lia.
      assert (Hi64 : 0 <= i < 64).
      { pose proof (Z.div_mod i 64 ltac:(lia)). pose proof (Z.mod_pos_bound i 64 ltac:(lia)). lia. }
      rewrite Z.mod_small by lia. rewrite Z.lor_spec.
      destruct (Z.ltb_spec i s).
      * rewrite Hwlow by lia. reflexivity.
      * rewrite (testbit_above v s i) by lia. rewrite orb_false_r.
        unfold plane_bit. rewrite Hi0, Z.mod_small by lia.
        replace (off + 0) with off by lia. reflexivity.
    + destruct (Z.ltb_spec i s); [|reflexivity].
      exfalso. apply E. rewrite Z.div_small by lia. f_equal. lia.
Qed.

Lemma plane_bit_other : forall p p' off nw i,
  (forall k, off <= Z.of_nat k < off + nw -> nth k p' 0 = nth k p 0) ->
  0 <= off -> 0 <= i < 64 * nw -> plane_bit p' off i = plane_bit p off i.
Proof.
  intros p p' off nw i H Ho Hi. unfold plane_bit. rewrite H; [reflexivity|].
  pose proof (div64_lt i nw Hi). lia.
Qed.

Lemma pow2_digit_bits : forall base bits d p,
  base <> Decimal -> 0 < bits <= MAX_BITS -> valid_digit base d ->
  Z.of_nat (length p) = 2 * getNumWords2 bits false -> words_in_range p ->
  (bits <= shift_of base -> forall i, 0 <= i < 64 * getNumWords2 bits false ->
     plane_bit p 0 i = false /\ plane_bit p (getNumWords2 bits false) i = false) ->
  exists p' v u,
    pow2_digit bits (radix_of base) (shift_of base) (getNumWords2 bits false) true d p = Ok p' /\
    Z.of_nat (length p') = 2 * getNumWords2 bits false /\ words_in_range p' /\
    0 <= v < 2 ^ shift_of base /\ 0 <= u < 2 ^ shift_of base /\
    (d = logic_x -> v = 0 /\ u = 2 ^ shift_of base - 1) /\
    (d = logic_z -> v = 2 ^ shift_of base - 1 /\ u = 2 ^ shift_of base - 1) /\
    forall i, 0 <= i < 64 * getNumWords2 bits false ->
      plane_bit p' 0 i =
        (if i <? shift_of base then Z.testbit v i else plane_bit p 0 (i - shift_of base)) /\
      plane_bit p' (getNumWords2 bits false) i =
        (if i <? shift_of base then Z.testbit u i
         else plane_bit p (getNumWords2 bits false) (i - shift_of base)).
Proof.
  intros base bits d p Hb Hbits Hd Hl Hr Hsmall.
  destruct (radix_shift base Hb) as [Hrad Hs].
  pose proof (numWords_pos bits ltac:(lia)) as Hpos.
  set (s := shift_of base) in *. set (nw := getNumWords2 bits false) in *.
  destruct (digit_values base d Hb Hd) as [v [u [Edv [Hv [Hu [Hx Hz]]]]]]. fold s in Edv, Hv, Hu, Hx, Hz.
  unfold pow2_digit. rewrite Edv. cbn [bind].
  (* the planes after the shift *)
  assert (exists p1,
    (if bits <=? s then p0 <- wr p 0 0;; wr p0 nw 0
     else p0 <- shlFar p p s 0 0 nw;; shlFar p0 p0 s 0 nw nw) = Ok p1 /\
    length p1 = length p /\ words_in_range p1 /\
    forall i, 0 <= i < 64 * nw ->
      plane_bit p1 0 i = (if i <? s then false else plane_bit p 0 (i - s)) /\
      plane_bit p1 nw i = (if i <? s then false else plane_bit p nw (i - s)))
    as [p1 [E1 [Hl1 [Hr1 Hb1]]]].
  { destruct (Z.leb_spec bits s) as [Hle|Hgt].
    - assert (Hnw : nw = 1) by (apply numWords_small; lia).
      rewrite wr_ok by lia. cbn [bind]. rewrite wr_ok by (rewrite length_upd; lia).
      eexists. split; [reflexivity|]. split; [rewrite !length_upd; reflexivity|].
      split; [apply range_upd; [apply range_upd; [assumption|lia]|lia]|].
      intros i Hi. rewrite Hnw in Hi.
      assert (Hi0 : i / 64 = 0) by (apply Z.div_small; lia).
      rewrite !plane_bit_upd by (rewrite ?length_upd; lia).
      rewrite Hi0, Hnw.
      change (Nat.eqb (Z.to_nat (0 + 0)) (Z.to_nat 1)) with false.
      change (Nat.eqb (Z.to_nat (0 + 0)) (Z.to_nat 0)) with true.
      change (Nat.eqb (Z.to_nat (1 + 0)) (Z.to_nat 1)) with true.
      cbv iota. rewrite Z.bits_0.
      destruct (Z.ltb_spec i s); [split; reflexivity|].
      destruct (Hsmall Hle (i - s) ltac:(lia)) as [H1 H2]. rewrite Hnw in H2.
      rewrite H1, H2. split; reflexivity.
    - destruct (shlFar_plane p 0 nw s) as [q [Eq [Hlq [Hrq [Hoq Hbq]]]]]; try lia; try assumption.
      rewrite Eq. cbn [bind].
      destruct (shlFar_plane q nw nw s) as [q2 [Eq2 [Hlq2 [Hrq2 [Hoq2 Hbq2]]]]]; try lia; try assumption.
      rewrite Eq2. eexists. split; [reflexivity|]. split; [lia|]. split; [assumption|].
      intros i Hi. split.
      + rewrite (plane_bit_other q q2 0 nw i); [apply Hbq; exact Hi| |lia|exact Hi].
        intros k Hk. apply Hoq2. lia.
      + rewrite Hbq2 by exact Hi. destruct (Z.ltb_spec i s); [reflexivity|].
        apply (plane_bit_other p q nw nw); [|lia|lia].
        intros k Hk. apply Hoq. lia. }
  cbv zeta. rewrite E1. cbn [bind].
  destruct (add_to_plane p1 0 nw s v) as [p2 [E2 [Hl2 [Hr2 [Ho2 Hb2]]]]]; try lia; try assumption.
  { intros i Hi. destruct (Hb1 i ltac:(lia)) as [H1 _]. rewrite H1.
    destruct (Z.ltb_spec i s); [reflexivity|lia]. }
  assert (Hp1n : forall i, 0 <= i < 64 * nw -> plane_bit p2 nw i = plane_bit p1 nw i).
  { intros i Hi. apply (plane_bit_other p1 p2 nw nw); [|lia|exact Hi].
    intros k Hk. apply Ho2. lia. }
  rewrite rd_ok in E2 |- * by lia. cbn [bind] in E2 |- *. rewrite E2. cbn [bind].
  destruct (add_to_plane p2 nw nw s u) as [p3 [E3 [Hl3 [Hr3 [Ho3 Hb3]]]]]; try lia; try assumption.
  { intros i Hi. rewrite Hp1n by lia. destruct (Hb1 i ltac:(lia)) as [_ H1]. rewrite H1.
    destruct (Z.ltb_spec i s); [reflexivity|lia]. }
  fold nw. rewrite E3. exists p3, v, u. split; [reflexivity|]. split; [lia|]. split; [assumption|].
  split; [assumption|]. split; [assumption|]. split; [assumption|]. split; [assumption|].
  intros i Hi. split.
  - rewrite (plane_bit_other p2 p3 0 nw i); [| |lia|exact Hi].
    + rewrite Hb2 by exact Hi. destruct (Hb1 i Hi) as [H1 _]. rewrite H1.
      destruct (Z.ltb_spec i s); reflexivity.
    + intros k Hk. apply Ho3. lia.
  - rewrite Hb3 by exact Hi. rewrite Hp1n by exact Hi. destruct (Hb1 i Hi) as [_ H1]. rewrite H1.
    destruct (Z.ltb_spec i s); reflexivity.
Qed.

(** The planes of a freshly zeroed value satisfy the invariant before the
    first digit. *)
Lemma digits_inv_zero : forall nw s zf, 0 <= nw ->
  digits_inv nw s zf 0 (new_zeroed (2 * nw)).
Proof.
  intros nw s zf Hn. split; [rewrite length_new_zeroed; lia|]. split.
  - intro k. rewrite nth_new_zeroed. lia.
  - intros i Hi. split; [|lia]. intros _. unfold plane_bit.
    rewrite !nth_new_zeroed, Z.bits_0. split; reflexivity.
Qed.

(** One digit keeps the invariant: the earlier digits move up by [shift]
    bits, and the first digit, X or Z, stays on top. *)
Lemma pow2_digit_inv : forall base bits (zf : bool) j d p,
  base <> Decimal -> 0 < bits <= MAX_BITS -> valid_digit base d ->
  0 <= j -> (j + 1) * shift_of base <= bits ->
  (j = 0 -> d = if zf then logic_z else logic_x) ->
  digits_inv (getNumWords2 bits false) (shift_of base) zf j p ->
  exists p',
    pow2_digit bits (radix_of base) (shift_of base) (getNumWords2 bits false) true d p = Ok p' /\
    digits_inv (getNumWords2 bits false) (shift_of base) zf (j + 1) p'.
Proof.
  intros base bits zf j d p Hb Hbits Hd Hj Hfit Hfirst [Hl [Hr Hinv]].
  destruct (radix_shift base Hb) as [_ Hs].
  assert (Hsmall : bits <= shift_of base -> forall i, 0 <= i < 64 * getNumWords2 bits false ->
            plane_bit p 0 i = false /\ plane_bit p (getNumWords2 bits false) i = false).
  { intros Hle i Hi. assert (j = 0) by nia. subst j.
    destruct (Hinv i Hi) as [H0 _]. apply H0. lia. }
  destruct (pow2_digit_bits base bits d p Hb Hbits Hd Hl Hr Hsmall)
    as [p' [v [u [E [Hl' [Hr' [Hv [Hu [Hx [Hz Hbit]]]]]]]]]].
  exists p'. split; [exact E|]. split; [exact Hl'|]. split; [exact Hr'|].
  set (s := shift_of base) in *. set (nw := getNumWords2 bits false) in *.
  intros i Hi. destruct (Hbit i Hi) as [Hb0 Hb1]. rewrite Hb0, Hb1. split.
  - intros Hhigh. destruct (Z.ltb_spec i s); [nia|].
    destruct (Hinv (i - s) ltac:(lia)) as [H0 _]. apply H0. nia.
  - intros _ Htop. replace (j + 1 - 1) with j in Htop by lia.
    destruct (Z.ltb_spec i s) as [Hlt|Hge].
    + assert (j = 0) by nia. specialize (Hfirst H). 
      destruct zf.
      * destruct (Hz Hfirst) as [Ev Eu]. rewrite Ev, Eu.
        rewrite !testbit_ones_low by lia. split; reflexivity.
      * destruct (Hx Hfirst) as [Ev Eu]. rewrite Ev, Eu.
        rewrite Z.bits_0, testbit_ones_low by lia. split; reflexivity.
    + assert (1 <= j) by nia.
      destruct (Hinv (i - s) ltac:(lia)) as [_ H1]. apply H1; [lia|nia].
Qed.

Lemma fromDigits_pow2_inv : forall base bits (zf : bool) ds j p,
  base <> Decimal -> 0 < bits <= MAX_BITS -> Forall (valid_digit base) ds ->
  0 <= j -> (j + Z.of_nat (length ds)) * shift_of base <= bits ->
  (j = 0 -> match ds with d :: _ => d = if zf then logic_z else logic_x | [] => True end) ->
  digits_inv (getNumWords2 bits false) (shift_of base) zf j p ->
  exists p',
    fromDigits_pow2 bits (radix_of base) (shift_of base) (getNumWords2 bits false) true ds p
      = Ok p' /\
    digits_inv (getNumWords2 bits false) (shift_of base) zf (j + Z.of_nat (length ds)) p'.
Proof.
  intros base bits zf ds. induction ds as [|d ds IH]; intros j p Hb Hbits Hds Hj Hfit Hfirst Hinv.
  - exists p. split; [reflexivity|]. cbn [length]. replace (j + Z.of_nat 0) with j by lia.
    exact Hinv.
  - destruct (radix_shift base Hb) as [_ Hs].
    inversion Hds as [|? ? Hd Hrest]; subst.
    cbn [length] in Hfit |- *. rewrite Nat2Z.inj_succ in Hfit |- *.
    destruct (pow2_digit_inv base bits zf j d p Hb Hbits Hd Hj ltac:(nia) Hfirst Hinv)
      as [p1 [E1 Hinv1]].
    cbn [fromDigits_pow2]. rewrite E1. cbn [bind].
    destruct (IH (j + 1) p1 Hb Hbits Hrest ltac:(lia)) as [p2 [E2 Hinv2]].
    + replace (j + 1 + Z.of_nat (length ds)) with (j + Z.succ (Z.of_nat (length ds))) by lia.
      exact Hfit.
    + intros; lia.
    + exact Hinv1.
    + exists p2. split; [exact E2|].
      replace (j + Z.succ (Z.of_nat (length ds))) with (j + 1 + Z.of_nat (length ds)) by lia.
      exact Hinv2.
Qed.

Lemma testbit_low_mask : forall m j, 0 <= m -> 0 <= j ->
  Z.testbit (2 ^ m - 1) j = (j <? m).
Proof.
  intros m j Hm Hj. replace (2 ^ m - 1) with (Z.ones m) by (rewrite Z.ones_equiv; lia).
  apply Z.testbit_ones_nonneg; assumption.
Qed.

(** [clearUnusedBits] on a value with unknown bits, plane by plane: the bits
    below the width stay, the bits above it go. *)
Lemma clear_planes : forall bits sg p,
  0 < bits -> Z.of_nat (length p) = 2 * getNumWords2 bits false -> words_in_range p ->
  exists p', clearUnusedBits (mkSVInt bits sg true (Heap p)) = Ok (mkSVInt bits sg true (Heap p')) /\
    Z.of_nat (length p') = 2 * getNumWords2 bits false /\ words_in_range p' /\
    forall off i, off = 0 \/ off = getNumWords2 bits false ->
      0 <= i < 64 * getNumWords2 bits false ->
      plane_bit p' off i = (i <? bits) && plane_bit p off i.
Proof.
  intros bits sg p Hbits Hl Hr.
  pose proof (numWords_pos bits Hbits) as Hpos.
  pose proof (msw_bits bits Hbits) as Hmsw.
  destruct (clearUnusedBits_heap (mkSVInt bits sg true (Heap p)) p) as [p' [E [Hl' Hn]]];
    [exact Hbits|apply isSingleWord_unknown; reflexivity|reflexivity
    |rewrite getNumWords_unknown by reflexivity; exact Hl|].
  cbn [bitWidth] in Hn. exists p'. split; [exact E|]. split; [lia|]. split.
  - intro k. rewrite Hn.
    destruct (is_top _ k && negb (bits mod 64 =? 0) && (k <? length p)%nat); [|apply Hr].
    pose proof (Z.mod_pos_bound bits 64 ltac:(lia)) as Hm.
    pose proof (land_mask_range (nth k p 0) (bits mod 64) ltac:(lia)) as Hlr.
    assert (2 ^ (bits mod 64) <= 2 ^ 64) by (apply Z.pow_le_mono_r; lia). lia.
  - intros off i Hoff Hi. pose proof (div64_lt i _ Hi) as Hq.
    destruct (index_split i ltac:(lia)) as [_ [Hmod Hsplit]].
    set (nw := getNumWords2 bits false) in *.
    unfold plane_bit. rewrite Hn. unfold is_top. cbn [unknownFlag bitWidth andb].
    rewrite getNumWords_unknown by reflexivity. cbn [bitWidth]. fold nw.
    rewrite Z2Nat.id by lia.
    assert (Hk : (Z.to_nat (off + i / 64) <? length p)%nat = true)
      by (apply Nat.ltb_lt; lia).
    rewrite Hk, andb_true_r.
    destruct (Z.eqb_spec (bits mod 64) 0) as [Hz|Hnz].
    + cbn [negb]. rewrite andb_false_r.
      destruct (Z.ltb_spec i bits); [reflexivity|lia].
    + cbn [negb]. rewrite andb_true_r.
      pose proof (Z.mod_pos_bound bits 64 ltac:(lia)) as Hm.
      destruct (Z.eqb_spec (i / 64) (nw - 1)) as [Htop|Hlow].
      * assert (Ht : (off + i / 64 =? 2 * nw - 1) || (off + i / 64 =? nw - 1) = true).
        { destruct Hoff; subst off; apply orb_true_iff; [right|left]; apply Z.eqb_eq; lia. }
        rewrite Ht. rewrite Z.land_spec, testbit_low_mask by lia.
        rewrite andb_comm. f_equal.
        destruct (Z.ltb_spec (i mod 64) (bits mod 64)), (Z.ltb_spec i bits); try reflexivity; lia.
      * assert (Ht : (off + i / 64 =? 2 * nw - 1) || (off + i / 64 =? nw - 1) = false).
        { destruct Hoff; subst off; apply orb_false_iff; split; apply Z.eqb_neq; lia. }
        rewrite Ht. destruct (Z.ltb_spec i bits); [reflexivity|lia].
Qed.

(** The leading-zero count stops at the first word that is not zero. *)
Lemma clz_words_hit : forall p i c j, words_in_range p ->
  (j < i)%nat -> (i <= length p)%nat -> nth j p 0 <> 0 ->
  exists c', clz_words p i c = Ok c' /\ c' < c + 64 * (Z.of_nat i - Z.of_nat j).
Proof.
  intros p i. induction i as [|i IH]; intros c j Hr Hj Hi Hnz; [lia|].
  cbn [clz_words]. rewrite rd_ok by lia. cbn [bind]. rewrite Nat2Z.id.
  destruct (Z.eqb_spec (nth i p 0) 0) as [Ez|En].
  - assert (j <> i) by congruence.
    destruct (IH (c + BITS_PER_WORD) j Hr ltac:(lia) ltac:(lia) Hnz) as [c' [E Hc]].
    exists c'. split; [exact E|]. unfold BITS_PER_WORD in Hc. lia.
  - eexists. split; [reflexivity|].
    pose proof (clz64_small (nth i p 0) 64 ltac:(lia)) as Hs.
    pose proof (Hr i). lia.
Qed.

(** A value with an unknown bit below its width keeps its unknown flag. *)
Lemma checkUnknown_keeps : forall bits sg p b,
  0 < bits -> Z.of_nat (length p) = 2 * getNumWords2 bits false -> words_in_range p ->
  0 <= b < bits -> plane_bit p (getNumWords2 bits false) b = true ->
  checkUnknown (mkSVInt bits sg true (Heap p)) = Ok (mkSVInt bits sg true (Heap p)).
Proof.
  intros bits sg p b Hbits Hl Hr Hb Hset.
  pose proof (numWords_pos bits Hbits) as Hpos.
  pose proof (msw_bits bits Hbits) as Hmsw.
  pose proof (numWords_bounds bits Hbits) as Hnb.
  destruct (index_split b ltac:(lia)) as [_ [Hmod Hsplit]].
  pose proof (div64_lt b (getNumWords2 bits false) ltac:(lia)) as Hq.
  set (nw := getNumWords2 bits false) in *.
  assert (Hc : exists c, countLeadingZeros (mkSVInt bits sg true (Heap p)) = Ok c /\ c < bits).
  { unfold countLeadingZeros, isSingleWord. cbn [unknownFlag bitWidth negb].
    rewrite andb_false_r. unfold countLeadingZerosSlowCase, getTopWordMask.
    cbn [bitWidth]. unfold BITS_PER_WORD.
    assert (Hmask : exists m, 1 <= m <= 64 /\ 64 * (nw - 1) + m = bits /\
              (if negb (bits mod 64 =? 0) then (bits mod 64, shl64 1 (bits mod 64) - 1)
               else (64, UINT64_MAX)) = (m, 2 ^ m - 1)).
    { pose proof (Z.mod_pos_bound bits 64 ltac:(lia)) as Hm.
      destruct (Z.eqb_spec (bits mod 64) 0) as [Hz|Hnz]; cbn [negb].
      - exists 64. split; [lia|]. split; [lia|]. reflexivity.
      - exists (bits mod 64). split; [lia|]. split; [lia|]. f_equal. f_equal.
        unfold shl64. rewrite Z.shiftl_1_l. apply u64_small.
        split; [apply Z.pow_nonneg; lia|apply Z.pow_lt_mono_r; lia]. }
    destruct Hmask as [m [Hm [Hbm Em]]]. rewrite Em.
    rewrite getNumWords_unknown by reflexivity. cbn [bitWidth get_pVal store bind]. fold nw.
    rewrite rd_ok by lia. cbn [bind].
    set (w := nth (Z.to_nat (2 * nw - 1)) p 0).
    pose proof (land_mask_range w m ltac:(lia)) as Hpart.
    destruct (Z.eqb_spec (Z.land w (2 ^ m - 1)) 0) as [Ez|En]; cbn [negb].
    - assert (Hlow : b / 64 <> nw - 1).
      { intro Etop. assert (Hbit : Z.testbit (Z.land w (2 ^ m - 1)) (b mod 64) = true).
        { rewrite Z.land_spec, testbit_low_mask by lia.
          unfold plane_bit in Hset. replace (nw + b / 64) with (2 * nw - 1) in Hset by lia.
          fold w in Hset. rewrite Hset.
          destruct (Z.ltb_spec (b mod 64) m); [reflexivity|lia]. }
        rewrite Ez, Z.bits_0 in Hbit. discriminate. }
      destruct (clz_words_hit p (Z.to_nat (2 * nw - 1)) m (Z.to_nat (nw + b / 64)) Hr)
        as [c [E Hc]]; try lia.
      + unfold plane_bit in Hset. intro E0. rewrite E0, Z.bits_0 in Hset. discriminate.
      + exists c. split; [exact E|]. lia.
    - eexists. split; [reflexivity|].
      pose proof (clz64_small (Z.land w (2 ^ m - 1)) m ltac:(lia) ltac:(lia)). lia. }
  destruct Hc as [c [Ec Hc]]. unfold checkUnknown. cbn [unknownFlag negb bitWidth].
  rewrite Ec. cbn [bind]. destruct (Z.ltb_spec c bits); [reflexivity|lia].
Qed.

Lemma lor_range : forall a b, 0 <= a < 2 ^ 64 -> 0 <= b < 2 ^ 64 ->
  0 <= Z.lor a b < 2 ^ 64.
Proof.
  intros a b Ha Hb. split; [apply Z.lor_nonneg; lia|].
  assert (E : Z.lor a b = u64 (Z.lor a b)).
  { apply Z.bits_inj'. intros j Hj. destruct (Z.ltb_spec j 64).
    - rewrite testbit_u64 by lia. reflexivity.
    - rewrite testbit_u64_high by lia. rewrite Z.lor_spec.
      rewrite (testbit_above a 64 j), (testbit_above b 64 j) by lia. reflexivity. }
  rewrite E. apply u64_range.
Qed.

Lemma plane_bit_at : forall p off wo k, 0 <= wo -> 0 <= k < 64 ->
  plane_bit p off (64 * wo + k) = Z.testbit (nth (Z.to_nat (off + wo)) p 0) k.
Proof.
  intros p off wo k Hw Hk. unfold plane_bit.
  replace ((64 * wo + k) / 64) with wo
    by (apply Z.div_unique with k; lia).
  replace ((64 * wo + k) mod 64) with k
    by (apply Z.mod_unique with wo; lia).
  reflexivity.
Qed.

(** The test [word >> (wordBits - 1)] of the extension reads the topmost
    written bit when nothing lies above it. *)
Lemma shr_top_test : forall t wb, 0 <= t < 2 ^ 64 -> 1 <= wb <= 64 ->
  (forall k, wb <= k < 64 -> Z.testbit t k = false) ->
  negb (shr64 t (wb - 1) =? 0) = Z.testbit t (wb - 1).
Proof.
  intros t wb Ht Hwb Hhigh. unfold shr64. rewrite u64_small by exact Ht.
  destruct (Z.testbit t (wb - 1)) eqn:Eb.
  - destruct (Z.eqb_spec (Z.shiftr t (wb - 1)) 0) as [E|]; [|reflexivity].
    assert (Hb : Z.testbit (Z.shiftr t (wb - 1)) 0 = true)
      by (rewrite Z.shiftr_spec by lia; exact Eb).
    rewrite E, Z.bits_0 in Hb. discriminate.
  - assert (E : Z.shiftr t (wb - 1) = 0).
    { apply Z.bits_inj'. intros j Hj. rewrite Z.shiftr_spec, Z.bits_0 by lia.
      destruct (Z.eq_dec j 0) as [->|]; [exact Eb|].
      destruct (Z.ltb_spec (j + (wb - 1)) 64); [apply Hhigh; lia|].
      apply (testbit_above t 64); lia. }
    rewrite E. reflexivity.
Qed.

Lemma testbit_max : forall j, 0 <= j < 64 -> Z.testbit UINT64_MAX j = true.
Proof.
  intros j Hj. change UINT64_MAX with (2 ^ 64 - 1). apply testbit_ones_low. lia.
Qed.

(** Setting every bit of one plane from bit [64 * wo + wb] on. *)
Lemma extend_plane : forall p off nw wo wb mask lo hi,
  0 <= off -> off + nw <= Z.of_nat (length p) -> words_in_range p ->
  0 <= wo < nw -> 1 <= wb <= 64 -> 0 <= mask < 2 ^ 64 ->
  (forall k, 0 <= k < 64 -> Z.testbit mask k = (wb <=? k)) ->
  lo = off + wo -> hi = off + nw ->
  exists p',
    for_range (lo + 1) hi (fun i p => wr p i UINT64_MAX)
      (upd p (Z.to_nat lo) (Z.lor (nth (Z.to_nat lo) p 0) mask)) = Ok p' /\
    length p' = length p /\ words_in_range p' /\
    (forall k, Z.of_nat k < lo \/ hi <= Z.of_nat k -> nth k p' 0 = nth k p 0) /\
    (forall i, 0 <= i < 64 * nw ->
       plane_bit p' off i = (64 * wo + wb <=? i) || plane_bit p off i).
Proof.
  intros p off nw wo wb mask lo hi Ho Hl Hr Hwo Hwb Hm Hmb -> ->.
  set (lo := off + wo). set (t := nth (Z.to_nat lo) p 0).
  destruct (fill_range (upd p (Z.to_nat lo) (Z.lor t mask)) (lo + 1) (off + nw) UINT64_MAX)
    as [q [E [Hlq Hq]]]; [lia|lia|rewrite length_upd; lia|].
  rewrite length_upd in Hlq.
  exists q. split; [exact E|]. split; [exact Hlq|]. split; [|split].
  - intro k. rewrite Hq. destruct ((lo + 1 <=? Z.of_nat k) && (Z.of_nat k <? off + nw)).
    + unfold UINT64_MAX. lia.
    + apply range_upd; [exact Hr|]. apply lor_range; [apply Hr|exact Hm].
  - intros k Hk. rewrite Hq, nth_upd.
    destruct (Z.leb_spec (lo + 1) (Z.of_nat k)), (Z.ltb_spec (Z.of_nat k) (off + nw));
      cbn [andb]; try lia;
      destruct (Nat.eqb_spec k (Z.to_nat lo)); try lia; reflexivity.
  - intros i Hi. pose proof (div64_lt i nw Hi) as Hd.
    destruct (index_split i ltac:(lia)) as [_ [Hmod Hsplit]].
    unfold plane_bit. rewrite Hq, nth_upd. rewrite Z2Nat.id by lia.
    destruct (Z.leb_spec (lo + 1) (off + i / 64)), (Z.ltb_spec (off + i / 64) (off + nw));
      cbn [andb]; try lia.
    + rewrite testbit_max by lia.
      destruct (Z.leb_spec (64 * wo + wb) i); [reflexivity|lia].
    + destruct (Nat.eqb_spec (Z.to_nat (off + i / 64)) (Z.to_nat lo)) as [Ek|Ek].
      * assert (Hlen : (Z.to_nat lo <? length p)%nat = true) by (apply Nat.ltb_lt; lia).
        rewrite Hlen, Z.lor_spec, Hmb by lia. rewrite Ek. fold t. rewrite orb_comm. f_equal.
        assert (i / 64 = wo) by lia.
        destruct (Z.leb_spec wb (i mod 64)), (Z.leb_spec (64 * wo + wb) i);
          try reflexivity; lia.
      * destruct (Z.leb_spec (64 * wo + wb) i); [lia|reflexivity].
Qed.

Lemma u32_small : forall z, 0 <= z < 2 ^ 32 -> u32 z = z.
Proof. intros z H. unfold u32. apply Z.mod_small. exact H. Qed.

(** The extension proper: with the first digit X or Z on top, every bit from
    that digit up to the width ends up in the state of that digit. *)
Lemma extend_from_spec : forall bits sg (zf : bool) n s p wb wo mask,
  0 < bits <= MAX_BITS -> 1 <= n -> 1 <= s -> n * s <= bits ->
  digits_inv (getNumWords2 bits false) s zf n p ->
  0 <= wo < getNumWords2 bits false -> 1 <= wb <= 64 -> 64 * wo + wb = n * s ->
  0 <= mask < 2 ^ 64 -> (forall k, 0 <= k < 64 -> Z.testbit mask k = (wb <=? k)) ->
  exists p',
    extend_from (mkSVInt bits sg true (Heap p)) wb wo mask (getNumWords2 bits false)
      = Ok (mkSVInt bits sg true (Heap p')) /\
    Z.of_nat (length p') = 2 * getNumWords2 bits false /\
    forall i, (n - 1) * s <= i < bits ->
      plane_bit p' 0 i = zf /\ plane_bit p' (getNumWords2 bits false) i = true.
Proof.
  intros bits sg zf n s p wb wo mask Hbits Hn Hs Hfit [Hl [Hr Hinv]] Hwo Hwb Hg Hm Hmb.
  pose proof (numWords_pos bits ltac:(lia)) as Hpos.
  pose proof (numWords_bounds bits ltac:(lia)) as Hnb.
  set (nw := getNumWords2 bits false) in *.
  assert (Htop : forall i, (n - 1) * s <= i < n * s ->
            plane_bit p 0 i = zf /\ plane_bit p nw i = true).
  { intros i Hi. destruct (Hinv i ltac:(nia)) as [_ H]. apply H; lia. }
  assert (Hhigh : forall i, n * s <= i < 64 * nw ->
            plane_bit p 0 i = false /\ plane_bit p nw i = false).
  { intros i Hi. destruct (Hinv i ltac:(nia)) as [H _]. apply H; lia. }
  unfold extend_from. unfold MAX_BITS in Hbits. rewrite u32_small by lia.
  cbv zeta. cbn [get_pVal store bind].
  rewrite rd_ok by lia. cbn [bind].
  (* the unknown plane *)
  rewrite shr_top_test; [|apply Hr|lia|].
  2:{ intros k Hk. rewrite <- (plane_bit_at p nw wo k) by lia. apply Hhigh. lia. }
  rewrite <- (plane_bit_at p nw wo (wb - 1)) by lia.
  replace (64 * wo + (wb - 1)) with (n * s - 1) by lia.
  destruct (Htop (n * s - 1) ltac:(lia)) as [Hv1 Hu1]. rewrite Hu1.
  rewrite wr_ok by lia. cbn [bind].
  destruct (extend_plane p nw nw wo wb mask (nw + wo) (nw * 2))
    as [p1 [E1 [Hl1 [Hr1 [Ho1 Hb1]]]]]; try lia; try assumption.
  rewrite E1. cbn [bind].
  assert (Hv0 : forall i, 0 <= i < 64 * nw -> plane_bit p1 0 i = plane_bit p 0 i).
  { intros i Hi. apply (plane_bit_other p p1 0 nw); [|lia|exact Hi].
    intros k Hk. apply Ho1. lia. }
  rewrite rd_ok by lia. cbn [bind].
  (* the value plane *)
  assert (Hat : forall k, 0 <= k < 64 ->
            Z.testbit (nth (Z.to_nat wo) p1 0) k = plane_bit p 0 (64 * wo + k)).
  { intros k Hk. rewrite <- Hv0 by lia. rewrite plane_bit_at by lia. reflexivity. }
  rewrite shr_top_test; [|apply Hr1|lia|].
  2:{ intros k Hk. rewrite Hat by lia. apply Hhigh. lia. }
  rewrite Hat by lia.
  replace (64 * wo + (wb - 1)) with (n * s - 1) by lia.
  rewrite Hv1.
  assert (exists p2,
    (if zf then
       p0 <- wr p1 wo (Z.lor (nth (Z.to_nat wo) p1 0) mask);;
       for_range (wo + 1) nw (fun i p => wr p i UINT64_MAX) p0
     else Ok p1) = Ok p2 /\
    length p2 = length p /\ words_in_range p2 /\
    (forall i, 0 <= i < 64 * nw -> plane_bit p2 nw i = plane_bit p1 nw i) /\
    (forall i, 0 <= i < 64 * nw ->
       plane_bit p2 0 i = (zf && (n * s <=? i)) || plane_bit p 0 i))
    as [p2 [E2 [Hl2 [Hr2 [Hu2 Hv2]]]]].
  { destruct zf.
    - rewrite wr_ok by lia. cbn [bind].
      destruct (extend_plane p1 0 nw wo wb mask wo nw)
        as [q [E [Hlq [Hrq [Hoq Hbq]]]]]; try lia; try assumption.
      exists q. split; [exact E|]. split; [lia|]. split; [exact Hrq|]. split.
      + intros i Hi. apply (plane_bit_other p1 q nw nw); [|lia|exact Hi].
        intros k Hk. apply Hoq. lia.
      + intros i Hi. rewrite Hbq, Hv0 by exact Hi. rewrite Hg. reflexivity.
    - exists p1. split; [reflexivity|]. split; [lia|]. split; [exact Hr1|].
      split; [reflexivity|]. intros i Hi. rewrite Hv0 by exact Hi. reflexivity. }
  rewrite E2. cbn [bind]. unfold set_pVal. cbn [bitWidth signFlag unknownFlag].
  destruct (clear_planes bits sg p2) as [p3 [E3 [Hl3 [Hr3 Hb3]]]]; [lia|lia|exact Hr2|].
  fold nw in E3, Hl3, Hb3.
  exists p3. split; [exact E3|]. split; [exact Hl3|].
  intros i Hi. assert (Hi' : 0 <= i < 64 * nw) by nia.
  rewrite (Hb3 0 i) by (auto; lia). rewrite (Hb3 nw i) by (auto; lia).
  rewrite Hv2, Hu2, Hb1 by exact Hi'. rewrite Hg.
  destruct (Z.ltb_spec i bits); [|lia]. cbn [andb].
  destruct (Z.leb_spec (n * s) i).
  - destruct (Hhigh i ltac:(lia)) as [Hp0 _]. rewrite Hp0.
    rewrite andb_true_r, orb_false_r. split; reflexivity.
  - destruct (Htop i ltac:(lia)) as [Hp0 Hp1]. rewrite Hp0, Hp1.
    rewrite andb_false_r. split; reflexivity.
Qed.

Lemma extend_unknown_spec : forall bits sg (zf : bool) n s p,
  0 < bits <= MAX_BITS -> 1 <= n -> 1 <= s -> n * s <= bits ->
  digits_inv (getNumWords2 bits false) s zf n p ->
  exists p',
    extend_unknown (mkSVInt bits sg true (Heap p)) n s (getNumWords2 bits false)
      = Ok (mkSVInt bits sg true (Heap p')) /\
    Z.of_nat (length p') = 2 * getNumWords2 bits false /\
    forall i, (n - 1) * s <= i < bits ->
      plane_bit p' 0 i = zf /\ plane_bit p' (getNumWords2 bits false) i = true.
Proof.
  intros bits sg zf n s p Hbits Hn Hs Hfit Hinv.
  pose proof (numWords_bounds bits ltac:(lia)) as Hnb.
  assert (Hg : 1 <= n * s) by nia.
  destruct (index_split (n * s) ltac:(lia)) as [Hq [Hmod Hsplit]].
  unfold extend_unknown. unfold MAX_BITS in Hbits. rewrite u32_small by lia.
  cbv zeta. unfold BITS_PER_WORD.
  destruct (Z.eqb_spec ((n * s) mod 64) 0) as [Ez|En]; cbn [negb].
  - rewrite u32_small by lia.
    apply (extend_from_spec bits sg zf n s p); try assumption; try lia.
    intros k Hk. rewrite Z.bits_0. destruct (Z.leb_spec 64 k); [lia|reflexivity].
  - apply (extend_from_spec bits sg zf n s p); try assumption; try lia.
    + unfold shl64. apply u64_range.
    + intros k Hk. unfold shl64. rewrite testbit_u64 by lia.
      rewrite Z.shiftl_spec by lia.
      destruct (Z.leb_spec ((n * s) mod 64) k).
      * apply testbit_max. lia.
      * apply Z.testbit_neg_r. lia.
Qed.

(** Reading one bit of a value with unknown bits, from its two planes. *)
Lemma index_planes : forall bits sg p i,
  0 < bits <= MAX_BITS -> Z.of_nat (length p) = 2 * getNumWords2 bits false ->
  0 <= i < bits ->
  index_int (mkSVInt bits sg true (Heap p)) i =
    Ok (if plane_bit p (getNumWords2 bits false) i
        then (if plane_bit p 0 i then logic_z else logic_x)
        else logic_of_bool (plane_bit p 0 i)).
Proof.
  intros bits sg p i Hbits Hl Hi.
  pose proof (numWords_bounds bits ltac:(lia)) as Hnb.
  pose proof (div64_lt i (getNumWords2 bits false) ltac:(lia)) as Hq.
  unfold index_int. unfold MAX_BITS in Hbits. rewrite u32_small by lia.
  cbn [bitWidth unknownFlag negb].
  destruct (Z.ltb_spec i 0); [lia|]. destruct (Z.leb_spec bits i); [lia|]. cbn [orb].
  unfold isSingleWord. cbn [unknownFlag negb bitWidth]. rewrite andb_false_r.
  cbn [get_pVal store bind]. unfold whichWord, BITS_PER_WORD.
  rewrite rd_ok by lia. cbn [bind]. rewrite rd_ok by lia. cbn [bind].
  rewrite !maskBit_test by lia. unfold plane_bit.
  replace (0 + i / 64) with (i / 64) by lia.
  replace (getNumWords2 bits false + i / 64) with (i / 64 + getNumWords2 bits false) by lia.
  destruct (Z.testbit (nth (Z.to_nat (i / 64 + getNumWords2 bits false)) p 0) (i mod 64));
    reflexivity.
Qed.

(** Clearing the unused bits leaves the parsed digits as they are. *)
Lemma clear_inv : forall bits sg (zf : bool) n s p,
  0 < bits -> n * s <= bits -> 0 <= s ->
  digits_inv (getNumWords2 bits false) s zf n p ->
  exists p', clearUnusedBits (mkSVInt bits sg true (Heap p)) = Ok (mkSVInt bits sg true (Heap p')) /\
    digits_inv (getNumWords2 bits false) s zf n p'.
Proof.
  intros bits sg zf n s p Hbits Hfit Hs [Hl [Hr Hinv]].
  destruct (clear_planes bits sg p Hbits Hl Hr) as [p' [E [Hl' [Hr' Hb]]]].
  exists p'. split; [exact E|]. split; [exact Hl'|]. split; [exact Hr'|].
  intros i Hi. rewrite (Hb 0 i) by (auto; lia).
  rewrite (Hb (getNumWords2 bits false) i) by (auto; lia).
  destruct (Hinv i Hi) as [Hhigh Htop]. split.
  - intros H. destruct (Hhigh H) as [H0 H1]. rewrite H0, H1, !andb_false_r. split; reflexivity.
  - intros Hn Hrange. destruct (Htop Hn Hrange) as [H0 H1]. rewrite H0, H1.
    destruct (Z.ltb_spec i bits); [|lia]. split; reflexivity.
Qed.

Section UnknownExtension.
Variable junk : Z -> Z.

(** C6: in [fromDigits] for a power-of-two base, on the path taken when a
    digit is unknown, a first digit that is X or Z is extended over all the
    bits above it up to the declared width: every bit from the lowest bit of
    that digit to the top of the value reads as that X or Z.  In particular
    parsing 4'bx gives four X bits and parsing 8'bz gives eight Z bits. *)
Theorem C6_unknown_sign_extension : forall bits base isSigned d0 ds,
  0 < bits <= MAX_BITS -> base <> Decimal ->
  d0 = logic_x \/ d0 = logic_z ->
  Forall (valid_digit base) ds ->
  Z.of_nat (length (d0 :: ds)) * shift_of base <= bits ->
  (exists r, fromDigits junk bits base isSigned true (d0 :: ds) = Ok r /\
     bitWidth r = bits /\ hasUnknown r = true /\
     forall i, Z.of_nat (length ds) * shift_of base <= i < bits ->
       index_int r i = Ok d0) /\
  (exists r, fromString junk "4'bx" = Ok r /\ bitWidth r = 4 /\
     forall i, 0 <= i < 4 -> index_int r i = Ok logic_x) /\
  (exists r, fromString junk "8'bz" = Ok r /\ bitWidth r = 8 /\
     forall i, 0 <= i < 8 -> index_int r i = Ok logic_z).
Proof.
  intros bits base isSigned d0 ds Hbits Hb Hd0 Hds Hfit. split; [|split].
  - destruct (radix_shift base Hb) as [Hrad Hs].
    pose proof (numWords_pos bits ltac:(lia)) as Hpos.
    set (n := Z.of_nat (length (d0 :: ds))) in *.
    assert (Hn : n = 1 + Z.of_nat (length ds)) by (unfold n; cbn [length]; lia).
    set (zf := exactlyEqualL d0 logic_z).
    assert (Hzf : d0 = if zf then logic_z else logic_x)
      by (unfold zf; destruct Hd0; subst d0; reflexivity).
    unfold fromDigits. rewrite andb_false_r. cbv zeta.
    unfold allocZeroed. rewrite orb_true_r. cbn [bind].
    replace (radix_of base =? 10) with false
      by (destruct base; [reflexivity|reflexivity|congruence|reflexivity]).
    cbn [get_pVal store bind].
    replace (getNumWords2 bits true) with (2 * getNumWords2 bits false)
      by (unfold getNumWords2; lia).
    destruct (fromDigits_pow2_inv base bits zf (d0 :: ds) 0 (new_zeroed (2 * getNumWords2 bits false)))
      as [p1 [E1 Hinv1]]; try assumption; try lia.
    + constructor; [|exact Hds]. destruct Hd0; subst d0; [left|right; left]; reflexivity.
    + intros _. exact Hzf.
    + apply digits_inv_zero. lia.
    + rewrite E1. cbn [bind]. fold n in Hinv1. replace (0 + n) with n in Hinv1 by lia.
      unfold set_pVal. cbn [bitWidth signFlag unknownFlag].
      destruct (clear_inv bits isSigned zf n (shift_of base) p1) as [p2 [E2 Hinv2]];
        try assumption; try lia.
      rewrite E2. cbn [bind].
      destruct Hinv2 as [Hl2 [Hr2 Hb2]].
      assert (Hset : plane_bit p2 (getNumWords2 bits false) (n * shift_of base - 1) = true).
      { pose proof (numWords_bounds bits ltac:(lia)).
        destruct (Hb2 (n * shift_of base - 1) ltac:(nia)) as [_ Ht]. apply Ht; nia. }
      rewrite (checkUnknown_keeps bits isSigned p2 (n * shift_of base - 1));
        try assumption; try nia.
      cbn [bind hasUnknown unknownFlag].
      destruct (extend_unknown_spec bits isSigned zf n (shift_of base) p2)
        as [p3 [E3 [Hl3 Hb3]]]; try assumption; try lia.
      { split; [exact Hl2|]. split; [exact Hr2|exact Hb2]. }
      fold n. rewrite E3.
      eexists. split; [reflexivity|]. split; [reflexivity|]. split; [reflexivity|].
      intros i Hi. rewrite index_planes by (try assumption; nia).
      destruct (Hb3 i) as [Hv Hu]; [replace (n - 1) with (Z.of_nat (length ds)) by lia; exact Hi|].
      rewrite Hv, Hu. rewrite Hzf. destruct zf; reflexivity.
  - eexists. split; [vm_compute; reflexivity|]. split; [reflexivity|].
    intros i Hi.
    assert (Hc : i = 0 \/ i = 1 \/ i = 2 \/ i = 3) by lia.
    destruct Hc as [->|[->|[->| ->]]]; reflexivity.
  - eexists. split; [vm_compute; reflexivity|]. split; [reflexivity|].
    intros i Hi.
    assert (Hc : i = 0 \/ i = 1 \/ i = 2 \/ i = 3 \/ i = 4 \/ i = 5 \/ i = 6 \/ i = 7) by lia.
    destruct Hc as [->|[->|[->|[->|[->|[->|[->| ->]]]]]]]; reflexivity.
Qed.

End UnknownExtension.

(** An instance: the digits z, 1, 0 of an 8-bit binary literal. *)
Lemma C6_unknown_sign_extension_witness :
  exists r, fromDigits heap0 8 Binary false true [logic_z; mkLogic 1; mkLogic 0] = Ok r /\
    bitWidth r = 8 /\ hasUnknown r = true /\
    forall i, 2 <= i < 8 -> index_int r i = Ok logic_z.
Proof.
  apply (C6_unknown_sign_extension heap0 8 Binary false logic_z [mkLogic 1; mkLogic 0]).
  - unfold MAX_BITS. lia.
  - discriminate.
  - right. reflexivity.
  - constructor; [right; right; cbn; lia|].
    constructor; [right; right; cbn; lia|]. constructor.
  - cbn. lia.
Defined.

(** ** Numbers and their words *)

Lemma words_to_Z_range : forall ws, 0 <= words_to_Z ws < 2 ^ (64 * Z.of_nat (length ws)).
Proof.
  induction ws as [|w t IH]; cbn [words_to_Z length].
  - cbn. lia.
  - pose proof (u64_range w) as Hw. rewrite Nat2Z.inj_succ.
    replace (64 * Z.succ (Z.of_nat (length t))) with (64 + 64 * Z.of_nat (length t)) by lia.
    rewrite Z.pow_add_r by lia. nia.
Qed.

Lemma Z_to_words_ext : forall n z z',
  (forall i, 0 <= i < 64 * Z.of_nat n -> Z.testbit z i = Z.testbit z' i) ->
  Z_to_words n z = Z_to_words n z'.
Proof.
  induction n as [|n IH]; intros z z' H; [reflexivity|].
  cbn [Z_to_words]. f_equal.
  - apply Z.bits_inj'. intros j Hj. destruct (Z.ltb_spec j 64).
    + rewrite !testbit_u64 by lia. apply H. lia.
    + rewrite !testbit_u64_high by lia. reflexivity.
  - apply IH. intros i Hi. rewrite !Z.shiftr_spec by lia. apply H. lia.
Qed.

Lemma Z_to_words_mod : forall n m z, 64 * Z.of_nat n <= m ->
  Z_to_words n (z mod 2 ^ m) = Z_to_words n z.
Proof.
  intros n m z H. apply Z_to_words_ext. intros i Hi.
  apply Z.mod_pow2_bits_low. lia.
Qed.

Lemma words_to_Z_to_words : forall n z,
  words_to_Z (Z_to_words n z) = z mod 2 ^ (64 * Z.of_nat n).
Proof.
  intros n z. apply Z.bits_inj'. intros i Hi.
  rewrite testbit_words_to_Z by exact Hi.
  destruct (index_split i Hi) as [Hq [Hm Hs]].
  destruct (Z.ltb_spec i (64 * Z.of_nat n)).
  - rewrite testbit_u64 by lia. rewrite testbit_Z_to_words by lia.
    rewrite Z.mod_pow2_bits_low by lia. reflexivity.
  - rewrite Z.mod_pow2_bits_high by lia.
    rewrite nth_overflow by (rewrite length_Z_to_words; lia).
    change (u64 0) with 0. apply Z.bits_0.
Qed.

Lemma Z_to_words_to_Z : forall p, words_in_range p ->
  Z_to_words (length p) (words_to_Z p) = p.
Proof.
  intros p Hr. apply nth_ext0; [apply length_Z_to_words|].
  rewrite length_Z_to_words. intros k Hk.
  apply Z.bits_inj'. intros j Hj.
  pose proof (nth_Z_to_words_range (length p) (words_to_Z p) k) as Hw.
  destruct (Z.ltb_spec j 64).
  - pose proof (testbit_Z_to_words (length p) (words_to_Z p) (64 * Z.of_nat k + j)) as Ht.
    replace ((64 * Z.of_nat k + j) / 64) with (Z.of_nat k) in Ht
      by (apply Z.div_unique with j; lia).
    replace ((64 * Z.of_nat k + j) mod 64) with j in Ht
      by (apply Z.mod_unique with (Z.of_nat k); lia).
    rewrite Nat2Z.id in Ht. rewrite Ht by lia.
    rewrite testbit_words_to_Z by lia.
    replace ((64 * Z.of_nat k + j) / 64) with (Z.of_nat k)
      by (apply Z.div_unique with j; lia).
    replace ((64 * Z.of_nat k + j) mod 64) with j
      by (apply Z.mod_unique with (Z.of_nat k); lia).
    rewrite Nat2Z.id. rewrite u64_small by apply Hr. reflexivity.
  - rewrite (testbit_above _ 64 j) by lia.
    rewrite (testbit_above (nth k p 0) 64 j); [reflexivity|lia|apply Hr|lia].
Qed.

Lemma words_in_range_Z_to_words : forall n z, words_in_range (Z_to_words n z).
Proof. intros n z k. apply nth_Z_to_words_range. Qed.

Lemma pow2_words : forall bits, 0 < bits ->
  2 ^ bits <= 2 ^ (64 * getNumWords2 bits false).
Proof.
  intros bits H. pose proof (numWords_bounds bits H).
  apply Z.pow_le_mono_r; lia.
Qed.

(** ** The representation of a known value *)

Lemma uval_of_value : forall bits sg v, 0 < bits -> 0 <= v < 2 ^ bits ->
  uval (of_value bits sg v) = v.
Proof.
  intros bits sg v Hb Hv. unfold uval, of_value. cbn [store].
  destruct (Z.leb_spec bits 64); [reflexivity|].
  rewrite words_to_Z_to_words. pose proof (numWords_pos bits Hb).
  rewrite Z2Nat.id by lia. pose proof (pow2_words bits Hb). apply Z.mod_small. lia.
Qed.

Lemma known_of_value : forall bits sg v, 0 < bits <= MAX_BITS -> 0 <= v < 2 ^ bits ->
  known_value (of_value bits sg v).
Proof.
  intros bits sg v Hb Hv. pose proof (numWords_pos bits ltac:(lia)).
  pose proof (uval_of_value bits sg v ltac:(lia) Hv) as Hu.
  unfold known_value, uval, of_value in *. cbn [bitWidth unknownFlag store] in *.
  split; [exact Hb|]. split; [reflexivity|].
  destruct (Z.leb_spec bits 64); [split; [lia|exact Hv]|].
  split; [lia|]. split; [rewrite length_Z_to_words; lia|].
  split; [apply words_in_range_Z_to_words|]. rewrite Hu. lia.
Qed.

Lemma known_value_eq : forall x, known_value x ->
  x = of_value (bitWidth x) (signFlag x) (uval x) /\ 0 <= uval x < 2 ^ bitWidth x.
Proof.
  intros [b s u st] [Hb [Hu Hst]]. cbn [bitWidth signFlag unknownFlag store] in *.
  subst u. unfold of_value, uval. cbn [store].
  destruct st as [v|p].
  - destruct Hst as [Hle Hv]. destruct (Z.leb_spec b 64); [|lia]. split; [reflexivity|exact Hv].
  - destruct Hst as [Hgt [Hl [Hr Hv]]]. destruct (Z.leb_spec b 64); [lia|].
    split.
    + rewrite <- Hl, Nat2Z.id. rewrite Z_to_words_to_Z by exact Hr. reflexivity.
    + pose proof (words_to_Z_range p). lia.
Qed.

Lemma word_bit : forall n z k j, (k < n)%nat -> 0 <= j < 64 ->
  Z.testbit (nth k (Z_to_words n z) 0) j = Z.testbit z (64 * Z.of_nat k + j).
Proof.
  intros n z k j Hk Hj.
  pose proof (testbit_Z_to_words n z (64 * Z.of_nat k + j) ltac:(lia)) as Ht.
  replace ((64 * Z.of_nat k + j) / 64) with (Z.of_nat k) in Ht
    by (apply Z.div_unique with j; lia).
  replace ((64 * Z.of_nat k + j) mod 64) with j in Ht
    by (apply Z.mod_unique with (Z.of_nat k); lia).
  rewrite Nat2Z.id in Ht. exact Ht.
Qed.

(** Two word arrays with the same bits are the same array. *)
Lemma words_ext : forall p q, length p = length q ->
  words_in_range p -> words_in_range q ->
  (forall k j, (k < length p)%nat -> 0 <= j < 64 ->
     Z.testbit (nth k p 0) j = Z.testbit (nth k q 0) j) ->
  p = q.
Proof.
  intros p q Hl Hp Hq H. apply nth_ext0; [exact Hl|]. intros k Hk.
  apply Z.bits_inj'. intros j Hj. destruct (Z.ltb_spec j 64).
  - apply H; [exact Hk|lia].
  - rewrite (testbit_above (nth k p 0) 64 j), (testbit_above (nth k q 0) 64 j);
      try reflexivity; try lia; [apply Hq|apply Hp].
Qed.

(** What an array is as a list of words of a number. *)
Lemma words_are : forall p n z, length p = n -> words_in_range p ->
  (forall k j, (k < n)%nat -> 0 <= j < 64 ->
     Z.testbit (nth k p 0) j = Z.testbit z (64 * Z.of_nat k + j)) ->
  p = Z_to_words n z.
Proof.
  intros p n z Hl Hr H. apply words_ext.
  - rewrite length_Z_to_words. exact Hl.
  - exact Hr.
  - apply words_in_range_Z_to_words.
  - intros k j Hk Hj. rewrite word_bit by lia. apply H; lia.
Qed.

Lemma testbit_mod_pow2 : forall z m i, 0 <= m -> 0 <= i ->
  Z.testbit (z mod 2 ^ m) i = (i <? m) && Z.testbit z i.
Proof.
  intros z m i Hm Hi. destruct (Z.ltb_spec i m).
  - apply Z.mod_pow2_bits_low. lia.
  - apply Z.mod_pow2_bits_high. lia.
Qed.

(** [clearUnusedBits] on a heap value reduces the number modulo the width. *)
Lemma clear_heap_value : forall bits sg z, 64 < bits <= MAX_BITS ->
  clearUnusedBits
    (mkSVInt bits sg false (Heap (Z_to_words (Z.to_nat (getNumWords2 bits false)) z)))
  = Ok (of_value bits sg (z mod 2 ^ bits)).
Proof.
  intros bits sg z Hb.
  pose proof (numWords_pos bits ltac:(lia)) as Hpos.
  pose proof (msw_bits bits ltac:(lia)) as Hmsw.
  set (nw := getNumWords2 bits false) in *.
  set (x := mkSVInt bits sg false (Heap (Z_to_words (Z.to_nat nw) z))).
  destruct (clearUnusedBits_heap x (Z_to_words (Z.to_nat nw) z)) as [p' [E [Hl Hn]]].
  - cbn. lia.
  - unfold x. rewrite isSingleWord_known by reflexivity. cbn [bitWidth].
    destruct (Z.leb_spec bits 64); [lia|reflexivity].
  - reflexivity.
  - rewrite length_Z_to_words. unfold x. rewrite getNumWords_known by reflexivity.
    cbn [bitWidth]. fold nw. lia.
  - rewrite E. unfold of_value, set_pVal, x. cbn [bitWidth signFlag unknownFlag].
    destruct (Z.leb_spec bits 64); [lia|]. fold nw. do 3 f_equal.
    rewrite length_Z_to_words in Hl.
    assert (Hr' : words_in_range p').
    { intro k. rewrite Hn.
      pose proof (nth_Z_to_words_range (Z.to_nat nw) z k) as Hw.
      destruct (is_top x k && negb (bitWidth x mod 64 =? 0)
                && (k <? length (Z_to_words (Z.to_nat nw) z))%nat); [|exact Hw].
      pose proof (Z.mod_pos_bound (bitWidth x) 64 ltac:(lia)) as Hm.
      pose proof (land_mask_range (nth k (Z_to_words (Z.to_nat nw) z) 0)
                    (bitWidth x mod 64) ltac:(lia)).
      assert (2 ^ (bitWidth x mod 64) <= 2 ^ 64) by (apply Z.pow_le_mono_r; lia). lia. }
    apply words_are; [exact Hl|exact Hr'|].
    intros k j Hk Hj. rewrite Hn. rewrite testbit_mod_pow2 by lia.
    rewrite length_Z_to_words.
    assert (Hlt : (k <? Z.to_nat nw)%nat = true) by (apply Nat.ltb_lt; exact Hk).
    rewrite Hlt, andb_true_r. unfold is_top, x. cbn [unknownFlag bitWidth andb].
    rewrite orb_false_r. rewrite getNumWords_known by reflexivity. cbn [bitWidth]. fold nw.
    pose proof (Z.mod_pos_bound bits 64 ltac:(lia)) as Hm.
    destruct (Z.eqb_spec (bits mod 64) 0) as [Ez|En]; cbn [negb].
    + rewrite andb_false_r. rewrite word_bit by lia.
      destruct (Z.ltb_spec (64 * Z.of_nat k + j) bits); [reflexivity|lia].
    + rewrite andb_true_r. destruct (Z.eqb_spec (Z.of_nat k) (nw - 1)) as [Et|Et].
      * rewrite Z.land_spec, testbit_low_mask, word_bit by lia.
        rewrite andb_comm. f_equal.
        destruct (Z.ltb_spec j (bits mod 64)), (Z.ltb_spec (64 * Z.of_nat k + j) bits);
          try reflexivity; lia.
      * rewrite word_bit by lia.
        destruct (Z.ltb_spec (64 * Z.of_nat k + j) bits); [reflexivity|lia].
Qed.

Lemma clear_inline_value : forall bits sg w, 0 < bits <= 64 -> 0 <= w < 2 ^ 64 ->
  clearUnusedBits (mkSVInt bits sg false (Inline w)) = Ok (of_value bits sg (w mod 2 ^ bits)).
Proof.
  intros bits sg w Hb Hw.
  destruct (clearUnusedBits_inline bits sg w Hb Hw) as [v' [E Hv]].
  rewrite E, Hv. unfold of_value. destruct (Z.leb_spec bits 64); [reflexivity|lia].
Qed.

Lemma upd_zero_words : forall n w, 0 <= w < 2 ^ 64 -> 0 < n ->
  upd (new_zeroed n) 0 w = Z_to_words (Z.to_nat n) w.
Proof.
  intros n w Hw Hn. apply words_are.
  - rewrite length_upd, length_new_zeroed. reflexivity.
  - apply range_upd; [|exact Hw]. intro k. rewrite nth_new_zeroed. lia.
  - intros k j Hk Hj. rewrite nth_upd, length_new_zeroed.
    destruct (Nat.eqb_spec k 0) as [->|Hk0].
    + destruct (Nat.ltb_spec 0 (Z.to_nat n)); [|lia]. f_equal; lia.
    + rewrite nth_new_zeroed, Z.bits_0. symmetry. apply (testbit_above w 64); lia.
Qed.

(** The constructor from a word. *)
Lemma ctor_inline : forall bits v sg, 0 < bits <= 64 ->
  SVInt_ctor bits v sg = Ok (of_value bits sg (u64 v mod 2 ^ bits)).
Proof.
  intros bits v sg Hb. unfold SVInt_ctor.
  rewrite isSingleWord_known by reflexivity. cbn [bitWidth].
  destruct (Z.leb_spec bits 64); [|lia].
  apply clear_inline_value; [exact Hb|apply u64_range].
Qed.

Lemma ctor_heap : forall bits v sg, 64 < bits <= MAX_BITS ->
  sg = false \/ u64 v < 2 ^ 63 ->
  SVInt_ctor bits v sg = Ok (of_value bits sg (u64 v)).
Proof.
  intros bits v sg Hb Hs. unfold SVInt_ctor.
  rewrite isSingleWord_known by reflexivity. cbn [bitWidth].
  destruct (Z.leb_spec bits 64); [lia|].
  pose proof (numWords_pos bits ltac:(lia)) as Hpos.
  pose proof (u64_range v) as Hv.
  unfold initSlowCase_u64. rewrite wr_ok by (rewrite length_new_zeroed; lia). cbn [bind].
  assert (Hneg : sg && (to_int64 (u64 v) <? 0) = false).
  { destruct Hs as [->|Hs]; [reflexivity|]. apply andb_false_iff. right.
    unfold to_int64. rewrite (u64_small (u64 v)) by exact Hv.
    destruct (Z.ltb_spec (u64 v) (2 ^ 63)); [|lia]. apply Z.ltb_ge. lia. }
  rewrite Hneg. cbn [bind]. change (Z.to_nat 0) with 0%nat.
  rewrite upd_zero_words by (try exact Hv; exact Hpos).
  rewrite clear_heap_value by exact Hb. f_equal. f_equal.
  apply Z.mod_small. split; [lia|].
  assert (2 ^ 64 <= 2 ^ bits) by (apply Z.pow_le_mono_r; lia). lia.
Qed.

(** The sign bit. *)
Lemma testbit_top : forall v b, 0 < b -> 0 <= v < 2 ^ b ->
  Z.testbit v (b - 1) = (2 ^ (b - 1) <=? v).
Proof.
  intros v b Hb Hv. rewrite Z.testbit_eqb by lia.
  assert (Hp : 2 ^ b = 2 * 2 ^ (b - 1)).
  { replace b with (1 + (b - 1)) at 1 by lia. rewrite Z.pow_add_r by lia. reflexivity. }
  assert (Hpos : 0 < 2 ^ (b - 1)) by (apply Z.pow_pos_nonneg; lia).
  destruct (Z.leb_spec (2 ^ (b - 1)) v).
  - assert (v / 2 ^ (b - 1) = 1) by (symmetry; apply Z.div_unique with (v - 2 ^ (b - 1)); lia).
    rewrite H0. reflexivity.
  - rewrite Z.div_small by lia. reflexivity.
Qed.

Lemma isNegative_value : forall bits sg v, 0 < bits <= MAX_BITS -> 0 <= v < 2 ^ bits ->
  isNegative (of_value bits sg v) = Ok (2 ^ (bits - 1) <=? v).
Proof.
  intros bits sg v Hb Hv. rewrite <- testbit_top by lia.
  pose proof (numWords_bounds bits ltac:(lia)) as Hnb.
  unfold isNegative, index_int, of_value. cbn [bitWidth unknownFlag negb store].
  unfold MAX_BITS in Hb. rewrite u32_small by lia.
  destruct (Z.ltb_spec (bits - 1) 0); [lia|]. destruct (Z.leb_spec bits (bits - 1)); [lia|].
  cbn [orb]. unfold isSingleWord, BITS_PER_WORD. cbn [bitWidth unknownFlag negb].
  rewrite andb_true_r. destruct (Z.leb_spec bits 64).
  - cbn [get_val store bind]. rewrite maskBit_test by lia.
    rewrite Z.mod_small by lia.
    destruct (Z.testbit v (bits - 1)); reflexivity.
  - cbn [get_pVal store bind]. unfold whichWord, BITS_PER_WORD.
    destruct (index_split (bits - 1) ltac:(lia)) as [Hq [Hm Hs]].
    rewrite rd_ok by (rewrite length_Z_to_words; lia). cbn [bind].
    rewrite maskBit_test by lia. rewrite testbit_Z_to_words by lia.
    destruct (Z.testbit v (bits - 1)); reflexivity.
Qed.

Lemma slice_full : forall p n, Z.of_nat (length p) = n -> slice p 0 n = Ok p.
Proof.
  intros p n H. rewrite slice_ok by lia. change (Z.to_nat 0) with 0%nat.
  cbn [skipn]. rewrite firstn_all2 by lia. reflexivity.
Qed.

Lemma blit_full : forall p ws, length ws = length p -> blit p 0 ws = Ok ws.
Proof.
  intros p ws H. rewrite blit_ok by lia. change (Z.to_nat 0) with 0%nat.
  cbn [firstn app Nat.add]. rewrite skipn_all2 by lia. rewrite app_nil_r. reflexivity.
Qed.

Lemma mod_mod_pow2 : forall z a b, 0 <= b <= a -> (z mod 2 ^ a) mod 2 ^ b = z mod 2 ^ b.
Proof.
  intros z a b H. apply Z.bits_inj'. intros i Hi.
  rewrite !testbit_mod_pow2 by lia.
  destruct (Z.ltb_spec i b), (Z.ltb_spec i a); cbn [andb]; try reflexivity; lia.
Qed.

Lemma words_of_value : forall bits v, 0 < bits -> 0 <= v < 2 ^ bits ->
  words_to_Z (Z_to_words (Z.to_nat (getNumWords2 bits false)) v) = v.
Proof.
  intros bits v Hb Hv. rewrite words_to_Z_to_words.
  pose proof (numWords_pos bits Hb). rewrite Z2Nat.id by lia.
  pose proof (pow2_words bits Hb). apply Z.mod_small. lia.
Qed.

Lemma isSingleWord_of_value : forall bits sg v,
  isSingleWord (of_value bits sg v) = (bits <=? 64).
Proof.
  intros. unfold isSingleWord, of_value, BITS_PER_WORD. cbn [bitWidth unknownFlag negb].
  apply andb_true_r.
Qed.

Lemma ctor_zero : forall bits sg, 0 < bits <= MAX_BITS ->
  SVInt_ctor bits 0 sg = Ok (of_value bits sg 0).
Proof.
  intros bits sg Hb. destruct (Z.le_gt_cases bits 64).
  - rewrite ctor_inline by lia. change (u64 0) with 0. rewrite Z.mod_0_l; [reflexivity|].
    apply Z.pow_nonzero; lia.
  - rewrite ctor_heap; [reflexivity|lia|]. right. change (u64 0) with 0. lia.
Qed.

Section ValueArith.
Variable junk : Z -> Z.

(** Subtraction at one width. *)
Lemma sub_value : forall bits sg sg' a b, 0 < bits <= MAX_BITS ->
  0 <= a < 2 ^ bits -> 0 <= b < 2 ^ bits ->
  sub junk (of_value bits sg a) (of_value bits sg' b) =
  Ok (of_value bits sg ((a - b) mod 2 ^ bits)).
Proof.
  intros bits sg sg' a b Hb Ha Hv. unfold sub, sub_assign, unify.
  change (bitWidth (of_value bits sg a)) with bits.
  change (bitWidth (of_value bits sg' b)) with bits.
  rewrite Z.eqb_refl. cbn [bind].
  change (unknownFlag (of_value bits sg a)) with false.
  change (unknownFlag (of_value bits sg' b)) with false. cbn [orb].
  rewrite isSingleWord_of_value.
  pose proof (numWords_pos bits ltac:(lia)) as Hpos.
  destruct (Z.leb_spec bits 64) as [Hs|Hl].
  - unfold of_value at 1 2. unfold get_val. cbn [store].
    destruct (Z.leb_spec bits 64); [|lia]. cbn [bind].
    unfold set_val, of_value. cbn [bitWidth signFlag unknownFlag].
    rewrite clear_inline_value by (try apply u64_range; lia).
    unfold u64. rewrite mod_mod_pow2 by lia. reflexivity.
  - unfold of_value at 1 2. unfold get_pVal. cbn [store].
    destruct (Z.leb_spec bits 64); [lia|]. cbn [bind].
    rewrite getNumWords_known by reflexivity.
    change (bitWidth (of_value bits sg a)) with bits.
    unfold subGeneral. rewrite !slice_full by (rewrite length_Z_to_words; lia).
    cbn [bind]. rewrite !words_of_value by lia.
    rewrite blit_full by (rewrite !length_Z_to_words; reflexivity). cbn [bind].
    unfold set_pVal, of_value. cbn [bitWidth signFlag unknownFlag].
    rewrite clear_heap_value by lia. reflexivity.
Qed.

(** Negation. *)
Lemma neg_value : forall bits sg v, 0 < bits <= MAX_BITS -> 0 <= v < 2 ^ bits ->
  neg junk (of_value bits sg v) = Ok (of_value bits sg ((- v) mod 2 ^ bits)).
Proof.
  intros bits sg v Hb Hv. unfold neg.
  change (unknownFlag (of_value bits sg v)) with false. cbv iota.
  change (bitWidth (of_value bits sg v)) with bits.
  change (signFlag (of_value bits sg v)) with sg.
  rewrite ctor_zero by exact Hb. cbn [bind].
  rewrite sub_value; [reflexivity|exact Hb| |exact Hv].
  split; [lia|]. apply Z.pow_pos_nonneg; lia.
Qed.

End ValueArith.

(** The logical right shift by a digit. *)
Lemma lshr_value : forall bits sg v k, 0 < bits <= MAX_BITS -> 0 <= v < 2 ^ bits ->
  0 < k < 64 ->
  lshr_amount (of_value bits sg v) k = Ok (of_value bits sg (v / 2 ^ k)).
Proof.
  intros bits sg v k Hb Hv Hk. unfold lshr_amount.
  destruct (Z.eqb_spec k 0); [lia|].
  change (bitWidth (of_value bits sg v)) with bits.
  change (signFlag (of_value bits sg v)) with sg.
  change (unknownFlag (of_value bits sg v)) with false.
  assert (Hpk : 0 < 2 ^ k) by (apply Z.pow_pos_nonneg; lia).
  destruct (Z.leb_spec bits k) as [Hle|Hgt].
  - rewrite ctor_zero by exact Hb. f_equal. f_equal. symmetry. apply Z.div_small.
    assert (2 ^ bits <= 2 ^ k) by (apply Z.pow_le_mono_r; lia). lia.
  - rewrite isSingleWord_of_value.
    assert (Hq : 0 <= v / 2 ^ k < 2 ^ bits).
    { split; [apply Z.div_pos; lia|].
      apply Z.le_lt_trans with v; [|lia]. apply Z.div_le_upper_bound; nia. }
    pose proof (numWords_pos bits ltac:(lia)) as Hpos.
    destruct (Z.leb_spec bits 64) as [Hs|Hl].
    + unfold of_value at 1. unfold get_val. cbn [store].
      destruct (Z.leb_spec bits 64); [|lia]. cbn [bind].
      rewrite ctor_inline by lia. f_equal. f_equal.
      assert (Hv64 : 0 <= v < 2 ^ 64).
      { assert (2 ^ bits <= 2 ^ 64) by (apply Z.pow_le_mono_r; lia). lia. }
      unfold shr64. rewrite (u64_small v) by exact Hv64.
      rewrite Z.shiftr_div_pow2 by lia.
      rewrite u64_small; [apply Z.mod_small; exact Hq|].
      split; [lia|]. apply Z.le_lt_trans with v; [|lia]. apply Z.div_le_upper_bound; nia.
    + unfold allocZeroed. destruct (Z.ltb_spec 64 bits); [|lia]. cbn [orb bind].
      unfold of_value at 1. unfold get_pVal. cbn [store].
      destruct (Z.leb_spec bits 64); [lia|]. cbn [bind].
      destruct (Z.ltb_spec k BITS_PER_WORD); [|unfold BITS_PER_WORD in *; lia].
      cbn [negb andb]. rewrite getNumWords_known by reflexivity.
      change (bitWidth (of_value bits sg v)) with bits.
      unfold lshrNear. rewrite slice_full by (rewrite length_Z_to_words; lia). cbn [bind].
      rewrite words_of_value by lia.
      rewrite blit_full by (rewrite length_Z_to_words, length_new_zeroed; reflexivity).
      cbn [bind]. unfold checkUnknown, set_pVal. cbn [unknownFlag negb].
      unfold of_value. cbn [bitWidth signFlag].
      destruct (Z.leb_spec bits 64); [lia|].
      rewrite Z.shiftr_div_pow2 by lia. reflexivity.
Qed.

(** ** Active bits *)

Lemma words_to_Z_firstn_succ : forall p i, (i < length p)%nat ->
  words_to_Z (firstn (S i) p) =
  words_to_Z (firstn i p) + 2 ^ (64 * Z.of_nat i) * u64 (nth i p 0).
Proof.
  induction p as [|w t IH]; intros i Hi; [cbn in Hi; lia|].
  destruct i as [|i].
  - cbn [firstn words_to_Z nth]. change (Z.of_nat 0) with 0.
    rewrite !Z.mul_0_r, Z.pow_0_r. lia.
  - cbn [length] in Hi. rewrite !firstn_cons. cbn [words_to_Z nth].
    rewrite IH by lia.
    rewrite Nat2Z.inj_succ.
    replace (64 * Z.succ (Z.of_nat i)) with (64 + 64 * Z.of_nat i) by lia.
    rewrite Z.pow_add_r by lia. lia.
Qed.

(** The position just above the highest set bit of a number whose top word
    [w] is not zero. *)
Lemma active_top : forall W' w k, 0 <= k -> 0 <= W' < 2 ^ (64 * k) -> 0 < w < 2 ^ 64 ->
  let A := 64 * k + Z.log2 w + 1 in
  let W := W' + 2 ^ (64 * k) * w in
  64 * k < A <= 64 * (k + 1) /\ W < 2 ^ A /\ 2 ^ (A - 1) <= W.
Proof.
  intros W' w k Hk HW Hw A W. unfold A, W.
  pose proof (Z.log2_spec w ltac:(lia)) as [Hlo Hhi].
  pose proof (Z.log2_nonneg w) as Hnn.
  assert (Hl : Z.log2 w < 64) by (apply Z.log2_lt_pow2; lia).
  split; [lia|].
  replace (64 * k + Z.log2 w + 1) with (64 * k + Z.succ (Z.log2 w)) by lia.
  replace (64 * k + Z.succ (Z.log2 w) - 1) with (64 * k + Z.log2 w) by lia.
  rewrite !Z.pow_add_r by lia.
  assert (0 < 2 ^ (64 * k)) by (apply Z.pow_pos_nonneg; lia).
  split; nia.
Qed.

Lemma clz_words_value : forall p i c, words_in_range p -> (i <= length p)%nat ->
  exists A, clz_words p i c = Ok (c + 64 * Z.of_nat i - A) /\
    0 <= A <= 64 * Z.of_nat i /\
    words_to_Z (firstn i p) < 2 ^ A /\
    (words_to_Z (firstn i p) <> 0 -> 2 ^ (A - 1) <= words_to_Z (firstn i p)) /\
    (words_to_Z (firstn i p) = 0 -> A = 0).
Proof.
  intros p i. induction i as [|i IH]; intros c Hr Hi.
  - exists 0. cbn [clz_words firstn words_to_Z]. split; [f_equal; lia|].
    split; [lia|]. split; [cbn; lia|]. split; [congruence|reflexivity].
  - cbn [clz_words]. rewrite rd_ok by lia. cbn [bind]. rewrite Nat2Z.id.
    rewrite words_to_Z_firstn_succ by lia. rewrite u64_small by apply Hr.
    pose proof (Hr i) as Hw.
    pose proof (words_to_Z_range (firstn i p)) as HW.
    rewrite length_firstn, Nat.min_l in HW by lia.
    destruct (Z.eqb_spec (nth i p 0) 0) as [Ez|En].
    + destruct (IH (c + BITS_PER_WORD) Hr ltac:(lia)) as [A [E [HA [Hlt [Hnz Hz]]]]].
      exists A. rewrite E, Ez. unfold BITS_PER_WORD.
      rewrite Z.mul_0_r, Z.add_0_r. split; [f_equal; lia|].
      split; [lia|]. split; [exact Hlt|]. split; assumption.
    + destruct (active_top (words_to_Z (firstn i p)) (nth i p 0) (Z.of_nat i))
        as [HA [Hlt Hge]]; try lia.
      exists (64 * Z.of_nat i + Z.log2 (nth i p 0) + 1).
      split.
      { f_equal. unfold countLeadingZeros64. rewrite u64_small by exact Hw.
        destruct (Z.eqb_spec (nth i p 0) 0); [contradiction|]. lia. }
      split; [lia|]. split; [exact Hlt|]. split; [intros _; exact Hge|].
      intro H0. exfalso.
      assert (0 < 2 ^ (64 * Z.of_nat i)) by (apply Z.pow_pos_nonneg; lia). nia.
Qed.

Lemma topWordMask_value : forall x, 0 < bitWidth x ->
  exists m, 1 <= m <= 64 /\
    64 * (getNumWords2 (bitWidth x) false - 1) + m = bitWidth x /\
    getTopWordMask x = (m, 2 ^ m - 1).
Proof.
  intros x Hb. unfold getTopWordMask, BITS_PER_WORD.
  pose proof (msw_bits (bitWidth x) Hb) as Hmsw.
  pose proof (Z.mod_pos_bound (bitWidth x) 64 ltac:(lia)) as Hm.
  destruct (Z.eqb_spec (bitWidth x mod 64) 0) as [Hz|Hnz]; cbn [negb].
  - exists 64. split; [lia|]. split; [lia|]. reflexivity.
  - exists (bitWidth x mod 64). split; [lia|]. split; [lia|]. f_equal. f_equal.
    unfold shl64. rewrite Z.shiftl_1_l. apply u64_small.
    split; [apply Z.pow_nonneg; lia|apply Z.pow_lt_mono_r; lia].
Qed.

(** [getActiveBits] of a known value: the position just above its highest
    set bit. *)
Lemma getActiveBits_value : forall bits sg v, 0 < bits <= MAX_BITS -> 0 <= v < 2 ^ bits ->
  exists a, getActiveBits (of_value bits sg v) = Ok a /\
    0 <= a <= bits /\ v < 2 ^ a /\ (v <> 0 -> 2 ^ (a - 1) <= v) /\ (v = 0 -> a = 0).
Proof.
  intros bits sg v Hb Hv. unfold getActiveBits, countLeadingZeros.
  rewrite isSingleWord_of_value.
  change (bitWidth (of_value bits sg v)) with bits.
  destruct (Z.leb_spec bits 64) as [Hs|Hl].
  - unfold of_value, get_val. cbn [store]. destruct (Z.leb_spec bits 64); [|lia].
    cbn [bind]. unfold BITS_PER_WORD.
    assert (Hv64 : 0 <= v < 2 ^ 64).
    { assert (2 ^ bits <= 2 ^ 64) by (apply Z.pow_le_mono_r; lia). lia. }
    unfold countLeadingZeros64. rewrite u64_small by exact Hv64.
    destruct (Z.eqb_spec v 0) as [Ez|En].
    + exists 0. split; [f_equal; lia|]. subst v. split; [lia|]. split; [cbn; lia|].
      split; [congruence|reflexivity].
    + destruct (active_top 0 v 0) as [HA [Hlt Hge]]; try lia.
      cbn [Z.mul Z.add] in HA, Hlt, Hge. rewrite Z.pow_0_r, Z.mul_1_l in Hlt, Hge.
      cbn in HA.
      exists (Z.log2 v + 1). split; [f_equal; lia|].
      assert (Z.log2 v < bits) by (apply Z.log2_lt_pow2; lia).
      pose proof (Z.log2_nonneg v).
      split; [lia|]. split; [exact Hlt|]. split; [intros _; exact Hge|]. intro; contradiction.
  - unfold countLeadingZerosSlowCase.
    destruct (topWordMask_value (of_value bits sg v)) as [m [Hm [Hbm Em]]]; [cbn; lia|].
    rewrite Em. change (bitWidth (of_value bits sg v)) with bits in Hbm.
    rewrite getNumWords_known by reflexivity.
    change (bitWidth (of_value bits sg v)) with bits.
    pose proof (numWords_pos bits ltac:(lia)) as Hpos.
    set (nw := getNumWords2 bits false) in *.
    unfold of_value, get_pVal. cbn [store]. destruct (Z.leb_spec bits 64); [lia|].
    cbn [bind]. fold nw. set (p := Z_to_words (Z.to_nat nw) v).
    assert (Hlen : length p = Z.to_nat nw) by apply length_Z_to_words.
    assert (Hr : words_in_range p) by apply words_in_range_Z_to_words.
    rewrite rd_ok by lia. cbn [bind].
    set (w := nth (Z.to_nat (nw - 1)) p 0).
    assert (HW : v = words_to_Z (firstn (Z.to_nat (nw - 1)) p)
                     + 2 ^ (64 * (nw - 1)) * w).
    { pose proof (words_to_Z_firstn_succ p (Z.to_nat (nw - 1)) ltac:(lia)) as Hf.
      replace (S (Z.to_nat (nw - 1))) with (length p) in Hf by lia.
      rewrite firstn_all in Hf.
      assert (Hpv : words_to_Z p = v) by (unfold p, nw; apply words_of_value; lia).
      rewrite Hpv in Hf. rewrite Z2Nat.id in Hf by lia.
      rewrite u64_small in Hf by apply Hr. exact Hf. }
    pose proof (words_to_Z_range (firstn (Z.to_nat (nw - 1)) p)) as HW'.
    rewrite length_firstn, Nat.min_l, Z2Nat.id in HW' by lia.
    pose proof (Hr (Z.to_nat (nw - 1))) as Hw. fold w in Hw.
    assert (Hp : 0 < 2 ^ (64 * (nw - 1))) by (apply Z.pow_pos_nonneg; lia).
    assert (Hwm : w < 2 ^ m).
    { assert (Hbits : 2 ^ bits = 2 ^ (64 * (nw - 1)) * 2 ^ m)
        by (rewrite <- Z.pow_add_r by lia; f_equal; lia).
      nia. }
    assert (Hpart : Z.land w (2 ^ m - 1) = w).
    { replace (2 ^ m - 1) with (Z.ones m) by (rewrite Z.ones_equiv; lia).
      rewrite Z.land_ones by lia. apply Z.mod_small. lia. }
    rewrite Hpart.
    destruct (Z.eqb_spec w 0) as [Ez|En]; cbn [negb].
    + destruct (clz_words_value p (Z.to_nat (nw - 1)) m Hr ltac:(lia))
        as [A [E [HA [Hlt [Hnz Hz]]]]].
      rewrite E. cbn [bind]. rewrite Z2Nat.id in E, HA |- * by lia.
      rewrite Ez, Z.mul_0_r, Z.add_0_r in HW. rewrite <- HW in Hlt, Hnz, Hz.
      exists A. split; [f_equal; lia|]. split; [lia|]. split; [exact Hlt|].
      split; assumption.
    + destruct (active_top (words_to_Z (firstn (Z.to_nat (nw - 1)) p)) w (nw - 1))
        as [HA [Hlt Hge]]; try lia.
      rewrite <- HW in Hlt, Hge. cbn [bind].
      exists (64 * (nw - 1) + Z.log2 w + 1). split.
      { f_equal. unfold countLeadingZeros64, BITS_PER_WORD. rewrite u64_small by exact Hw.
        destruct (Z.eqb_spec w 0); [contradiction|]. lia. }
      assert (Z.log2 w < m) by (apply Z.log2_lt_pow2; lia).
      pose proof (Z.log2_nonneg w).
      split; [lia|]. split; [exact Hlt|]. split; [intros _; exact Hge|].
      intro Hv0. exfalso. nia.
Qed.

Lemma shape_of_value : forall bits sg v, 0 < bits <= MAX_BITS -> 0 <= v < 2 ^ bits ->
  shape (of_value bits sg v).
Proof.
  intros bits sg v Hb Hv. pose proof (numWords_pos bits ltac:(lia)).
  unfold shape. change (bitWidth (of_value bits sg v)) with bits.
  split; [exact Hb|]. rewrite isSingleWord_of_value.
  unfold of_value. cbn [store]. destruct (Z.leb_spec bits 64).
  - split; [reflexivity|exact Hv].
  - split; [reflexivity|]. rewrite length_Z_to_words.
    rewrite getNumWords_known by reflexivity. cbn [bitWidth]. lia.
Qed.

Section CompareZero.
Variable junk : Z -> Z.

(** The comparison with the literal 0. *)
Lemma eq_int_value : forall bits sg v, 0 < bits <= MAX_BITS -> 0 <= v < 2 ^ bits ->
  eq_int junk (of_value bits sg v) 0 = Ok (logic_of_bool (v =? 0)).
Proof.
  intros bits sg v Hb Hv. unfold eq_int. rewrite SVInt_of_int_zero. cbn [bind].
  set (lit := mkSVInt 1 true false (Inline 0)).
  set (x := of_value bits sg v).
  unfold eq_sv. unfold x at 1. rewrite isSingleWord_of_value.
  change (isSingleWord lit) with true.
  destruct (Z.leb_spec bits 64) as [Hs|Hl]; cbn [andb].
  - unfold x, of_value, get_val. cbn [store]. destruct (Z.leb_spec bits 64); [|lia].
    reflexivity.
  - destruct (getActiveBits_value bits sg v Hb Hv) as [a [Ea [Ha [Hlt [Hnz Hz]]]]].
    fold x in Ea.
    assert (Ha0 : (a =? 0) = (v =? 0)).
    { destruct (Z.eqb_spec v 0) as [E|E]; [rewrite (Hz E); reflexivity|].
      apply Z.eqb_neq. intro E0. subst a. cbn in Hlt. lia. }
    unfold equalsSlowCase. cbn [equalsSlowCase_rec].
    change (unknownFlag x) with false. change (unknownFlag lit) with false. cbn [orb].
    change (bitWidth x) with bits. change (bitWidth lit) with 1.
    change (signFlag x) with sg. change (signFlag lit) with true.
    destruct (Z.eqb_spec bits 1); [lia|]. cbn [negb andb]. rewrite andb_true_r.
    destruct sg.
    + destruct (Z.ltb_spec bits 1); [lia|].
      destruct (signExtend_spec junk lit bits shape_lit_zero)
        as [e [He [Hse [Hbe [Hsge [Hue Hze]]]]]]; [cbn; lia|].
      rewrite He. cbn [bind equalsSlowCase_rec]. rewrite Hue.
      change (unknownFlag x) with false. cbn [orb].
      rewrite Hbe. change (bitWidth x) with bits. rewrite Z.eqb_refl. cbn [negb andb].
      rewrite (getActiveBits_zero e Hse Hue (Hze eq_refl eq_refl)). cbn [bind].
      rewrite Ea. cbn [bind]. rewrite <- Ha0.
      destruct (Z.eqb_spec 0 a) as [E|E]; cbn [negb].
      * subst a. reflexivity.
      * destruct (Z.eqb_spec a 0); [lia|reflexivity].
    + rewrite Ea. cbn [bind].
      rewrite (getActiveBits_zero lit shape_lit_zero eq_refl eq_refl). cbn [bind].
      rewrite <- Ha0. destruct (Z.eqb_spec a 0); reflexivity.
Qed.

Lemma ne_int_value : forall bits sg v, 0 < bits <= MAX_BITS -> 0 <= v < 2 ^ bits ->
  ne_int junk (of_value bits sg v) 0 = Ok (logic_of_bool (negb (v =? 0))).
Proof.
  intros bits sg v Hb Hv.
  pose proof (eq_int_value bits sg v Hb Hv) as E. unfold eq_int in E.
  unfold ne_int, ne_sv. destruct (SVInt_of_int 0 true) as [l| |]; cbn [bind] in *;
    try discriminate.
  rewrite E. cbn [bind]. destruct (v =? 0); reflexivity.
Qed.

End CompareZero.

(** ** Writing the digits *)

(** The lowest word of a known value. *)
Lemma low_word_value : forall bits sg v, 0 < bits <= MAX_BITS -> 0 <= v < 2 ^ bits ->
  exists raw, getRawData (of_value bits sg v) = Ok raw /\ rd raw 0 = Ok (u64 v).
Proof.
  intros bits sg v Hb Hv. unfold getRawData. rewrite isSingleWord_of_value.
  pose proof (numWords_pos bits ltac:(lia)) as Hpos.
  unfold of_value, get_val, get_pVal. cbn [store].
  destruct (Z.leb_spec bits 64).
  - cbn [bind]. eexists. split; [reflexivity|]. cbn. f_equal. symmetry. apply u64_small.
    assert (2 ^ bits <= 2 ^ 64) by (apply Z.pow_le_mono_r; lia). lia.
  - eexists. split; [reflexivity|]. rewrite rd_ok by (rewrite length_Z_to_words; lia).
    f_equal. destruct (Z.to_nat (getNumWords2 bits false)) eqn:E; [lia|]. reflexivity.
Qed.

Lemma low_digit : forall v s, 0 < s <= 32 ->
  Z.land (u32 (u64 v)) (2 ^ s - 1) = v mod 2 ^ s.
Proof.
  intros v s Hs. replace (2 ^ s - 1) with (Z.ones s) by (rewrite Z.ones_equiv; lia).
  rewrite Z.land_ones by lia. unfold u32, u64. rewrite !mod_mod_pow2 by lia. reflexivity.
Qed.

Section WritePow2.
Variable junk : Z -> Z.

(** The shift loop writes the digits of the value, least significant
    first. *)
Lemma writeTo_pow2_value : forall bits sg words s n v acc,
  0 < bits <= MAX_BITS -> 0 < s <= 4 ->
  0 <= v < 2 ^ bits -> v < 2 ^ (s * Z.of_nat n) ->
  exists ds,
    writeTo_pow2 junk (S n) words s (2 ^ s - 1) (of_value bits sg v) acc
      = Ok (acc ++ map Digits ds) /\
    is_digits (2 ^ s) ds v.
Proof.
  intros bits sg words s n. induction n as [|n IH]; intros v acc Hb Hs Hv Hn.
  - assert (v = 0) by (rewrite Z.mul_0_r in Hn; cbn in Hn; lia). subst v.
    exists []. cbn [writeTo_pow2]. rewrite ne_int_value by assumption. cbn [bind].
    cbn [map is_digits]. rewrite app_nil_r. split; reflexivity.
  - remember (S n) as fuel. cbn [writeTo_pow2]. subst fuel.
    rewrite ne_int_value by assumption. cbn [bind].
    destruct (Z.eqb_spec v 0) as [E0|En].
    + exists []. cbn [map is_digits]. rewrite app_nil_r. split; [reflexivity|exact E0].
    + change (negb (logic_to_bool (logic_of_bool (negb false))
                    || isUnknownL (logic_of_bool (negb false)))) with false.
      cbv iota.
      destruct (low_word_value bits sg v Hb Hv) as [raw [Er Ew]].
      rewrite Er. cbn [bind]. rewrite Ew. cbn [bind].
      change (unknownFlag (of_value bits sg v)) with false. cbn [negb bind].
      rewrite lshr_value by (try assumption; lia). cbn [bind].
      rewrite low_digit by lia.
      assert (Hp : 0 < 2 ^ s) by (apply Z.pow_pos_nonneg; lia).
      assert (Hq : 0 <= v / 2 ^ s < 2 ^ bits).
      { split; [apply Z.div_pos; lia|].
        apply Z.le_lt_trans with v; [|lia]. apply Z.div_le_upper_bound; nia. }
      destruct (IH (v / 2 ^ s) (acc ++ [Digits (v mod 2 ^ s)]) Hb Hs Hq) as [ds [E Hd]].
      { apply Z.div_lt_upper_bound; [lia|]. rewrite <- Z.pow_add_r by lia.
        replace (s + s * Z.of_nat n) with (s * Z.of_nat (S n)) by lia. exact Hn. }
      exists (v mod 2 ^ s :: ds). rewrite E. cbn [map is_digits].
      rewrite <- app_assoc. split; [reflexivity|]. split; [exact En|]. split; [reflexivity|exact Hd].
Qed.

End WritePow2.

(** ** Half-words of the division *)

Lemma u32_range : forall z, 0 <= u32 z < 2 ^ 32.
Proof. intro z. unfold u32. apply Z.mod_pos_bound. lia. Qed.

Lemma halves_firstn_succ : forall l i, (i < length l)%nat ->
  halves_to_Z (firstn (S i) l) =
  halves_to_Z (firstn i l) + 2 ^ (32 * Z.of_nat i) * u32 (nth i l 0).
Proof.
  induction l as [|w t IH]; intros i Hi; [cbn in Hi; lia|].
  destruct i as [|i].
  - cbn [firstn halves_to_Z nth]. change (Z.of_nat 0) with 0.
    rewrite !Z.mul_0_r, Z.pow_0_r. lia.
  - cbn [length] in Hi. rewrite !firstn_cons. cbn [halves_to_Z nth].
    rewrite IH by lia. rewrite Nat2Z.inj_succ.
    replace (32 * Z.succ (Z.of_nat i)) with (32 + 32 * Z.of_nat i) by lia.
    rewrite Z.pow_add_r by lia. lia.
Qed.

Lemma firstn_upd : forall (l : list Z) n k w, (n <= k)%nat ->
  firstn n (upd l k w) = firstn n l.
Proof.
  induction l as [|h t IH]; intros n k w H; [destruct k; reflexivity|].
  destruct n as [|n]; [reflexivity|]. destruct k as [|k]; [lia|].
  cbn [upd firstn]. f_equal. apply IH. lia.
Qed.

Lemma halves_firstn_zero : forall l m n, (m <= n)%nat -> (n <= length l)%nat ->
  (forall k, (m <= k < n)%nat -> nth k l 0 = 0) ->
  halves_to_Z (firstn n l) = halves_to_Z (firstn m l).
Proof.
  intros l m n Hmn. induction Hmn as [|n Hle IH]; intros Hn Hz; [reflexivity|].
  rewrite halves_firstn_succ by lia. rewrite (Hz n) by lia.
  change (u32 0) with 0. rewrite Z.mul_0_r, Z.add_0_r.
  apply IH; [lia|]. intros k Hk. apply Hz. lia.
Qed.

Lemma halves_range_upd : forall l k w, halves_in_range l -> 0 <= w < 2 ^ 32 ->
  halves_in_range (upd l k w).
Proof.
  intros l k w Hl Hw j. rewrite nth_upd.
  destruct (Nat.eqb j k); [destruct (Nat.ltb k (length l)); lia|apply Hl].
Qed.

Lemma halves_range_zero : forall n, halves_in_range (new_zeroed n).
Proof. intros n k. rewrite nth_new_zeroed. lia. Qed.

Lemma split_word : forall w, 0 <= w < 2 ^ 64 ->
  u32 (u32 w) + 2 ^ 32 * u32 (u32 (shr64 w 32)) = w.
Proof.
  intros w Hw. unfold shr64. rewrite u64_small by exact Hw.
  rewrite Z.shiftr_div_pow2 by lia. unfold u32. rewrite !Z.mod_mod by lia.
  assert (0 <= w / 2 ^ 32 < 2 ^ 32).
  { split; [apply Z.div_pos; lia|apply Z.div_lt_upper_bound; lia]. }
  rewrite (Z.mod_small (w / 2 ^ 32)) by lia.
  pose proof (Z.div_mod w (2 ^ 32) ltac:(lia)). lia.
Qed.

(** [splitWords] lays the words of a value out as half-words. *)
Lemma splitWords_loop : forall p d n,
  0 <= n -> n <= Z.of_nat (length p) -> 2 * n <= Z.of_nat (length d) ->
  words_in_range p -> halves_in_range d ->
  exists d',
    for_range 0 n
      (fun i d =>
         w <- rd p i ;;
         d <- wr d (i * 2) (u32 w) ;;
         wr d (i * 2 + 1) (u32 (shr64 w 32))) d = Ok d' /\
    length d' = length d /\ halves_in_range d' /\
    halves_to_Z (firstn (Z.to_nat (2 * n)) d') = words_to_Z (firstn (Z.to_nat n) p) /\
    (forall k, 2 * n <= Z.of_nat k -> nth k d' 0 = nth k d 0).
Proof.
  intros p d n Hn Hp Hd Hrp Hrd.
  destruct (for_range_inv (list Z)
    (fun j t => length t = length d /\ halves_in_range t /\
       halves_to_Z (firstn (Z.to_nat (2 * j)) t) = words_to_Z (firstn (Z.to_nat j) p) /\
       (forall k, 2 * j <= Z.of_nat k -> nth k t 0 = nth k d 0))
    (fun i d =>
         w <- rd p i ;;
         d <- wr d (i * 2) (u32 w) ;;
         wr d (i * 2 + 1) (u32 (shr64 w 32))) 0 n d Hn) as [d' [E H]].
  - split; [reflexivity|]. split; [exact Hrd|]. split; [reflexivity|]. intros; reflexivity.
  - intros j t Hj [Hl [Hr [Hv Hk]]].
    rewrite rd_ok by lia. cbn [bind]. set (w := nth (Z.to_nat j) p 0).
    rewrite wr_ok by lia. cbn [bind]. rewrite wr_ok by (rewrite length_upd; lia).
    eexists. split; [reflexivity|].
    split; [rewrite !length_upd; exact Hl|].
    split; [apply halves_range_upd; [apply halves_range_upd; [exact Hr|]|]; apply u32_range|].
    split.
    + replace (Z.to_nat (2 * (j + 1))) with (S (S (Z.to_nat (2 * j)))) by lia.
      rewrite !halves_firstn_succ by (rewrite !length_upd; lia).
      rewrite !firstn_upd by lia. rewrite Hv.
      rewrite !nth_upd, !length_upd.
      replace (Nat.eqb (Z.to_nat (2 * j)) (Z.to_nat (j * 2 + 1))) with false
        by (symmetry; apply Nat.eqb_neq; lia).
      replace (Nat.eqb (Z.to_nat (2 * j)) (Z.to_nat (j * 2))) with true
        by (symmetry; apply Nat.eqb_eq; lia).
      replace (Nat.eqb (S (Z.to_nat (2 * j))) (Z.to_nat (j * 2 + 1))) with true
        by (symmetry; apply Nat.eqb_eq; lia).
      replace (Nat.ltb (Z.to_nat (j * 2)) (length t)) with true
        by (symmetry; apply Nat.ltb_lt; lia).
      replace (Nat.ltb (Z.to_nat (j * 2 + 1)) (length t)) with true
        by (symmetry; apply Nat.ltb_lt; lia).
      replace (Z.to_nat (j + 1)) with (S (Z.to_nat j)) by lia.
      rewrite words_to_Z_firstn_succ by lia. fold w.
      rewrite u64_small by apply Hrp.
      pose proof (split_word w (Hrp _)) as Hw.
      rewrite Nat2Z.inj_succ, !Z2Nat.id by lia.
      replace (32 * Z.succ (2 * j)) with (32 + 32 * (2 * j)) by lia.
      rewrite Z.pow_add_r by lia.
      replace (32 * (2 * j)) with (64 * j) by lia. nia.
    + intros k Hk2. rewrite !nth_upd.
      destruct (Nat.eqb_spec k (Z.to_nat (j * 2 + 1))); [lia|].
      destruct (Nat.eqb_spec k (Z.to_nat (j * 2))); [lia|].
      apply Hk. lia.
  - exists d'. split; [exact E|]. exact H.
Qed.

(** The number of zero half-words at the top of a buffer. *)
Lemma top_zeros_spec : forall l n, (n <= length l)%nat ->
  exists z, top_zeros l n = Ok z /\ 0 <= z <= Z.of_nat n /\
    forall k, Z.of_nat n - z <= Z.of_nat k < Z.of_nat n -> nth k l 0 = 0.
Proof.
  intros l n. induction n as [|n IH]; intros Hn.
  - exists 0. split; [reflexivity|]. split; [lia|]. intros; lia.
  - cbn [top_zeros]. rewrite rd_ok by lia. cbn [bind]. rewrite Nat2Z.id.
    destruct (Z.eqb_spec (nth n l 0) 0) as [Ez|En].
    + destruct (IH ltac:(lia)) as [z [E [Hz Hk]]]. rewrite E. cbn [bind].
      exists (z + 1). split; [reflexivity|]. split; [lia|].
      intros k Hkr. destruct (Nat.eq_dec k n) as [->|]; [exact Ez|]. apply Hk. lia.
    + exists 0. split; [reflexivity|]. split; [lia|]. intros; lia.
Qed.

(** One round of the division by a single half-word, here 10. *)
Lemma div_step_10 : forall rem ui, 0 <= rem < 10 -> 0 <= ui < 2 ^ 32 ->
  let partial := Z.lor (shl64 rem 32) ui in
  (if partial =? 0 then Ok (0, 0)
   else if partial <? 10 then Ok (0, u32 partial)
   else if partial =? 10 then Ok (1, 0)
   else if 10 =? 0 then Fault
   else
     let qi := u32 (partial / 10) in
     Ok (qi, u32 (partial - u32 (qi * 10))))
  = Ok ((rem * 2 ^ 32 + ui) / 10, (rem * 2 ^ 32 + ui) mod 10) /\
  0 <= (rem * 2 ^ 32 + ui) / 10 < 2 ^ 32.
Proof.
  intros rem ui Hr Hu partial.
  assert (Hp : partial = rem * 2 ^ 32 + ui).
  { unfold partial, shl64. rewrite Z.shiftl_mul_pow2 by lia.
    rewrite (u64_small (rem * 2 ^ 32)) by lia.
    destruct (lor_add (rem * 2 ^ 32) ui 32) as [Hadd _]; try lia.
    - intros j Hj. rewrite Z.mul_pow2_bits_low by lia. reflexivity.
    - rewrite <- Hadd. apply u64_small. lia. }
  rewrite Hp. set (T := rem * 2 ^ 32 + ui).
  assert (HT : 0 <= T < 10 * 2 ^ 32) by (unfold T; lia).
  pose proof (Z.div_mod T 10 ltac:(lia)) as Hdm.
  pose proof (Z.mod_pos_bound T 10 ltac:(lia)) as Hmb.
  assert (Hq : 0 <= T / 10 < 2 ^ 32).
  { split; [apply Z.div_pos; lia|apply Z.div_lt_upper_bound; lia]. }
  split; [|exact Hq].
  destruct (Z.eqb_spec T 0) as [E0|E0].
  - rewrite E0. reflexivity.
  - destruct (Z.ltb_spec T 10).
    + rewrite Z.div_small, Z.mod_small by lia. rewrite u32_small by lia. reflexivity.
    + destruct (Z.eqb_spec T 10) as [E10|E10].
      * rewrite E10. reflexivity.
      * cbv zeta. change (10 =? 0) with false. cbv iota.
        rewrite (u32_small (T / 10)) by lia. f_equal. f_equal.
        unfold u32. rewrite Zminus_mod_idemp_r.
        replace (T - T / 10 * 10) with (T mod 10) by lia.
        apply Z.mod_small. lia.
Qed.

(** The single-divisor-word loop is long division by 10, from the top
    half-word down. *)
Lemma div_by_half_10 : forall u n q rem,
  (n <= length u)%nat -> (n <= length q)%nat ->
  halves_in_range u -> halves_in_range q -> 0 <= rem < 10 ->
  exists q' rem',
    div_by_half u 10 n q rem = Ok (q', rem') /\
    length q' = length q /\ halves_in_range q' /\
    (forall k, (n <= k)%nat -> nth k q' 0 = nth k q 0) /\
    halves_to_Z (firstn n q') =
      (rem * 2 ^ (32 * Z.of_nat n) + halves_to_Z (firstn n u)) / 10 /\
    rem' = (rem * 2 ^ (32 * Z.of_nat n) + halves_to_Z (firstn n u)) mod 10.
Proof.
  intros u n. induction n as [|n IH]; intros q rem Hu Hq Hru Hrq Hrem.
  - exists q, rem. cbn [div_by_half firstn halves_to_Z]. change (Z.of_nat 0) with 0.
    rewrite Z.mul_0_r, Z.pow_0_r, Z.mul_1_r, Z.add_0_r.
    split; [reflexivity|]. split; [reflexivity|]. split; [exact Hrq|].
    split; [reflexivity|]. split.
    + rewrite Z.div_small by lia. reflexivity.
    + rewrite Z.mod_small by lia. reflexivity.
  - cbn [div_by_half]. rewrite rd_ok by lia. cbn [bind]. rewrite Nat2Z.id.
    destruct (div_step_10 rem (nth n u 0) Hrem (Hru n)) as [Estep Hqi].
    cbv zeta in Estep. rewrite Estep. cbn [bind].
    set (T := rem * 2 ^ 32 + nth n u 0) in *.
    rewrite wr_ok by lia. cbn [bind]. rewrite Nat2Z.id.
    pose proof (Z.mod_pos_bound T 10 ltac:(lia)) as Hmb.
    destruct (IH (upd q n (T / 10)) (T mod 10)) as [q' [rem' [E [Hl [Hr [Hk [Hv Hm]]]]]]];
      try lia; try assumption.
    + rewrite length_upd. lia.
    + apply halves_range_upd; assumption.
    + exists q', rem'. rewrite E. split; [reflexivity|].
      rewrite length_upd in Hl. split; [exact Hl|]. split; [exact Hr|].
      split.
      { intros k Hkn. rewrite Hk by lia. rewrite nth_upd.
        destruct (Nat.eqb_spec k n); [lia|reflexivity]. }
      rewrite !halves_firstn_succ by lia. rewrite Hv.
      rewrite (Hk n) by lia. rewrite nth_upd, Nat.eqb_refl.
      replace (Nat.ltb n (length q)) with true by (symmetry; apply Nat.ltb_lt; lia).
      rewrite (u32_small (T / 10)) by exact Hqi.
      rewrite (u32_small (nth n u 0)) by apply Hru.
      rewrite Nat2Z.inj_succ.
      replace (32 * Z.succ (Z.of_nat n)) with (32 + 32 * Z.of_nat n) by lia.
      rewrite Z.pow_add_r by lia.
      set (B := 2 ^ (32 * Z.of_nat n)) in *. set (H := halves_to_Z (firstn n u)) in *.
      pose proof (Z.div_mod T 10 ltac:(lia)) as Hdm.
      assert (Etot : rem * (2 ^ 32 * B) + (H + B * nth n u 0)
                     = (T mod 10 * B + H) + (B * (T / 10)) * 10) by (unfold T in *; nia).
      rewrite Etot. rewrite Z.div_add, Z.mod_add by lia.
      split; [lia|exact Hm].
Qed.

(** The words of a known value. *)
Lemma raw_value : forall bits sg v, 0 < bits <= MAX_BITS -> 0 <= v < 2 ^ bits ->
  exists raw, getRawData (of_value bits sg v) = Ok raw /\
    Z.of_nat (length raw) = getNumWords2 bits false /\
    words_in_range raw /\ words_to_Z raw = v.
Proof.
  intros bits sg v Hb Hv. unfold getRawData. rewrite isSingleWord_of_value.
  pose proof (numWords_pos bits ltac:(lia)) as Hpos.
  unfold of_value, get_val, get_pVal. cbn [store].
  destruct (Z.leb_spec bits 64).
  - cbn [bind]. exists [v].
    assert (Hv64 : 0 <= v < 2 ^ 64).
    { assert (2 ^ bits <= 2 ^ 64) by (apply Z.pow_le_mono_r; lia). lia. }
    split; [reflexivity|]. split; [rewrite numWords_small by lia; reflexivity|].
    split.
    + intros [|[|k]]; cbn [nth]; lia.
    + cbn [words_to_Z]. rewrite u64_small by exact Hv64. lia.
  - eexists. split; [reflexivity|]. split; [rewrite length_Z_to_words; lia|].
    split; [apply words_in_range_Z_to_words|]. apply words_of_value; lia.
Qed.

Lemma join_halves : forall lo hi, 0 <= lo < 2 ^ 32 -> 0 <= hi < 2 ^ 32 ->
  Z.lor lo (shl64 hi (BITS_PER_WORD / 2)) = lo + 2 ^ 32 * hi /\
  0 <= lo + 2 ^ 32 * hi < 2 ^ 64.
Proof.
  intros lo hi Hlo Hhi. change (BITS_PER_WORD / 2) with 32.
  unfold shl64. rewrite Z.shiftl_mul_pow2 by lia.
  rewrite (u64_small (hi * 2 ^ 32)) by lia.
  destruct (lor_add (hi * 2 ^ 32) lo 32) as [Hadd Hr]; try lia.
  - intros j Hj. rewrite Z.mul_pow2_bits_low by lia. reflexivity.
  - rewrite Z.lor_comm, <- Hadd. split; [rewrite u64_small by lia; lia|lia].
Qed.

(** [buildDivideResult] packs the half-words back into a value. *)
Lemma buildDivideResult_value : forall q bits sg,
  0 < bits <= MAX_BITS ->
  2 * getNumWords2 bits false <= Z.of_nat (length q) -> halves_in_range q ->
  halves_to_Z (firstn (Z.to_nat (2 * getNumWords2 bits false)) q) < 2 ^ bits ->
  buildDivideResult q bits sg (getNumWords2 bits false) =
  Ok (of_value bits sg (halves_to_Z (firstn (Z.to_nat (2 * getNumWords2 bits false)) q))).
Proof.
  intros q bits sg Hb Hl Hr HV.
  pose proof (numWords_pos bits ltac:(lia)) as Hpos.
  pose proof (numWords_bounds bits ltac:(lia)) as Hnb.
  unfold buildDivideResult.
  destruct (Z.eqb_spec (getNumWords2 bits false) 1) as [E1|E1].
  - rewrite E1 in *. rewrite !rd_ok by lia. cbn [bind].
    change (Z.to_nat 0) with 0%nat. change (Z.to_nat 1) with 1%nat.
    destruct (join_halves (nth 0 q 0) (nth 1 q 0) (Hr _) (Hr _)) as [Ej Hj].
    rewrite Ej. rewrite ctor_inline by lia. rewrite u64_small by exact Hj.
    change (Z.to_nat (2 * 1)) with 2%nat in *.
    rewrite !halves_firstn_succ in * by lia. cbn [firstn halves_to_Z] in *.
    change (Z.of_nat 0) with 0 in *. change (Z.of_nat 1) with 1 in *.
    rewrite !u32_small in * by apply Hr.
    change (2 ^ (32 * 0)) with 1 in *. change (2 ^ (32 * 1)) with (2 ^ 32) in *.
    replace (0 + 1 * nth 0 q 0 + 2 ^ 32 * nth 1 q 0) with (nth 0 q 0 + 2 ^ 32 * nth 1 q 0)
      in * by lia.
    rewrite Z.mod_small; [reflexivity|].
    pose proof (Hr 0%nat). pose proof (Hr 1%nat). lia.
  - assert (Hbig : 64 < bits) by (destruct (Z.le_gt_cases bits 64) as [Hs|Hs];
      [rewrite numWords_small in E1 by lia; lia|lia]).
    rewrite ctor_zero by exact Hb. cbn [bind].
    set (nw := getNumWords2 bits false) in *.
    destruct (for_range_inv SVInt
      (fun j r => exists p, r = mkSVInt bits sg false (Heap p) /\
         Z.of_nat (length p) = nw /\ words_in_range p /\
         words_to_Z (firstn (Z.to_nat j) p) = halves_to_Z (firstn (Z.to_nat (2 * j)) q))
      (fun i r =>
         lo <- rd q (i * 2) ;; hi <- rd q (i * 2 + 1) ;;
         p <- get_pVal r ;;
         p <- wr p i (Z.lor lo (shl64 hi (BITS_PER_WORD / 2))) ;;
         Ok (set_pVal r p)) 0 nw (of_value bits sg 0)) as [r [E [p [Er [Hlp [Hrp Hv]]]]]].
    + lia.
    + exists (Z_to_words (Z.to_nat nw) 0). unfold of_value.
      destruct (Z.leb_spec bits 64); [lia|]. split; [reflexivity|].
      split; [rewrite length_Z_to_words; lia|]. split; [apply words_in_range_Z_to_words|].
      reflexivity.
    + intros j r Hj [p [-> [Hlp [Hrp Hv]]]].
      rewrite !rd_ok by lia. cbn [bind get_pVal store].
      destruct (join_halves (nth (Z.to_nat (j * 2)) q 0) (nth (Z.to_nat (j * 2 + 1)) q 0)
                  (Hr _) (Hr _)) as [Ej Hjr].
      rewrite Ej. rewrite wr_ok by lia. cbn [bind]. unfold set_pVal.
      cbn [bitWidth signFlag unknownFlag].
      eexists. split; [reflexivity|]. eexists. split; [reflexivity|].
      split; [rewrite length_upd; exact Hlp|]. split; [apply range_upd; assumption|].
      replace (Z.to_nat (j + 1)) with (S (Z.to_nat j)) by lia.
      replace (Z.to_nat (2 * (j + 1))) with (S (S (Z.to_nat (2 * j)))) by lia.
      rewrite words_to_Z_firstn_succ by (rewrite length_upd; lia).
      rewrite !halves_firstn_succ by lia.
      rewrite firstn_upd by lia. rewrite Hv. rewrite nth_upd, Nat.eqb_refl.
      replace (Nat.ltb (Z.to_nat j) (length p)) with true
        by (symmetry; apply Nat.ltb_lt; lia).
      rewrite u64_small by exact Hjr. rewrite !u32_small by apply Hr.
      replace (Z.to_nat (j * 2)) with (Z.to_nat (2 * j)) by lia.
      replace (Z.to_nat (j * 2 + 1)) with (S (Z.to_nat (2 * j))) by lia.
      rewrite Nat2Z.inj_succ, !Z2Nat.id by lia.
      replace (32 * Z.succ (2 * j)) with (32 + 32 * (2 * j)) by lia.
      rewrite Z.pow_add_r by lia.
      replace (32 * (2 * j)) with (64 * j) by lia. nia.
    + rewrite E, Er. unfold of_value. destruct (Z.leb_spec bits 64); [lia|].
      fold nw. do 3 f_equal. rewrite <- Hv.
      replace (Z.to_nat nw) with (length p) by lia. rewrite firstn_all.
      symmetry. apply Z_to_words_to_Z. exact Hrp.
Qed.

(** [divide] by the divisor [4'd10] of [writeTo]: quotient and remainder of
    the division of the value by ten. *)
Lemma divide_10 : forall bits sg v, 0 < bits <= MAX_BITS -> 0 <= v < 2 ^ bits ->
  divide (of_value bits sg v) (getNumWords2 bits false) (of_value 4 false 10) 1 true true
  = Ok (Some (of_value bits false (v / 10)), Some (of_value 4 false (v mod 10))).
Proof.
  intros bits sg v Hb Hv.
  pose proof (numWords_pos bits ltac:(lia)) as Hpos.
  pose proof (numWords_bounds bits ltac:(lia)) as Hnb.
  set (nw := getNumWords2 bits false) in *.
  assert (Hnw : nw < 2 ^ 24) by (unfold MAX_BITS in Hb; lia).
  unfold divide. destruct (Z.ltb_spec nw 1); [lia|].
  cbv zeta. replace (1 * 2 + (nw * 2 - 1 * 2)) with (2 * nw) by lia.
  (* the dividend *)
  unfold splitWords at 1.
  destruct (raw_value bits sg v Hb Hv) as [raw [Eraw [Hlr [Hrr Hvr]]]].
  rewrite Eraw. cbn [bind].
  destruct (splitWords_loop raw (new_zeroed (2 * nw + 1)) nw)
    as [u [Eu [Hlu [Hru [Hvu Hku]]]]]; try lia.
  { rewrite length_new_zeroed. lia. }
  { exact Hrr. }
  { apply halves_range_zero. }
  rewrite Eu. cbn [bind]. rewrite length_new_zeroed in Hlu.
  replace (Z.to_nat nw) with (length raw) in Hvu by lia.
  rewrite firstn_all, Hvr in Hvu.
  (* the divisor *)
  change (splitWords (of_value 4 false 10) (new_zeroed (1 * 2)) 1) with (Ok [10; 0]).
  cbn [bind]. change (top_zeros [10; 0] (Z.to_nat (1 * 2))) with (Ok 1). cbn [bind].
  destruct (top_zeros_spec u (Z.to_nat (2 * nw)) ltac:(lia)) as [zu [Ez [Hzu Hkz]]].
  rewrite Ez. cbn [bind]. rewrite Z2Nat.id in Hzu, Hkz by lia.
  change (u32 (1 * 2 - 1)) with 1. change (1 =? 1) with true. cbv iota.
  assert (ED : u32 (1 + u32 (nw * 2 - 1 * 2 + 1 - zu)) = 2 * nw - zu).
  { unfold u32. rewrite Zplus_mod_idemp_r.
    replace (1 + (nw * 2 - 1 * 2 + 1 - zu)) with (2 * nw - zu) by lia.
    apply Z.mod_small. lia. }
  rewrite ED. change (rd [10; 0] 0) with (Ok 10). cbn [bind].
  destruct (div_by_half_10 u (Z.to_nat (2 * nw - zu)) (new_zeroed (2 * nw)) 0)
    as [q' [rem' [Eq [Hlq [Hrq [Hkq [Hvq Hrem]]]]]]]; try lia.
  { rewrite length_new_zeroed. lia. }
  { exact Hru. }
  { apply halves_range_zero. }
  rewrite Eq. cbn [bind]. rewrite length_new_zeroed in Hlq.
  change (wr (new_zeroed (1 * 2)) 0 rem') with (Ok [rem'; 0]). cbn [bind].
  assert (HD : halves_to_Z (firstn (Z.to_nat (2 * nw - zu)) u) = v).
  { rewrite <- Hvu. symmetry. apply halves_firstn_zero; try lia.
    intros k Hk. apply Hkz. lia. }
  rewrite HD, Z.mul_0_l, Z.add_0_l in Hvq, Hrem.
  assert (HQ : halves_to_Z (firstn (Z.to_nat (2 * nw)) q') = v / 10).
  { rewrite <- Hvq. apply halves_firstn_zero; try lia.
    intros k Hk. rewrite Hkq by lia. apply nth_new_zeroed. }
  assert (Hq10 : 0 <= v / 10 < 2 ^ bits).
  { split; [apply Z.div_pos; lia|]. apply Z.le_lt_trans with v; [|lia].
    apply Z.div_le_upper_bound; lia. }
  change (signFlag (of_value 4 false 10)) with false. rewrite andb_false_r.
  change (bitWidth (of_value bits sg v)) with bits.
  change (bitWidth (of_value 4 false 10)) with 4.
  fold nw in HQ. 
  pose proof (buildDivideResult_value q' bits false Hb) as Hbq. fold nw in Hbq.
  rewrite Hbq; [|lia|exact Hrq|rewrite HQ; lia]. rewrite HQ. cbn [bind].
  pose proof (Z.mod_pos_bound v 10 ltac:(lia)) as Hmb.
  assert (Hbr : buildDivideResult [rem'; 0] 4 false 1 = Ok (of_value 4 false rem')).
  { unfold buildDivideResult. change (1 =? 1) with true. cbv iota.
    change (rd [rem'; 0] 0) with (Ok rem'). change (rd [rem'; 0] 1) with (Ok 0).
    cbn [bind]. destruct (join_halves rem' 0) as [Ej _]; try lia.
    rewrite Ej. rewrite ctor_inline by lia. rewrite Z.mul_0_r, Z.add_0_r.
    rewrite u64_small by lia. rewrite Z.mod_small by lia. reflexivity. }
  rewrite Hbr. cbn [bind]. rewrite Hrem. reflexivity.
Qed.

(** The remainder of a division by ten, read back as a [uint64_t]. *)
Lemma as_int_digit : forall d, 0 <= d < 10 ->
  as_int 64 false (of_value 4 false d) = Ok (Some d).
Proof.
  intros d Hd.
  assert (Hc : d = 0 \/ d = 1 \/ d = 2 \/ d = 3 \/ d = 4 \/ d = 5 \/ d = 6 \/ d = 7
               \/ d = 8 \/ d = 9) by lia.
  destruct Hc as [->|[->|[->|[->|[->|[->|[->|[->|[->| ->]]]]]]]]]; reflexivity.
Qed.

Lemma pow2_le_pow10 : forall n, 0 <= n -> 2 ^ n <= 10 ^ n.
Proof. intros n Hn. apply Z.pow_le_mono_l. lia. Qed.

Section WriteDecimal.
Variable junk : Z -> Z.

(** The division loop writes the decimal digits of the value, least
    significant first. *)
Lemma writeTo_dec_value : forall bits n sg v acc,
  0 < bits <= MAX_BITS -> 0 <= v < 2 ^ bits -> v < 10 ^ Z.of_nat n ->
  exists ds,
    writeTo_dec junk (S n) (of_value bits sg v) (of_value 4 false 10) acc
      = Ok (acc ++ map Digits ds) /\
    is_digits 10 ds v.
Proof.
  intros bits n. induction n as [|n IH]; intros sg v acc Hb Hv Hn.
  - assert (v = 0) by (cbn in Hn; lia). subst v.
    exists []. cbn [writeTo_dec]. rewrite ne_int_value by assumption. cbn [bind].
    cbn [map is_digits]. rewrite app_nil_r. split; reflexivity.
  - remember (S n) as fuel. cbn [writeTo_dec]. subst fuel.
    rewrite ne_int_value by assumption. cbn [bind].
    destruct (Z.eqb_spec v 0) as [E0|En].
    + exists []. cbn [map is_digits]. rewrite app_nil_r. split; [reflexivity|exact E0].
    + change (negb (logic_to_bool (logic_of_bool (negb false)))) with false. cbv iota.
      rewrite getNumWords_known by reflexivity.
      change (bitWidth (of_value bits sg v)) with bits.
      change (getNumWords (of_value 4 false 10)) with 1.
      rewrite divide_10 by assumption. cbn [bind].
      pose proof (Z.mod_pos_bound v 10 ltac:(lia)) as Hmb.
      rewrite as_int_digit by exact Hmb. cbn [bind].
      destruct (Z.ltb_spec (v mod 10) 10); [|lia]. cbn [negb].
      assert (Hq : 0 <= v / 10 < 2 ^ bits).
      { split; [apply Z.div_pos; lia|].
        apply Z.le_lt_trans with v; [|lia]. apply Z.div_le_upper_bound; lia. }
      destruct (IH false (v / 10) (acc ++ [Digits (v mod 10)]) Hb Hq) as [ds [E Hd]].
      { apply Z.div_lt_upper_bound; [lia|].
        rewrite Nat2Z.inj_succ, Z.pow_succ_r in Hn by lia. exact Hn. }
      exists (v mod 10 :: ds). rewrite E. cbn [map is_digits].
      rewrite <- app_assoc. split; [reflexivity|]. split; [exact En|].
      split; [reflexivity|exact Hd].
Qed.

End WriteDecimal.

(** ** Digits and numbers *)

Lemma is_digits_range : forall r ds v, 0 < r -> is_digits r ds v ->
  Forall (fun d => 0 <= d < r) ds.
Proof.
  intros r ds. induction ds as [|d t IH]; intros v Hr H; constructor.
  - destruct H as [_ [-> _]]. apply Z.mod_pos_bound. exact Hr.
  - destruct H as [_ [_ H]]. apply (IH (v / r)); assumption.
Qed.

Lemma horner_app : forall r l1 l2 w,
  horner r (l1 ++ l2) w = horner r l2 (horner r l1 w).
Proof.
  intros r l1. induction l1 as [|d t IH]; intros l2 w; [reflexivity|].
  cbn [app horner]. apply IH.
Qed.

(** Reading the digits back, most significant first, gives the number. *)
Lemma horner_digits : forall r ds v w, 0 < r -> 0 <= v -> is_digits r ds v ->
  horner r (rev ds) w = w * r ^ Z.of_nat (length ds) + v.
Proof.
  intros r ds. induction ds as [|d t IH]; intros v w Hr Hv H.
  - cbn [is_digits] in H. subst v. cbn. lia.
  - destruct H as [Hnz [Hd Ht]]. cbn [rev length]. rewrite horner_app.
    rewrite (IH (v / r) w Hr) by (try assumption; apply Z.div_pos; lia).
    cbn [horner]. rewrite Nat2Z.inj_succ, Z.pow_succ_r by lia.
    pose proof (Z.div_mod v r ltac:(lia)). subst d. nia.
Qed.

Lemma is_digits_zero : forall r ds, is_digits r ds 0 -> ds = [].
Proof. intros r [|d t] H; [reflexivity|]. destruct H as [H _]. congruence. Qed.

(** ** Arithmetic of the decimal parser *)

Lemma firstn_Z_to_words : forall k n z, (k <= n)%nat ->
  firstn k (Z_to_words n z) = Z_to_words k z.
Proof.
  induction k as [|k IH]; intros n z H; [reflexivity|].
  destruct n as [|n]; [lia|]. cbn [Z_to_words firstn]. f_equal. apply IH. lia.
Qed.

Lemma firstn_value : forall n k v, 0 <= k <= Z.of_nat n -> 0 <= v < 2 ^ (64 * k) ->
  words_to_Z (firstn (Z.to_nat k) (Z_to_words n v)) = v.
Proof.
  intros n k v Hk Hv. rewrite firstn_Z_to_words by lia.
  rewrite words_to_Z_to_words. rewrite Z2Nat.id by lia. apply Z.mod_small. exact Hv.
Qed.

(** The active words of a number hold all of it. *)
Lemma activeWords_cover : forall a v, 0 <= a -> 0 <= v < 2 ^ a ->
  v < 2 ^ (64 * activeWords a) /\ (v <> 0 -> 0 < activeWords a).
Proof.
  intros a v Ha Hv. unfold activeWords, whichWord, BITS_PER_WORD.
  destruct (Z.eqb_spec a 0) as [->|Hn].
  - cbn in Hv. split; [cbn; lia|]. intro; lia.
  - assert (0 <= (a - 1) / 64) by (apply Z.div_pos; lia).
    pose proof (Z.div_mod (a - 1) 64 ltac:(lia)).
    pose proof (Z.mod_pos_bound (a - 1) 64 ltac:(lia)).
    split; [|intro; lia].
    apply Z.lt_le_trans with (2 ^ a); [lia|]. apply Z.pow_le_mono_r; lia.
Qed.

Lemma zero_words_all : forall p n, Z.of_nat (length p) = n ->
  zero_words p n = Ok (Z_to_words (Z.to_nat n) 0).
Proof.
  intros p n Hl. unfold zero_words.
  destruct (fill_range p 0 n 0) as [q [E [Hlq Hq]]]; try lia.
  rewrite E. f_equal. apply nth_ext0; [rewrite length_Z_to_words; lia|].
  intros k Hk. rewrite Hq, Z_to_words_0.
  destruct (Z.leb_spec 0 (Z.of_nat k)), (Z.ltb_spec (Z.of_nat k) n); cbn [andb];
    try reflexivity; lia.
Qed.

Lemma upd_low_word : forall n a d, (0 < n)%nat -> 0 <= a < 2 ^ 64 -> 0 <= d < 2 ^ 64 ->
  upd (Z_to_words n a) 0 d = Z_to_words n d.
Proof.
  intros n a d Hn Ha Hd. apply words_are.
  - rewrite length_upd. apply length_Z_to_words.
  - apply range_upd; [apply words_in_range_Z_to_words|exact Hd].
  - intros k j Hk Hj. rewrite nth_upd, length_Z_to_words.
    destruct (Nat.eqb_spec k 0) as [->|Hk0].
    + destruct (Nat.ltb_spec 0 n); [|lia]. f_equal; lia.
    + rewrite word_bit by lia.
      rewrite (testbit_above a 64), (testbit_above d 64) by lia. reflexivity.
Qed.

Section DecimalArith.
Variable junk : Z -> Z.

(** Addition at one width above 64 bits. *)
Lemma add_value : forall bits sg sg' a b, 64 < bits <= MAX_BITS ->
  0 <= a < 2 ^ bits -> 0 <= b < 2 ^ bits ->
  add_assign junk (of_value bits sg a) (of_value bits sg' b) =
  Ok (of_value bits sg ((a + b) mod 2 ^ bits)).
Proof.
  intros bits sg sg' a b Hb Ha Hv. unfold add_assign, unify.
  change (bitWidth (of_value bits sg a)) with bits.
  change (bitWidth (of_value bits sg' b)) with bits.
  rewrite Z.eqb_refl. cbn [bind].
  change (unknownFlag (of_value bits sg a)) with false.
  change (unknownFlag (of_value bits sg' b)) with false. cbn [orb].
  rewrite isSingleWord_of_value.
  pose proof (numWords_pos bits ltac:(lia)) as Hpos.
  destruct (Z.leb_spec bits 64) as [Hs|Hl]; [lia|].
  unfold of_value at 1 2. unfold get_pVal. cbn [store].
  destruct (Z.leb_spec bits 64); [lia|]. cbn [bind].
  rewrite getNumWords_known by reflexivity.
  change (bitWidth (of_value bits sg a)) with bits.
  unfold addGeneral. rewrite !slice_full by (rewrite length_Z_to_words; lia).
  cbn [bind]. rewrite !words_of_value by lia.
  rewrite blit_full by (rewrite !length_Z_to_words; reflexivity). cbn [bind].
  unfold set_pVal, of_value. cbn [bitWidth signFlag unknownFlag].
  rewrite clear_heap_value by lia. reflexivity.
Qed.

(** Multiplication at one width above 64 bits. *)
Lemma mul_value : forall bits sg sg' a m, 64 < bits <= MAX_BITS ->
  0 <= a < 2 ^ bits -> 0 < m < 2 ^ bits ->
  mul_assign junk (of_value bits sg a) (of_value bits sg' m) =
  Ok (of_value bits sg ((a * m) mod 2 ^ bits)).
Proof.
  intros bits sg sg' a m Hb Ha Hm. unfold mul_assign, unify.
  change (bitWidth (of_value bits sg a)) with bits.
  change (bitWidth (of_value bits sg' m)) with bits.
  rewrite Z.eqb_refl. cbn [bind].
  change (unknownFlag (of_value bits sg a)) with false.
  change (unknownFlag (of_value bits sg' m)) with false. cbn [orb].
  rewrite isSingleWord_of_value.
  pose proof (numWords_pos bits ltac:(lia)) as Hpos.
  pose proof (numWords_bounds bits ltac:(lia)) as Hnb.
  destruct (Z.leb_spec bits 64) as [Hs|Hl]; [lia|].
  destruct (getActiveBits_value bits sg a ltac:(lia) Ha) as [la [Ela [Hla [Halt [Hage Haz]]]]].
  destruct (getActiveBits_value bits sg' m ltac:(lia) ltac:(lia))
    as [lm [Elm [Hlm [Hmlt [Hmge Hmz]]]]].
  rewrite Ela. cbn [bind].
  destruct (activeWords_cover la a ltac:(lia) ltac:(lia)) as [Hca Hpa].
  destruct (activeWords_cover lm m ltac:(lia) ltac:(lia)) as [Hcm Hpm].
  pose proof (activeWords_bound la bits ltac:(lia) Hla) as Hba.
  pose proof (activeWords_bound lm bits ltac:(lia) Hlm) as Hbm.
  destruct (Z.eqb_spec (activeWords la) 0) as [E0|E0].
  - assert (a = 0) by (destruct (Z.eq_dec a 0); [assumption|specialize (Hpa n); lia]).
    subst a. rewrite Z.mul_0_l, Z.mod_0_l by (apply Z.pow_nonzero; lia). reflexivity.
  - rewrite Elm. cbn [bind].
    destruct (Z.eqb_spec (activeWords lm) 0) as [E1|E1]; [specialize (Hpm ltac:(lia)); lia|].
    set (lw := activeWords la) in *. set (rw := activeWords lm) in *.
    set (nw := getNumWords2 bits false) in *.
    unfold of_value at 1 2. unfold get_pVal. cbn [store].
    destruct (Z.leb_spec bits 64); [lia|]. cbn [bind]. fold nw.
    unfold mul. do 2 rewrite slice_ok by (rewrite ?length_Z_to_words; lia). cbn [bind].
    change (Z.to_nat 0) with 0%nat. cbn [skipn].
    rewrite !firstn_value by lia.
    (* the copy back *)
    unfold setAllZeros. rewrite isSingleWord_of_value.
    destruct (Z.leb_spec bits 64); [lia|].
    change (unknownFlag (of_value bits sg a)) with false. cbv iota.
    unfold of_value at 1. cbn [store].
    destruct (Z.leb_spec bits 64); [lia|]. cbn [bind].
    rewrite getNumWords_known by reflexivity.
    change (bitWidth (of_value bits sg a)) with bits. fold nw.
    cbn [get_pVal store bind].
    rewrite zero_words_all by (rewrite length_Z_to_words; lia). cbn [bind].
    unfold set_pVal. cbn [store bind bitWidth signFlag unknownFlag].
    rewrite getNumWords_known by reflexivity.
    change (bitWidth (of_value bits sg a)) with bits.
    change (signFlag (of_value bits sg a)) with sg.
    change (unknownFlag (of_value bits sg a)) with false. cbn [bitWidth]. fold nw.
    set (wc := if nw <=? lw + rw then nw else lw + rw).
    assert (Hwc : 0 < wc <= nw /\ wc <= lw + rw)
      by (unfold wc; destruct (Z.leb_spec nw (lw + rw)); lia).
    rewrite (slice_ok (Z_to_words (Z.to_nat (lw + rw)) (a * m)) 0 wc);
      [|lia|lia|rewrite length_Z_to_words; lia].
    cbn [bind]. change (Z.to_nat 0) with 0%nat. cbn [skipn].
    rewrite firstn_Z_to_words by lia.
    rewrite blit_ok by (rewrite ?length_Z_to_words; lia). cbn [bind].
    assert (Hprod : 0 <= a * m < 2 ^ (64 * (lw + rw))).
    { split; [nia|]. replace (64 * (lw + rw)) with (64 * lw + 64 * rw) by lia.
      rewrite Z.pow_add_r by lia. nia. }
    assert (Hlist : firstn (Z.to_nat 0) (Z_to_words (Z.to_nat nw) 0)
                    ++ Z_to_words (Z.to_nat wc) (a * m)
                    ++ skipn (Z.to_nat 0 + length (Z_to_words (Z.to_nat wc) (a * m)))
                         (Z_to_words (Z.to_nat nw) 0)
                    = Z_to_words (Z.to_nat nw) (a * m)).
    { apply words_are.
      - rewrite length_blit by (rewrite ?length_Z_to_words; lia).
        apply length_Z_to_words.
      - intro k. rewrite nth_blit by (rewrite ?length_Z_to_words; lia).
        destruct (Nat.leb (Z.to_nat 0) k
                  && Nat.ltb k (Z.to_nat 0 + length (Z_to_words (Z.to_nat wc) (a * m))));
          apply nth_Z_to_words_range.
      - intros k j Hk Hj. rewrite nth_blit by (rewrite ?length_Z_to_words; lia).
        rewrite length_Z_to_words. change (Z.to_nat 0) with 0%nat.
        rewrite Nat.sub_0_r. cbn [Nat.leb andb Nat.add].
        destruct (Nat.ltb_spec k (Z.to_nat wc)) as [Hlt|Hge].
        + apply word_bit; lia.
        + rewrite Z_to_words_0, Z.bits_0. symmetry.
          apply (testbit_above (a * m) (64 * (lw + rw))); try lia.
          unfold wc in Hge. destruct (Z.leb_spec nw (lw + rw)); lia. }
    rewrite Hlist. unfold nw. rewrite clear_heap_value by lia. reflexivity.
Qed.

End DecimalArith.

(** ** Reading the digits *)

Lemma horner_congr : forall r M ms w w', w mod M = w' mod M ->
  horner r ms w mod M = horner r ms w' mod M.
Proof.
  intros r M ms. induction ms as [|d t IH]; intros w w' H; [exact H|].
  cbn [horner]. apply IH.
  rewrite (Zplus_mod (w * r)), (Zplus_mod (w' * r)).
  rewrite (Zmult_mod w), (Zmult_mod w'), H. reflexivity.
Qed.

Lemma horner_mod : forall r M ms w,
  horner r ms (w mod M) mod M = horner r ms w mod M.
Proof. intros. apply horner_congr. apply Z.mod_mod_opp_r || apply Zmod_mod. Qed.

Lemma new_zeroed_words : forall n, new_zeroed n = Z_to_words (Z.to_nat n) 0.
Proof.
  intro n. apply nth_ext0; [rewrite length_new_zeroed, length_Z_to_words; reflexivity|].
  intros k _. rewrite nth_new_zeroed, Z_to_words_0. reflexivity.
Qed.

(** The fast path: the number modulo [2 ^ 64]. *)
Lemma fromDigits_fast_value : forall base ms w,
  Forall (fun d => 0 <= d < radix_of base) ms ->
  fromDigits_fast (radix_of base) (shift_of base) (map mkLogic ms) (u64 w)
  = Ok (u64 (horner (radix_of base) ms w)).
Proof.
  intros base ms. induction ms as [|d t IH]; intros w H; [reflexivity|].
  inversion H as [|? ? Hd Ht]; subst. cbn [map fromDigits_fast value].
  destruct (Z.leb_spec (radix_of base) d); [lia|].
  assert (E : u64 ((if negb (shift_of base =? 0) then shl64 (u64 w) (shift_of base)
                    else u64 (u64 w * radix_of base)) + d)
              = u64 (w * radix_of base + d)).
  { assert (E1 : (if negb (shift_of base =? 0) then shl64 (u64 w) (shift_of base)
                  else u64 (u64 w * radix_of base)) = u64 (w * radix_of base)).
    { destruct base; cbn [shift_of radix_of Z.eqb negb]; unfold shl64;
        rewrite ?Z.shiftl_mul_pow2 by lia; unfold u64; rewrite Zmult_mod_idemp_l;
        reflexivity. }
    rewrite E1. unfold u64. rewrite Zplus_mod_idemp_l. reflexivity. }
  rewrite E. apply IH. exact Ht.
Qed.

Lemma testbit_shift_add : forall H s d j, 0 <= s -> 0 <= d < 2 ^ s -> 0 <= j ->
  Z.testbit (H * 2 ^ s + d) j = if j <? s then Z.testbit d j else Z.testbit H (j - s).
Proof.
  intros H s d j Hs Hd Hj. assert (Hp : 0 < 2 ^ s) by (apply Z.pow_pos_nonneg; lia).
  destruct (Z.ltb_spec j s).
  - rewrite <- (Z.mod_pow2_bits_low (H * 2 ^ s + d) s j) by lia.
    rewrite Z.add_comm, Z.mod_add by lia. rewrite Z.mod_small by lia. reflexivity.
  - replace j with ((j - s) + s) at 1 by lia. rewrite <- Z.div_pow2_bits by lia.
    rewrite Z.div_add_l by lia. rewrite Z.div_small by lia. rewrite Z.add_0_r. reflexivity.
Qed.

(** One digit of a power-of-two base on a value without unknown bits. *)
Lemma pow2_digit_known : forall bits base d H,
  64 < bits <= MAX_BITS -> base <> Decimal -> 0 <= d < radix_of base ->
  pow2_digit bits (radix_of base) (shift_of base) (getNumWords2 bits false) false
    (mkLogic d) (Z_to_words (Z.to_nat (getNumWords2 bits false)) H)
  = Ok (Z_to_words (Z.to_nat (getNumWords2 bits false)) (H * radix_of base + d)).
Proof.
  intros bits base d H Hb Hbase Hd.
  destruct (radix_shift base Hbase) as [Hrad Hs]. rewrite Hrad in *.
  pose proof (numWords_pos bits ltac:(lia)) as Hpos.
  set (s := shift_of base) in *. set (nw := getNumWords2 bits false) in *.
  assert (Hd16 : d < 16).
  { assert (2 ^ s <= 2 ^ 4) by (apply Z.pow_le_mono_r; lia). lia. }
  unfold pow2_digit, exactlyEqualL. cbn [value logic_x logic_z].
  unfold X_VALUE, Z_VALUE.
  destruct (Z.eqb_spec d 128); [lia|]. destruct (Z.eqb_spec d 64); [lia|].
  destruct (Z.leb_spec (2 ^ s) d); [lia|]. cbn [bind].
  destruct (Z.leb_spec bits s); [lia|].
  unfold shlFar. rewrite slice_full by (rewrite length_Z_to_words; lia). cbn [bind].
  rewrite blit_full by (rewrite !length_Z_to_words; reflexivity). cbn [bind].
  rewrite words_to_Z_to_words. rewrite Z2Nat.id by lia.
  unfold BITS_PER_WORD. replace (0 * 64 + s) with s by lia.
  set (X := Z.shiftl (H mod 2 ^ (64 * nw)) s).
  rewrite rd_ok by (rewrite length_Z_to_words; lia). cbn [bind].
  rewrite wr_ok by (rewrite length_Z_to_words; lia).
  change (Z.to_nat 0) with 0%nat.
  assert (HX : forall i, 0 <= i < 64 * nw ->
            Z.testbit X i = if i <? s then false else Z.testbit H (i - s)).
  { intros i Hi. unfold X. rewrite Z.shiftl_spec by lia.
    destruct (Z.ltb_spec i s); [apply Z.testbit_neg_r; lia|].
    apply Z.mod_pow2_bits_low. lia. }
  set (w0 := nth 0 (Z_to_words (Z.to_nat nw) X) 0).
  assert (Hw0 : forall j, 0 <= j < 64 -> Z.testbit w0 j = Z.testbit X j).
  { intros j Hj. unfold w0. rewrite word_bit by lia. f_equal. }
  destruct (lor_add w0 d s) as [Eadd Hrange]; try lia.
  { apply nth_Z_to_words_range. }
  { intros j Hj. rewrite Hw0 by lia. rewrite HX by lia.
    destruct (Z.ltb_spec j s); [reflexivity|lia]. }
  rewrite Eadd. cbn [bind]. f_equal. apply words_are.
  - rewrite length_upd. apply length_Z_to_words.
  - apply range_upd; [apply words_in_range_Z_to_words|exact Hrange].
  - intros k j Hk Hj. rewrite testbit_shift_add by lia.
    rewrite nth_upd, length_Z_to_words.
    destruct (Nat.eqb_spec k 0) as [->|Hk0].
    + destruct (Nat.ltb_spec 0 (Z.to_nat nw)); [|lia].
      rewrite Z.lor_spec, Hw0 by lia. rewrite HX by lia.
      change (64 * Z.of_nat 0 + j) with j.
      destruct (Z.ltb_spec j s); [reflexivity|].
      rewrite (testbit_above d s j) by lia. apply orb_false_r.
    + rewrite word_bit by lia. rewrite HX by lia.
      destruct (Z.ltb_spec (64 * Z.of_nat k + j) s); [lia|reflexivity].
Qed.

Lemma fromDigits_pow2_known : forall bits base ms H,
  64 < bits <= MAX_BITS -> base <> Decimal ->
  Forall (fun d => 0 <= d < radix_of base) ms ->
  fromDigits_pow2 bits (radix_of base) (shift_of base) (getNumWords2 bits false) false
    (map mkLogic ms) (Z_to_words (Z.to_nat (getNumWords2 bits false)) H)
  = Ok (Z_to_words (Z.to_nat (getNumWords2 bits false)) (horner (radix_of base) ms H)).
Proof.
  intros bits base ms. induction ms as [|d t IH]; intros H Hb Hbase Hms; [reflexivity|].
  inversion Hms as [|? ? Hd Ht]; subst. cbn [map fromDigits_pow2 horner].
  rewrite pow2_digit_known by assumption. cbn [bind]. apply IH; assumption.
Qed.

Lemma get_pVal_of_value : forall bits sg v, 64 < bits ->
  get_pVal (of_value bits sg v) = Ok (Z_to_words (Z.to_nat (getNumWords2 bits false)) v).
Proof.
  intros bits sg v H. unfold get_pVal, of_value. cbn [store].
  destruct (Z.leb_spec bits 64); [lia|reflexivity].
Qed.

Lemma set_pVal_of_value : forall bits sg a v, 64 < bits ->
  set_pVal (of_value bits sg a) (Z_to_words (Z.to_nat (getNumWords2 bits false)) v)
  = of_value bits sg v.
Proof.
  intros bits sg a v H. unfold set_pVal, of_value. cbn [bitWidth signFlag unknownFlag].
  destruct (Z.leb_spec bits 64); [lia|reflexivity].
Qed.

Section ReadDecimal.
Variable junk : Z -> Z.

(** The decimal loop: the number modulo the width. *)
Lemma fromDigits_dec_value : forall bits sg size ms R dprev,
  64 < bits <= MAX_BITS -> Forall (fun d => 0 <= d < 10) ms ->
  0 <= R < 2 ^ bits -> 0 <= dprev < 2 ^ 64 ->
  fromDigits_dec junk bits sg false size (map mkLogic ms)
    (of_value bits sg R) (of_value bits false dprev) (of_value bits false 10)
  = Ok (of_value bits sg (horner 10 ms R mod 2 ^ bits)).
Proof.
  intros bits sg size ms. induction ms as [|d t IH]; intros R dprev Hb Hms HR Hdp.
  - cbn [map fromDigits_dec horner]. rewrite Z.mod_small by exact HR. reflexivity.
  - inversion Hms as [|? ? Hd Ht]; subst. cbn [map fromDigits_dec value].
    destruct (Z.leb_spec 10 d); [lia|].
    pose proof (numWords_pos bits ltac:(lia)) as Hpos.
    assert (Hp : 2 ^ 64 < 2 ^ bits) by (apply Z.pow_lt_mono_r; lia).
    rewrite mul_value by lia. cbn [bind].
    rewrite get_pVal_of_value by lia. cbn [bind].
    rewrite wr_ok by (rewrite length_Z_to_words; lia). cbn [bind].
    change (Z.to_nat 0) with 0%nat. rewrite upd_low_word by lia.
    rewrite set_pVal_of_value by lia.
    pose proof (Z.mod_pos_bound (R * 10) (2 ^ bits) ltac:(lia)) as Hm.
    rewrite add_value by lia. cbn [bind].
    rewrite IH; try assumption; try lia.
    + f_equal. f_equal. cbn [horner]. rewrite horner_mod.
      apply horner_congr. rewrite Zplus_mod_idemp_l. reflexivity.
    + apply Z.mod_pos_bound. lia.
Qed.

(** [fromDigits] on digits without X or Z: the number they stand for,
    modulo the width. *)
Lemma fromDigits_value : forall bits base sg ms,
  0 < bits <= MAX_BITS -> ms <> [] ->
  Forall (fun d => 0 <= d < radix_of base) ms ->
  fromDigits junk bits base sg false (map mkLogic ms)
  = Ok (of_value bits sg (horner (radix_of base) ms 0 mod 2 ^ bits)).
Proof.
  intros bits base sg ms Hb Hne Hms. unfold fromDigits.
  destruct ms as [|d0 ms']; [congruence|]. cbn [map]. cbv zeta.
  change (mkLogic d0 :: map mkLogic ms') with (map mkLogic (d0 :: ms')).
  set (ms := d0 :: ms') in *. cbn [negb]. rewrite andb_true_r. unfold BITS_PER_WORD.
  destruct (Z.leb_spec bits 64) as [Hs|Hl].
  - change 0 with (u64 0) at 1. rewrite fromDigits_fast_value by exact Hms. cbn [bind].
    rewrite ctor_inline by lia. f_equal. f_equal.
    rewrite (u64_small (u64 _)) by apply u64_range. unfold u64.
    apply mod_mod_pow2. lia.
  - pose proof (numWords_pos bits ltac:(lia)) as Hpos.
    unfold allocZeroed. destruct (Z.ltb_spec 64 bits); [|lia]. cbn [orb bind].
    rewrite new_zeroed_words.
    assert (E0 : mkSVInt bits sg false
                   (Heap (Z_to_words (Z.to_nat (getNumWords2 bits false)) 0))
                 = of_value bits sg 0).
    { unfold of_value. destruct (Z.leb_spec bits 64); [lia|reflexivity]. }
    assert (Hp : 2 ^ 64 < 2 ^ bits) by (apply Z.pow_lt_mono_r; lia).
    destruct (Z.eqb_spec (radix_of base) 10) as [E10|E10].
    + rewrite ctor_zero by exact Hb. cbn [bind].
      rewrite ctor_heap by (auto; lia). cbn [bind]. change (u64 10) with 10.
      rewrite E0. rewrite E10 in *.
      apply fromDigits_dec_value; try assumption; lia.
    + assert (Hbase : base <> Decimal) by (intro; subst base; apply E10; reflexivity).
      cbn [get_pVal store bind].
      rewrite fromDigits_pow2_known by (try assumption; lia). cbn [bind].
      unfold set_pVal. cbn [bitWidth signFlag unknownFlag].
      rewrite clear_heap_value by lia. cbn [bind].
      unfold checkUnknown. change (unknownFlag (of_value bits sg _)) with false.
      cbn [negb bind]. unfold hasUnknown.
      change (unknownFlag (of_value bits sg _)) with false. reflexivity.
Qed.

End ReadDecimal.

(** ** Digit characters *)

Lemma digit_char : forall d, 0 <= d < 16 -> digit_char_ok d = true.
Proof.
  intros d Hd.
  assert (Hc : d = 0 \/ d = 1 \/ d = 2 \/ d = 3 \/ d = 4 \/ d = 5 \/ d = 6 \/ d = 7 \/
               d = 8 \/ d = 9 \/ d = 10 \/ d = 11 \/ d = 12 \/ d = 13 \/ d = 14 \/ d = 15)
    by lia.
  repeat (destruct Hc as [->|Hc]; [reflexivity|]). subst d. reflexivity.
Qed.

Lemma digit_char_facts : forall d, 0 <= d < 16 ->
  (Digits d =? "_")%char = false /\ (Digits d =? "'")%char = false /\
  (Digits d =? "-")%char = false /\ (Digits d =? "+")%char = false /\
  ((Digits d =? "X")%char || (Digits d =? "x")%char) = false /\
  ((Digits d =? "Z")%char || (Digits d =? "z")%char || (Digits d =? "?")%char) = false /\
  getHexDigitValue (Digits d) = d /\
  (d < 10 -> isDecimalDigit (Digits d) = true /\ getDigitValue (Digits d) = d).
Proof.
  intros d Hd. pose proof (digit_char d Hd) as H. unfold digit_char_ok in H.
  cbv zeta in H. repeat (apply andb_true_iff in H; destruct H as [H ?]).
  repeat match goal with
         | Hn : negb _ = true |- _ => apply negb_true_iff in Hn
         end.
  repeat split; try assumption.
  - apply Z.eqb_eq. assumption.
  - destruct (Z.ltb_spec d 10); [|lia].
    match goal with Hx : _ && _ = true |- _ => apply andb_true_iff in Hx; apply Hx end.
  - destruct (Z.ltb_spec d 10); [|lia].
    match goal with Hx : _ && _ = true |- _ =>
      apply andb_true_iff in Hx; destruct Hx as [_ Hx]; apply Z.eqb_eq; exact Hx end.
Qed.

(** The digit loop of [fromString] on digit characters. *)
Lemma scan_digits_Digits : forall ds u acc, Forall (fun d => 0 <= d < 16) ds ->
  scan_digits (map Digits ds) u acc = (u, acc ++ map mkLogic ds).
Proof.
  intros ds. induction ds as [|d t IH]; intros u acc H.
  - cbn [map scan_digits]. rewrite app_nil_r. reflexivity.
  - inversion H as [|? ? Hd Ht]; subst. cbn [map scan_digits].
    destruct (digit_char_facts d Hd) as [E1 [_ [_ [_ [E2 [E3 [E4 _]]]]]]].
    rewrite E1, E2, E3, E4. rewrite IH by exact Ht. rewrite <- app_assoc. reflexivity.
Qed.

(** The size scan on a run of decimal digits that is not followed by an
    apostrophe. *)
Lemma scan_size_digits : forall ds sb so ps, Forall (fun d => 0 <= d < 10) ds ->
  exists so' ps', scan_size (map Digits ds) sb so ps = (sb, so', ps', None).
Proof.
  intros ds. induction ds as [|d t IH]; intros sb so ps H.
  - exists so, ps. reflexivity.
  - inversion H as [|? ? Hd Ht]; subst. cbn [map scan_size].
    destruct (digit_char_facts d ltac:(lia)) as [_ [E1 [_ [_ [_ [_ [_ E2]]]]]]].
    destruct (E2 ltac:(lia)) as [E3 _]. rewrite E1, E3. apply IH. exact Ht.
Qed.

Lemma horner_ge : forall r ms w, 1 <= r -> 0 <= w -> Forall (fun d => 0 <= d < r) ms ->
  w <= horner r ms w.
Proof.
  intros r ms. induction ms as [|d t IH]; intros w Hr Hw H; [cbn; lia|].
  inversion H as [|? ? Hd Ht]; subst. cbn [horner].
  specialize (IH (w * r + d) Hr ltac:(nia) Ht). nia.
Qed.

(** The size scan on a decimal number followed by an apostrophe. *)
Lemma scan_size_number : forall ms ps so rest,
  Forall (fun d => 0 <= d < 10) ms -> 0 <= ps -> horner 10 ms ps <= MAX_BITS ->
  scan_size (map Digits ms ++ "'"%char :: rest) false so ps
  = (false, so, horner 10 ms ps, Some rest).
Proof.
  intros ms. induction ms as [|d t IH]; intros ps so rest H Hps Hle.
  - reflexivity.
  - inversion H as [|? ? Hd Ht]; subst. cbn [map app scan_size horner].
    destruct (digit_char_facts d ltac:(lia)) as [_ [E1 [_ [_ [_ [_ [_ E2]]]]]]].
    destruct (E2 ltac:(lia)) as [E3 E4]. rewrite E1, E3, E4.
    cbn [horner] in Hle.
    pose proof (horner_ge 10 t (ps * 10 + d) ltac:(lia) ltac:(lia) Ht) as Hge.
    unfold MAX_BITS in *.
    rewrite (u32_small (ps * 10)) by lia. rewrite u32_small by lia.
    destruct (Z.ltb_spec 16777215 (ps * 10 + d)); [lia|]. rewrite orb_false_r.
    apply IH; try assumption; lia.
Qed.

(** [std::to_string] writes the decimal digits, most significant first. *)
Lemma to_string_rec_digits : forall fuel n acc, 0 < n < 10 ^ Z.of_nat fuel ->
  exists ds, to_string_rec fuel n acc = map Digits (rev ds) ++ acc /\
    is_digits 10 ds n /\ ds <> [].
Proof.
  intros fuel. induction fuel as [|f IH]; intros n acc Hn; [cbn in Hn; lia|].
  cbn [to_string_rec]. destruct (Z.eqb_spec (n / 10) 0) as [E|E].
  - exists [n mod 10]. cbn [rev app map is_digits]. split; [reflexivity|].
    split; [|discriminate]. split; [lia|]. split; [reflexivity|exact E].
  - assert (Hq : 0 < n / 10 < 10 ^ Z.of_nat f).
    { assert (0 <= n / 10) by (apply Z.div_pos; lia). split; [lia|].
      apply Z.div_lt_upper_bound; [lia|].
      rewrite Nat2Z.inj_succ, Z.pow_succ_r in Hn by lia. lia. }
    destruct (IH (n / 10) (Digits (n mod 10) :: acc) Hq) as [ds [E1 [Hd Hne]]].
    exists (n mod 10 :: ds). rewrite E1. cbn [rev]. rewrite map_app, <- app_assoc.
    cbn [map app is_digits]. split; [reflexivity|]. split; [|discriminate].
    split; [lia|]. split; [reflexivity|exact Hd].
Qed.

Lemma to_string_scan : forall n so rest, 0 < n <= MAX_BITS ->
  scan_size (to_string n ++ "'"%char :: rest) false so 0 = (false, so, n, Some rest) /\
  exists c0 tl, to_string n = c0 :: tl /\
    (c0 =? "-")%char = false /\ (c0 =? "+")%char = false.
Proof.
  intros n so rest Hn. unfold to_string.
  destruct (to_string_rec_digits 10 n []) as [ds [E [Hd Hne]]].
  { unfold MAX_BITS in Hn. change (10 ^ Z.of_nat 10) with 10000000000. lia. }
  rewrite E, app_nil_r.
  pose proof (is_digits_range 10 ds n ltac:(lia) Hd) as Hr.
  assert (Hrr : Forall (fun d => 0 <= d < 10) (rev ds)) by (apply Forall_rev; exact Hr).
  pose proof (horner_digits 10 ds n 0 ltac:(lia) ltac:(lia) Hd) as Hh.
  rewrite Z.mul_0_l, Z.add_0_l in Hh. split.
  - rewrite scan_size_number; [rewrite Hh; reflexivity|exact Hrr|lia|rewrite Hh; lia].
  - destruct (rev ds) as [|d0 tl] eqn:Er.
    + exfalso. apply Hne. apply (f_equal (@rev Z)) in Er. rewrite rev_involutive in Er.
      exact Er.
    + exists (Digits d0), (map Digits tl). split; [reflexivity|].
      inversion Hrr as [|? ? Hd0 _]; subst.
      destruct (digit_char_facts d0 ltac:(lia)) as [_ [_ [E1 [E2 _]]]]. split; assumption.
Qed.

Lemma base_char_parse : forall base,
  literalBaseFromChar (base_char base) = Some base /\
  ((base_char base =? "s")%char || (base_char base =? "S")%char) = false.
Proof. intros []; split; reflexivity. Qed.

(** ** Writing and reading a literal *)

Lemma neg_range : forall v M, 0 < M -> 0 <= (- v) mod M < M.
Proof. intros. apply Z.mod_pos_bound. assumption. Qed.

Section RoundTrip.
Variable junk : Z -> Z.

(** The digits some loop of [writeTo] leaves, turned around, and the [0] of
    an empty run. *)
Lemma written_digits : forall r ds m (buffer : list ascii),
  1 < r -> 0 <= m -> is_digits r ds m ->
  exists ms,
    match map Digits ds with
    | [] => Ok (buffer ++ ["0"%char])
    | _ :: _ => Ok (buffer ++ rev (map Digits ds))
    end = Ok (buffer ++ map Digits ms) /\
    ms <> [] /\ Forall (fun d => 0 <= d < r) ms /\ horner r ms 0 = m.
Proof.
  intros r ds m buffer Hr Hm Hd. destruct ds as [|d t].
  - exists [0]. cbn [map]. split; [reflexivity|]. split; [discriminate|].
    split; [constructor; [lia|constructor]|]. cbn [is_digits] in Hd. subst m. reflexivity.
  - exists (rev (d :: t)). rewrite map_rev. cbn [map]. split; [reflexivity|].
    split.
    + cbn [rev]. intro E. apply app_eq_nil in E. destruct E as [_ E]. discriminate.
    + split; [apply Forall_rev; apply (is_digits_range r _ m); [lia|exact Hd]|].
      rewrite (horner_digits r (d :: t) m 0) by (try assumption; lia). lia.
Qed.

(** [writeTo] on a value without unknown bits: the sign, the prefix, and the
    digits of the magnitude. *)
Lemma writeTo_value : forall bits sg v base,
  0 < bits <= MAX_BITS -> 0 <= v < 2 ^ bits ->
  let n := sg && (2 ^ (bits - 1) <=? v) in
  let m := if n then (- v) mod 2 ^ bits else v in
  exists ms,
    writeTo junk (of_value bits sg v) base
      = Ok ((if n then ["-"%char] else []) ++ literal_prefix bits sg base ++ map Digits ms) /\
    ms <> [] /\ Forall (fun d => 0 <= d < radix_of base) ms /\
    horner (radix_of base) ms 0 = m.
Proof.
  intros bits sg v base Hb Hv n m.
  assert (Hp : 0 < 2 ^ bits) by (apply Z.pow_pos_nonneg; lia).
  assert (Hm : 0 <= m < 2 ^ bits).
  { unfold m. destruct n; [apply Z.mod_pos_bound; lia|exact Hv]. }
  unfold writeTo. cbv zeta.
  change (signFlag (of_value bits sg v)) with sg.
  change (unknownFlag (of_value bits sg v)) with false.
  change (bitWidth (of_value bits sg v)) with bits.
  cbn [negb]. rewrite andb_true_r, orb_false_r.
  assert (En : (if sg then isNegative (of_value bits sg v) else Ok false) = Ok n).
  { unfold n. destruct sg; [apply isNegative_value; assumption|reflexivity]. }
  rewrite En. cbn [bind].
  assert (Et : (if n then neg junk (of_value bits sg v) else Ok (of_value bits sg v))
               = Ok (of_value bits sg m)).
  { unfold m. destruct n; [apply neg_value; assumption|reflexivity]. }
  rewrite Et. cbn [bind].
  set (buffer := if negb match base with Decimal => true | _ => false end
                    || negb (bits =? 32) || negb sg
                 then (if n then ["-"%char] else []) ++ to_string bits ++ ["'"%char]
                      ++ (if sg then ["s"%char] else []) ++ [base_char base]
                 else if n then ["-"%char] else []).
  assert (Ebuf : forall X, buffer ++ X
            = (if n then ["-"%char] else []) ++ literal_prefix bits sg base ++ X).
  { intro X. unfold buffer, literal_prefix.
    destruct (negb match base with Decimal => true | _ => false end
              || negb (bits =? 32) || negb sg).
    - rewrite <- !app_assoc. reflexivity.
    - reflexivity. }
  assert (Hloop : exists ds,
    match base with
    | Decimal =>
        divisor <- SVInt_ctor 4 10 false ;;
        writeTo_dec junk (S (Z.to_nat bits)) (of_value bits sg m) divisor []
    | _ =>
        writeTo_pow2 junk (S (Z.to_nat bits)) (getNumWords2 bits false) (shift_of base)
          (radix_of base - 1) (of_value bits sg m) []
    end = Ok (map Digits ds) /\ is_digits (radix_of base) ds m).
  { assert (Hpow : forall s, 0 < s <= 4 ->
      exists ds, writeTo_pow2 junk (S (Z.to_nat bits)) (getNumWords2 bits false) s
                   (2 ^ s - 1) (of_value bits sg m) [] = Ok (map Digits ds) /\
                 is_digits (2 ^ s) ds m).
    { intros s Hs.
      destruct (writeTo_pow2_value junk bits sg (getNumWords2 bits false) s
                  (Z.to_nat bits) m [] Hb Hs Hm) as [ds [E Hd]].
      - apply Z.lt_le_trans with (2 ^ bits); [lia|]. apply Z.pow_le_mono_r; [lia|].
        rewrite Z2Nat.id by lia. nia.
      - exists ds. split; [exact E|exact Hd]. }
    destruct base.
    - apply (Hpow 1). lia.
    - apply (Hpow 3). lia.
    - rewrite ctor_inline by lia. cbn [bind].
      change (u64 10 mod 2 ^ 4) with 10.
      destruct (writeTo_dec_value junk bits (Z.to_nat bits) sg m [] Hb Hm) as [ds [E Hd]].
      + apply Z.lt_le_trans with (2 ^ bits); [lia|]. rewrite Z2Nat.id by lia.
        apply pow2_le_pow10. lia.
      + exists ds. split; [exact E|exact Hd].
    - apply (Hpow 4). lia. }
  destruct Hloop as [ds [Eloop Hd]].
  assert (Hrad : 1 < radix_of base) by (destruct base; cbn; lia).
  destruct (written_digits (radix_of base) ds m buffer Hrad ltac:(lia) Hd)
    as [ms [Ems [Hne [Hr Hh]]]].
  exists ms. rewrite <- Ebuf. split; [|split; [exact Hne|split; [exact Hr|exact Hh]]].
  rewrite <- Ems. destruct base; rewrite Eloop; reflexivity.
Qed.

End RoundTrip.

Lemma radix_le_16 : forall base, radix_of base <= 16.
Proof. intros []; cbn; lia. Qed.

Lemma Forall_digits_16 : forall base ms,
  Forall (fun d => 0 <= d < radix_of base) ms -> Forall (fun d => 0 <= d < 16) ms.
Proof.
  intros base ms H. pose proof (radix_le_16 base).
  eapply Forall_impl; [|exact H]. cbn beta. intros; lia.
Qed.

(** The literal [writeTo] produces does not open with a sign character. *)
Lemma literal_head : forall bits sg base ms, 0 < bits <= MAX_BITS -> ms <> [] ->
  Forall (fun d => 0 <= d < radix_of base) ms ->
  exists c0 tl, literal_prefix bits sg base ++ map Digits ms = c0 :: tl /\
    (c0 =? "-")%char = false /\ (c0 =? "+")%char = false.
Proof.
  intros bits sg base ms Hb Hne Hms. unfold literal_prefix.
  destruct (negb match base with Decimal => true | _ => false end
            || negb (bits =? 32) || negb sg).
  - destruct (to_string_scan bits false [] Hb) as [_ [c0 [tl [E [E1 E2]]]]].
    rewrite E. eexists. eexists. split; [reflexivity|]. split; assumption.
  - destruct ms as [|d t]; [congruence|]. inversion Hms as [|? ? Hd _]; subst.
    pose proof (radix_le_16 base).
    destruct (digit_char_facts d ltac:(lia)) as [_ [_ [E1 [E2 _]]]].
    cbn [app map]. eexists. eexists. split; [reflexivity|]. split; assumption.
Qed.

Lemma match_nonempty : forall (T : Type) (l : list ascii) (X : result T), l <> [] ->
  match l with [] => Invalid | _ :: _ => X end = X.
Proof. intros T [|c l] X H; [congruence|reflexivity]. Qed.

Lemma neg_neg_mod : forall v M, 0 < M -> 0 <= v < M -> (- ((- v) mod M)) mod M = v.
Proof.
  intros v M HM Hv. replace (- ((- v) mod M)) with (0 - (- v) mod M) by lia.
  rewrite Zminus_mod_idemp_r. replace (0 - - v) with v by lia. apply Z.mod_small. exact Hv.
Qed.

Section ReadLiteral.
Variable junk : Z -> Z.

(** [fromString] after the sign, on the literal [writeTo] produces. *)
Lemma fromChars_body_literal : forall bits sg base ms negative,
  0 < bits <= MAX_BITS -> ms <> [] ->
  Forall (fun d => 0 <= d < radix_of base) ms ->
  fromChars_body junk negative (literal_prefix bits sg base ++ map Digits ms)
  = (res <- fromDigits junk bits base sg false (map mkLogic ms) ;;
     if negative then neg junk res else Ok res).
Proof.
  intros bits sg base ms negative Hb Hne Hms.
  destruct (literal_head bits sg base ms Hb Hne Hms) as [c0 [tl [Ehead _]]].
  unfold fromChars_body. rewrite Ehead. rewrite <- Ehead.
  assert (Hdig : map Digits ms <> []) by (destruct ms; [congruence|discriminate]).
  pose proof (scan_digits_Digits ms false [] (Forall_digits_16 base ms Hms)) as Esd.
  cbn [app] in Esd.
  unfold literal_prefix.
  destruct (negb match base with Decimal => true | _ => false end
            || negb (bits =? 32) || negb sg) eqn:Econd.
  - rewrite <- !app_assoc. cbn [app].
    destruct (to_string_scan bits false
                ((if sg then ["s"%char] else []) ++ base_char base :: map Digits ms) Hb)
      as [Escan _].
    rewrite Escan. cbn [orb]. destruct (Z.eqb_spec bits 0); [lia|].
    destruct (base_char_parse base) as [Ebase Enots].
    destruct sg; cbn [app].
    + change (("s" =? "s")%char || ("s" =? "S")%char) with true. cbv iota zeta.
      rewrite Ebase. rewrite match_nonempty by exact Hdig.
      cbn [bind]. rewrite Esd. reflexivity.
    + cbv zeta. rewrite Enots. rewrite Ebase. rewrite match_nonempty by exact Hdig.
      cbn [bind]. rewrite Esd. reflexivity.
  - assert (base = Decimal /\ bits = 32 /\ sg = true) as [-> [-> ->]].
    { destruct base, sg; cbn in Econd; try discriminate;
        destruct (Z.eqb_spec bits 32); cbn in Econd; try discriminate; auto. }
    cbn [app].
    destruct (scan_size_digits ms false false 0 Hms) as [so' [ps' Escan]].
    rewrite Escan. cbn [bind]. rewrite Esd. reflexivity.
Qed.

(** [fromString] on what [writeTo] produces, sign included. *)
Lemma fromChars_literal : forall bits sg base ms (n : bool),
  0 < bits <= MAX_BITS -> ms <> [] ->
  Forall (fun d => 0 <= d < radix_of base) ms ->
  fromChars junk ((if n then ["-"%char] else []) ++ literal_prefix bits sg base
                  ++ map Digits ms)
  = (res <- fromDigits junk bits base sg false (map mkLogic ms) ;;
     if n then neg junk res else Ok res).
Proof.
  intros bits sg base ms n Hb Hne Hms.
  destruct (literal_head bits sg base ms Hb Hne Hms) as [c0 [tl [Ehead [E1 E2]]]].
  destruct n; cbn [app].
  - unfold fromChars. change (("-" =? "-")%char) with true. cbn [orb]. cbv zeta iota.
    apply fromChars_body_literal; assumption.
  - unfold fromChars. rewrite Ehead. rewrite E1, E2. cbn [orb]. cbv zeta iota.
    rewrite <- Ehead. apply fromChars_body_literal; assumption.
Qed.

(** C7: writing a value without unknown bits with [toString] and reading
    the text back with [fromString] returns the value itself: same width,
    same signedness, same bits. *)
Theorem C7_round_trip : forall x, known_value x ->
  exists s, toString junk x = Ok s /\ fromString junk s = Ok x.
Proof.
  intros x Hx. destruct (known_value_eq x Hx) as [Ex Hv].
  destruct Hx as [Hb _].
  set (bits := bitWidth x) in *. set (sg := signFlag x) in *. set (v := uval x) in *.
  rewrite Ex. unfold toString, toString_base.
  change (bitWidth (of_value bits sg v)) with bits.
  change (signFlag (of_value bits sg v)) with sg.
  change (unknownFlag (of_value bits sg v)) with false.
  set (base := if (bits <? 8) || false then Binary
               else if (bits =? 32) || sg then Decimal else Hex).
  destruct (writeTo_value junk bits sg v base Hb Hv) as [ms [Ew [Hne [Hms Hh]]]].
  cbv zeta in Ew, Hh. rewrite Ew. cbn [bind].
  eexists. split; [reflexivity|].
  unfold fromString. rewrite list_ascii_of_string_of_list_ascii.
  rewrite fromChars_literal by assumption.
  rewrite fromDigits_value by assumption. cbn [bind]. rewrite Hh.
  assert (Hp : 0 < 2 ^ bits) by (apply Z.pow_pos_nonneg; lia).
  destruct (sg && (2 ^ (bits - 1) <=? v)).
  - rewrite Z.mod_mod by lia.
    rewrite neg_value by (try assumption; apply Z.mod_pos_bound; lia).
    f_equal. f_equal. apply neg_neg_mod; assumption.
  - rewrite Z.mod_small by exact Hv. reflexivity.
Qed.

End ReadLiteral.

(** An instance: the signed 16-bit value 1000. *)
Lemma C7_round_trip_witness :
  exists s, toString heap0 v_16sd1000 = Ok s /\ fromString heap0 s = Ok v_16sd1000.
Proof.
  apply (C7_round_trip heap0 v_16sd1000).
  unfold known_value, v_16sd1000, MAX_BITS. cbn [bitWidth unknownFlag store].
  repeat split; try reflexivity; lia.
Defined.

(** * Further properties of the kernel *)

(** ** Ring operations on values without unknown bits *)

Lemma known_width : forall x, known_value x -> 0 < bitWidth x <= MAX_BITS.
Proof. intros x [H _]. exact H. Qed.

Lemma get_val_of_value : forall bits sg v, bits <= 64 ->
  get_val (of_value bits sg v) = Ok v.
Proof.
  intros bits sg v H. unfold get_val, of_value. cbn [store].
  destruct (Z.leb_spec bits 64); [reflexivity|lia].
Qed.

Lemma set_val_of_value : forall bits sg a v, bits <= 64 ->
  set_val (of_value bits sg a) v = mkSVInt bits sg false (Inline v).
Proof. reflexivity. Qed.

Section RingOps.
Variable junk : Z -> Z.

Lemma add_value_all : forall bits sg sg' a b, 0 < bits <= MAX_BITS ->
  0 <= a < 2 ^ bits -> 0 <= b < 2 ^ bits ->
  add junk (of_value bits sg a) (of_value bits sg' b) =
  Ok (of_value bits sg ((a + b) mod 2 ^ bits)).
Proof.
  intros bits sg sg' a b Hb Ha Hv. unfold add.
  destruct (Z.le_gt_cases bits 64) as [Hs|Hl]; [|apply add_value; lia].
  unfold add_assign, unify.
  change (bitWidth (of_value bits sg a)) with bits.
  change (bitWidth (of_value bits sg' b)) with bits.
  rewrite Z.eqb_refl. cbn [bind].
  change (unknownFlag (of_value bits sg a)) with false.
  change (unknownFlag (of_value bits sg' b)) with false. cbn [orb].
  rewrite isSingleWord_of_value. destruct (Z.leb_spec bits 64); [|lia].
  rewrite !get_val_of_value by lia. cbn [bind]. rewrite set_val_of_value by lia.
  rewrite clear_inline_value by (try apply u64_range; lia).
  unfold u64. rewrite mod_mod_pow2 by lia. reflexivity.
Qed.

Lemma mul_value_all : forall bits sg sg' a b, 0 < bits <= MAX_BITS ->
  0 <= a < 2 ^ bits -> 0 <= b < 2 ^ bits ->
  mult junk (of_value bits sg a) (of_value bits sg' b) =
  Ok (of_value bits sg ((a * b) mod 2 ^ bits)).
Proof.
  intros bits sg sg' a b Hb Ha Hv. unfold mult.
  destruct (Z.le_gt_cases bits 64) as [Hs|Hl].
  - unfold mul_assign, unify.
    change (bitWidth (of_value bits sg a)) with bits.
    change (bitWidth (of_value bits sg' b)) with bits.
    rewrite Z.eqb_refl. cbn [bind].
    change (unknownFlag (of_value bits sg a)) with false.
    change (unknownFlag (of_value bits sg' b)) with false. cbn [orb].
    rewrite isSingleWord_of_value. destruct (Z.leb_spec bits 64); [|lia].
    rewrite !get_val_of_value by lia. cbn [bind]. rewrite set_val_of_value by lia.
    rewrite clear_inline_value by (try apply u64_range; lia).
    unfold u64. rewrite mod_mod_pow2 by lia. reflexivity.
  - destruct (Z.eq_dec b 0) as [->|Hnz]; [|apply mul_value; lia].
    (* a zero right operand: the value is cleared *)
    unfold mul_assign, unify.
    change (bitWidth (of_value bits sg a)) with bits.
    change (bitWidth (of_value bits sg' 0)) with bits.
    rewrite Z.eqb_refl. cbn [bind].
    change (unknownFlag (of_value bits sg a)) with false.
    change (unknownFlag (of_value bits sg' 0)) with false. cbn [orb].
    rewrite isSingleWord_of_value. destruct (Z.leb_spec bits 64); [lia|].
    pose proof (numWords_pos bits ltac:(lia)) as Hpos.
    destruct (getActiveBits_value bits sg a ltac:(lia) Ha) as [la [Ela [Hla [Halt [Hage Haz]]]]].
    destruct (getActiveBits_value bits sg' 0 ltac:(lia) ltac:(lia))
      as [lm [Elm [Hlm [Hmlt [Hmge Hmz]]]]].
    rewrite Ela. cbn [bind]. rewrite Z.mul_0_r, Z.mod_0_l by (apply Z.pow_nonzero; lia).
    destruct (activeWords_cover la a ltac:(lia) ltac:(lia)) as [Hca Hpa].
    destruct (Z.eqb_spec (activeWords la) 0) as [E0|E0].
    + assert (a = 0) by (destruct (Z.eq_dec a 0); [assumption|specialize (Hpa n); lia]).
      subst a. reflexivity.
    + rewrite Elm. cbn [bind]. rewrite (Hmz eq_refl).
      change (activeWords 0 =? 0) with true. cbv iota.
      unfold setAllZeros. rewrite isSingleWord_of_value.
      destruct (Z.leb_spec bits 64); [lia|].
      change (unknownFlag (of_value bits sg a)) with false. cbv iota.
      rewrite get_pVal_of_value by lia. cbn [bind].
      rewrite getNumWords_known by reflexivity.
      change (bitWidth (of_value bits sg a)) with bits.
      rewrite zero_words_all by (rewrite length_Z_to_words; lia). cbn [bind].
      rewrite set_pVal_of_value by lia. reflexivity.
Qed.

(** X1.  Unary minus on a value without unknown bits is two's-complement
    negation at the width of the operand: the result has the same width and
    sign flag and holds [(- v) mod 2 ^ width]. *)
Theorem X1_neg_twos_complement : forall x, known_value x ->
  neg junk x = Ok (of_value (bitWidth x) (signFlag x) ((- uval x) mod 2 ^ bitWidth x)).
Proof.
  intros x Hx. destruct (known_value_eq x Hx) as [Ex Hv].
  rewrite Ex at 1. apply neg_value; [apply known_width; exact Hx|exact Hv].
Qed.

(** X2.  [+] and [-] on two values without unknown bits of the same width
    wrap around modulo [2 ^ width]; the result keeps the width and takes the
    sign flag of the left operand. *)
Theorem X2_add_sub_wrap : forall a b, known_value a -> known_value b ->
  bitWidth a = bitWidth b ->
  add junk a b
    = Ok (of_value (bitWidth a) (signFlag a) ((uval a + uval b) mod 2 ^ bitWidth a)) /\
  sub junk a b
    = Ok (of_value (bitWidth a) (signFlag a) ((uval a - uval b) mod 2 ^ bitWidth a)).
Proof.
  intros a b Ha Hb Hw.
  destruct (known_value_eq a Ha) as [Ea Hva]. destruct (known_value_eq b Hb) as [Eb Hvb].
  pose proof (known_width a Ha) as Hwa. rewrite <- Hw in Eb, Hvb.
  split.
  - rewrite Ea at 1. rewrite Eb at 1. apply add_value_all; assumption.
  - rewrite Ea at 1. rewrite Eb at 1. apply sub_value; assumption.
Qed.

(** X3.  [*] on two values without unknown bits of the same width is the
    product modulo [2 ^ width], with the width and sign flag of the left
    operand, also when one of them is zero. *)
Theorem X3_mul_wrap : forall a b, known_value a -> known_value b ->
  bitWidth a = bitWidth b ->
  mult junk a b
    = Ok (of_value (bitWidth a) (signFlag a) ((uval a * uval b) mod 2 ^ bitWidth a)).
Proof.
  intros a b Ha Hb Hw.
  destruct (known_value_eq a Ha) as [Ea Hva]. destruct (known_value_eq b Hb) as [Eb Hvb].
  pose proof (known_width a Ha) as Hwa. rewrite <- Hw in Eb, Hvb.
  rewrite Ea at 1. rewrite Eb at 1. apply mul_value_all; assumption.
Qed.

End RingOps.

Lemma known_v_16sd1000 : known_value v_16sd1000.
Proof.
  unfold known_value, v_16sd1000, MAX_BITS. cbn [bitWidth unknownFlag store].
  repeat split; try reflexivity; lia.
Qed.

Lemma known_v_100d5 : known_value v_100d5.
Proof. apply known_of_value; [unfold MAX_BITS; lia|split; [lia|reflexivity]]. Qed.

Lemma known_v_100d7 : known_value v_100d7.
Proof. apply known_of_value; [unfold MAX_BITS; lia|split; [lia|reflexivity]]. Qed.

Lemma X1_neg_twos_complement_witness :
  neg heap0 v_16sd1000 = Ok (of_value 16 true ((- 1000) mod 2 ^ 16)).
Proof. apply (X1_neg_twos_complement heap0 v_16sd1000). exact known_v_16sd1000. Defined.

Lemma X2_add_sub_wrap_witness :
  add heap0 v_100d5 v_100d7 = Ok (of_value 100 false ((5 + 7) mod 2 ^ 100)) /\
  sub heap0 v_100d5 v_100d7 = Ok (of_value 100 false ((5 - 7) mod 2 ^ 100)).
Proof.
  apply (X2_add_sub_wrap heap0 v_100d5 v_100d7 known_v_100d5 known_v_100d7). reflexivity.
Defined.

Lemma X3_mul_wrap_witness :
  mult heap0 v_100d5 v_100d7 = Ok (of_value 100 false ((5 * 7) mod 2 ^ 100)).
Proof.
  apply (X3_mul_wrap heap0 v_100d5 v_100d7 known_v_100d5 known_v_100d7). reflexivity.
Defined.

(** ** Shifts by a machine integer *)

Lemma div_pow2_range : forall v bits k, 0 <= v < 2 ^ bits -> 0 <= k ->
  0 <= v / 2 ^ k < 2 ^ bits.
Proof.
  intros v bits k Hv Hk. assert (0 < 2 ^ k) by (apply Z.pow_pos_nonneg; lia).
  split; [apply Z.div_pos; lia|].
  apply Z.le_lt_trans with v; [|lia]. apply Z.div_le_upper_bound; nia.
Qed.

(** X4.  [lshr] by a machine integer on a value without unknown bits is the
    floor division by [2 ^ amount], whatever the amount: nothing changes for
    0, the value is 0 once the amount reaches the width, and width and sign
    flag are kept. *)
Theorem X4_lshr_divides : forall x k, known_value x -> 0 <= k ->
  lshr_amount x k = Ok (of_value (bitWidth x) (signFlag x) (uval x / 2 ^ k)).
Proof.
  intros x k Hx Hk. destruct (known_value_eq x Hx) as [Ex Hv].
  pose proof (known_width x Hx) as Hb.
  set (bits := bitWidth x) in *. set (sg := signFlag x) in *. set (v := uval x) in *.
  rewrite Ex at 1. clearbody bits sg v. clear Ex Hx x.
  assert (Hpk : 0 < 2 ^ k) by (apply Z.pow_pos_nonneg; lia).
  destruct (Z.eq_dec k 0) as [->|Hk0].
  - unfold lshr_amount. cbn [Z.eqb]. rewrite Z.pow_0_r, Z.div_1_r. reflexivity.
  - destruct (Z.lt_ge_cases k 64) as [Hlt|Hge]; [apply lshr_value; lia|].
    unfold lshr_amount. destruct (Z.eqb_spec k 0); [lia|].
    change (bitWidth (of_value bits sg v)) with bits.
    change (signFlag (of_value bits sg v)) with sg.
    change (unknownFlag (of_value bits sg v)) with false.
    destruct (Z.leb_spec bits k) as [Hle|Hgt].
    + rewrite ctor_zero by exact Hb. f_equal. f_equal. symmetry. apply Z.div_small.
      assert (2 ^ bits <= 2 ^ k) by (apply Z.pow_le_mono_r; lia). lia.
    + rewrite isSingleWord_of_value. destruct (Z.leb_spec bits 64); [lia|].
      pose proof (numWords_pos bits ltac:(lia)) as Hpos.
      unfold allocZeroed. destruct (Z.ltb_spec 64 bits); [|lia]. cbn [orb bind].
      rewrite get_pVal_of_value by lia. cbn [get_pVal store bind].
      destruct (Z.ltb_spec k BITS_PER_WORD); [unfold BITS_PER_WORD in *; lia|].
      cbn [andb]. unfold lshrFar, BITS_PER_WORD.
      rewrite slice_full by (rewrite length_Z_to_words; lia). cbn [bind].
      rewrite words_of_value by lia.
      rewrite blit_full by (rewrite length_Z_to_words, length_new_zeroed; reflexivity).
      cbn [bind]. unfold checkUnknown, set_pVal. cbn [unknownFlag negb bitWidth signFlag].
      unfold of_value. destruct (Z.leb_spec bits 64); [lia|].
      pose proof (Z.div_mod k 64 ltac:(lia)) as Hdm.
      replace (k / 64 * 64 + k mod 64) with k by lia.
      rewrite Z.shiftr_div_pow2 by lia. reflexivity.
Qed.

(** The carry loop of the short left shift: word [i] of the shifted number
    is the shifted word [i] with the bits carried out of word [i - 1]. *)
Lemma shl_carry_loop : forall n v k (r0 : list Z),
  0 < k < 64 -> length r0 = n ->
  exists r carry,
    for_range 0 (Z.of_nat n)
      (fun i '(r, carry) =>
         w <- rd (Z_to_words n v) i ;;
         r <- wr r i (Z.lor (shl64 w k) carry) ;;
         Ok (r, shr64 w (BITS_PER_WORD - k))) (r0, 0)
    = Ok (r, carry) /\ r = Z_to_words n (v * 2 ^ k).
Proof.
  intros n v k r0 Hk Hl0.
  set (p := Z_to_words n v).
  assert (Hword : forall i j, (i < n)%nat -> 0 <= j < 64 ->
            Z.testbit (nth i p 0) j = Z.testbit v (64 * Z.of_nat i + j))
    by (intros; apply word_bit; assumption).
  destruct (for_range_inv (list Z * Z)
    (fun j st =>
       length (fst st) = n /\ 0 <= snd st < 2 ^ 64 /\
       (forall b, 0 <= b < 64 ->
          Z.testbit (snd st) b = if (b <? k) && (0 <? j)
                                 then Z.testbit v (64 * j + b - k) else false) /\
       (forall i b, 0 <= Z.of_nat i < j -> 0 <= b < 64 ->
          Z.testbit (nth i (fst st) 0) b = Z.testbit (v * 2 ^ k) (64 * Z.of_nat i + b)) /\
       (forall i, 0 <= Z.of_nat i < j -> 0 <= nth i (fst st) 0 < 2 ^ 64))
    (fun i '(r, carry) =>
         w <- rd p i ;;
         r <- wr r i (Z.lor (shl64 w k) carry) ;;
         Ok (r, shr64 w (BITS_PER_WORD - k))) 0 (Z.of_nat n) (r0, 0))
    as [[r carry] [E [Hl [Hc [Hcb [Hrb Hrr]]]]]].
  - lia.
  - cbn [fst snd]. split; [exact Hl0|]. split; [lia|]. split.
    + intros b Hb. rewrite Z.bits_0. rewrite andb_false_r. reflexivity.
    + split; intros; lia.
  - intros j [r carry] Hj [Hl [Hc [Hcb [Hrb Hrr]]]]. cbn [fst snd] in *.
    rewrite rd_ok by (unfold p; rewrite length_Z_to_words; lia). cbn [bind].
    set (w := nth (Z.to_nat j) p 0).
    assert (Hw : 0 <= w < 2 ^ 64) by apply nth_Z_to_words_range.
    rewrite wr_ok by lia. cbn [bind].
    assert (Hshl : forall b, 0 <= b < 64 ->
              Z.testbit (shl64 w k) b = if b <? k then false else Z.testbit w (b - k)).
    { intros b Hb. unfold shl64. rewrite testbit_u64 by lia. rewrite Z.shiftl_spec by lia.
      destruct (Z.ltb_spec b k); [apply Z.testbit_neg_r; lia|reflexivity]. }
    assert (Hnew : 0 <= Z.lor (shl64 w k) carry < 2 ^ 64)
      by (apply lor_range; [apply u64_range|exact Hc]).
    eexists. split; [reflexivity|]. cbn [fst snd].
    split; [rewrite length_upd; exact Hl|].
    split; [unfold shr64; rewrite u64_small by exact Hw;
            rewrite Z.shiftr_div_pow2 by (unfold BITS_PER_WORD; lia);
            split; [apply Z.div_pos; [lia|apply Z.pow_pos_nonneg; unfold BITS_PER_WORD; lia]|];
            apply Z.le_lt_trans with w; [|lia];
            apply Z.div_le_upper_bound;
            [apply Z.pow_pos_nonneg; unfold BITS_PER_WORD; lia|];
            assert (1 <= 2 ^ (BITS_PER_WORD - k))
              by (assert (0 < 2 ^ (BITS_PER_WORD - k))
                    by (apply Z.pow_pos_nonneg; unfold BITS_PER_WORD; lia); lia);
            nia|].
    split.
    + intros b Hb. unfold shr64, BITS_PER_WORD. rewrite u64_small by exact Hw.
      rewrite Z.shiftr_spec by lia.
      destruct (Z.ltb_spec b k); destruct (Z.ltb_spec 0 (j + 1)); cbn [andb]; try lia.
      * unfold w. rewrite <- (Z2Nat.id j) at 2 by lia.
        replace (b + (64 - k)) with ((64 - k) + b) by lia.
        rewrite Hword by lia. f_equal. lia.
      * apply (testbit_above w 64); lia.
    + split.
      * intros i b Hi Hb. rewrite nth_upd.
        destruct (Nat.eqb_spec i (Z.to_nat j)) as [Ei|Ei].
        -- replace (Nat.ltb (Z.to_nat j) (length r)) with true
             by (symmetry; apply Nat.ltb_lt; lia).
           rewrite Z.lor_spec, Hshl, Hcb by lia.
           rewrite Z.mul_comm. rewrite Z.mul_pow2_bits by lia.
           subst i. rewrite Z2Nat.id by lia.
           destruct (Z.ltb_spec b k); cbn [orb andb].
           ++ destruct (Z.ltb_spec 0 j); [f_equal; lia|].
              symmetry. apply Z.testbit_neg_r. lia.
           ++ rewrite orb_false_r. unfold w.
              rewrite <- (Z2Nat.id j) at 2 by lia. rewrite Hword by lia. f_equal. lia.
        -- apply Hrb; lia.
      * intros i Hi. rewrite nth_upd.
        destruct (Nat.eqb_spec i (Z.to_nat j)) as [Ei|Ei].
        -- replace (Nat.ltb (Z.to_nat j) (length r)) with true
             by (symmetry; apply Nat.ltb_lt; lia). exact Hnew.
        -- apply Hrr. lia.
  - cbn [fst snd] in *. exists r, carry. split; [exact E|].
    apply words_are; [exact Hl| |].
    + intro i. destruct (Nat.ltb_spec i n) as [Hin|Hin]; [apply Hrr; lia|].
      rewrite nth_overflow by lia. lia.
    + intros i b Hi Hb. apply Hrb; lia.
Qed.

Section Shl.
Variable junk : Z -> Z.

(** X5.  [shl] by a machine integer on a value without unknown bits
    multiplies by [2 ^ amount] modulo [2 ^ width]; width and sign flag are
    kept.  Above 64 bits the shift by fewer than 64 positions runs the carry
    loop over the words. *)
Theorem X5_shl_multiplies : forall x k, known_value x -> 0 <= k ->
  shl_amount junk x k
    = Ok (of_value (bitWidth x) (signFlag x) ((uval x * 2 ^ k) mod 2 ^ bitWidth x)).
Proof.
  intros x k Hx Hk. destruct (known_value_eq x Hx) as [Ex Hv].
  pose proof (known_width x Hx) as Hb.
  set (bits := bitWidth x) in *. set (sg := signFlag x) in *. set (v := uval x) in *.
  rewrite Ex at 1. clearbody bits sg v. clear Ex Hx x.
  assert (Hp : 0 < 2 ^ bits) by (apply Z.pow_pos_nonneg; lia).
  unfold shl_amount.
  change (bitWidth (of_value bits sg v)) with bits.
  change (signFlag (of_value bits sg v)) with sg.
  change (unknownFlag (of_value bits sg v)) with false.
  destruct (Z.eqb_spec k 0) as [->|Hk0].
  - rewrite Z.pow_0_r, Z.mul_1_r, Z.mod_small by exact Hv. reflexivity.
  - destruct (Z.leb_spec bits k) as [Hle|Hgt].
    + rewrite ctor_zero by exact Hb. f_equal. f_equal. symmetry.
      replace (v * 2 ^ k) with (v * 2 ^ (k - bits) * 2 ^ bits)
        by (rewrite <- Z.mul_assoc, <- Z.pow_add_r by lia; do 2 f_equal; lia).
      apply Z.mod_mul. lia.
    + rewrite isSingleWord_of_value.
      destruct (Z.leb_spec bits 64) as [Hs|Hl].
      * rewrite get_val_of_value by lia. cbn [bind]. rewrite ctor_inline by lia.
        f_equal. f_equal. unfold shl64. rewrite Z.shiftl_mul_pow2 by lia.
        rewrite (u64_small (u64 _)) by apply u64_range. unfold u64.
        apply mod_mod_pow2. lia.
      * pose proof (numWords_pos bits ltac:(lia)) as Hpos.
        unfold allocUninitialized. destruct (Z.ltb_spec 64 bits); [|lia]. cbn [orb bind].
        rewrite get_pVal_of_value by lia. cbn [get_pVal store bind negb].
        rewrite andb_true_r.
        assert (Hr : exists r,
          (if k <? BITS_PER_WORD
           then
            '(r, _) <- for_range 0 (getNumWords (of_value bits sg v))
                         (fun (i : Z) '(r, carry) =>
                            w <- rd (Z_to_words (Z.to_nat (getNumWords2 bits false)) v) i;;
                            r0 <- wr r i (Z.lor (shl64 w k) carry);;
                            Ok (r0, shr64 w (BITS_PER_WORD - k)))
                         (new_uninit junk (getNumWords2 bits false), 0);;
            Ok r
           else
            r <- shlFar (new_uninit junk (getNumWords2 bits false))
                   (Z_to_words (Z.to_nat (getNumWords2 bits false)) v)
                   (k mod BITS_PER_WORD) (k / BITS_PER_WORD) 0 (getNumWords2 bits false);;
            Ok r) = Ok r /\
          r = Z_to_words (Z.to_nat (getNumWords2 bits false)) (v * 2 ^ k)).
        { destruct (Z.ltb_spec k BITS_PER_WORD) as [Hlt|Hge]; unfold BITS_PER_WORD in *.
          - rewrite getNumWords_known by reflexivity.
            change (bitWidth (of_value bits sg v)) with bits.
            destruct (shl_carry_loop (Z.to_nat (getNumWords2 bits false)) v k
                        (new_uninit junk (getNumWords2 bits false)))
              as [r [carry [E Er]]]; [lia|apply length_new_uninit|].
            rewrite Z2Nat.id in E by lia. unfold BITS_PER_WORD in E.
            rewrite E. cbn [bind]. exists r. split; [reflexivity|exact Er].
          - unfold shlFar, BITS_PER_WORD.
            rewrite slice_full by (rewrite length_Z_to_words; lia).
            cbn [bind]. rewrite words_of_value by lia.
            rewrite blit_full by (rewrite length_Z_to_words, length_new_uninit; reflexivity).
            cbn [bind]. eexists. split; [reflexivity|].
            pose proof (Z.div_mod k 64 ltac:(lia)) as Hdm.
            replace (k / 64 * 64 + k mod 64) with k by lia.
            rewrite Z.shiftl_mul_pow2 by lia. reflexivity. }
        destruct Hr as [r [Er ->]]. rewrite Er. cbn [bind].
        unfold set_pVal. cbn [bitWidth signFlag unknownFlag].
        rewrite clear_heap_value by lia. cbn [bind].
        unfold checkUnknown. change (unknownFlag (of_value bits sg _)) with false.
        reflexivity.
Qed.

End Shl.

Lemma X4_lshr_divides_witness :
  lshr_amount v_100d7 70 = Ok (of_value 100 false (7 / 2 ^ 70)).
Proof. apply (X4_lshr_divides v_100d7 70 known_v_100d7). lia. Defined.

Lemma X5_shl_multiplies_witness :
  shl_amount heap0 v_100d5 3 = Ok (of_value 100 false ((5 * 2 ^ 3) mod 2 ^ 100)).
Proof. apply (X5_shl_multiplies heap0 v_100d5 3 known_v_100d5). lia. Defined.

(** ** Equality and order of values without unknown bits *)

(** The word index [whichWord(activeBits - 1)] of the comparisons. *)
Lemma top_word_index : forall a bits, 0 < a <= bits -> bits <= MAX_BITS ->
  whichWord (u32 (a - 1)) = (a - 1) / 64 /\
  0 <= (a - 1) / 64 < getNumWords2 bits false /\
  a <= 64 * ((a - 1) / 64 + 1).
Proof.
  intros a bits Ha Hb. unfold MAX_BITS in Hb. rewrite u32_small by lia.
  unfold whichWord, BITS_PER_WORD. split; [reflexivity|].
  pose proof (numWords_bounds bits ltac:(lia)) as Hnb.
  pose proof (Z.div_mod (a - 1) 64 ltac:(lia)).
  pose proof (Z.mod_pos_bound (a - 1) 64 ltac:(lia)).
  assert (0 <= (a - 1) / 64) by (apply Z.div_pos; lia).
  split; [|lia]. split; [lia|]. apply Z.div_lt_upper_bound; lia.
Qed.

(** The loop of [equalsSlowCase]: the conjunction of the word equalities. *)
Lemma eq_words_loop : forall p q n, 0 <= n ->
  n <= Z.of_nat (length p) -> n <= Z.of_nat (length q) ->
  exists r,
    for_range 0 n
      (fun i (acc : bool) =>
         if acc then l <- rd p i ;; r <- rd q i ;; Ok (l =? r) else Ok false) true
    = Ok r /\
    (r = true <-> forall i, 0 <= Z.of_nat i < n -> nth i p 0 = nth i q 0).
Proof.
  intros p q n Hn Hp Hq.
  destruct (for_range_inv bool
    (fun j acc => acc = true <-> forall i, 0 <= Z.of_nat i < j -> nth i p 0 = nth i q 0)
    (fun i (acc : bool) =>
       if acc then l <- rd p i ;; r <- rd q i ;; Ok (l =? r) else Ok false) 0 n true Hn)
    as [r [E H]].
  - split; [intros _ i Hi; lia|reflexivity].
  - intros j acc Hj Hacc. destruct acc.
    + rewrite !rd_ok by lia. cbn [bind]. eexists. split; [reflexivity|].
      destruct Hacc as [Hall _]. specialize (Hall eq_refl). split.
      * intros Ee i Hi. apply Z.eqb_eq in Ee.
        destruct (Z.eq_dec (Z.of_nat i) j) as [Eij|Nij].
        -- subst j. rewrite Nat2Z.id in Ee. exact Ee.
        -- apply Hall. lia.
      * intros Hnext. apply Z.eqb_eq.
        specialize (Hnext (Z.to_nat j) ltac:(lia)). exact Hnext.
    + eexists. split; [reflexivity|]. split; [discriminate|].
      intros Hnext. apply Hacc. intros i Hi. apply Hnext. lia.
  - exists r. split; assumption.
Qed.

Lemma firstn_words_eq : forall n k a b, 0 <= k <= Z.of_nat n ->
  0 <= a < 2 ^ (64 * k) -> 0 <= b < 2 ^ (64 * k) ->
  (forall i, 0 <= Z.of_nat i < k ->
     nth i (Z_to_words n a) 0 = nth i (Z_to_words n b) 0) ->
  a = b.
Proof.
  intros n k a b Hk Ha Hb H.
  rewrite <- (firstn_value n k a Hk Ha), <- (firstn_value n k b Hk Hb). f_equal.
  apply nth_ext0; [rewrite !length_firstn, !length_Z_to_words; reflexivity|].
  intros i Hi. rewrite length_firstn, length_Z_to_words in Hi.
  rewrite !nth_firstn. destruct (Nat.ltb_spec i (Z.to_nat k)); [|reflexivity].
  apply H. lia.
Qed.

(** The loop of [operator<]: the order of the numbers in the low [n] words. *)
Lemma lt_words_value : forall p q n, words_in_range p -> words_in_range q ->
  (n <= length p)%nat -> (n <= length q)%nat ->
  lt_words p q n = Ok (words_to_Z (firstn n p) <? words_to_Z (firstn n q)).
Proof.
  intros p q n Hp Hq. induction n as [|n IH]; intros Hlp Hlq.
  - reflexivity.
  - cbn [lt_words]. rewrite !rd_ok by lia. cbn [bind]. rewrite !Nat2Z.id.
    rewrite !words_to_Z_firstn_succ by lia.
    rewrite !u64_small by (apply Hp || apply Hq).
    pose proof (Hp n) as Ha. pose proof (Hq n) as Hb.
    pose proof (words_to_Z_range (firstn n p)) as HWp.
    pose proof (words_to_Z_range (firstn n q)) as HWq.
    rewrite length_firstn, Nat.min_l in HWp, HWq by lia.
    assert (HB : 0 < 2 ^ (64 * Z.of_nat n)) by (apply Z.pow_pos_nonneg; lia).
    set (B := 2 ^ (64 * Z.of_nat n)) in *.
    destruct (Z.ltb_spec (nth n q 0) (nth n p 0)) as [H1|H1].
    + f_equal. symmetry. apply Z.ltb_ge. nia.
    + destruct (Z.ltb_spec (nth n p 0) (nth n q 0)) as [H2|H2].
      * f_equal. symmetry. apply Z.ltb_lt. nia.
      * assert (Heq : nth n p 0 = nth n q 0) by lia. rewrite Heq.
        rewrite IH by lia. f_equal.
        destruct (Z.ltb_spec (words_to_Z (firstn n p)) (words_to_Z (firstn n q)));
          symmetry; [apply Z.ltb_lt|apply Z.ltb_ge]; lia.
Qed.

(** Started above the last word, the loop of [operator<] reads outside the
    array. *)
Lemma lt_words_beyond : forall p q n, (length p < n)%nat -> lt_words p q n = Fault.
Proof.
  intros p q n H. destruct n as [|i]; [lia|]. cbn [lt_words].
  unfold rd at 1. destruct (Z.ltb_spec (Z.of_nat i) 0); [reflexivity|].
  rewrite Nat2Z.id. rewrite (proj2 (nth_error_None _ _)) by lia. reflexivity.
Qed.

Section Compare.
Variable junk : Z -> Z.

Lemma eq_value : forall bits sg sg' a b, 0 < bits <= MAX_BITS ->
  0 <= a < 2 ^ bits -> 0 <= b < 2 ^ bits ->
  eq_sv junk (of_value bits sg a) (of_value bits sg' b) = Ok (logic_of_bool (a =? b)).
Proof.
  intros bits sg sg' a b Hb Ha Hv. unfold eq_sv. rewrite !isSingleWord_of_value.
  destruct (Z.leb_spec bits 64) as [Hs|Hl]; cbn [andb].
  - rewrite !get_val_of_value by lia. reflexivity.
  - unfold equalsSlowCase. cbn [equalsSlowCase_rec].
    change (unknownFlag (of_value bits sg a)) with false.
    change (unknownFlag (of_value bits sg' b)) with false.
    change (bitWidth (of_value bits sg a)) with bits.
    change (bitWidth (of_value bits sg' b)) with bits.
    cbn [orb]. rewrite Z.eqb_refl. cbn [negb andb].
    destruct (getActiveBits_value bits sg a Hb Ha) as [la [Ela [Hla [Halt [Hage Haz]]]]].
    destruct (getActiveBits_value bits sg' b Hb Hv) as [lb [Elb [Hlb [Hblt [Hbge Hbz]]]]].
    rewrite Ela, Elb. cbn [bind].
    destruct (Z.eqb_spec la lb) as [Eab|Nab]; cbn [negb].
    + subst lb. destruct (Z.eqb_spec la 0) as [E0|N0].
      * subst la. assert (a = 0) by (cbn in Halt; lia). assert (b = 0) by (cbn in Hblt; lia).
        subst. reflexivity.
      * destruct (top_word_index la bits ltac:(lia) ltac:(lia)) as [Etop [Htop Hcov]].
        rewrite Etop. rewrite !get_pVal_of_value by lia. cbn [bind].
        pose proof (numWords_pos bits ltac:(lia)) as Hpos.
        destruct (eq_words_loop (Z_to_words (Z.to_nat (getNumWords2 bits false)) a)
                    (Z_to_words (Z.to_nat (getNumWords2 bits false)) b)
                    ((la - 1) / 64 + 1)) as [r [E Hr]];
          try (rewrite ?length_Z_to_words; lia).
        rewrite E. cbn [bind]. f_equal. f_equal.
        assert (Hpw : 2 ^ la <= 2 ^ (64 * ((la - 1) / 64 + 1)))
          by (apply Z.pow_le_mono_r; lia).
        destruct (Z.eqb_spec a b) as [Eq|Nq].
        -- subst b. apply Hr. reflexivity.
        -- destruct r; [|reflexivity]. exfalso. apply Nq.
           apply (firstn_words_eq (Z.to_nat (getNumWords2 bits false)) ((la - 1) / 64 + 1));
             try lia. apply Hr. reflexivity.
    + f_equal. f_equal. symmetry. apply Z.eqb_neq. intro Eq. subst b. apply Nab.
      destruct (Z.eq_dec a 0) as [E0|N0]; [rewrite (Haz E0), (Hbz E0); reflexivity|].
      specialize (Hage N0). specialize (Hbge N0).
      assert (la - 1 < lb) by (apply (Z.pow_lt_mono_r_iff 2); lia).
      assert (lb - 1 < la) by (apply (Z.pow_lt_mono_r_iff 2); lia). lia.
Qed.

(** The unsigned comparison at the bottom of [operator<]. *)
Lemma lt_unsigned_value : forall fuel bits sg sg' a b, 0 < bits <= MAX_BITS ->
  0 <= a < 2 ^ bits -> 0 <= b < 2 ^ bits ->
  sg && sg' && ((2 ^ (bits - 1) <=? a) || (2 ^ (bits - 1) <=? b)) = false ->
  bits <= 64 \/ a <> 0 \/ b <> 0 ->
  lt_rec junk (S fuel) (of_value bits sg a) (of_value bits sg' b)
  = Ok (logic_of_bool (a <? b)).
Proof.
  intros fuel bits sg sg' a b Hb Ha Hv Hsign Hnz. cbn [lt_rec].
  change (unknownFlag (of_value bits sg a)) with false.
  change (hasUnknown (of_value bits sg' b)) with false.
  change (bitWidth (of_value bits sg a)) with bits.
  change (bitWidth (of_value bits sg' b)) with bits.
  change (signFlag (of_value bits sg a)) with sg.
  change (signFlag (of_value bits sg' b)) with sg'.
  cbn [orb]. rewrite Z.eqb_refl. cbn [negb].
  assert (Etn : (if sg && sg' then isNegative (of_value bits sg a) else Ok false) = Ok false
             /\ (if sg && sg' then isNegative (of_value bits sg' b) else Ok false) = Ok false).
  { destruct (sg && sg'); [|split; reflexivity]. cbn [andb] in Hsign.
    apply orb_false_iff in Hsign. destruct Hsign as [H1 H2].
    rewrite !isNegative_value by assumption. rewrite H1, H2. split; reflexivity. }
  destruct Etn as [Et Er]. rewrite Et, Er. cbn [bind andb].
  rewrite isSingleWord_of_value.
  destruct (Z.leb_spec bits 64) as [Hs|Hl].
  - rewrite !get_val_of_value by lia. reflexivity.
  - destruct (getActiveBits_value bits sg a Hb Ha) as [la [Ela [Hla [Halt [Hage Haz]]]]].
    destruct (getActiveBits_value bits sg' b Hb Hv) as [lb [Elb [Hlb [Hblt [Hbge Hbz]]]]].
    rewrite Ela, Elb. cbn [bind].
    destruct (Z.ltb_spec la lb) as [H1|H1].
    + f_equal. f_equal. symmetry. apply Z.ltb_lt.
      assert (b <> 0) by (intro E; specialize (Hbz E); lia).
      assert (2 ^ la <= 2 ^ (lb - 1)) by (apply Z.pow_le_mono_r; lia).
      specialize (Hbge H). lia.
    + destruct (Z.ltb_spec lb la) as [H2|H2].
      * f_equal. f_equal. symmetry. apply Z.ltb_ge.
        assert (a <> 0) by (intro E; specialize (Haz E); lia).
        assert (2 ^ lb <= 2 ^ (la - 1)) by (apply Z.pow_le_mono_r; lia).
        specialize (Hage H). lia.
      * assert (lb = la) by lia. subst lb.
        assert (Hla0 : 0 < la).
        { destruct (Z.eq_dec la 0) as [E0|]; [|lia]. subst la. cbn in Halt, Hblt. lia. }
        destruct (top_word_index la bits ltac:(lia) ltac:(lia)) as [Etop [Htop Hcov]].
        rewrite Etop. rewrite !get_pVal_of_value by lia. cbn [bind].
        pose proof (numWords_pos bits ltac:(lia)) as Hpos.
        rewrite lt_words_value;
          try apply words_in_range_Z_to_words; try (rewrite length_Z_to_words; lia).
        cbn [bind].
        assert (Hpw : 2 ^ la <= 2 ^ (64 * ((la - 1) / 64 + 1)))
          by (apply Z.pow_le_mono_r; lia).
        rewrite !firstn_value by lia. reflexivity.
Qed.

(** X6.  [==] on two values without unknown bits of the same width answers
    1 exactly when they hold the same number, whatever the sign flags; above
    64 bits this is the word loop of [equalsSlowCase]. *)
Theorem X6_equality_decides : forall a b, known_value a -> known_value b ->
  bitWidth a = bitWidth b ->
  eq_sv junk a b = Ok (logic_of_bool (uval a =? uval b)).
Proof.
  intros a b Ha Hb Hw.
  destruct (known_value_eq a Ha) as [Ea Hva]. destruct (known_value_eq b Hb) as [Eb Hvb].
  pose proof (known_width a Ha) as Hwa. rewrite <- Hw in Eb, Hvb.
  rewrite Ea at 1. rewrite Eb at 1. apply eq_value; assumption.
Qed.

(** X7.  [<] on two values without unknown bits of the same width, not both
    signed, is the order of the unsigned numbers, provided the operands are
    inline or not both zero. *)
Theorem X7_less_than_unsigned : forall a b, known_value a -> known_value b ->
  bitWidth a = bitWidth b -> signFlag a && signFlag b = false ->
  bitWidth a <= 64 \/ uval a <> 0 \/ uval b <> 0 ->
  lt_sv junk a b = Ok (logic_of_bool (uval a <? uval b)).
Proof.
  intros a b Ha Hb Hw Hsg Hnz.
  destruct (known_value_eq a Ha) as [Ea Hva]. destruct (known_value_eq b Hb) as [Eb Hvb].
  pose proof (known_width a Ha) as Hwa. rewrite <- Hw in Eb, Hvb.
  rewrite Ea at 1. rewrite Eb at 1. unfold lt_sv, lt_fuel.
  apply lt_unsigned_value; try assumption. rewrite Hsg. reflexivity.
Qed.

(** X8.  [<] on two zeros wider than 64 bits leaves the word arrays: with no
    active bit on either side the loop starts at word
    [whichWord(0 - 1)] of both operands, far beyond their last word. *)
Theorem X8_less_than_wide_zeros : forall bits sg sg', 64 < bits <= MAX_BITS ->
  lt_sv junk (of_value bits sg 0) (of_value bits sg' 0) = Fault.
Proof.
  intros bits sg sg' Hb. unfold lt_sv, lt_fuel. cbn [lt_rec].
  change (unknownFlag (of_value bits sg 0)) with false.
  change (hasUnknown (of_value bits sg' 0)) with false.
  change (bitWidth (of_value bits sg 0)) with bits.
  change (bitWidth (of_value bits sg' 0)) with bits.
  change (signFlag (of_value bits sg 0)) with sg.
  change (signFlag (of_value bits sg' 0)) with sg'.
  cbn [orb]. rewrite Z.eqb_refl. cbn [negb].
  assert (Hp : 0 < 2 ^ (bits - 1)) by (apply Z.pow_pos_nonneg; lia).
  assert (H0 : 0 <= 0 < 2 ^ bits) by (split; [lia|apply Z.pow_pos_nonneg; lia]).
  assert (Etn : forall s, (if sg && sg' then isNegative (of_value bits s 0) else Ok false)
                          = Ok false).
  { intro s. destruct (sg && sg'); [|reflexivity].
    rewrite isNegative_value by (try assumption; lia).
    destruct (Z.leb_spec (2 ^ (bits - 1)) 0); [lia|reflexivity]. }
  rewrite !Etn. cbn [bind andb]. rewrite isSingleWord_of_value.
  destruct (Z.leb_spec bits 64); [lia|].
  destruct (getActiveBits_value bits sg 0 ltac:(lia) H0) as [la [Ela [_ [_ [_ Haz]]]]].
  destruct (getActiveBits_value bits sg' 0 ltac:(lia) H0) as [lb [Elb [_ [_ [_ Hbz]]]]].
  rewrite Ela, Elb, (Haz eq_refl), (Hbz eq_refl). cbn [bind].
  change (0 <? 0) with false. cbv iota.
  rewrite !get_pVal_of_value by lia. cbn [bind].
  change (whichWord (u32 (0 - 1))) with 67108863.
  pose proof (numWords_bounds bits ltac:(lia)) as Hnb. unfold MAX_BITS in Hb.
  rewrite lt_words_beyond; [reflexivity|].
  rewrite length_Z_to_words. lia.
Qed.

(** X9.  [<] on two signed values without unknown bits of the same width is
    the order of the two's-complement numbers, provided neither operand is
    the most negative value and the operands are inline or not both zero:
    a negative operand is below a non-negative one, and two negative
    operands are compared through their negations. *)
Theorem X9_less_than_signed : forall a b, known_value a -> known_value b ->
  bitWidth a = bitWidth b -> signFlag a = true -> signFlag b = true ->
  uval a <> 2 ^ (bitWidth a - 1) -> uval b <> 2 ^ (bitWidth a - 1) ->
  bitWidth a <= 64 \/ uval a <> 0 \/ uval b <> 0 ->
  lt_sv junk a b
  = Ok (logic_of_bool (inline_value a (uval a) <? inline_value b (uval b))).
Proof.
  intros a b Ha Hb Hw Hsa Hsb Hma Hmb Hnz.
  destruct (known_value_eq a Ha) as [Ea Hva]. destruct (known_value_eq b Hb) as [Eb Hvb].
  pose proof (known_width a Ha) as Hwa. unfold inline_value.
  rewrite <- Hw in *. rewrite Hsa, Hsb in *. cbn [andb].
  set (bits := bitWidth a) in *. set (va := uval a) in *. set (vb := uval b) in *.
  rewrite Ea at 1. rewrite Eb at 1. clearbody bits va vb. clear Ea Eb Ha Hb Hw Hsa Hsb a b.
  assert (Hp : 2 ^ bits = 2 * 2 ^ (bits - 1)).
  { replace bits with (1 + (bits - 1)) at 1 by lia. rewrite Z.pow_add_r by lia. reflexivity. }
  assert (Hpp : 0 < 2 ^ (bits - 1)) by (apply Z.pow_pos_nonneg; lia).
  unfold lt_sv, lt_fuel. change 4%nat with (S (S 2)). generalize 2%nat. intro f.
  remember (S f) as g eqn:Eg.
  destruct (Z.leb_spec (2 ^ (bits - 1)) va) as [Hna|Hna];
    destruct (Z.leb_spec (2 ^ (bits - 1)) vb) as [Hnb|Hnb].
  - (* both negative *)
    cbn [lt_rec].
    change (unknownFlag (of_value bits true va)) with false.
    change (hasUnknown (of_value bits true vb)) with false.
    change (bitWidth (of_value bits true va)) with bits.
    change (bitWidth (of_value bits true vb)) with bits.
    change (signFlag (of_value bits true va)) with true.
    change (signFlag (of_value bits true vb)) with true.
    cbn [orb andb]. rewrite Z.eqb_refl. cbn [negb].
    rewrite !isNegative_value by assumption.
    destruct (Z.leb_spec (2 ^ (bits - 1)) va); [|lia].
    destruct (Z.leb_spec (2 ^ (bits - 1)) vb); [|lia]. cbn [bind andb].
    rewrite !neg_value by assumption. cbn [bind].
    assert (Ena : (- va) mod 2 ^ bits = 2 ^ bits - va)
      by (symmetry; apply Z.mod_unique with (-1); lia).
    assert (Enb : (- vb) mod 2 ^ bits = 2 ^ bits - vb)
      by (symmetry; apply Z.mod_unique with (-1); lia).
    rewrite Ena, Enb. subst g.
    rewrite lt_unsigned_value;
      [|lia|lia|lia|cbn [andb]; apply orb_false_iff; split; apply Z.leb_gt; lia|lia].
    f_equal. f_equal.
    destruct (Z.ltb_spec (2 ^ bits - vb) (2 ^ bits - va)),
             (Z.ltb_spec (va - 2 ^ bits) (vb - 2 ^ bits)); try reflexivity; lia.
  - (* negative below non-negative *)
    cbn [lt_rec].
    change (unknownFlag (of_value bits true va)) with false.
    change (hasUnknown (of_value bits true vb)) with false.
    change (bitWidth (of_value bits true va)) with bits.
    change (bitWidth (of_value bits true vb)) with bits.
    change (signFlag (of_value bits true va)) with true.
    change (signFlag (of_value bits true vb)) with true.
    cbn [orb andb]. rewrite Z.eqb_refl. cbn [negb].
    rewrite !isNegative_value by assumption.
    destruct (Z.leb_spec (2 ^ (bits - 1)) va); [|lia].
    destruct (Z.leb_spec (2 ^ (bits - 1)) vb); [lia|]. cbn [bind andb].
    f_equal. f_equal. symmetry. apply Z.ltb_lt. lia.
  - cbn [lt_rec].
    change (unknownFlag (of_value bits true va)) with false.
    change (hasUnknown (of_value bits true vb)) with false.
    change (bitWidth (of_value bits true va)) with bits.
    change (bitWidth (of_value bits true vb)) with bits.
    change (signFlag (of_value bits true va)) with true.
    change (signFlag (of_value bits true vb)) with true.
    cbn [orb andb]. rewrite Z.eqb_refl. cbn [negb].
    rewrite !isNegative_value by assumption.
    destruct (Z.leb_spec (2 ^ (bits - 1)) va); [lia|].
    destruct (Z.leb_spec (2 ^ (bits - 1)) vb); [|lia]. cbn [bind andb].
    f_equal. f_equal. symmetry. apply Z.ltb_ge. lia.
  - apply lt_unsigned_value; try assumption.
    cbn [andb]. apply orb_false_iff. split; apply Z.leb_gt; lia.
Qed.

End Compare.

Lemma X6_equality_decides_witness :
  eq_sv heap0 v_100d5 v_100d7 = Ok (logic_of_bool (5 =? 7)).
Proof.
  apply (X6_equality_decides heap0 v_100d5 v_100d7 known_v_100d5 known_v_100d7). reflexivity.
Defined.

Lemma X7_less_than_unsigned_witness :
  lt_sv heap0 v_100d5 v_100d7 = Ok (logic_of_bool (5 <? 7)).
Proof.
  apply (X7_less_than_unsigned heap0 v_100d5 v_100d7 known_v_100d5 known_v_100d7).
  - reflexivity.
  - reflexivity.
  - right. left. vm_compute. discriminate.
Defined.

Lemma X8_less_than_wide_zeros_witness :
  lt_sv heap0 (of_value 100 false 0) (of_value 100 true 0) = Fault.
Proof. apply (X8_less_than_wide_zeros heap0 100 false true). unfold MAX_BITS. lia. Defined.

Lemma known_v_16sdm1000 : known_value v_16sdm1000.
Proof.
  unfold known_value, v_16sdm1000, MAX_BITS. cbn [bitWidth unknownFlag store].
  repeat split; try reflexivity; lia.
Qed.

Lemma X9_less_than_signed_witness :
  lt_sv heap0 v_16sdm1000 v_16sd1000
  = Ok (logic_of_bool (inline_value v_16sdm1000 64536 <? inline_value v_16sd1000 1000)).
Proof.
  apply (X9_less_than_signed heap0 v_16sdm1000 v_16sd1000 known_v_16sdm1000 known_v_16sd1000).
  - reflexivity.
  - reflexivity.
  - reflexivity.
  - vm_compute. discriminate.
  - vm_compute. discriminate.
  - left. vm_compute. discriminate.
Defined.

(** ** Bitwise operators on values without unknown bits *)

(** The word loop the bitwise operators share on known operands. *)
Lemma zip_loop : forall (f : Z -> Z -> Z) p q n,
  Z.of_nat (length p) = n -> n <= Z.of_nat (length q) ->
  exists r,
    for_range 0 n (fun i p => va <- rd p i ;; vb <- rd q i ;; wr p i (f va vb)) p = Ok r /\
    length r = length p /\
    forall k, (k < length p)%nat -> nth k r 0 = f (nth k p 0) (nth k q 0).
Proof.
  intros f p q n Hp Hq.
  destruct (for_range_inv (list Z)
    (fun j r => length r = length p /\
       forall k, nth k r 0 = if Z.of_nat k <? j then f (nth k p 0) (nth k q 0) else nth k p 0)
    (fun i p => va <- rd p i ;; vb <- rd q i ;; wr p i (f va vb)) 0 n p ltac:(lia))
    as [r [E [Hl Hr]]].
  - split; [reflexivity|]. intro k. destruct (Z.ltb_spec (Z.of_nat k) 0); [lia|reflexivity].
  - intros j t Hj [Hl Ht]. rewrite !rd_ok by lia. cbn [bind]. rewrite wr_ok by lia.
    eexists. split; [reflexivity|]. split; [rewrite length_upd; exact Hl|].
    intro k. rewrite nth_upd.
    destruct (Nat.eqb_spec k (Z.to_nat j)) as [Ek|Nk].
    + subst k. destruct (Nat.ltb_spec (Z.to_nat j) (length t)); [|lia].
      destruct (Z.ltb_spec (Z.of_nat (Z.to_nat j)) (j + 1)); [|lia].
      rewrite Ht. destruct (Z.ltb_spec (Z.of_nat (Z.to_nat j)) j); [lia|reflexivity].
    + rewrite Ht. destruct (Z.ltb_spec (Z.of_nat k) j), (Z.ltb_spec (Z.of_nat k) (j + 1));
        try reflexivity; lia.
  - exists r. split; [exact E|]. split; [exact Hl|]. intros k Hk. rewrite Hr.
    destruct (Z.ltb_spec (Z.of_nat k) n); [reflexivity|lia].
Qed.

Lemma map_loop : forall (f : Z -> Z) p n, Z.of_nat (length p) = n ->
  exists r,
    for_range 0 n (fun i p => w <- rd p i ;; wr p i (f w)) p = Ok r /\
    length r = length p /\
    forall k, (k < length p)%nat -> nth k r 0 = f (nth k p 0).
Proof.
  intros f p n Hp.
  destruct (for_range_inv (list Z)
    (fun j r => length r = length p /\
       forall k, nth k r 0 = if Z.of_nat k <? j then f (nth k p 0) else nth k p 0)
    (fun i p => w <- rd p i ;; wr p i (f w)) 0 n p ltac:(lia))
    as [r [E [Hl Hr]]].
  - split; [reflexivity|]. intro k. destruct (Z.ltb_spec (Z.of_nat k) 0); [lia|reflexivity].
  - intros j t Hj [Hl Ht]. rewrite !rd_ok by lia. cbn [bind]. rewrite wr_ok by lia.
    eexists. split; [reflexivity|]. split; [rewrite length_upd; exact Hl|].
    intro k. rewrite nth_upd.
    destruct (Nat.eqb_spec k (Z.to_nat j)) as [Ek|Nk].
    + subst k. destruct (Nat.ltb_spec (Z.to_nat j) (length t)); [|lia].
      destruct (Z.ltb_spec (Z.of_nat (Z.to_nat j)) (j + 1)); [|lia].
      rewrite Ht. destruct (Z.ltb_spec (Z.of_nat (Z.to_nat j)) j); [lia|reflexivity].
    + rewrite Ht. destruct (Z.ltb_spec (Z.of_nat k) j), (Z.ltb_spec (Z.of_nat k) (j + 1));
        try reflexivity; lia.
  - exists r. split; [exact E|]. split; [exact Hl|]. intros k Hk. rewrite Hr.
    destruct (Z.ltb_spec (Z.of_nat k) n); [reflexivity|lia].
Qed.

(** A word function that acts bit by bit acts on the numbers the words hold. *)
Lemma bitwise_words : forall (f : Z -> Z -> Z) (g : bool -> bool -> bool) n a b z r,
  (forall x y, 0 <= x < 2 ^ 64 -> 0 <= y < 2 ^ 64 -> 0 <= f x y < 2 ^ 64) ->
  (forall x y j, 0 <= x < 2 ^ 64 -> 0 <= y < 2 ^ 64 -> 0 <= j < 64 ->
     Z.testbit (f x y) j = g (Z.testbit x j) (Z.testbit y j)) ->
  (forall i, 0 <= i -> Z.testbit z i = g (Z.testbit a i) (Z.testbit b i)) ->
  length r = n ->
  (forall k, (k < n)%nat ->
     nth k r 0 = f (nth k (Z_to_words n a) 0) (nth k (Z_to_words n b) 0)) ->
  r = Z_to_words n z.
Proof.
  intros f g n a b z r Hrange Hbit Hz Hl Hr.
  apply words_are; [exact Hl| |].
  - intro k. destruct (Nat.ltb_spec k n) as [Hk|Hk].
    + rewrite Hr by exact Hk. apply Hrange; apply nth_Z_to_words_range.
    + rewrite nth_overflow by lia. lia.
  - intros k j Hk Hj. rewrite Hr by exact Hk.
    rewrite Hbit by (try apply nth_Z_to_words_range; lia).
    rewrite !word_bit by assumption. symmetry. apply Hz. lia.
Qed.

Lemma bitwise_range : forall (g : bool -> bool -> bool) bits a b z,
  g false false = false -> 0 <= bits ->
  0 <= a < 2 ^ bits -> 0 <= b < 2 ^ bits -> 0 <= z ->
  (forall i, 0 <= i -> Z.testbit z i = g (Z.testbit a i) (Z.testbit b i)) ->
  z mod 2 ^ bits = z.
Proof.
  intros g bits a b z Hg Hb Ha Hv Hz0 Hz. apply Z.bits_inj'. intros i Hi.
  rewrite testbit_mod_pow2 by lia. destruct (Z.ltb_spec i bits); [reflexivity|].
  cbn [andb]. rewrite Hz by lia.
  rewrite (testbit_above a bits i), (testbit_above b bits i) by lia. symmetry. exact Hg.
Qed.

Lemma not64_value : forall w, 0 <= w < 2 ^ 64 -> not64 w = 2 ^ 64 - 1 - w.
Proof.
  intros w H. unfold not64. rewrite u64_small by exact H.
  change UINT64_MAX with (Z.ones 64). rewrite Z.lxor_comm.
  assert (E : Z.lxor (Z.ones 64) w = Z.ones 64 - w).
  { rewrite <- (Z.mod_small w (2 ^ 64)) at 1 by exact H.
    rewrite <- Z.land_ones by lia. rewrite Z.land_comm.
    apply Z.bits_inj'. intros i Hi.
    assert (Hs : Z.ones 64 - w = Z.lnot w mod 2 ^ 64).
    { unfold Z.lnot. rewrite Z.ones_equiv. apply Z.mod_unique with (-1); lia. }
    rewrite Hs, testbit_mod_pow2, Z.lxor_spec, Z.land_spec, Z.lnot_spec by lia.
    destruct (Z.ltb_spec i 64).
    - rewrite Z.ones_spec_low by lia. cbn [andb]. destruct (Z.testbit w i); reflexivity.
    - rewrite Z.ones_spec_high by lia. reflexivity. }
  rewrite E. rewrite Z.ones_equiv. lia.
Qed.

Lemma not64_range : forall w, 0 <= w < 2 ^ 64 -> 0 <= not64 w < 2 ^ 64.
Proof. intros w H. rewrite not64_value by exact H. lia. Qed.

Lemma not64_bit : forall w j, 0 <= w < 2 ^ 64 -> 0 <= j < 64 ->
  Z.testbit (not64 w) j = negb (Z.testbit w j).
Proof.
  intros w j Hw Hj. unfold not64. rewrite u64_small by exact Hw.
  change UINT64_MAX with (Z.ones 64). rewrite Z.lxor_spec, Z.ones_spec_low by lia.
  destruct (Z.testbit w j); reflexivity.
Qed.

Lemma bit_range : forall z, 0 <= z ->
  (forall i, 64 <= i -> Z.testbit z i = false) -> 0 <= z < 2 ^ 64.
Proof.
  intros z Hz H. split; [exact Hz|].
  assert (E : z mod 2 ^ 64 = z).
  { apply Z.bits_inj'. intros i Hi. rewrite testbit_mod_pow2 by lia.
    destruct (Z.ltb_spec i 64); [reflexivity|]. cbn [andb]. symmetry. apply H. lia. }
  rewrite <- E. apply Z.mod_pos_bound. lia.
Qed.

Lemma land_range : forall x y, 0 <= x < 2 ^ 64 -> 0 <= y < 2 ^ 64 -> 0 <= Z.land x y < 2 ^ 64.
Proof.
  intros x y Hx Hy. apply bit_range; [apply Z.land_nonneg; lia|].
  intros i Hi. rewrite Z.land_spec, (testbit_above x 64 i) by lia. reflexivity.
Qed.

Lemma lor_range64 : forall x y, 0 <= x < 2 ^ 64 -> 0 <= y < 2 ^ 64 -> 0 <= Z.lor x y < 2 ^ 64.
Proof.
  intros x y Hx Hy. apply bit_range; [apply Z.lor_nonneg; lia|].
  intros i Hi. rewrite Z.lor_spec, (testbit_above x 64 i), (testbit_above y 64 i) by lia.
  reflexivity.
Qed.

Lemma lxor_range64 : forall x y, 0 <= x < 2 ^ 64 -> 0 <= y < 2 ^ 64 -> 0 <= Z.lxor x y < 2 ^ 64.
Proof.
  intros x y Hx Hy. apply bit_range; [apply Z.lxor_nonneg; lia|].
  intros i Hi. rewrite Z.lxor_spec, (testbit_above x 64 i), (testbit_above y 64 i) by lia.
  reflexivity.
Qed.

(** The complement of a number within [bits] bits. *)
Lemma lnot_mod : forall bits x, 0 <= bits -> 0 <= x < 2 ^ bits ->
  Z.lnot x mod 2 ^ bits = 2 ^ bits - 1 - x.
Proof.
  intros bits x Hb Hx. unfold Z.lnot. symmetry. apply Z.mod_unique with (-1); lia.
Qed.

Lemma pow2_le_64 : forall bits, 0 < bits <= 64 -> 2 ^ bits <= 2 ^ 64.
Proof. intros bits H. apply Z.pow_le_mono_r; lia. Qed.

(** The known path of a bitwise operator, from its word function. *)
Lemma bitwise_heap : forall (f : Z -> Z -> Z) (g : bool -> bool -> bool) bits sg a b z,
  64 < bits <= MAX_BITS ->
  (forall x y, 0 <= x < 2 ^ 64 -> 0 <= y < 2 ^ 64 -> 0 <= f x y < 2 ^ 64) ->
  (forall x y j, 0 <= x < 2 ^ 64 -> 0 <= y < 2 ^ 64 -> 0 <= j < 64 ->
     Z.testbit (f x y) j = g (Z.testbit x j) (Z.testbit y j)) ->
  (forall i, 0 <= i -> Z.testbit z i = g (Z.testbit a i) (Z.testbit b i)) ->
  (this <- (p <- for_range 0 (getNumWords2 bits false)
                   (fun i p => va <- rd p i ;;
                               vb <- rd (Z_to_words (Z.to_nat (getNumWords2 bits false)) b) i ;;
                               wr p i (f va vb))
                   (Z_to_words (Z.to_nat (getNumWords2 bits false)) a) ;;
            Ok (set_pVal (of_value bits sg a) p)) ;;
   clearUnusedBits this)
  = Ok (of_value bits sg (z mod 2 ^ bits)).
Proof.
  intros f g bits sg a b z Hb Hrange Hbit Hz.
  pose proof (numWords_pos bits ltac:(lia)) as Hpos.
  set (n := Z.to_nat (getNumWords2 bits false)).
  destruct (zip_loop f (Z_to_words n a) (Z_to_words n b) (getNumWords2 bits false))
    as [r [E [Hl Hr]]]; try (rewrite length_Z_to_words; lia).
  rewrite E. cbn [bind]. rewrite length_Z_to_words in Hl, Hr.
  rewrite (bitwise_words f g n a b z r Hrange Hbit Hz Hl Hr).
  unfold set_pVal. change (bitWidth (of_value bits sg a)) with bits.
  change (signFlag (of_value bits sg a)) with sg.
  change (unknownFlag (of_value bits sg a)) with false.
  apply clear_heap_value. exact Hb.
Qed.

Section Bitwise.
Variable junk : Z -> Z.

Lemma and_value : forall bits sg sg' a b, 0 < bits <= MAX_BITS ->
  0 <= a < 2 ^ bits -> 0 <= b < 2 ^ bits ->
  and_sv junk (of_value bits sg a) (of_value bits sg' b)
  = Ok (of_value bits sg (Z.land a b)).
Proof.
  intros bits sg sg' a b Hb Ha Hv. unfold and_sv, and_assign, unify.
  change (bitWidth (of_value bits sg a)) with bits.
  change (bitWidth (of_value bits sg' b)) with bits.
  rewrite Z.eqb_refl. cbn [bind]. rewrite isSingleWord_of_value.
  assert (Hz : forall i, 0 <= i ->
            Z.testbit (Z.land a b) i = andb (Z.testbit a i) (Z.testbit b i))
    by (intros; apply Z.land_spec).
  assert (Hm : Z.land a b mod 2 ^ bits = Z.land a b).
  { apply (bitwise_range andb bits a b); try assumption; try reflexivity; try lia.
    apply Z.land_nonneg; lia. }
  destruct (Z.leb_spec bits 64) as [Hs|Hl].
  - rewrite !get_val_of_value by lia. cbn [bind]. rewrite set_val_of_value by lia.
    pose proof (pow2_le_64 bits ltac:(lia)).
    rewrite clear_inline_value by (try apply land_range; lia). rewrite Hm. reflexivity.
  - change (unknownFlag (of_value bits sg a)) with false. cbv iota.
    rewrite !get_pVal_of_value by lia. cbn [bind].
    change (bitWidth (of_value bits sg a)) with bits.
    rewrite <- Hm.
    apply (bitwise_heap Z.land andb); try assumption; try lia.
    + apply land_range.
    + intros. apply Z.land_spec.
Qed.

Lemma or_value : forall bits sg sg' a b, 0 < bits <= MAX_BITS ->
  0 <= a < 2 ^ bits -> 0 <= b < 2 ^ bits ->
  or_assign junk (of_value bits sg a) (of_value bits sg' b)
  = Ok (of_value bits sg (Z.lor a b)).
Proof.
  intros bits sg sg' a b Hb Ha Hv. unfold or_assign, unify.
  change (bitWidth (of_value bits sg a)) with bits.
  change (bitWidth (of_value bits sg' b)) with bits.
  rewrite Z.eqb_refl. cbn [bind]. rewrite isSingleWord_of_value.
  assert (Hz : forall i, 0 <= i ->
            Z.testbit (Z.lor a b) i = orb (Z.testbit a i) (Z.testbit b i))
    by (intros; apply Z.lor_spec).
  assert (Hm : Z.lor a b mod 2 ^ bits = Z.lor a b).
  { apply (bitwise_range orb bits a b); try assumption; try reflexivity; try lia.
    apply Z.lor_nonneg; lia. }
  destruct (Z.leb_spec bits 64) as [Hs|Hl].
  - rewrite !get_val_of_value by lia. cbn [bind]. rewrite set_val_of_value by lia.
    pose proof (pow2_le_64 bits ltac:(lia)).
    rewrite clear_inline_value by (try apply lor_range64; lia). rewrite Hm. reflexivity.
  - change (unknownFlag (of_value bits sg a)) with false. cbv iota.
    rewrite !get_pVal_of_value by lia. cbn [bind].
    change (bitWidth (of_value bits sg a)) with bits.
    rewrite <- Hm.
    apply (bitwise_heap Z.lor orb); try assumption; try lia.
    + apply lor_range64.
    + intros. apply Z.lor_spec.
Qed.

Lemma xor_value : forall bits sg sg' a b, 0 < bits <= MAX_BITS ->
  0 <= a < 2 ^ bits -> 0 <= b < 2 ^ bits ->
  xor_assign junk (of_value bits sg a) (of_value bits sg' b)
  = Ok (of_value bits sg (Z.lxor a b)).
Proof.
  intros bits sg sg' a b Hb Ha Hv. unfold xor_assign, unify.
  change (bitWidth (of_value bits sg a)) with bits.
  change (bitWidth (of_value bits sg' b)) with bits.
  rewrite Z.eqb_refl. cbn [bind]. rewrite isSingleWord_of_value.
  assert (Hz : forall i, 0 <= i ->
            Z.testbit (Z.lxor a b) i = xorb (Z.testbit a i) (Z.testbit b i))
    by (intros; apply Z.lxor_spec).
  assert (Hm : Z.lxor a b mod 2 ^ bits = Z.lxor a b).
  { apply (bitwise_range xorb bits a b); try assumption; try reflexivity; try lia.
    apply Z.lxor_nonneg; lia. }
  destruct (Z.leb_spec bits 64) as [Hs|Hl].
  - rewrite !get_val_of_value by lia. cbn [bind]. rewrite set_val_of_value by lia.
    pose proof (pow2_le_64 bits ltac:(lia)).
    rewrite clear_inline_value by (try apply lxor_range64; lia). rewrite Hm. reflexivity.
  - change (unknownFlag (of_value bits sg a)) with false. cbv iota.
    rewrite !get_pVal_of_value by lia. cbn [bind].
    change (bitWidth (of_value bits sg a)) with bits.
    rewrite <- Hm.
    apply (bitwise_heap Z.lxor xorb); try assumption; try lia.
    + apply lxor_range64.
    + intros. apply Z.lxor_spec.
Qed.

Lemma xnor_value : forall bits sg sg' a b, 0 < bits <= MAX_BITS ->
  0 <= a < 2 ^ bits -> 0 <= b < 2 ^ bits ->
  xnor junk (of_value bits sg a) (of_value bits sg' b)
  = Ok (of_value bits sg (2 ^ bits - 1 - Z.lxor a b)).
Proof.
  intros bits sg sg' a b Hb Ha Hv. unfold xnor, unify.
  change (bitWidth (of_value bits sg a)) with bits.
  change (bitWidth (of_value bits sg' b)) with bits.
  rewrite Z.eqb_refl. cbn [bind]. rewrite isSingleWord_of_value.
  assert (Hx : 0 <= Z.lxor a b < 2 ^ bits).
  { assert (Hm : Z.lxor a b mod 2 ^ bits = Z.lxor a b).
    { apply (bitwise_range xorb bits a b); try assumption; try reflexivity; try lia.
      - apply Z.lxor_nonneg; lia.
      - intros; apply Z.lxor_spec. }
    rewrite <- Hm. apply Z.mod_pos_bound. lia. }
  rewrite <- (lnot_mod bits (Z.lxor a b)) by lia.
  destruct (Z.leb_spec bits 64) as [Hs|Hl].
  - rewrite !get_val_of_value by lia. cbn [bind]. rewrite set_val_of_value by lia.
    pose proof (pow2_le_64 bits ltac:(lia)).
    rewrite clear_inline_value by (try apply not64_range; lia).
    rewrite not64_value by lia. rewrite lnot_mod by lia. do 2 f_equal.
    symmetry. apply Z.mod_unique with (2 ^ (64 - bits) - 1); [lia|].
    replace (2 ^ 64) with (2 ^ bits * 2 ^ (64 - bits))
      by (rewrite <- Z.pow_add_r by lia; f_equal; lia). lia.
  - change (unknownFlag (of_value bits sg a)) with false. cbv iota.
    rewrite !get_pVal_of_value by lia. cbn [bind].
    change (bitWidth (of_value bits sg a)) with bits.
    apply (bitwise_heap (fun x y => not64 (Z.lxor x y)) (fun x y => negb (xorb x y)));
      try assumption; try lia.
    + intros x y Hx' Hy'. apply not64_range. apply lxor_range64; assumption.
    + intros x y j Hx' Hy' Hj. rewrite not64_bit by (try apply lxor_range64; assumption).
      rewrite Z.lxor_spec. reflexivity.
    + intros i Hi. rewrite Z.lnot_spec, Z.lxor_spec by lia. reflexivity.
Qed.

(** X10.  [&] of two values without unknown bits of the same width is the
    bitwise and of the two numbers, at every width. *)
Theorem X10_and_known : forall a b, known_value a -> known_value b ->
  bitWidth a = bitWidth b ->
  and_sv junk a b = Ok (of_value (bitWidth a) (signFlag a) (Z.land (uval a) (uval b))).
Proof.
  intros a b Ha Hb Hw.
  destruct (known_value_eq a Ha) as [Ea Hva]. destruct (known_value_eq b Hb) as [Eb Hvb].
  pose proof (known_width a Ha) as Hwa. rewrite <- Hw in Eb, Hvb.
  rewrite Ea at 1. rewrite Eb at 1. apply and_value; assumption.
Qed.

(** X11.  [|=], [^=] and [xnor] of two values without unknown bits of the
    same width are the bitwise or, exclusive or and complemented exclusive or
    of the two numbers within the width. *)
Theorem X11_or_xor_xnor_known : forall a b, known_value a -> known_value b ->
  bitWidth a = bitWidth b ->
  or_assign junk a b = Ok (of_value (bitWidth a) (signFlag a) (Z.lor (uval a) (uval b))) /\
  xor_assign junk a b = Ok (of_value (bitWidth a) (signFlag a) (Z.lxor (uval a) (uval b))) /\
  xnor junk a b
  = Ok (of_value (bitWidth a) (signFlag a) (2 ^ bitWidth a - 1 - Z.lxor (uval a) (uval b))).
Proof.
  intros a b Ha Hb Hw.
  destruct (known_value_eq a Ha) as [Ea Hva]. destruct (known_value_eq b Hb) as [Eb Hvb].
  pose proof (known_width a Ha) as Hwa. rewrite <- Hw in Eb, Hvb.
  repeat split.
  - rewrite Ea at 1. rewrite Eb at 1. apply or_value; assumption.
  - rewrite Ea at 1. rewrite Eb at 1. apply xor_value; assumption.
  - rewrite Ea at 1. rewrite Eb at 1. apply xnor_value; assumption.
Qed.

End Bitwise.

(** X12.  [~] of a value without unknown bits flips every bit within the
    width: the result holds 2^width - 1 - v. *)
Theorem X12_not_known : forall x, known_value x ->
  not_sv x = Ok (of_value (bitWidth x) (signFlag x) (2 ^ bitWidth x - 1 - uval x)).
Proof.
  intros x Hx. destruct (known_value_eq x Hx) as [Ex Hv].
  pose proof (known_width x Hx) as Hb.
  set (bits := bitWidth x) in *. set (sg := signFlag x) in *. set (v := uval x) in *.
  rewrite Ex. clearbody bits sg v. clear Ex Hx x.
  unfold not_sv. rewrite isSingleWord_of_value.
  change (unknownFlag (of_value bits sg v)) with false.
  change (bitWidth (of_value bits sg v)) with bits.
  rewrite <- (lnot_mod bits v) by lia.
  destruct (Z.leb_spec bits 64) as [Hs|Hl].
  - rewrite get_val_of_value by lia. cbn [bind]. rewrite set_val_of_value by lia.
    pose proof (pow2_le_64 bits ltac:(lia)).
    assert (E : Z.lxor v UINT64_MAX = not64 v)
      by (unfold not64; rewrite u64_small by lia; reflexivity).
    rewrite E. rewrite clear_inline_value by (try apply not64_range; lia).
    rewrite not64_value by lia. rewrite lnot_mod by lia. do 2 f_equal.
    symmetry. apply Z.mod_unique with (2 ^ (64 - bits) - 1); [lia|].
    replace (2 ^ 64) with (2 ^ bits * 2 ^ (64 - bits))
      by (rewrite <- Z.pow_add_r by lia; f_equal; lia). lia.
  - rewrite get_pVal_of_value by lia. cbn [bind].
    pose proof (numWords_pos bits ltac:(lia)) as Hpos.
    set (n := Z.to_nat (getNumWords2 bits false)).
    destruct (map_loop (fun w => Z.lxor w UINT64_MAX) (Z_to_words n v)
                (getNumWords2 bits false)) as [r [E [Hlen Hr]]];
      try (rewrite length_Z_to_words; lia).
    rewrite E. cbn [bind]. rewrite length_Z_to_words in Hlen, Hr.
    assert (Er : r = Z_to_words n (Z.lnot v)).
    { apply (bitwise_words (fun x _ => not64 x) (fun x _ => negb x) n v v); try assumption.
      - intros x y Hx' _. apply not64_range. exact Hx'.
      - intros x y j Hx' _ Hj. apply not64_bit; assumption.
      - intros i Hi. apply Z.lnot_spec. exact Hi.
      - intros k Hk. rewrite Hr by exact Hk. unfold not64.
        rewrite u64_small by apply nth_Z_to_words_range. reflexivity. }
    rewrite Er. unfold set_pVal. cbn [bitWidth signFlag unknownFlag].
    apply clear_heap_value. lia.
Qed.

Lemma X10_and_known_witness :
  and_sv heap0 v_100d5 v_100d7 = Ok (of_value 100 false (Z.land 5 7)).
Proof.
  apply (X10_and_known heap0 v_100d5 v_100d7 known_v_100d5 known_v_100d7). reflexivity.
Defined.

Lemma X11_or_xor_xnor_known_witness :
  or_assign heap0 v_100d5 v_100d7 = Ok (of_value 100 false (Z.lor 5 7)) /\
  xor_assign heap0 v_100d5 v_100d7 = Ok (of_value 100 false (Z.lxor 5 7)) /\
  xnor heap0 v_100d5 v_100d7 = Ok (of_value 100 false (2 ^ 100 - 1 - Z.lxor 5 7)).
Proof.
  apply (X11_or_xor_xnor_known heap0 v_100d5 v_100d7 known_v_100d5 known_v_100d7). reflexivity.
Defined.

Lemma X12_not_known_witness :
  not_sv v_16sd1000 = Ok (of_value 16 true (2 ^ 16 - 1 - 1000)).
Proof. apply (X12_not_known v_16sd1000). exact known_v_16sd1000. Defined.

(** ** Bitwise operators on one known and one unknown operand *)

Lemma for_range_fault : forall (T : Type) (body : Z -> T -> result T) lo hi (s : T),
  lo < hi -> body lo s = Fault -> for_range lo hi body s = Fault.
Proof.
  intros T body lo hi s Hlt H. unfold for_range.
  destruct (Z.to_nat (hi - lo)) as [|m] eqn:E; [lia|].
  cbn [for_loop]. rewrite H. reflexivity.
Qed.

Lemma shape_unknown_heap : forall x, shape x -> unknownFlag x = true ->
  exists p, store x = Heap p /\
    Z.of_nat (length p) = 2 * getNumWords2 (bitWidth x) false.
Proof.
  intros x [Hw Hs] U. pose proof (isSingleWord_unknown x U) as Hsw.
  destruct (store x) as [v|p].
  - destruct Hs as [Hs _]. congruence.
  - destruct Hs as [_ Hl]. exists p. split; [reflexivity|].
    rewrite Hl. apply getNumWords_unknown. exact U.
Qed.

Lemma known_store : forall x, known_value x ->
  (bitWidth x <= 64 /\ isSingleWord x = true /\ exists v, store x = Inline v) \/
  (64 < bitWidth x /\ isSingleWord x = false /\
   exists q, store x = Heap q /\ Z.of_nat (length q) = getNumWords2 (bitWidth x) false).
Proof.
  intros x [Hw [U Hs]]. rewrite (isSingleWord_known x U).
  destruct (store x) as [v|q].
  - left. destruct Hs as [Hle _]. split; [exact Hle|].
    split; [apply Z.leb_le; exact Hle|]. exists v. reflexivity.
  - right. destruct Hs as [Hgt [Hl _]]. split; [exact Hgt|].
    split; [apply Z.leb_gt; exact Hgt|]. exists q. split; [reflexivity|exact Hl].
Qed.

Section Mixed.
Variable junk : Z -> Z.

(** The four operators open the same way. *)
Ltac open_bitwise a b Hw :=
  unfold and_sv, and_assign, or_assign, xor_assign, xnor, unify;
  rewrite Hw, Z.eqb_refl; cbn [bind].

(** X13.  With unknown bits in the left operand and none in the right one,
    [&], [|=], [^=] and [xnor] have no defined result: the loop over the
    unknown plane reads [rhs.pVal[i + words]], which is not a pointer when
    the right operand is inline and lies beyond its last word otherwise. *)
Theorem X13_bitwise_unknown_left : forall a b,
  shape a -> unknownFlag a = true -> known_value b -> bitWidth a = bitWidth b ->
  and_sv junk a b = Fault /\ or_assign junk a b = Fault /\
  xor_assign junk a b = Fault /\ xnor junk a b = Fault.
Proof.
  intros a b Ha Ua Hb Hw.
  destruct (shape_unknown_heap a Ha Ua) as [p [Ep Hp]].
  pose proof (isSingleWord_unknown a Ua) as Hsw.
  pose proof (numWords_pos (bitWidth a) ltac:(destruct Ha; lia)) as Hpos.
  assert (Hq : get_pVal b = Fault \/
               exists q, get_pVal b = Ok q /\
                 Z.of_nat (length q) = getNumWords2 (bitWidth a) false).
  { destruct (known_store b Hb) as [[_ [_ [v Ev]]]|[_ [_ [q [Eq Hl]]]]].
    - left. unfold get_pVal. rewrite Ev. reflexivity.
    - right. exists q. unfold get_pVal. rewrite Eq. rewrite Hw. split; [reflexivity|exact Hl]. }
  assert (Hpa : get_pVal a = Ok p) by (unfold get_pVal; rewrite Ep; reflexivity).
  repeat split; open_bitwise a b Hw; rewrite <- ?Hw; rewrite Hsw, Hpa, Ua; cbn [bind];
    (destruct Hq as [Eq|[q [Eq Hl]]]; rewrite Eq; cbn [bind]; [reflexivity|]);
    rewrite for_range_fault; try reflexivity; try lia;
    rewrite rd_ok by lia; cbn [bind];
    unfold rd; (destruct (Z.ltb_spec (0 + getNumWords2 (bitWidth a) false) 0); [lia|]);
    rewrite (proj2 (nth_error_None _ _)) by lia; reflexivity.
Qed.

(** X14.  With a left operand without unknown bits of at most 64 bits and
    unknown bits in the right operand, [&], [|=], [^=] and [xnor] have no
    defined result: they combine [val] with [rhs.val], and the right operand
    keeps a pointer there. *)
Theorem X14_bitwise_inline_with_unknown : forall a b,
  known_value a -> bitWidth a <= 64 -> shape b -> unknownFlag b = true ->
  bitWidth a = bitWidth b ->
  and_sv junk a b = Fault /\ or_assign junk a b = Fault /\
  xor_assign junk a b = Fault /\ xnor junk a b = Fault.
Proof.
  intros a b Ha Hs Hb Ub Hw.
  destruct (known_store a Ha) as [[_ [Hsw [v Ev]]]|[Hgt _]]; [|lia].
  destruct (shape_unknown_heap b Hb Ub) as [q [Eq _]].
  assert (Hva : get_val a = Ok v) by (unfold get_val; rewrite Ev; reflexivity).
  assert (Hvb : get_val b = Fault) by (unfold get_val; rewrite Eq; reflexivity).
  repeat split; open_bitwise a b Hw; rewrite <- ?Hw; rewrite Hsw, Hva, Hvb; reflexivity.
Qed.

(** The known path of a bitwise operator when the right operand keeps a
    second plane behind its value words. *)
Lemma bitwise_heap_plane : forall (f : Z -> Z -> Z) (g : bool -> bool -> bool) bits sg a q z,
  64 < bits <= MAX_BITS ->
  Z.of_nat (length q) = 2 * getNumWords2 bits false -> words_in_range q ->
  (forall x y, 0 <= x < 2 ^ 64 -> 0 <= y < 2 ^ 64 -> 0 <= f x y < 2 ^ 64) ->
  (forall x y j, 0 <= x < 2 ^ 64 -> 0 <= y < 2 ^ 64 -> 0 <= j < 64 ->
     Z.testbit (f x y) j = g (Z.testbit x j) (Z.testbit y j)) ->
  (forall i, 0 <= i ->
     Z.testbit z i
     = g (Z.testbit a i)
         (Z.testbit (words_to_Z (firstn (Z.to_nat (getNumWords2 bits false)) q)) i)) ->
  (this <- (p <- for_range 0 (getNumWords2 bits false)
                   (fun i p => va <- rd p i ;; vb <- rd q i ;; wr p i (f va vb))
                   (Z_to_words (Z.to_nat (getNumWords2 bits false)) a) ;;
            Ok (set_pVal (of_value bits sg a) p)) ;;
   clearUnusedBits this)
  = Ok (of_value bits sg (z mod 2 ^ bits)).
Proof.
  intros f g bits sg a q z Hb Hl Hq Hrange Hbit Hz.
  pose proof (numWords_pos bits ltac:(lia)) as Hpos.
  set (n := Z.to_nat (getNumWords2 bits false)) in *.
  destruct (zip_loop f (Z_to_words n a) q (getNumWords2 bits false))
    as [r [E [Hlr Hr]]]; try (rewrite ?length_Z_to_words; lia).
  rewrite E. cbn [bind]. rewrite length_Z_to_words in Hlr, Hr.
  assert (Hfq : firstn n q = Z_to_words n (words_to_Z (firstn n q))).
  { assert (Hlen : length (firstn n q) = n) by (rewrite length_firstn; lia).
    rewrite <- Hlen at 2. symmetry. apply Z_to_words_to_Z.
    intro k. rewrite nth_firstn. destruct (Nat.ltb_spec k n); [apply Hq|lia]. }
  rewrite (bitwise_words f g n a (words_to_Z (firstn n q)) z r Hrange Hbit Hz Hlr).
  - unfold set_pVal. change (bitWidth (of_value bits sg a)) with bits.
    change (signFlag (of_value bits sg a)) with sg.
    change (unknownFlag (of_value bits sg a)) with false.
    apply clear_heap_value. exact Hb.
  - intros k Hk. rewrite Hr by exact Hk. rewrite <- Hfq. rewrite nth_firstn.
    destruct (Nat.ltb_spec k n); [reflexivity|lia].
Qed.

(** X15.  With a left operand without unknown bits wider than 64 bits and
    unknown bits in the right operand, [&], [|=], [^=] and [xnor] combine the
    left number with the number in the value words of the right operand
    alone and return that as a value without unknown bits: the unknown plane
    of the right operand is never read, so its X and Z bits are lost. *)
Theorem X15_bitwise_wide_drops_unknown : forall a sg q,
  known_value a -> 64 < bitWidth a ->
  Z.of_nat (length q) = 2 * getNumWords2 (bitWidth a) false -> words_in_range q ->
  let b := mkSVInt (bitWidth a) sg true (Heap q) in
  let vb := words_to_Z (firstn (Z.to_nat (getNumWords2 (bitWidth a) false)) q) in
  and_sv junk a b = Ok (of_value (bitWidth a) (signFlag a) (Z.land (uval a) vb)) /\
  or_assign junk a b
  = Ok (of_value (bitWidth a) (signFlag a) (Z.lor (uval a) vb mod 2 ^ bitWidth a)) /\
  xor_assign junk a b
  = Ok (of_value (bitWidth a) (signFlag a) (Z.lxor (uval a) vb mod 2 ^ bitWidth a)) /\
  xnor junk a b
  = Ok (of_value (bitWidth a) (signFlag a)
          (Z.lnot (Z.lxor (uval a) vb) mod 2 ^ bitWidth a)).
Proof.
  intros a sg q Ha Hl Hlq Hq b vb.
  destruct (known_value_eq a Ha) as [Ea Hva]. pose proof (known_width a Ha) as Hb.
  set (bits := bitWidth a) in *. set (sa := signFlag a) in *. set (va := uval a) in *.
  assert (Hpa : get_pVal (of_value bits sa va)
                = Ok (Z_to_words (Z.to_nat (getNumWords2 bits false)) va))
    by (apply get_pVal_of_value; exact Hl).
  assert (Hsw : isSingleWord (of_value bits sa va) = false).
  { rewrite isSingleWord_of_value. apply Z.leb_gt. exact Hl. }
  assert (Hland : Z.land va vb mod 2 ^ bits = Z.land va vb).
  { apply Z.bits_inj'. intros i Hi. rewrite testbit_mod_pow2 by lia.
    destruct (Z.ltb_spec i bits); [reflexivity|]. cbn [andb].
    rewrite Z.land_spec, (testbit_above va bits i) by lia. reflexivity. }
  rewrite Ea. clearbody bits sa va. clear Ea Ha a.
  assert (Hw : bitWidth (of_value bits sa va) = bitWidth b) by reflexivity.
  repeat split; open_bitwise (of_value bits sa va) b Hw;
    change (bitWidth b) with bits; rewrite Hsw, Hpa;
    change (unknownFlag (of_value bits sa va)) with false;
    change (get_pVal b) with (Ok q); cbn [bind];
    change (bitWidth (of_value bits sa va)) with bits.
  - rewrite <- Hland.
    apply (bitwise_heap_plane Z.land andb); try assumption; try lia.
    + apply land_range.
    + intros. apply Z.land_spec.
    + intros. apply Z.land_spec.
  - apply (bitwise_heap_plane Z.lor orb); try assumption; try lia.
    + apply lor_range64.
    + intros. apply Z.lor_spec.
    + intros. apply Z.lor_spec.
  - apply (bitwise_heap_plane Z.lxor xorb); try assumption; try lia.
    + apply lxor_range64.
    + intros. apply Z.lxor_spec.
    + intros. apply Z.lxor_spec.
  - apply (bitwise_heap_plane (fun x y => not64 (Z.lxor x y)) (fun x y => negb (xorb x y)));
      try assumption; try lia.
    + intros x y Hx Hy. apply not64_range. apply lxor_range64; assumption.
    + intros x y j Hx Hy Hj. rewrite not64_bit by (try apply lxor_range64; assumption).
      rewrite Z.lxor_spec. reflexivity.
    + intros i Hi. rewrite Z.lnot_spec, Z.lxor_spec by lia. reflexivity.
Qed.

End Mixed.

Lemma shape_v_8b10x0 : shape v_8b10x0.
Proof.
  unfold shape, v_8b10x0, MAX_BITS. cbn [bitWidth store].
  split; [lia|]. split; reflexivity.
Qed.

Lemma known_v_8b1100 : known_value v_8b1100.
Proof.
  unfold known_value, v_8b1100, MAX_BITS. cbn [bitWidth unknownFlag store].
  repeat split; try reflexivity; lia.
Qed.

Lemma X13_bitwise_unknown_left_witness :
  and_sv heap0 v_8b10x0 v_8b1100 = Fault /\ or_assign heap0 v_8b10x0 v_8b1100 = Fault /\
  xor_assign heap0 v_8b10x0 v_8b1100 = Fault /\ xnor heap0 v_8b10x0 v_8b1100 = Fault.
Proof.
  apply (X13_bitwise_unknown_left heap0 v_8b10x0 v_8b1100 shape_v_8b10x0 eq_refl
           known_v_8b1100 eq_refl).
Defined.

Lemma X14_bitwise_inline_with_unknown_witness :
  and_sv heap0 v_8b1100 v_8b10x0 = Fault /\ or_assign heap0 v_8b1100 v_8b10x0 = Fault /\
  xor_assign heap0 v_8b1100 v_8b10x0 = Fault /\ xnor heap0 v_8b1100 v_8b10x0 = Fault.
Proof.
  apply (X14_bitwise_inline_with_unknown heap0 v_8b1100 v_8b10x0 known_v_8b1100).
  - cbn. lia.
  - exact shape_v_8b10x0.
  - reflexivity.
  - reflexivity.
Defined.

Lemma X15_bitwise_wide_drops_unknown_witness :
  let b := mkSVInt (bitWidth v_100d5) false true (Heap [1; 2; 3; 4]) in
  let vb := words_to_Z (firstn (Z.to_nat (getNumWords2 (bitWidth v_100d5) false)) [1; 2; 3; 4]) in
  and_sv heap0 v_100d5 b
  = Ok (of_value (bitWidth v_100d5) (signFlag v_100d5) (Z.land (uval v_100d5) vb)) /\
  or_assign heap0 v_100d5 b
  = Ok (of_value (bitWidth v_100d5) (signFlag v_100d5)
          (Z.lor (uval v_100d5) vb mod 2 ^ bitWidth v_100d5)) /\
  xor_assign heap0 v_100d5 b
  = Ok (of_value (bitWidth v_100d5) (signFlag v_100d5)
          (Z.lxor (uval v_100d5) vb mod 2 ^ bitWidth v_100d5)) /\
  xnor heap0 v_100d5 b
  = Ok (of_value (bitWidth v_100d5) (signFlag v_100d5)
          (Z.lnot (Z.lxor (uval v_100d5) vb) mod 2 ^ bitWidth v_100d5)).
Proof.
  apply (X15_bitwise_wide_drops_unknown heap0 v_100d5 false [1; 2; 3; 4] known_v_100d5).
  - cbn. lia.
  - reflexivity.
  - intro k. destruct k as [|[|[|[|[|k]]]]]; cbn; lia.
Defined.

(** ** Bit select and width extension of values without unknown bits *)

Lemma index_value : forall bits sg v i, 0 < bits <= MAX_BITS -> 0 <= v < 2 ^ bits ->
  0 <= i < bits ->
  index_int (of_value bits sg v) i = Ok (logic_of_bool (Z.testbit v i)).
Proof.
  intros bits sg v i Hb Hv Hi.
  pose proof (numWords_bounds bits ltac:(lia)) as Hnb.
  unfold index_int, of_value. cbn [bitWidth unknownFlag negb store].
  unfold MAX_BITS in Hb. rewrite u32_small by lia.
  destruct (Z.ltb_spec i 0); [lia|]. destruct (Z.leb_spec bits i); [lia|].
  cbn [orb]. unfold isSingleWord, BITS_PER_WORD. cbn [bitWidth unknownFlag negb].
  rewrite andb_true_r. destruct (Z.leb_spec bits 64).
  - cbn [get_val store bind]. rewrite maskBit_test by lia.
    rewrite Z.mod_small by lia. reflexivity.
  - cbn [get_pVal store bind]. unfold whichWord, BITS_PER_WORD.
    destruct (index_split i ltac:(lia)) as [Hq [Hm Hs]].
    rewrite rd_ok by (rewrite length_Z_to_words; lia). cbn [bind].
    rewrite maskBit_test by lia. rewrite testbit_Z_to_words by lia. reflexivity.
Qed.

(** X16.  Selecting bit [i] of a value without unknown bits returns that bit
    of the number when [0 <= i < width], and X for every other index. *)
Theorem X16_index_known : forall x i, known_value x -> - 2 ^ 31 <= i < 2 ^ 31 ->
  index_int x i
  = Ok (if (0 <=? i) && (i <? bitWidth x) then logic_of_bool (Z.testbit (uval x) i)
        else logic_x).
Proof.
  intros x i Hx Hi. destruct (known_value_eq x Hx) as [Ex Hv].
  pose proof (known_width x Hx) as Hb.
  destruct (Z.leb_spec 0 i) as [H0|H0]; cbn [andb].
  - destruct (Z.ltb_spec i (bitWidth x)) as [H1|H1].
    + rewrite Ex at 1. apply index_value; try assumption. lia.
    + unfold index_int. rewrite u32_small by lia.
      destruct (Z.ltb_spec i 0); [lia|]. destruct (Z.leb_spec (bitWidth x) i); [|lia].
      reflexivity.
  - unfold index_int. destruct (Z.ltb_spec i 0); [|lia]. reflexivity.
Qed.

(** The words of a number that fits in fewer words. *)
Lemma nth_words_low : forall n m v k, (k < m)%nat -> (m <= n)%nat ->
  nth k (Z_to_words n v) 0 = nth k (Z_to_words m v) 0.
Proof.
  intros n m v k Hk Hm. rewrite <- (firstn_Z_to_words m n v Hm).
  rewrite nth_firstn. destruct (Nat.ltb_spec k m); [reflexivity|lia].
Qed.

Lemma nth_words_high : forall n v k s, 0 <= v < 2 ^ s -> 0 <= s <= 64 * Z.of_nat k ->
  nth k (Z_to_words n v) 0 = 0.
Proof.
  intros n v k s Hv Hs. destruct (Nat.ltb_spec k n) as [Hk|Hk].
  - apply Z.bits_inj'. intros j Hj. rewrite Z.bits_0.
    destruct (Z.ltb_spec j 64).
    + rewrite word_bit by lia. apply (testbit_above v s); lia.
    + apply (testbit_above _ 64); [lia|apply nth_Z_to_words_range|lia].
  - apply nth_overflow. rewrite length_Z_to_words. lia.
Qed.

(** The raw words of a value, in as many words as its width needs. *)
Lemma raw_words : forall bits sg v, 0 < bits <= MAX_BITS -> 0 <= v < 2 ^ bits ->
  getRawData (of_value bits sg v) = Ok (Z_to_words (Z.to_nat (getNumWords2 bits false)) v).
Proof.
  intros bits sg v Hb Hv. unfold getRawData. rewrite isSingleWord_of_value.
  destruct (Z.leb_spec bits 64) as [Hs|Hl].
  - rewrite get_val_of_value by lia. cbn [bind]. rewrite numWords_small by lia.
    change (Z.to_nat 1) with 1%nat. cbn [Z_to_words].
    pose proof (pow2_le_64 bits ltac:(lia)). rewrite u64_small by lia. reflexivity.
  - apply get_pVal_of_value. lia.
Qed.

Lemma zeroExtend_value : forall bits sg v nbits, 0 < bits -> bits < nbits <= MAX_BITS ->
  0 <= v < 2 ^ bits ->
  zeroExtend (of_value bits sg v) nbits = Ok (of_value nbits sg v).
Proof.
  intros bits sg v nbits Hb Hn Hv. unfold zeroExtend.
  change (bitWidth (of_value bits sg v)) with bits.
  change (signFlag (of_value bits sg v)) with sg.
  change (unknownFlag (of_value bits sg v)) with false.
  destruct (Z.ltb_spec bits nbits); [|lia]. cbn [negb]. rewrite andb_true_r.
  unfold BITS_PER_WORD.
  assert (Hpw : 2 ^ bits <= 2 ^ nbits) by (apply Z.pow_le_mono_r; lia).
  destruct (Z.leb_spec nbits 64) as [Hs|Hl].
  - rewrite get_val_of_value by lia. cbn [bind]. rewrite ctor_inline by lia.
    pose proof (pow2_le_64 nbits ltac:(lia)).
    rewrite u64_small by lia. rewrite Z.mod_small by lia. reflexivity.
  - rewrite raw_words by (unfold MAX_BITS in *; lia). cbn [bind].
    pose proof (numWords_pos bits Hb) as Hpos.
    pose proof (numWords_mono bits nbits ltac:(lia)) as Hmono.
    pose proof (numWords_bounds bits Hb) as Hnb.
    set (vw := getNumWords2 bits false) in *. set (nw := getNumWords2 nbits false) in *.
    destruct (copy_range (fun i => i) (fun i => i) 0 0
                (Z_to_words (Z.to_nat vw) v) (new_zeroed nw) vw)
      as [q [E [Hlq Hq]]]; try lia.
    + rewrite length_Z_to_words. lia.
    + rewrite length_new_zeroed. lia.
    + rewrite E. cbn [bind]. unfold of_value. destruct (Z.leb_spec nbits 64); [lia|].
      do 3 f_equal. rewrite length_new_zeroed in Hlq.
      apply nth_ext0; [rewrite length_Z_to_words; exact Hlq|].
      intros k Hk. rewrite Hq. rewrite nth_new_zeroed.
      destruct (Z.leb_spec 0 (Z.of_nat k)); [|lia].
      destruct (Z.ltb_spec (Z.of_nat k) (0 + vw)); cbn [andb].
      * replace (Z.to_nat (Z.of_nat k - 0 + 0)) with k by lia.
        symmetry. apply nth_words_low; lia.
      * symmetry. apply (nth_words_high _ v k bits); lia.
Qed.

(** The number a sign extension from [bits] to [nbits] bits yields. *)
Lemma sign_extended_mod : forall bits nbits v, 0 < bits < nbits -> 0 <= v < 2 ^ bits ->
  (if Z.testbit v (bits - 1) then v - 2 ^ bits else v) mod 2 ^ nbits
  = if 2 ^ (bits - 1) <=? v then v + 2 ^ nbits - 2 ^ bits else v.
Proof.
  intros bits nbits v Hb Hv. rewrite testbit_top by lia.
  assert (Hpw : 2 ^ bits < 2 ^ nbits) by (apply Z.pow_lt_mono_r; lia).
  destruct (Z.leb_spec (2 ^ (bits - 1)) v).
  - symmetry. apply Z.mod_unique with (-1); lia.
  - apply Z.mod_small. lia.
Qed.

Section Extend.
Variable junk : Z -> Z.

Lemma signExtend_value : forall bits sg v nbits, 0 < bits -> bits < nbits <= MAX_BITS ->
  0 <= v < 2 ^ bits ->
  signExtend junk (of_value bits sg v) nbits
  = Ok (of_value nbits sg (if 2 ^ (bits - 1) <=? v then v + 2 ^ nbits - 2 ^ bits else v)).
Proof.
  intros bits sg v nbits Hb Hn Hv. unfold signExtend.
  change (bitWidth (of_value bits sg v)) with bits.
  change (signFlag (of_value bits sg v)) with sg.
  change (unknownFlag (of_value bits sg v)) with false.
  destruct (Z.ltb_spec bits nbits); [|lia]. cbn [negb]. rewrite andb_true_r.
  unfold BITS_PER_WORD.
  assert (Hpw : 2 ^ bits < 2 ^ nbits) by (apply Z.pow_lt_mono_r; lia).
  assert (Hhalf : 2 ^ bits = 2 * 2 ^ (bits - 1)).
  { replace bits with (1 + (bits - 1)) at 1 by lia. rewrite Z.pow_add_r by lia. reflexivity. }
  destruct (Z.leb_spec nbits 64) as [Hs|Hl].
  - rewrite get_val_of_value by lia. cbn [bind]. rewrite ctor_inline by lia.
    do 2 f_equal.
    pose proof (pow2_le_64 nbits ltac:(lia)) as H64.
    assert (Ea : 2 ^ 64 = 2 ^ bits * 2 ^ (64 - bits))
      by (rewrite <- Z.pow_add_r by lia; f_equal; lia).
    assert (Eb : 2 ^ 64 = 2 ^ nbits * 2 ^ (64 - nbits))
      by (rewrite <- Z.pow_add_r by lia; f_equal; lia).
    assert (Ec : 2 ^ (64 - bits) = 2 ^ (64 - nbits) * 2 ^ (nbits - bits))
      by (rewrite <- Z.pow_add_r by lia; f_equal; lia).
    assert (Ed : 2 ^ nbits = 2 ^ bits * 2 ^ (nbits - bits))
      by (rewrite <- Z.pow_add_r by lia; f_equal; lia).
    assert (Hp1 : 0 < 2 ^ (64 - bits)) by (apply Z.pow_pos_nonneg; lia).
    assert (Hp2 : 0 < 2 ^ (64 - nbits)) by (apply Z.pow_pos_nonneg; lia).
    assert (Hp3 : 0 < 2 ^ (nbits - bits)) by (apply Z.pow_pos_nonneg; lia).
    assert (Hp4 : 0 < 2 ^ (bits - 1)) by (apply Z.pow_pos_nonneg; lia).
    assert (E63 : 2 ^ 63 = 2 ^ (bits - 1) * 2 ^ (64 - bits))
      by (rewrite <- Z.pow_add_r by lia; f_equal; lia).
    assert (E1 : shl64 v (64 - bits) = v * 2 ^ (64 - bits)).
    { unfold shl64. rewrite Z.shiftl_mul_pow2 by lia. apply u64_small. nia. }
    assert (Hr0 : 0 <= v * 2 ^ (64 - bits) < 2 ^ 64).
    { rewrite Ea. split; [apply Z.mul_nonneg_nonneg; lia|].
      apply Z.mul_lt_mono_pos_r; lia. }
    rewrite E1. unfold to_int64. rewrite !(u64_small (v * 2 ^ (64 - bits))) by exact Hr0.
    unfold shr64. rewrite !Z.shiftr_div_pow2 by lia.
    destruct (Z.ltb_spec (v * 2 ^ (64 - bits)) (2 ^ 63)) as [Hlt|Hge].
    + assert (v < 2 ^ (bits - 1)) by nia.
      destruct (Z.leb_spec (2 ^ (bits - 1)) v); [lia|].
      assert (E2 : v * 2 ^ (64 - bits) / 2 ^ (nbits - bits) = v * 2 ^ (64 - nbits)).
      { rewrite Ec. replace (v * (2 ^ (64 - nbits) * 2 ^ (nbits - bits)))
          with (v * 2 ^ (64 - nbits) * 2 ^ (nbits - bits)) by ring.
        apply Z.div_mul. lia. }
      assert (Hr : 0 <= v * 2 ^ (64 - nbits) < 2 ^ 64).
      { rewrite Eb. split; [apply Z.mul_nonneg_nonneg; lia|].
        apply Z.mul_lt_mono_pos_r; lia. }
      rewrite E2. rewrite !(u64_small (v * 2 ^ (64 - nbits))) by exact Hr.
      rewrite Z.div_mul by lia.
      rewrite u64_small by lia. apply Z.mod_small. lia.
    + assert (2 ^ (bits - 1) <= v) by nia.
      destruct (Z.leb_spec (2 ^ (bits - 1)) v); [|lia].
      assert (E2 : (v * 2 ^ (64 - bits) - 2 ^ 64) / 2 ^ (nbits - bits)
                   = (v - 2 ^ bits) * 2 ^ (64 - nbits)).
      { replace (v * 2 ^ (64 - bits) - 2 ^ 64)
          with ((v - 2 ^ bits) * 2 ^ (64 - nbits) * 2 ^ (nbits - bits)) by (rewrite Ea, Ec; ring).
        apply Z.div_mul. lia. }
      rewrite E2.
      assert (E3 : u64 ((v - 2 ^ bits) * 2 ^ (64 - nbits))
                   = (v + 2 ^ nbits - 2 ^ bits) * 2 ^ (64 - nbits)).
      { unfold u64. symmetry. apply Z.mod_unique with (-1).
        - left. rewrite Eb. split; [apply Z.mul_nonneg_nonneg; lia|].
          apply Z.mul_lt_mono_pos_r; lia.
        - rewrite Eb at 1. ring. }
      assert (Hr : 0 <= (v + 2 ^ nbits - 2 ^ bits) * 2 ^ (64 - nbits) < 2 ^ 64).
      { rewrite Eb. split; [apply Z.mul_nonneg_nonneg; lia|].
        apply Z.mul_lt_mono_pos_r; lia. }
      rewrite E3. rewrite (u64_small ((v + 2 ^ nbits - 2 ^ bits) * 2 ^ (64 - nbits))) by exact Hr.
      rewrite Z.div_mul by lia.
      rewrite u64_small by lia. apply Z.mod_small. lia.
  - unfold allocUninitialized. destruct (Z.ltb_spec 64 nbits); [|lia]. cbn [orb bind].
    rewrite raw_words by (unfold MAX_BITS in *; lia). cbn [bind].
    pose proof (numWords_pos bits Hb) as Hpos.
    pose proof (numWords_pos nbits ltac:(lia)) as Hnpos.
    unfold signExtendCopy. rewrite slice_full by (rewrite length_Z_to_words; lia).
    cbn [bind]. rewrite words_of_value by assumption.
    rewrite Z.mod_small by lia.
    unfold get_pVal, set_pVal. cbn [store bitWidth signFlag unknownFlag bind].
    rewrite blit_full by (rewrite length_Z_to_words, length_new_uninit; reflexivity).
    cbn [bind]. rewrite clear_heap_value by lia.
    rewrite sign_extended_mod by lia. reflexivity.
Qed.

(** X17.  Extending a value without unknown bits to a larger width keeps the
    number under [zeroExtend] and replicates the top bit under [signExtend]:
    a value with the top bit set grows by [2^new - 2^old]. *)
Theorem X17_extend_known : forall x bits, known_value x ->
  bitWidth x < bits <= MAX_BITS ->
  zeroExtend x bits = Ok (of_value bits (signFlag x) (uval x)) /\
  signExtend junk x bits
  = Ok (of_value bits (signFlag x)
          (if 2 ^ (bitWidth x - 1) <=? uval x
           then uval x + 2 ^ bits - 2 ^ bitWidth x else uval x)).
Proof.
  intros x bits Hx Hb. destruct (known_value_eq x Hx) as [Ex Hv].
  pose proof (known_width x Hx) as Hw. split.
  - rewrite Ex at 1. apply zeroExtend_value; try assumption; lia.
  - rewrite Ex at 1. apply signExtend_value; try assumption; lia.
Qed.

End Extend.

Lemma X16_index_known_witness :
  index_int v_100d5 2
  = Ok (if (0 <=? 2) && (2 <? bitWidth v_100d5) then logic_of_bool (Z.testbit (uval v_100d5) 2)
        else logic_x).
Proof. apply (X16_index_known v_100d5 2 known_v_100d5). lia. Defined.

Lemma X17_extend_known_witness :
  zeroExtend v_16sdm1000 100 = Ok (of_value 100 (signFlag v_16sdm1000) (uval v_16sdm1000)) /\
  signExtend heap0 v_16sdm1000 100
  = Ok (of_value 100 (signFlag v_16sdm1000)
          (if 2 ^ (bitWidth v_16sdm1000 - 1) <=? uval v_16sdm1000
           then uval v_16sdm1000 + 2 ^ 100 - 2 ^ bitWidth v_16sdm1000
           else uval v_16sdm1000)).
Proof.
  apply (X17_extend_known heap0 v_16sdm1000 100 known_v_16sdm1000).
  unfold MAX_BITS. cbn. lia.
Defined.

(** ** Reductions, exact equality and the conditional operator *)

Lemma firstn_words_step : forall p j, words_in_range p -> 0 <= j < Z.of_nat (length p) ->
  words_to_Z (firstn (Z.to_nat (j + 1)) p)
  = words_to_Z (firstn (Z.to_nat j) p) + 2 ^ (64 * j) * nth (Z.to_nat j) p 0 /\
  0 <= words_to_Z (firstn (Z.to_nat j) p) < 2 ^ (64 * j) /\
  0 <= nth (Z.to_nat j) p 0 < 2 ^ 64 /\ 0 < 2 ^ (64 * j).
Proof.
  intros p j Hp Hj. replace (Z.to_nat (j + 1)) with (S (Z.to_nat j)) by lia.
  rewrite words_to_Z_firstn_succ by lia. rewrite u64_small by apply Hp.
  rewrite Z2Nat.id by lia. split; [reflexivity|].
  pose proof (words_to_Z_range (firstn (Z.to_nat j) p)) as Hr.
  rewrite length_firstn, Nat.min_l in Hr by lia. rewrite Z2Nat.id in Hr by lia.
  split; [exact Hr|]. split; [apply Hp|]. apply Z.pow_pos_nonneg; lia.
Qed.

Lemma reductionOr_value : forall bits sg v, 0 < bits <= MAX_BITS -> 0 <= v < 2 ^ bits ->
  reductionOr (of_value bits sg v) = Ok (logic_of_bool (negb (v =? 0))).
Proof.
  intros bits sg v Hb Hv. unfold reductionOr.
  change (unknownFlag (of_value bits sg v)) with false. cbv iota.
  rewrite isSingleWord_of_value. destruct (Z.leb_spec bits 64) as [Hs|Hl].
  - rewrite get_val_of_value by lia. reflexivity.
  - rewrite get_pVal_of_value by lia. cbn [bind].
    unfold getNumWords. change (bitWidth (of_value bits sg v)) with bits.
    change (unknownFlag (of_value bits sg v)) with false.
    pose proof (numWords_pos bits ltac:(lia)) as Hpos.
    set (n := getNumWords2 bits false) in *.
    set (p := Z_to_words (Z.to_nat n) v).
    assert (Hp : words_in_range p) by apply words_in_range_Z_to_words.
    assert (Hlen : Z.of_nat (length p) = n) by (unfold p; rewrite length_Z_to_words; lia).
    destruct (for_range_inv bool
      (fun j acc => acc = negb (words_to_Z (firstn (Z.to_nat j) p) =? 0))
      (fun i (acc : bool) => if acc then Ok true else w <- rd p i ;; Ok (negb (w =? 0)))
      0 n false ltac:(lia)) as [r [E Hr]].
    + reflexivity.
    + intros j acc Hj Hacc.
      destruct (firstn_words_step p j Hp ltac:(lia)) as [Es [Hw [Hn Hpw]]].
      destruct acc.
      * eexists. split; [reflexivity|]. rewrite Es.
        symmetry in Hacc. apply negb_true_iff, Z.eqb_neq in Hacc.
        symmetry. apply negb_true_iff, Z.eqb_neq. nia.
      * rewrite rd_ok by lia. cbn [bind]. eexists. split; [reflexivity|]. rewrite Es.
        symmetry in Hacc. apply negb_false_iff, Z.eqb_eq in Hacc. rewrite Hacc.
        destruct (Z.eqb_spec (nth (Z.to_nat j) p 0) 0) as [E0|N0].
        -- rewrite E0. replace (0 + 2 ^ (64 * j) * 0) with 0 by lia. reflexivity.
        -- symmetry. apply negb_true_iff, Z.eqb_neq. nia.
    + rewrite E. cbn [bind]. rewrite Hr. rewrite firstn_all2 by lia.
      unfold p, n. rewrite words_of_value by (try lia; assumption). reflexivity.
Qed.

Lemma reductionAnd_value : forall bits sg v, 0 < bits <= MAX_BITS -> 0 <= v < 2 ^ bits ->
  reductionAnd (of_value bits sg v) = Ok (logic_of_bool (v =? 2 ^ bits - 1)).
Proof.
  intros bits sg v Hb Hv. unfold reductionAnd.
  change (unknownFlag (of_value bits sg v)) with false. cbv iota.
  destruct (topWordMask_value (of_value bits sg v) ltac:(exact (proj1 Hb)))
    as [m [Hm [Hbits Emask]]].
  change (bitWidth (of_value bits sg v)) with bits in Hbits.
  rewrite Emask. cbn [snd].
  rewrite isSingleWord_of_value. destruct (Z.leb_spec bits 64) as [Hs|Hl].
  - rewrite get_val_of_value by lia. cbn [bind].
    rewrite numWords_small in Hbits by lia. replace m with bits by lia. reflexivity.
  - rewrite get_pVal_of_value by lia. cbn [bind].
    unfold getNumWords. change (bitWidth (of_value bits sg v)) with bits.
    change (unknownFlag (of_value bits sg v)) with false.
    pose proof (numWords_pos bits ltac:(lia)) as Hpos.
    set (n := getNumWords2 bits false) in *.
    set (p := Z_to_words (Z.to_nat n) v).
    assert (Hp : words_in_range p) by apply words_in_range_Z_to_words.
    assert (Hlen : Z.of_nat (length p) = n) by (unfold p; rewrite length_Z_to_words; lia).
    destruct (for_range_inv bool
      (fun j acc => acc = (words_to_Z (firstn (Z.to_nat j) p) =? 2 ^ (64 * j) - 1))
      (fun i (acc : bool) => if acc then w <- rd p i ;; Ok (w =? UINT64_MAX) else Ok false)
      0 (n - 1) true ltac:(lia)) as [r [E Hr]].
    + reflexivity.
    + intros j acc Hj Hacc.
      destruct (firstn_words_step p j Hp ltac:(lia)) as [Es [Hw [Hn Hpw]]].
      assert (Epow : 2 ^ (64 * (j + 1)) = 2 ^ (64 * j) * 2 ^ 64)
        by (rewrite <- Z.pow_add_r by lia; f_equal; lia).
      destruct acc.
      * rewrite rd_ok by lia. cbn [bind]. eexists. split; [reflexivity|]. rewrite Es.
        symmetry in Hacc. apply Z.eqb_eq in Hacc. rewrite Hacc, Epow.
        unfold UINT64_MAX.
        destruct (Z.eqb_spec (nth (Z.to_nat j) p 0) 18446744073709551615) as [E1|N1].
        -- symmetry. apply Z.eqb_eq. rewrite E1. lia.
        -- symmetry. apply Z.eqb_neq. nia.
      * eexists. split; [reflexivity|]. rewrite Es, Epow.
        symmetry in Hacc. apply Z.eqb_neq in Hacc.
        symmetry. apply Z.eqb_neq. nia.
    + rewrite E. cbn [bind].
      destruct (firstn_words_step p (n - 1) Hp ltac:(lia)) as [Es [Hw [Hn Hpw]]].
      replace (n - 1 + 1) with n in Es by lia.
      rewrite firstn_all2 in Es by lia.
      assert (Ev : words_to_Z p = v)
        by (unfold p, n; apply words_of_value; [lia|assumption]).
      rewrite Ev in Es.
      assert (Epow : 2 ^ bits = 2 ^ (64 * (n - 1)) * 2 ^ m)
        by (rewrite <- Z.pow_add_r by lia; f_equal; lia).
      assert (Hm64 : 2 ^ m <= 2 ^ 64) by (apply Z.pow_le_mono_r; lia).
      assert (Hmpos : 0 < 2 ^ m) by (apply Z.pow_pos_nonneg; lia).
      assert (Htop : nth (Z.to_nat (n - 1)) p 0 < 2 ^ m) by nia.
      destruct r.
      * rewrite rd_ok by lia. cbn [bind]. do 2 f_equal.
        symmetry in Hr. apply Z.eqb_eq in Hr.
        destruct (Z.eqb_spec (nth (Z.to_nat (n - 1)) p 0) (2 ^ m - 1)) as [E1|N1].
        -- symmetry. apply Z.eqb_eq. rewrite Es, Hr, E1, Epow. ring.
        -- symmetry. apply Z.eqb_neq. rewrite Es, Hr, Epow. nia.
      * do 2 f_equal. symmetry in Hr. apply Z.eqb_neq in Hr.
        symmetry. apply Z.eqb_neq. rewrite Es, Epow. nia.
Qed.

(** X18.  On a value without unknown bits [reductionOr] answers whether the
    number is not zero and [reductionAnd] whether every bit of the width is
    set. *)
Theorem X18_reductions_known : forall x, known_value x ->
  reductionOr x = Ok (logic_of_bool (negb (uval x =? 0))) /\
  reductionAnd x = Ok (logic_of_bool (uval x =? 2 ^ bitWidth x - 1)).
Proof.
  intros x Hx. destruct (known_value_eq x Hx) as [Ex Hv].
  pose proof (known_width x Hx) as Hb. split.
  - rewrite Ex at 1. apply reductionOr_value; assumption.
  - rewrite Ex at 1. apply reductionAnd_value; assumption.
Qed.

Section Select.
Variable junk : Z -> Z.

(** X19.  With a condition without unknown bits, [conditional] returns the
    left operand when the condition is not zero and the right operand when it
    is zero, for operands of equal width in any state. *)
Theorem X19_conditional_known_condition : forall c a b, known_value c ->
  bitWidth a = bitWidth b ->
  conditional junk c a b = Ok (if uval c =? 0 then b else a).
Proof.
  intros c a b Hc Hw. unfold conditional, unify. rewrite Hw, Z.eqb_refl. cbn [bind].
  destruct (known_value_eq c Hc) as [Ec Hv]. pose proof (known_width c Hc) as Hb.
  rewrite Ec at 1. rewrite reductionOr_value by assumption. cbn [bind].
  destruct (uval c =? 0); reflexivity.
Qed.

(** X20.  [exactlyEqual] is reflexive on every well-formed value, with or
    without unknown bits. *)
Theorem X20_exactlyEqual_reflexive : forall x,
  known_value x \/ (shape x /\ unknownFlag x = true) ->
  exactlyEqual junk x x = Ok true.
Proof.
  intros x [Hx|[Hx Ux]]; unfold exactlyEqual; cbn [exactlyEqual_rec].
  - assert (U : unknownFlag x = false) by (destruct Hx as [_ [U _]]; exact U).
    rewrite U. cbn [negb andb].
    destruct (known_value_eq x Hx) as [Ex Hv]. pose proof (known_width x Hx) as Hb.
    rewrite Ex. rewrite eq_value by assumption. cbn [bind]. rewrite Z.eqb_refl. reflexivity.
  - rewrite Ux. cbn [negb andb orb]. rewrite Z.eqb_refl. cbn [negb].
    destruct (shape_unknown_heap x Hx Ux) as [p [Ep Hp]].
    unfold get_pVal. rewrite Ep. cbn [bind].
    rewrite getNumWords_unknown by exact Ux.
    pose proof (numWords_pos (bitWidth x) ltac:(destruct Hx; lia)).
    rewrite slice_ok by lia. cbn [bind].
    destruct (list_eq_dec Z.eq_dec _ _) as [_|N]; [reflexivity|]. exfalso. apply N. reflexivity.
Qed.

End Select.

Lemma X18_reductions_known_witness :
  reductionOr v_100d5 = Ok (logic_of_bool (negb (uval v_100d5 =? 0))) /\
  reductionAnd v_100d5 = Ok (logic_of_bool (uval v_100d5 =? 2 ^ bitWidth v_100d5 - 1)).
Proof. apply (X18_reductions_known v_100d5 known_v_100d5). Defined.

Lemma X19_conditional_known_condition_witness :
  conditional heap0 v_100d5 v_8b10x0 v_8b1100
  = Ok (if uval v_100d5 =? 0 then v_8b1100 else v_8b10x0).
Proof.
  apply (X19_conditional_known_condition heap0 v_100d5 v_8b10x0 v_8b1100 known_v_100d5).
  reflexivity.
Defined.

Lemma X20_exactlyEqual_reflexive_witness : exactlyEqual heap0 v_8b10x0 v_8b10x0 = Ok true.
Proof.
  apply (X20_exactlyEqual_reflexive heap0 v_8b10x0). right.
  split; [exact shape_v_8b10x0|reflexivity].
Defined.

(** ** Fills and the downgrade of [checkUnknown] *)

Lemma ones_word_bit : forall r j, 0 <= r <= 64 -> 0 <= j < 64 ->
  Z.testbit (Z.land UINT64_MAX (2 ^ r - 1)) j = (j <? r).
Proof.
  intros r j Hr Hj. change UINT64_MAX with (Z.ones 64).
  replace (2 ^ r - 1) with (Z.ones r) by (rewrite Z.ones_equiv; lia).
  rewrite Z.land_spec, Z.ones_spec_low by lia. cbn [andb].
  destruct (Z.ltb_spec j r).
  - apply Z.ones_spec_low. lia.
  - apply Z.ones_spec_high. lia.
Qed.

Lemma max_word_bit : forall j, 0 <= j < 64 -> Z.testbit UINT64_MAX j = true.
Proof. intros j Hj. change UINT64_MAX with (Z.ones 64). apply Z.ones_spec_low. lia. Qed.

(** The position of bit [i] in a plane of [w] words for [bits] bits. *)
Lemma bit_position : forall bits i, 0 < bits -> 0 <= i < bits ->
  0 <= i / 64 < getNumWords2 bits false /\ 0 <= i mod 64 < 64 /\
  (i / 64 = getNumWords2 bits false - 1 -> bits mod 64 <> 0 -> i mod 64 < bits mod 64).
Proof.
  intros bits i Hb Hi. pose proof (numWords_bounds bits Hb) as Hnb.
  pose proof (msw_bits bits Hb) as Hmsw.
  destruct (index_split i ltac:(lia)) as [Hq [Hm Hs]].
  split; [split; [exact Hq|apply Z.div_lt_upper_bound; lia]|].
  split; [exact Hm|]. intros Etop Hne.
  destruct (Z.eqb_spec (bits mod 64) 0); [lia|]. lia.
Qed.

Section Fills.
Variable junk : Z -> Z.

(** X21.  [createFillZ] returns, at every legal width, a value with the
    unknown flag set whose every bit reads as Z. *)
Theorem X21_createFillZ_all_z : forall bits sg, 0 < bits <= MAX_BITS ->
  exists r, createFillZ junk bits sg = Ok r /\
    bitWidth r = bits /\ signFlag r = sg /\ unknownFlag r = true /\
    forall i, 0 <= i < bits -> index_int r i = Ok logic_z.
Proof.
  intros bits sg Hb. unfold createFillZ, allocUninitialized.
  rewrite orb_true_r. cbn [bind]. unfold setAllZ. cbn [unknownFlag].
  unfold get_pVal. cbn [store bind]. unfold getNumWords. cbn [bitWidth unknownFlag].
  pose proof (numWords_pos bits ltac:(lia)) as Hpos.
  rewrite numWords_flag. set (w := getNumWords2 bits false) in *.
  destruct (fill_range (new_uninit junk (2 * w)) 0 (2 * w) UINT64_MAX)
    as [q [E [Hlq Hq]]]; try (rewrite ?length_new_uninit; lia).
  rewrite E. cbn [bind]. rewrite length_new_uninit in Hlq.
  destruct (clearUnusedBits_heap
              (set_pVal (mkSVInt bits sg true (Heap (new_uninit junk (2 * w)))) q) q)
    as [p' [Ec [Hlp Hp]]].
  - cbn [bitWidth set_pVal]. lia.
  - apply isSingleWord_unknown. reflexivity.
  - reflexivity.
  - unfold getNumWords, set_pVal. cbn [bitWidth unknownFlag]. rewrite numWords_flag.
    fold w. lia.
  - rewrite Ec. eexists. split; [reflexivity|].
    unfold set_pVal. cbn [bitWidth signFlag unknownFlag].
    split; [reflexivity|]. split; [reflexivity|]. split; [reflexivity|].
    intros i Hi. rewrite index_planes by (try assumption; fold w; lia).
    fold w. destruct (bit_position bits i ltac:(lia) Hi) as [Hq' [Hm Htop]]. fold w in Hq', Htop.
    assert (Hbit : forall off, off = 0 \/ off = w -> plane_bit p' off i = true).
    { intros off Hoff. unfold plane_bit. unfold set_pVal in Hp. cbn [bitWidth] in Hp.
      rewrite Hp.
      assert (Hk : Z.of_nat (Z.to_nat (off + i / 64)) = off + i / 64) by lia.
      rewrite Hq. rewrite Hk.
      destruct (Z.leb_spec 0 (off + i / 64)); [|lia].
      destruct (Z.ltb_spec (off + i / 64) (2 * w)); [|lia]. cbn [andb].
      destruct (Nat.ltb_spec (Z.to_nat (off + i / 64)) (length q)); [|lia].
      rewrite andb_true_r.
      match goal with
      | |- context [is_top ?a ?b] => destruct (is_top a b && negb (bits mod 64 =? 0)) eqn:Et
      end.
      - apply andb_true_iff in Et. destruct Et as [Et Hne].
        apply negb_true_iff, Z.eqb_neq in Hne.
        pose proof (Z.mod_pos_bound bits 64 ltac:(lia)).
        rewrite ones_word_bit by lia. apply Z.ltb_lt. apply Htop; [|exact Hne].
        unfold is_top, getNumWords in Et. cbn [bitWidth unknownFlag andb] in Et.
        rewrite numWords_flag in Et. fold w in Et. rewrite Hk in Et.
        apply orb_true_iff in Et. destruct Et as [Et|Et]; apply Z.eqb_eq in Et; lia.
      - apply max_word_bit. exact Hm. }
    rewrite (Hbit w) by (right; reflexivity). rewrite (Hbit 0) by (left; reflexivity).
    reflexivity.
Qed.

Lemma ones_words : forall n q, length q = n -> (forall k, (k < n)%nat -> nth k q 0 = UINT64_MAX) ->
  q = Z_to_words n (-1).
Proof.
  intros n q Hl Hq. apply words_are; [exact Hl| |].
  - intro k. destruct (Nat.ltb_spec k n).
    + rewrite Hq by assumption. unfold UINT64_MAX. lia.
    + rewrite nth_overflow by lia. lia.
  - intros k j Hk Hj. rewrite Hq by exact Hk. rewrite max_word_bit by exact Hj.
    symmetry. apply Z.bits_m1. lia.
Qed.

Lemma all_ones_mod : forall bits, 0 <= bits -> (-1) mod 2 ^ bits = 2 ^ bits - 1.
Proof.
  intros bits Hb. assert (0 < 2 ^ bits) by (apply Z.pow_pos_nonneg; lia).
  symmetry. apply Z.mod_unique with (-1); lia.
Qed.

(** X22.  [setAllOnes] turns every well-formed value, with or without
    unknown bits, into the value without unknown bits that has every bit of
    the width set. *)
Theorem X22_setAllOnes_value : forall x, shape x ->
  setAllOnes junk x = Ok (of_value (bitWidth x) (signFlag x) (2 ^ bitWidth x - 1)).
Proof.
  intros x Hx. pose proof Hx as [Hb Hs].
  set (bits := bitWidth x) in *. set (sg := signFlag x).
  pose proof (numWords_pos bits ltac:(lia)) as Hpos.
  pose proof (numWords_bounds bits ltac:(lia)) as Hnb.
  assert (Hinline : bits <= 64 -> forall v,
            (x0 <- Ok (set_val (mkSVInt bits sg false (Inline v)) UINT64_MAX) ;;
             clearUnusedBits x0) = Ok (of_value bits sg (2 ^ bits - 1))).
  { intros Hle v. cbn [bind]. unfold set_val. cbn [bitWidth signFlag unknownFlag].
    rewrite clear_inline_value by (unfold UINT64_MAX; lia). do 2 f_equal.
    change UINT64_MAX with (2 ^ 64 - 1).
    assert (E : 2 ^ 64 = 2 ^ bits * 2 ^ (64 - bits))
      by (rewrite <- Z.pow_add_r by lia; f_equal; lia).
    assert (0 < 2 ^ bits) by (apply Z.pow_pos_nonneg; lia).
    assert (0 < 2 ^ (64 - bits)) by (apply Z.pow_pos_nonneg; lia).
    symmetry. apply Z.mod_unique with (2 ^ (64 - bits) - 1); [lia|]. rewrite E. ring. }
  assert (Hheap : 64 < bits -> forall p, Z.of_nat (length p) = getNumWords2 bits false ->
            (x0 <- (p0 <- for_range 0 (getNumWords2 bits false)
                             (fun i p => wr p i UINT64_MAX) p ;;
                    Ok (set_pVal (mkSVInt bits sg false (Heap p)) p0)) ;;
             clearUnusedBits x0) = Ok (of_value bits sg (2 ^ bits - 1))).
  { intros Hgt p Hl.
    destruct (fill_range p 0 (getNumWords2 bits false) UINT64_MAX) as [q [E [Hlq Hq]]];
      try lia.
    rewrite E. cbn [bind]. unfold set_pVal. cbn [bitWidth signFlag unknownFlag].
    rewrite (ones_words (Z.to_nat (getNumWords2 bits false)) q).
    - rewrite clear_heap_value by lia. rewrite all_ones_mod by lia. reflexivity.
    - lia.
    - intros k Hk. rewrite Hq.
      destruct (Z.leb_spec 0 (Z.of_nat k)); [|lia].
      destruct (Z.ltb_spec (Z.of_nat k) (getNumWords2 bits false)); [reflexivity|lia]. }
  unfold setAllOnes. fold bits sg.
  destruct (unknownFlag x) eqn:U.
  - destruct (Z.ltb_spec 1 (getNumWords2 bits false)) as [Hw|Hw].
    + assert (64 < bits) by lia.
      unfold isSingleWord, getNumWords, BITS_PER_WORD. cbn [bitWidth unknownFlag negb].
      destruct (Z.leb_spec bits 64); [lia|]. cbn [andb]. unfold get_pVal. cbn [store bind].
      apply Hheap; [assumption|]. rewrite length_new_uninit. lia.
    + assert (bits <= 64) by lia.
      unfold isSingleWord, BITS_PER_WORD. cbn [bitWidth unknownFlag negb].
      destruct (Z.leb_spec bits 64); [|lia]. cbn [andb]. apply Hinline. assumption.
  - rewrite (isSingleWord_known x U). fold bits.
    destruct (store x) as [v|p] eqn:Es.
    + destruct Hs as [Hsw _]. rewrite (isSingleWord_known x U) in Hsw. fold bits in Hsw.
      rewrite Hsw. apply Z.leb_le in Hsw.
      replace x with (mkSVInt bits sg false (Inline v))
        by (destruct x; cbn in *; subst; reflexivity).
      apply Hinline. exact Hsw.
    + destruct Hs as [Hsw Hl]. rewrite (isSingleWord_known x U) in Hsw. fold bits in Hsw.
      rewrite Hsw. apply Z.leb_gt in Hsw.
      rewrite (getNumWords_known x U) in Hl. fold bits in Hl.
      replace x with (mkSVInt bits sg false (Heap p))
        by (destruct x; cbn in *; subst; reflexivity).
      unfold get_pVal, getNumWords. cbn [store bind bitWidth unknownFlag].
      apply Hheap; assumption.
Qed.

End Fills.

Lemma clz_words_skip : forall p w i c, (w <= i)%nat -> (i <= length p)%nat ->
  (forall k, (w <= k < i)%nat -> nth k p 0 = 0) ->
  clz_words p i c = clz_words p w (c + 64 * (Z.of_nat i - Z.of_nat w)).
Proof.
  intros p w i. induction i as [|i IH]; intros c Hw Hi Hz.
  - assert (w = 0)%nat by lia. subst w. f_equal. lia.
  - destruct (Nat.eq_dec w (S i)) as [E|N].
    + subst w. f_equal. lia.
    + cbn [clz_words]. rewrite rd_ok by lia. cbn [bind]. rewrite Nat2Z.id.
      rewrite Hz by lia. cbn [Z.eqb]. rewrite IH by (try lia; intros; apply Hz; lia).
      unfold BITS_PER_WORD. f_equal. lia.
Qed.

(** X23.  [checkUnknown] decides by the unknown plane alone: with no bit set
    there it drops the flag and keeps the value words (inline when one word
    is enough), and with a bit set below the width it leaves the value as it
    is. *)
Theorem X23_checkUnknown_downgrade : forall bits sg p,
  0 < bits <= MAX_BITS -> Z.of_nat (length p) = 2 * getNumWords2 bits false ->
  words_in_range p ->
  ((forall k, getNumWords2 bits false <= Z.of_nat k -> nth k p 0 = 0) ->
   checkUnknown (mkSVInt bits sg true (Heap p))
   = Ok (mkSVInt bits sg false
           (if getNumWords2 bits false =? 1 then Inline (nth 0 p 0)
            else Heap (firstn (Z.to_nat (getNumWords2 bits false)) p)))) /\
  (forall b, 0 <= b < bits -> plane_bit p (getNumWords2 bits false) b = true ->
   checkUnknown (mkSVInt bits sg true (Heap p)) = Ok (mkSVInt bits sg true (Heap p))).
Proof.
  intros bits sg p Hb Hl Hr. split.
  - intro Hz. pose proof (numWords_pos bits ltac:(lia)) as Hpos.
    set (w := getNumWords2 bits false) in *.
    unfold checkUnknown. cbn [unknownFlag negb bitWidth signFlag].
    unfold countLeadingZeros. rewrite isSingleWord_unknown by reflexivity.
    unfold countLeadingZerosSlowCase.
    destruct (topWordMask_value (mkSVInt bits sg true (Heap p)) ltac:(cbn; lia))
      as [m [Hm [Hbits Emask]]].
    cbn [bitWidth] in Hbits. fold w in Hbits. rewrite Emask.
    unfold getNumWords. cbn [bitWidth unknownFlag]. rewrite numWords_flag. fold w.
    unfold get_pVal. cbn [store bind].
    rewrite rd_ok by lia. cbn [bind]. rewrite Hz by lia.
    rewrite Z.land_0_l. cbn [Z.eqb negb].
    rewrite (clz_words_skip p (Z.to_nat w)) by (try lia; intros; apply Hz; lia).
    destruct (clz_words_ok p (Z.to_nat w)
                (m + 64 * (Z.of_nat (Z.to_nat (2 * w - 1)) - Z.of_nat (Z.to_nat w))) ltac:(lia))
      as [c [Ec Hc]].
    rewrite Ec. cbn [bind]. destruct (Z.ltb_spec c bits); [lia|].
    destruct (Z.eqb_spec w 1) as [E1|N1].
    + rewrite rd_ok by lia. reflexivity.
    + rewrite slice_ok by lia. reflexivity.
  - intros b Hb0 Hset. apply (checkUnknown_keeps bits sg p b); try assumption. lia.
Qed.

Lemma X21_createFillZ_all_z_witness :
  exists r, createFillZ heap0 100 true = Ok r /\
    bitWidth r = 100 /\ signFlag r = true /\ unknownFlag r = true /\
    forall i, 0 <= i < 100 -> index_int r i = Ok logic_z.
Proof. apply (X21_createFillZ_all_z heap0 100 true). unfold MAX_BITS. lia. Defined.

Lemma X22_setAllOnes_value_witness :
  setAllOnes heap0 v_8b10x0
  = Ok (of_value (bitWidth v_8b10x0) (signFlag v_8b10x0) (2 ^ bitWidth v_8b10x0 - 1)).
Proof. apply (X22_setAllOnes_value heap0 v_8b10x0 shape_v_8b10x0). Defined.

Lemma X23_checkUnknown_downgrade_witness :
  ((forall k, getNumWords2 8 false <= Z.of_nat k -> nth k [12; 0] 0 = 0) ->
   checkUnknown (mkSVInt 8 false true (Heap [12; 0]))
   = Ok (mkSVInt 8 false false
           (if getNumWords2 8 false =? 1 then Inline (nth 0 [12; 0] 0)
            else Heap (firstn (Z.to_nat (getNumWords2 8 false)) [12; 0])))) /\
  (forall b, 0 <= b < 8 -> plane_bit [12; 0] (getNumWords2 8 false) b = true ->
   checkUnknown (mkSVInt 8 false true (Heap [12; 0]))
   = Ok (mkSVInt 8 false true (Heap [12; 0]))).
Proof.
  apply (X23_checkUnknown_downgrade 8 false [12; 0]).
  - unfold MAX_BITS. lia.
  - reflexivity.
  - intro k. destruct k as [|[|[|k]]]; cbn; lia.
Defined.

(** ** Division and remainder of inline values *)

Section Division.
Variable junk : Z -> Z.

Lemma udiv_inline : forall same bits s1 s2 sg x y, 0 < bits <= 64 ->
  0 <= x < 2 ^ bits -> 0 < y < 2 ^ bits ->
  udiv junk same (of_value bits s1 x) (of_value bits s2 y) sg = Ok (of_value bits sg (x / y)) /\
  urem junk same (of_value bits s1 x) (of_value bits s2 y) sg
  = Ok (of_value bits sg (x mod y)).
Proof.
  intros same bits s1 s2 sg x y Hb Hx Hy. unfold udiv, urem.
  rewrite isSingleWord_of_value. destruct (Z.leb_spec bits 64); [|lia].
  rewrite !get_val_of_value by lia. cbn [bind].
  destruct (Z.eqb_spec y 0); [lia|].
  change (bitWidth (of_value bits s1 x)) with bits.
  rewrite !ctor_inline by lia.
  pose proof (pow2_le_64 bits Hb) as H64.
  assert (Hq : 0 <= x / y <= x).
  { split; [apply Z.div_pos; lia|]. apply Z.div_le_upper_bound; nia. }
  pose proof (Z.mod_pos_bound x y ltac:(lia)) as Hm.
  rewrite !u64_small by lia. rewrite !Z.mod_small by lia. split; reflexivity.
Qed.

Lemma neg_magnitude : forall bits v, 0 < bits -> 2 ^ (bits - 1) <= v < 2 ^ bits ->
  (- v) mod 2 ^ bits = 2 ^ bits - v /\ 0 < 2 ^ bits - v < 2 ^ bits.
Proof.
  intros bits v Hb Hv.
  assert (0 < 2 ^ (bits - 1)) by (apply Z.pow_pos_nonneg; lia).
  split; [|lia]. symmetry. apply Z.mod_unique with (-1); lia.
Qed.

Lemma division_inline : forall same bits s1 s2 va vb, 0 < bits <= 64 ->
  0 <= va < 2 ^ bits -> 0 < vb < 2 ^ bits ->
  let bs := s1 && s2 in
  let na := bs && (2 ^ (bits - 1) <=? va) in
  let nb := bs && (2 ^ (bits - 1) <=? vb) in
  let sa := if na then va - 2 ^ bits else va in
  let sb := if nb then vb - 2 ^ bits else vb in
  div_sv junk same (of_value bits s1 va) (of_value bits s2 vb)
  = Ok (of_value bits (na || nb) (Z.quot sa sb mod 2 ^ bits)) /\
  rem_sv junk same (of_value bits s1 va) (of_value bits s2 vb)
  = Ok (of_value bits (na || nb) (Z.rem sa sb mod 2 ^ bits)).
Proof.
  intros same bits s1 s2 va vb Hb Ha Hv bs na nb sa sb.
  assert (HM : 0 < bits <= MAX_BITS) by (unfold MAX_BITS; lia).
  assert (HvM : 0 <= vb < 2 ^ bits) by lia.
  unfold div_sv, rem_sv, unify.
  change (bitWidth (of_value bits s1 va)) with bits.
  change (bitWidth (of_value bits s2 vb)) with bits.
  rewrite Z.eqb_refl. cbn [bind].
  change (bitWidth (of_value bits s1 va)) with bits.
  change (signFlag (of_value bits s1 va)) with s1.
  change (signFlag (of_value bits s2 vb)) with s2.
  change (unknownFlag (of_value bits s1 va)) with false.
  change (unknownFlag (of_value bits s2 vb)) with false.
  cbn [bind orb]. rewrite eq_int_value by assumption. cbn [bind].
  destruct (Z.eqb_spec vb 0); [lia|].
  change (logic_to_bool (logic_of_bool false)) with false. cbv iota. fold bs.
  assert (Hpos : 0 < 2 ^ (bits - 1)) by (apply Z.pow_pos_nonneg; lia).
  assert (Hhalf : 2 ^ bits = 2 * 2 ^ (bits - 1)).
  { replace bits with (1 + (bits - 1)) at 1 by lia. rewrite Z.pow_add_r by lia. reflexivity. }
  assert (Hqle : forall x y, 0 <= x -> 0 < y -> 0 <= x / y <= x).
  { intros x y Hx Hy. split; [apply Z.div_pos; lia|]. apply Z.div_le_upper_bound; nia. }
  unfold sa, sb, na, nb. destruct bs; cbn [andb orb].
  - rewrite !isNegative_value by assumption. cbn [bind].
    destruct (Z.leb_spec (2 ^ (bits - 1)) va) as [Hna|Hna];
      destruct (Z.leb_spec (2 ^ (bits - 1)) vb) as [Hnb|Hnb]; cbn [andb orb].
    + rewrite !neg_value by assumption. cbn [bind].
      destruct (neg_magnitude bits va ltac:(lia) ltac:(lia)) as [Ea Hra].
      destruct (neg_magnitude bits vb ltac:(lia) ltac:(lia)) as [Eb Hrb].
      rewrite Ea, Eb.
      destruct (udiv_inline false bits s1 s2 true (2 ^ bits - va) (2 ^ bits - vb))
        as [Ed Er]; try lia.
      rewrite Ed, Er. cbn [bind]. split.
      * do 2 f_equal.
        replace (va - 2 ^ bits) with (- (2 ^ bits - va)) by lia.
        replace (vb - 2 ^ bits) with (- (2 ^ bits - vb)) by lia.
        rewrite Z.quot_opp_opp by lia. rewrite Z.quot_div_nonneg by lia.
        pose proof (Hqle (2 ^ bits - va) (2 ^ bits - vb) ltac:(lia) ltac:(lia)).
        symmetry. apply Z.mod_small. lia.
      * pose proof (Z.mod_pos_bound (2 ^ bits - va) (2 ^ bits - vb) ltac:(lia)).
        rewrite neg_value by (try assumption; lia). do 2 f_equal.
        replace (va - 2 ^ bits) with (- (2 ^ bits - va)) by lia.
        replace (vb - 2 ^ bits) with (- (2 ^ bits - vb)) by lia.
        rewrite Z.rem_opp_r by lia. rewrite Z.rem_opp_l by lia.
        rewrite Z.rem_mod_nonneg by lia. reflexivity.
    + rewrite !neg_value by assumption. cbn [bind].
      destruct (neg_magnitude bits va ltac:(lia) ltac:(lia)) as [Ea Hra].
      rewrite Ea.
      destruct (udiv_inline false bits s1 s2 true (2 ^ bits - va) vb) as [Ed Er]; try lia.
      rewrite Ed, Er. cbn [bind].
      pose proof (Hqle (2 ^ bits - va) vb ltac:(lia) ltac:(lia)).
      pose proof (Z.mod_pos_bound (2 ^ bits - va) vb ltac:(lia)).
      rewrite !neg_value by (try assumption; lia). split; do 2 f_equal.
      * replace (va - 2 ^ bits) with (- (2 ^ bits - va)) by lia.
        rewrite Z.quot_opp_l by lia. rewrite Z.quot_div_nonneg by lia. reflexivity.
      * replace (va - 2 ^ bits) with (- (2 ^ bits - va)) by lia.
        rewrite Z.rem_opp_l by lia. rewrite Z.rem_mod_nonneg by lia. reflexivity.
    + rewrite !neg_value by assumption. cbn [bind].
      destruct (neg_magnitude bits vb ltac:(lia) ltac:(lia)) as [Eb Hrb].
      rewrite Eb.
      destruct (udiv_inline false bits s1 s2 true va (2 ^ bits - vb)) as [Ed Er]; try lia.
      rewrite Ed, Er. cbn [bind].
      pose proof (Hqle va (2 ^ bits - vb) ltac:(lia) ltac:(lia)).
      pose proof (Z.mod_pos_bound va (2 ^ bits - vb) ltac:(lia)).
      rewrite !neg_value by (try assumption; lia). split; do 2 f_equal.
      * replace (vb - 2 ^ bits) with (- (2 ^ bits - vb)) by lia.
        rewrite Z.quot_opp_r by lia. rewrite Z.quot_div_nonneg by lia. reflexivity.
      * replace (vb - 2 ^ bits) with (- (2 ^ bits - vb)) by lia.
        rewrite Z.rem_opp_r by lia. rewrite Z.rem_mod_nonneg by lia.
        symmetry. apply Z.mod_small. lia.
    + destruct (udiv_inline same bits s1 s2 false va vb) as [Ed Er]; try lia.
      rewrite Ed, Er.
      pose proof (Hqle va vb ltac:(lia) ltac:(lia)).
      pose proof (Z.mod_pos_bound va vb ltac:(lia)).
      rewrite Z.quot_div_nonneg, Z.rem_mod_nonneg by lia.
      rewrite (Z.mod_small (va / vb)), (Z.mod_small (va mod vb)) by lia. split; reflexivity.
  - cbn [bind andb].
    destruct (udiv_inline same bits s1 s2 false va vb) as [Ed Er]; try lia.
    rewrite Ed, Er.
    pose proof (Hqle va vb ltac:(lia) ltac:(lia)).
    pose proof (Z.mod_pos_bound va vb ltac:(lia)).
    rewrite Z.quot_div_nonneg, Z.rem_mod_nonneg by lia.
    rewrite (Z.mod_small (va / vb)), (Z.mod_small (va mod vb)) by lia. split; reflexivity.
Qed.

(** X24.  [/] and [%] on two values without unknown bits of the same width
    of at most 64 bits and a divisor that is not zero: when both operands are
    signed they are read as two's-complement numbers, the quotient is
    truncated towards zero and the remainder takes the sign of the dividend;
    otherwise both are read as unsigned.  The result is flagged signed only
    when both operands are signed and one of them is negative. *)
Theorem X24_division_inline : forall same a b, known_value a -> known_value b ->
  bitWidth a = bitWidth b -> bitWidth a <= 64 -> uval b <> 0 ->
  let bs := signFlag a && signFlag b in
  let na := bs && (2 ^ (bitWidth a - 1) <=? uval a) in
  let nb := bs && (2 ^ (bitWidth a - 1) <=? uval b) in
  let sa := if na then uval a - 2 ^ bitWidth a else uval a in
  let sb := if nb then uval b - 2 ^ bitWidth a else uval b in
  div_sv junk same a b
  = Ok (of_value (bitWidth a) (na || nb) (Z.quot sa sb mod 2 ^ bitWidth a)) /\
  rem_sv junk same a b
  = Ok (of_value (bitWidth a) (na || nb) (Z.rem sa sb mod 2 ^ bitWidth a)).
Proof.
  intros same a b Ha Hb Hw Hs Hnz.
  destruct (known_value_eq a Ha) as [Ea Hva]. destruct (known_value_eq b Hb) as [Eb Hvb].
  pose proof (known_width a Ha) as Hwa. rewrite <- Hw in Eb, Hvb.
  pose proof (division_inline same (bitWidth a) (signFlag a) (signFlag b) (uval a) (uval b)
                ltac:(lia) ltac:(lia) ltac:(lia)) as H.
  cbv zeta in H. rewrite <- Ea, <- Eb in H. exact H.
Qed.

End Division.

Lemma X24_division_inline_witness :
  div_sv heap0 false v_16sdm1000 v_16sd1000
  = Ok (of_value 16 true (Z.quot (64536 - 2 ^ 16) 1000 mod 2 ^ 16)) /\
  rem_sv heap0 false v_16sdm1000 v_16sd1000
  = Ok (of_value 16 true (Z.rem (64536 - 2 ^ 16) 1000 mod 2 ^ 16)).
Proof.
  apply (X24_division_inline heap0 false v_16sdm1000 v_16sd1000
           known_v_16sdm1000 known_v_16sd1000).
  - reflexivity.
  - cbn. lia.
  - vm_compute. discriminate.
Defined.

(** ** Reading literals *)

(** Once the overflow flag of the size scan is set it stays set. *)
Lemma scan_size_sticky : forall ms ps rest, Forall (fun d => 0 <= d < 10) ms ->
  exists ps', scan_size (map Digits ms ++ "'"%char :: rest) false true ps
              = (false, true, ps', Some rest).
Proof.
  intros ms. induction ms as [|d t IH]; intros ps rest H.
  - exists ps. reflexivity.
  - inversion H as [|? ? Hd Ht]; subst. cbn [map app scan_size].
    destruct (digit_char_facts d ltac:(lia)) as [_ [E1 [_ [_ [_ [_ [_ E2]]]]]]].
    destruct (E2 ltac:(lia)) as [E3 E4]. rewrite E1, E3. cbn [orb]. apply IH. exact Ht.
Qed.

(** A size above [MAX_BITS] sets the overflow flag, however long it is. *)
Lemma scan_size_overflow : forall ms ps so rest, Forall (fun d => 0 <= d < 10) ms ->
  0 <= ps <= MAX_BITS -> MAX_BITS < horner 10 ms ps ->
  exists ps', scan_size (map Digits ms ++ "'"%char :: rest) false so ps
              = (false, true, ps', Some rest).
Proof.
  intros ms. induction ms as [|d t IH]; intros ps so rest H Hps Hgt.
  - cbn [horner] in Hgt. lia.
  - inversion H as [|? ? Hd Ht]; subst. cbn [map app scan_size].
    destruct (digit_char_facts d ltac:(lia)) as [_ [E1 [_ [_ [_ [_ [_ E2]]]]]]].
    destruct (E2 ltac:(lia)) as [E3 E4]. rewrite E1, E3, E4.
    unfold MAX_BITS in *.
    rewrite (u32_small (ps * 10)) by lia. rewrite u32_small by lia.
    destruct (Z.ltb_spec 16777215 (ps * 10 + d)) as [Hov|Hok].
    + rewrite orb_true_r. apply scan_size_sticky. exact Ht.
    + rewrite orb_false_r. apply IH; try assumption; try lia.
Qed.

Lemma digits_head : forall ms tl, Forall (fun d => 0 <= d < 10) ms ->
  exists c0 cs, map Digits ms ++ "'"%char :: tl = c0 :: cs /\
    (c0 =? "-")%char = false /\ (c0 =? "+")%char = false.
Proof.
  intros ms tl H. destruct ms as [|d t].
  - cbn [map app]. eexists. eexists. split; [reflexivity|]. split; reflexivity.
  - inversion H as [|? ? Hd _]; subst.
    destruct (digit_char_facts d ltac:(lia)) as [_ [_ [E1 [E2 _]]]].
    cbn [map app]. eexists. eexists. split; [reflexivity|]. split; assumption.
Qed.

Lemma sized_prefix_head : forall bits sg base cs, 0 < bits <= MAX_BITS ->
  exists c0 tl, sized_prefix bits sg base ++ cs = c0 :: tl /\
    (c0 =? "-")%char = false /\ (c0 =? "+")%char = false.
Proof.
  intros bits sg base cs Hb. unfold sized_prefix.
  destruct (to_string_scan bits false [] Hb) as [_ [c0 [tl [E [E1 E2]]]]].
  rewrite E. cbn [app]. eexists. eexists. split; [reflexivity|]. split; assumption.
Qed.

Section Literals.
Variable junk : Z -> Z.

(** After a well-formed sized prefix, [fromString] hands the digits to
    [fromDigits]. *)
Lemma fromChars_sized : forall bits sg base cs, 0 < bits <= MAX_BITS -> cs <> [] ->
  fromChars junk (sized_prefix bits sg base ++ cs)
  = fromDigits junk bits base sg (fst (scan_digits cs false []))
      (snd (scan_digits cs false [])).
Proof.
  intros bits sg base cs Hb Hne.
  destruct (sized_prefix_head bits sg base cs Hb) as [c0 [tl [Ehead [E1 E2]]]].
  unfold fromChars. rewrite Ehead. rewrite E1, E2. cbn [orb]. cbv zeta iota.
  unfold fromChars_body. rewrite <- Ehead. rewrite Ehead. rewrite <- Ehead.
  unfold sized_prefix. rewrite <- !app_assoc. cbn [app].
  destruct (to_string_scan bits false
              ((if sg then ["s"%char] else []) ++ base_char base :: cs) Hb) as [Escan _].
  rewrite Escan. cbn [orb]. destruct (Z.eqb_spec bits 0); [lia|].
  destruct (base_char_parse base) as [Ebase Enots].
  destruct (scan_digits cs false []) as [u ds] eqn:Esd. cbn [fst snd].
  destruct sg; cbn [app].
  - change (("s" =? "s")%char || ("s" =? "S")%char) with true. cbv iota zeta.
    rewrite Ebase. rewrite match_nonempty by exact Hne.
    cbn [bind]. rewrite Esd.
    destruct (fromDigits junk bits base true u ds); reflexivity.
  - cbv zeta. rewrite Enots. rewrite Ebase. rewrite match_nonempty by exact Hne.
    cbn [bind]. rewrite Esd.
    destruct (fromDigits junk bits base false u ds); reflexivity.
Qed.

(** X25.  A literal in the spelling [toString] uses, with any digits below
    the radix and an optional leading minus, is read as the number its
    digits stand for, reduced modulo 2^width (an overlong literal loses its
    high digits) and negated in two's complement after a minus; a signed
    32-bit decimal literal needs no prefix. *)
Theorem X25_literal_value : forall bits sg base ms (n : bool),
  0 < bits <= MAX_BITS -> ms <> [] ->
  Forall (fun d => 0 <= d < radix_of base) ms ->
  fromString junk
    (string_of_list_ascii
       ((if n then ["-"%char] else []) ++ literal_prefix bits sg base ++ map Digits ms))
  = Ok (of_value bits sg
          ((if n then - horner (radix_of base) ms 0 else horner (radix_of base) ms 0)
           mod 2 ^ bits)).
Proof.
  intros bits sg base ms n Hb Hne Hms. unfold fromString.
  rewrite list_ascii_of_string_of_list_ascii.
  rewrite fromChars_literal by assumption.
  rewrite fromDigits_value by assumption. cbn [bind].
  assert (0 < 2 ^ bits) by (apply Z.pow_pos_nonneg; lia).
  destruct n; [|reflexivity].
  rewrite neg_value by (try assumption; apply Z.mod_pos_bound; lia).
  do 2 f_equal.
  replace (- (horner (radix_of base) ms 0 mod 2 ^ bits))
    with (0 - horner (radix_of base) ms 0 mod 2 ^ bits) by lia.
  rewrite Zminus_mod_idemp_r. f_equal.
Qed.

(** X26.  A literal whose size is zero or larger than [MAX_BITS] is rejected
    with [std::invalid_argument], whatever follows the apostrophe and
    however many digits the size has. *)
Theorem X26_literal_size_rejected : forall ms rest,
  Forall (fun d => 0 <= d < 10) ms ->
  horner 10 ms 0 = 0 \/ MAX_BITS < horner 10 ms 0 ->
  fromString junk (string_of_list_ascii (map Digits ms ++ "'"%char :: rest)) = Invalid.
Proof.
  intros ms rest Hms Hsize. unfold fromString.
  rewrite list_ascii_of_string_of_list_ascii.
  destruct (digits_head ms rest Hms) as [c0 [cs [Ehead [E1 E2]]]].
  unfold fromChars. rewrite Ehead. rewrite E1, E2. cbn [orb]. cbv zeta iota.
  unfold fromChars_body. rewrite <- Ehead. rewrite Ehead. rewrite <- Ehead.
  destruct Hsize as [Hz|Hov].
  - rewrite scan_size_number by (try assumption; unfold MAX_BITS; lia).
    rewrite Hz. rewrite orb_true_r. reflexivity.
  - destruct (scan_size_overflow ms 0 false rest Hms ltac:(unfold MAX_BITS; lia) Hov)
      as [ps' E].
    rewrite E. reflexivity.
Qed.

End Literals.

Lemma X25_literal_value_witness :
  fromString heap0
    (string_of_list_ascii
       ((if true then ["-"%char] else []) ++ literal_prefix 4 false Hex ++ map Digits [1; 15]))
  = Ok (of_value 4 false
          ((if true then - horner (radix_of Hex) [1; 15] 0 else horner (radix_of Hex) [1; 15] 0)
           mod 2 ^ 4)).
Proof.
  apply (X25_literal_value heap0 4 false Hex [1; 15] true).
  - unfold MAX_BITS. lia.
  - discriminate.
  - repeat constructor; cbn; lia.
Defined.

Lemma X26_literal_size_rejected_witness :
  fromString heap0 (string_of_list_ascii (map Digits [1; 6; 7; 7; 7; 2; 1; 6] ++ "'"%char :: ["d"%char; "1"%char]))
  = Invalid.
Proof.
  apply (X26_literal_size_rejected heap0 [1; 6; 7; 7; 7; 2; 1; 6]).
  - repeat constructor; lia.
  - right. vm_compute. reflexivity.
Defined.

(** ** Literals that are rejected, and unknown decimal literals *)

Lemma scan_digits_app : forall ds rest u acc, Forall (fun d => 0 <= d < 16) ds ->
  scan_digits (map Digits ds ++ rest) u acc = scan_digits rest u (acc ++ map mkLogic ds).
Proof.
  intros ds. induction ds as [|d t IH]; intros rest u acc H.
  - cbn [map app]. rewrite app_nil_r. reflexivity.
  - inversion H as [|? ? Hd Ht]; subst. cbn [map app scan_digits].
    destruct (digit_char_facts d Hd) as [E1 [_ [_ [_ [E2 [E3 [E4 _]]]]]]].
    rewrite E1, E2, E3, E4. rewrite IH by exact Ht. rewrite <- app_assoc. reflexivity.
Qed.

(** The fast path stops at the first digit that is not below the radix. *)
Lemma fromDigits_fast_invalid : forall base ms1 d rest w,
  Forall (fun d => 0 <= d < radix_of base) ms1 -> radix_of base <= d ->
  fromDigits_fast (radix_of base) (shift_of base) (map mkLogic (ms1 ++ d :: rest)) w
  = Invalid.
Proof.
  intros base ms1. induction ms1 as [|m t IH]; intros d rest w H Hd.
  - cbn [app map fromDigits_fast value]. destruct (Z.leb_spec (radix_of base) d); [|lia].
    reflexivity.
  - inversion H as [|? ? Hm Ht]; subst. cbn [app map fromDigits_fast value].
    destruct (Z.leb_spec (radix_of base) m); [lia|]. apply IH; assumption.
Qed.

Lemma fromDigits_pow2_invalid : forall bits base ms1 d rest H,
  64 < bits <= MAX_BITS -> base <> Decimal ->
  Forall (fun d => 0 <= d < radix_of base) ms1 ->
  radix_of base <= d -> d <> 64 /\ d <> 128 ->
  fromDigits_pow2 bits (radix_of base) (shift_of base) (getNumWords2 bits false) false
    (map mkLogic (ms1 ++ d :: rest)) (Z_to_words (Z.to_nat (getNumWords2 bits false)) H)
  = Invalid.
Proof.
  intros bits base ms1. induction ms1 as [|m t IH]; intros d rest H Hb Hbase Hms Hd Hmark.
  - cbn [app map fromDigits_pow2]. unfold pow2_digit.
    unfold exactlyEqualL, logic_x, logic_z, X_VALUE, Z_VALUE. cbn [value].
    destruct (Z.eqb_spec d 128); [lia|]. destruct (Z.eqb_spec d 64); [lia|].
    destruct (Z.leb_spec (radix_of base) d); [|lia]. reflexivity.
  - inversion Hms as [|? ? Hm Ht]; subst. cbn [app map fromDigits_pow2].
    rewrite pow2_digit_known by assumption. cbn [bind]. apply IH; assumption.
Qed.

Section Rejected.
Variable junk : Z -> Z.

Lemma fromDigits_dec_invalid : forall bits sg size ms1 d rest R dprev,
  64 < bits <= MAX_BITS -> Forall (fun d => 0 <= d < 10) ms1 -> 10 <= d ->
  0 <= R < 2 ^ bits -> 0 <= dprev < 2 ^ 64 ->
  fromDigits_dec junk bits sg false size (map mkLogic (ms1 ++ d :: rest))
    (of_value bits sg R) (of_value bits false dprev) (of_value bits false 10)
  = Invalid.
Proof.
  intros bits sg size ms1. induction ms1 as [|m t IH]; intros d rest R dprev Hb Hms Hd HR Hdp.
  - cbn [app map fromDigits_dec value]. destruct (Z.leb_spec 10 d); [|lia]. reflexivity.
  - inversion Hms as [|? ? Hm Ht]; subst. cbn [app map fromDigits_dec value].
    destruct (Z.leb_spec 10 m); [lia|].
    pose proof (numWords_pos bits ltac:(lia)) as Hpos.
    assert (Hp : 2 ^ 64 < 2 ^ bits) by (apply Z.pow_lt_mono_r; lia).
    rewrite mul_value by lia. cbn [bind].
    rewrite get_pVal_of_value by lia. cbn [bind].
    rewrite wr_ok by (rewrite length_Z_to_words; lia). cbn [bind].
    change (Z.to_nat 0) with 0%nat. rewrite upd_low_word by lia.
    rewrite set_pVal_of_value by lia.
    pose proof (Z.mod_pos_bound (R * 10) (2 ^ bits) ltac:(lia)) as Hmod.
    rewrite add_value by lia. cbn [bind].
    apply IH; try assumption; try lia. apply Z.mod_pos_bound. lia.
Qed.

Lemma fromDigits_invalid : forall bits base sg ms1 d rest, 0 < bits <= MAX_BITS ->
  Forall (fun d => 0 <= d < radix_of base) ms1 -> radix_of base <= d ->
  bits <= 64 \/ base = Decimal \/ (d <> 64 /\ d <> 128) ->
  fromDigits junk bits base sg false (map mkLogic (ms1 ++ d :: rest)) = Invalid.
Proof.
  intros bits base sg ms1 d rest Hb Hms Hd Hmark. unfold fromDigits.
  destruct (map mkLogic (ms1 ++ d :: rest)) as [|l0 ls] eqn:El.
  { destruct ms1; discriminate. }
  rewrite <- El. clear El l0 ls. cbv zeta. cbn [negb]. rewrite andb_true_r.
  unfold BITS_PER_WORD.
  destruct (Z.leb_spec bits 64) as [Hs|Hl].
  - rewrite fromDigits_fast_invalid by (try assumption; lia). reflexivity.
  - pose proof (numWords_pos bits ltac:(lia)) as Hpos.
    unfold allocZeroed. destruct (Z.ltb_spec 64 bits); [|lia]. cbn [orb bind].
    rewrite new_zeroed_words.
    assert (E0 : mkSVInt bits sg false
                   (Heap (Z_to_words (Z.to_nat (getNumWords2 bits false)) 0))
                 = of_value bits sg 0).
    { unfold of_value. destruct (Z.leb_spec bits 64); [lia|reflexivity]. }
    assert (Hp : 2 ^ 64 < 2 ^ bits) by (apply Z.pow_lt_mono_r; lia).
    destruct (Z.eqb_spec (radix_of base) 10) as [E10|E10].
    + rewrite ctor_zero by exact Hb. cbn [bind].
      rewrite ctor_heap by (auto; lia). cbn [bind]. change (u64 10) with 10.
      rewrite E0. rewrite E10 in *.
      apply fromDigits_dec_invalid; try assumption; lia.
    + assert (Hbase : base <> Decimal) by (intro; subst base; apply E10; reflexivity).
      destruct Hmark as [Hle|[Hdec|Hmark]]; [lia|congruence|].
      cbn [get_pVal store bind].
      rewrite fromDigits_pow2_invalid by (try assumption; lia). reflexivity.
Qed.

(** The digit loop of [fromString] on characters that are underscores or
    digits. *)
Lemma scan_digits_known : forall cs rest u acc,
  Forall (fun c => (c =? "_")%char || negb (unknown_digit_char c) = true) cs ->
  scan_digits (cs ++ rest) u acc = scan_digits rest u (acc ++ map mkLogic (char_digits cs)).
Proof.
  intros cs. induction cs as [|c t IH]; intros rest u acc H.
  - cbn [app char_digits filter map]. rewrite app_nil_r. reflexivity.
  - inversion H as [|? ? Hc Ht]; subst. cbn [app scan_digits].
    unfold char_digits. cbn [filter].
    destruct (c =? "_")%char eqn:Eu; cbn [negb].
    + apply IH. exact Ht.
    + cbn [orb] in Hc. apply negb_true_iff in Hc. unfold unknown_digit_char in Hc.
      repeat (apply orb_false_iff in Hc; destruct Hc as [Hc ?]).
      repeat match goal with E : (_ =? _)%char = false |- _ => rewrite E; clear E end.
      cbn [orb map]. rewrite IH by exact Ht. rewrite <- app_assoc. reflexivity.
Qed.

Lemma char_digits_below : forall base cs,
  Forall (fun c => below_radix_char base c = true) cs ->
  Forall (fun c => (c =? "_")%char || negb (unknown_digit_char c) = true) cs /\
  Forall (fun d => 0 <= d < radix_of base) (char_digits cs).
Proof.
  intros base cs. induction cs as [|c t IH]; intro H.
  - split; constructor.
  - inversion H as [|? ? Hc Ht]; subst. destruct (IH Ht) as [H1 H2].
    unfold below_radix_char in Hc. split.
    + constructor; [|exact H1].
      destruct (c =? "_")%char; [reflexivity|]. cbn [orb] in *.
      apply andb_true_iff in Hc. apply Hc.
    + unfold char_digits. cbn [filter].
      destruct (c =? "_")%char; cbn [negb]; [exact H2|]. cbn [orb map] in *.
      apply andb_true_iff in Hc. destruct Hc as [_ Hc]. apply Z.ltb_lt in Hc.
      constructor; [|exact H2]. split; [|exact Hc].
      unfold getHexDigitValue, u8.
      destruct (code c <=? 57); [|destruct (code c <=? 70)];
        apply Z.mod_pos_bound; lia.
Qed.

(** X27.  A sized literal is rejected with [std::invalid_argument] at the
    first character whose hexadecimal digit value is not below the radix,
    at every width and whatever the characters are: before it digits below
    the radix and underscores, after it anything but [x], [z] and [?].  In
    the shifting loop, for widths above 64 bits, the digit value must not be
    one of the codes 64 and 128 that stand for Z and X, which that loop
    tests before the radix. *)
Theorem X27_digit_too_large : forall bits sg base cs1 c cs2, 0 < bits <= MAX_BITS ->
  Forall (fun ch => below_radix_char base ch = true) cs1 ->
  (c =? "_")%char = false -> unknown_digit_char c = false ->
  radix_of base <= getHexDigitValue c ->
  bits <= 64 \/ base = Decimal \/ (getHexDigitValue c <> 64 /\ getHexDigitValue c <> 128) ->
  Forall (fun ch => unknown_digit_char ch = false) cs2 ->
  fromString junk
    (string_of_list_ascii (sized_prefix bits sg base ++ cs1 ++ c :: cs2))
  = Invalid.
Proof.
  intros bits sg base cs1 c cs2 Hb H1 Hu Hk Hd Hmark H2. unfold fromString.
  rewrite list_ascii_of_string_of_list_ascii.
  rewrite fromChars_sized by (try assumption; destruct cs1; discriminate).
  destruct (char_digits_below base cs1 H1) as [Hs1 Hv1].
  assert (Hs2 : Forall (fun ch => (ch =? "_")%char || negb (unknown_digit_char ch) = true)
                  (c :: cs2)).
  { constructor.
    - rewrite Hu, Hk. reflexivity.
    - eapply Forall_impl; [|exact H2]. cbn beta. intros ch Hch. rewrite Hch.
      apply orb_true_r. }
  rewrite scan_digits_known by exact Hs1.
  rewrite <- (app_nil_r (c :: cs2)). rewrite scan_digits_known by exact Hs2.
  cbn [scan_digits fst snd app]. unfold char_digits at 2. cbn [filter].
  rewrite Hu. cbn [negb map]. fold (char_digits cs2).
  change (mkLogic (getHexDigitValue c) :: map mkLogic (char_digits cs2))
    with (map mkLogic (getHexDigitValue c :: char_digits cs2)).
  rewrite <- map_app.
  apply fromDigits_invalid; assumption.
Qed.

(** X28.  A decimal literal is unknown as a whole or not at all: the single
    digit [x] gives the value that is all X at the stated width, the single
    digit [z] the value [createFillZ] builds, and an unknown digit after
    other digits is rejected with [std::invalid_argument]. *)
Theorem X28_decimal_unknown_literal : forall bits sg, 0 < bits <= MAX_BITS ->
  fromString junk (string_of_list_ascii (sized_prefix bits sg Decimal ++ ["x"%char]))
  = Ok (allX bits sg) /\
  fromString junk (string_of_list_ascii (sized_prefix bits sg Decimal ++ ["z"%char]))
  = createFillZ junk bits sg /\
  forall ms, ms <> [] -> Forall (fun d => 0 <= d < 16) ms ->
    fromString junk
      (string_of_list_ascii (sized_prefix bits sg Decimal ++ map Digits ms ++ ["x"%char]))
    = Invalid.
Proof.
  intros bits sg Hb. unfold fromString.
  assert (Hdec : forall ds, ds <> [] ->
            fromDigits junk bits Decimal sg true ds
            = match ds with
              | [d] => if exactlyEqualL d logic_z then createFillZ junk bits sg
                       else createFillX junk bits sg
              | _ => Invalid
              end).
  { intros ds Hne. unfold fromDigits. destruct ds as [|d0 ds']; [congruence|].
    cbv zeta. cbn [negb]. rewrite andb_false_r.
    unfold allocZeroed. rewrite orb_true_r. cbn [bind radix_of Z.eqb].
    destruct (SVInt_ctor_spec bits 0 false Hb) as [z [Ez _]].
    destruct (SVInt_ctor_spec bits 10 false Hb) as [t [Et _]].
    rewrite Ez, Et. cbn [bind fromDigits_dec].
    destruct ds' as [|d1 ds''].
    - cbn [length]. change (Z.of_nat 1 =? 1) with true. reflexivity.
    - cbn [length]. destruct (Z.eqb_spec (Z.of_nat (S (S (length ds'')))) 1); [lia|].
      reflexivity. }
  repeat split.
  - rewrite list_ascii_of_string_of_list_ascii.
    rewrite fromChars_sized by (try assumption; discriminate).
    cbn [scan_digits fst snd app]. change (("x" =? "_")%char) with false.
    change (("x" =? "X")%char || ("x" =? "x")%char) with true. cbv iota.
    cbn [scan_digits fst snd app]. rewrite Hdec by discriminate.
    change (exactlyEqualL logic_x logic_z) with false. cbv iota.
    apply createFillX_spec. exact Hb.
  - rewrite list_ascii_of_string_of_list_ascii.
    rewrite fromChars_sized by (try assumption; discriminate).
    cbn [scan_digits fst snd app]. change (("z" =? "_")%char) with false.
    change (("z" =? "X")%char || ("z" =? "x")%char) with false.
    change (("z" =? "Z")%char || ("z" =? "z")%char || ("z" =? "?")%char) with true.
    cbv iota. cbn [scan_digits fst snd app]. rewrite Hdec by discriminate.
    change (exactlyEqualL logic_z logic_z) with true. reflexivity.
  - intros ms Hne Hms. rewrite list_ascii_of_string_of_list_ascii.
    rewrite fromChars_sized by (try assumption; destruct ms; discriminate).
    rewrite scan_digits_app by exact Hms.
    cbn [scan_digits fst snd app]. change (("x" =? "_")%char) with false.
    change (("x" =? "X")%char || ("x" =? "x")%char) with true. cbv iota.
    cbn [scan_digits fst snd app].
    rewrite Hdec by (destruct ms; discriminate).
    destruct ms as [|m0 ms']; [congruence|]. cbn [map app].
    destruct ms'; reflexivity.
Qed.

End Rejected.

Lemma X27_digit_too_large_witness :
  fromString heap0
    (string_of_list_ascii
       (sized_prefix 100 false Hex
        ++ ["1"%char; "_"%char; "F"%char] ++ "g"%char :: ["0"%char; "Q"%char]))
  = Invalid.
Proof.
  apply (X27_digit_too_large heap0 100 false Hex
           ["1"%char; "_"%char; "F"%char] "g"%char ["0"%char; "Q"%char]).
  - unfold MAX_BITS. lia.
  - repeat constructor.
  - reflexivity.
  - reflexivity.
  - vm_compute. discriminate.
  - right. right. split; vm_compute; discriminate.
  - repeat constructor.
Defined.

Lemma X28_decimal_unknown_literal_witness :
  fromString heap0 (string_of_list_ascii (sized_prefix 8 false Decimal ++ ["x"%char]))
  = Ok (allX 8 false) /\
  fromString heap0 (string_of_list_ascii (sized_prefix 8 false Decimal ++ ["z"%char]))
  = createFillZ heap0 8 false /\
  forall ms, ms <> [] -> Forall (fun d => 0 <= d < 16) ms ->
    fromString heap0
      (string_of_list_ascii (sized_prefix 8 false Decimal ++ map Digits ms ++ ["x"%char]))
    = Invalid.
Proof. apply (X28_decimal_unknown_literal heap0 8 false). unfold MAX_BITS. lia. Defined.

(** ** The special cases of [pow] *)

(** The active bits tell zero and one apart from everything else. *)
Lemma active_bits_small : forall bits sg v, 0 < bits <= MAX_BITS -> 0 <= v < 2 ^ bits ->
  exists a, getActiveBits (of_value bits sg v) = Ok a /\
    (a =? 0) = (v =? 0) /\ (a =? 1) = (v =? 1).
Proof.
  intros bits sg v Hb Hv.
  destruct (getActiveBits_value bits sg v Hb Hv) as [a [E [Ha [Hlt [Hge Hz]]]]].
  exists a. split; [exact E|]. split.
  - destruct (Z.eqb_spec v 0) as [E0|N0].
    + rewrite (Hz E0). reflexivity.
    + apply Z.eqb_neq. intro Ea. subst a. cbn in Hlt. lia.
  - destruct (Z.eqb_spec v 1) as [E1|N1].
    + subst v. specialize (Hge ltac:(lia)). apply Z.eqb_eq.
      assert (a - 1 < 1) by (apply (Z.pow_lt_mono_r_iff 2); lia).
      assert (0 < a) by (apply (Z.pow_lt_mono_r_iff 2); lia). lia.
    + apply Z.eqb_neq. intro Ea. subst a. change (2 ^ 1) with 2 in Hlt.
      assert (v = 0) by lia. specialize (Hz H). lia.
Qed.

Lemma ctor_small : forall bits sg v, 0 < bits <= MAX_BITS -> 0 <= v <= 1 ->
  SVInt_ctor bits v sg = Ok (of_value bits sg v).
Proof.
  intros bits sg v Hb Hv. destruct (Z.le_gt_cases bits 64).
  - rewrite ctor_inline by lia. rewrite u64_small by lia.
    assert (2 ^ 1 <= 2 ^ bits) by (apply Z.pow_le_mono_r; lia).
    change (2 ^ 1) with 2 in *. rewrite Z.mod_small by lia. reflexivity.
  - rewrite ctor_heap; [|unfold MAX_BITS in *; lia|right; rewrite u64_small; lia].
    rewrite u64_small by lia. reflexivity.
Qed.

Section Power.
Variable junk : Z -> Z.

(** X29.  The special cases of [pow] on operands without unknown bits, whose
    widths may differ: anything to the power zero is 1, one to any power is
    1, zero to a positive power is 0, and zero to a negative power is all X;
    the result has the width of the left operand and is signed when both
    operands are. *)
Theorem X29_pow_special_cases : forall a b, known_value a -> known_value b ->
  let bs := signFlag a && signFlag b in
  (uval b = 0 \/ uval a = 1 -> pow junk a b = Ok (of_value (bitWidth a) bs 1)) /\
  (uval a = 0 -> uval b <> 0 ->
   pow junk a b
   = if signFlag b && (2 ^ (bitWidth b - 1) <=? uval b)
     then Ok (allX (bitWidth a) bs) else Ok (of_value (bitWidth a) bs 0)).
Proof.
  intros a b Ha Hb bs.
  destruct (known_value_eq a Ha) as [Ea Hva]. destruct (known_value_eq b Hb) as [Eb Hvb].
  pose proof (known_width a Ha) as Hwa. pose proof (known_width b Hb) as Hwb.
  destruct (active_bits_small (bitWidth a) (signFlag a) (uval a) Hwa Hva)
    as [la [Ela [Hla0 Hla1]]].
  destruct (active_bits_small (bitWidth b) (signFlag b) (uval b) Hwb Hvb)
    as [lb [Elb [Hlb0 Hlb1]]].
  rewrite <- Ea in Ela. rewrite <- Eb in Elb.
  assert (Ua : unknownFlag a = false) by (destruct Ha as [_ [U _]]; exact U).
  assert (Ub : unknownFlag b = false) by (destruct Hb as [_ [U _]]; exact U).
  split.
  - intros Hcase. unfold pow. rewrite Ua, Ub. cbn [orb]. rewrite Ela, Elb. cbn [bind].
    fold bs. rewrite Hla0, Hlb0, Hla1.
    destruct Hcase as [Hb0|Ha1].
    + rewrite Hb0. cbn [Z.eqb orb].
      destruct (uval a =? 0); apply ctor_small; try assumption; lia.
    + rewrite Ha1. cbn [Z.eqb]. rewrite orb_true_r. apply ctor_small; try assumption; lia.
  - intros Ha0 Hb0. unfold pow. rewrite Ua, Ub. cbn [orb]. rewrite Ela, Elb. cbn [bind].
    fold bs. rewrite Hla0, Hlb0, Ha0. cbn [Z.eqb].
    destruct (Z.eqb_spec (uval b) 0); [lia|].
    destruct (signFlag b); cbn [andb].
    + rewrite Eb at 1. rewrite isNegative_value by assumption. cbn [bind].
      destruct (2 ^ (bitWidth b - 1) <=? uval b).
      * apply createFillX_spec. exact Hwa.
      * apply ctor_small; try assumption; lia.
    + cbn [bind]. apply ctor_small; try assumption; lia.
Qed.

End Power.

Lemma known_v_16sd0 : known_value v_16sd0.
Proof.
  unfold known_value, v_16sd0, MAX_BITS. cbn [bitWidth unknownFlag store].
  repeat split; try reflexivity; lia.
Qed.

Lemma X29_pow_special_cases_witness :
  let bs := signFlag v_16sd0 && signFlag v_16sdm1000 in
  (uval v_16sdm1000 = 0 \/ uval v_16sd0 = 1 ->
   pow heap0 v_16sd0 v_16sdm1000 = Ok (of_value (bitWidth v_16sd0) bs 1)) /\
  (uval v_16sd0 = 0 -> uval v_16sdm1000 <> 0 ->
   pow heap0 v_16sd0 v_16sdm1000
   = if signFlag v_16sdm1000 && (2 ^ (bitWidth v_16sdm1000 - 1) <=? uval v_16sdm1000)
     then Ok (allX (bitWidth v_16sd0) bs) else Ok (of_value (bitWidth v_16sd0) bs 0)).
Proof.
  apply (X29_pow_special_cases heap0 v_16sd0 v_16sdm1000 known_v_16sd0 known_v_16sdm1000).
Defined.

(** ** Wildcard equality *)

(** Two words agree outside a mask exactly when they agree bit by bit
    wherever the mask is clear. *)
Lemma masked_words_eq : forall a b u, 0 <= a < 2 ^ 64 -> 0 <= b < 2 ^ 64 -> 0 <= u < 2 ^ 64 ->
  (Z.land a (not64 u) = Z.land b (not64 u) <->
   forall j, 0 <= j < 64 -> Z.testbit u j = true \/ Z.testbit a j = Z.testbit b j).
Proof.
  intros a b u Ha Hb Hu. split.
  - intros E j Hj. apply (f_equal (fun z => Z.testbit z j)) in E.
    rewrite !Z.land_spec, not64_bit in E by assumption.
    destruct (Z.testbit u j); [left; reflexivity|right].
    cbn [negb] in E. rewrite !andb_true_r in E. exact E.
  - intros H. apply Z.bits_inj'. intros j Hj. rewrite !Z.land_spec.
    destruct (Z.ltb_spec j 64).
    + rewrite not64_bit by (try assumption; lia).
      destruct (H j ltac:(lia)) as [E|E]; rewrite E; [|reflexivity].
      cbn [negb]. rewrite !andb_false_r. reflexivity.
    + rewrite (testbit_above (not64 u) 64 j) by (try apply not64_range; try assumption; lia).
      rewrite !andb_false_r. reflexivity.
Qed.

Section Wildcard.
Variable junk : Z -> Z.

(** X30.  [wildcardEqual] of a value without unknown bits against a value
    with unknown bits of the same width answers 1 exactly when the two agree
    on every bit that is not X or Z on the right: the unknown positions of
    the right operand match anything. *)
Theorem X30_wildcardEqual_matches : forall a sg q, known_value a ->
  Z.of_nat (length q) = 2 * getNumWords2 (bitWidth a) false -> words_in_range q ->
  (forall i, bitWidth a <= i < 64 * getNumWords2 (bitWidth a) false ->
     plane_bit q 0 i = false) ->
  exists r, wildcardEqual junk a (mkSVInt (bitWidth a) sg true (Heap q))
            = Ok (logic_of_bool r) /\
    (r = true <->
     forall i, 0 <= i < bitWidth a ->
       plane_bit q (getNumWords2 (bitWidth a) false) i = true \/
       Z.testbit (uval a) i = plane_bit q 0 i).
Proof.
  intros a sg q Ha Hl Hq Hclean.
  destruct (known_value_eq a Ha) as [Ea Hv]. pose proof (known_width a Ha) as Hb.
  assert (Ua : unknownFlag a = false) by (destruct Ha as [_ [U _]]; exact U).
  pose proof (numWords_pos (bitWidth a) ltac:(lia)) as Hpos.
  pose proof (numWords_bounds (bitWidth a) ltac:(lia)) as Hnb.
  clear Ha. destruct a as [ab asg au ast].
  cbn [bitWidth signFlag unknownFlag] in *. subst au.
  unfold wildcardEqual. cbn [wildcardEqual_rec].
  cbn [unknownFlag negb andb bitWidth]. rewrite Z.eqb_refl. cbn [negb].
  unfold getNumWords. cbn [bitWidth unknownFlag].
  set (a := mkSVInt ab asg false ast) in *.
  set (bits := ab) in *. set (w := getNumWords2 bits false) in *.
  set (p := Z_to_words (Z.to_nat w) (uval a)).
  assert (Hraw : getRawData a = Ok p).
  { rewrite Ea. apply raw_words; assumption. }
  assert (Hp : words_in_range p) by apply words_in_range_Z_to_words.
  assert (Hlp : Z.of_nat (length p) = w) by (unfold p; rewrite length_Z_to_words; lia).
  destruct (for_range_inv bool
    (fun j acc => acc = true <->
       forall k, 0 <= Z.of_nat k < j ->
         Z.land (nth k p 0) (not64 (nth (Z.to_nat (Z.of_nat k + w)) q 0))
         = Z.land (nth k q 0) (not64 (nth (Z.to_nat (Z.of_nat k + w)) q 0)))
    (fun i (acc : bool) =>
       if acc then
         q0 <- get_pVal (mkSVInt bits sg true (Heap q)) ;;
         u <- rd q0 (i + w) ;;
         l <- getRawData a ;;
         x <- rd l i ;; y <- rd q0 i ;;
         Ok (Z.land x (not64 u) =? Z.land y (not64 u))
       else Ok false) 0 w true ltac:(lia)) as [r [E Hr]].
  - split; [intros _ k Hk; lia|reflexivity].
  - intros j acc Hj Hacc. destruct acc.
    + cbn [get_pVal store bind]. rewrite rd_ok by lia. cbn [bind]. rewrite Hraw.
      cbn [bind]. rewrite !rd_ok by lia. cbn [bind]. eexists. split; [reflexivity|].
      destruct Hacc as [Hall _]. specialize (Hall eq_refl). split.
      * intros Ee k Hk. apply Z.eqb_eq in Ee.
        destruct (Z.eq_dec (Z.of_nat k) j) as [Ekj|Nkj].
        -- subst j. rewrite Nat2Z.id in Ee. exact Ee.
        -- apply Hall. lia.
      * intros Hnext. apply Z.eqb_eq.
        specialize (Hnext (Z.to_nat j) ltac:(lia)).
        rewrite Z2Nat.id in Hnext by lia. exact Hnext.
    + eexists. split; [reflexivity|]. split; [discriminate|].
      intros Hnext. apply Hacc. intros k Hk. apply Hnext. lia.
  - exists r. split; [rewrite E; reflexivity|].
    rewrite Hr. split.
    + intros Hw i Hi.
      destruct (index_split i ltac:(lia)) as [Hq0 [Hm Hs]].
      assert (Hk : i / 64 < w) by (apply Z.div_lt_upper_bound; lia).
      specialize (Hw (Z.to_nat (i / 64)) ltac:(lia)).
      rewrite Z2Nat.id in Hw by lia.
      apply (proj1 (masked_words_eq _ _ _ (Hp _) (Hq _) (Hq _))) with (j := i mod 64) in Hw;
        [|exact Hm].
      unfold plane_bit. replace (w + i / 64) with (i / 64 + w) by lia.
      destruct Hw as [Hu|Hab]; [left; exact Hu|right].
      rewrite Z.add_0_l. rewrite <- Hab. unfold p.
      rewrite word_bit by lia. f_equal. lia.
    + intros Hbits k Hk.
      apply (proj2 (masked_words_eq _ _ _ (Hp _) (Hq _) (Hq _))). intros j Hj.
      set (i := 64 * Z.of_nat k + j).
      assert (Ediv : i / 64 = Z.of_nat k) by (symmetry; apply Z.div_unique with j; lia).
      assert (Emod : i mod 64 = j) by (symmetry; apply Z.mod_unique with (Z.of_nat k); lia).
      assert (Ebit : Z.testbit (nth k p 0) j = Z.testbit (uval a) i)
        by (unfold p; apply word_bit; lia).
      assert (Eq0 : plane_bit q 0 i = Z.testbit (nth k q 0) j).
      { unfold plane_bit. rewrite Ediv, Emod. rewrite Z.add_0_l, Nat2Z.id. reflexivity. }
      assert (Equ : plane_bit q w i = Z.testbit (nth (Z.to_nat (Z.of_nat k + w)) q 0) j).
      { unfold plane_bit. rewrite Ediv, Emod. f_equal. f_equal. lia. }
      destruct (Z.ltb_spec i bits) as [Hin|Hout].
      * destruct (Hbits i ltac:(lia)) as [Hu|Hab].
        -- left. rewrite <- Equ. exact Hu.
        -- right. rewrite Ebit, <- Eq0. exact Hab.
      * right. rewrite Ebit, <- Eq0. rewrite Hclean by lia.
        apply (testbit_above (uval a) bits); lia.
Qed.

End Wildcard.

Lemma X30_wildcardEqual_matches_witness :
  exists r, wildcardEqual heap0 v_8b1100 (mkSVInt (bitWidth v_8b1100) false true (Heap [8; 2]))
            = Ok (logic_of_bool r) /\
    (r = true <->
     forall i, 0 <= i < bitWidth v_8b1100 ->
       plane_bit [8; 2] (getNumWords2 (bitWidth v_8b1100) false) i = true \/
       Z.testbit (uval v_8b1100) i = plane_bit [8; 2] 0 i).
Proof.
  apply (X30_wildcardEqual_matches heap0 v_8b1100 false [8; 2] known_v_8b1100).
  - reflexivity.
  - intro k. destruct k as [|[|[|k]]]; cbn; lia.
  - intros i Hi. change (bitWidth v_8b1100) with 8 in Hi.
    change (getNumWords2 8 false) with 1 in Hi. unfold plane_bit.
    rewrite Z.div_small by lia. rewrite Z.mod_small by lia. cbn [Z.add Z.to_nat nth].
    apply (testbit_above 8 4 i); lia.
Defined.
